(* ===== verification/_CoqProject ===== *)
-Q . S2P
Prelude.v
Text.v
Json.v
Domain.v
LogTail.v
CrashContext.v
CrashRequest.v
Archive.v
ArchiveLimits.v
ArchiveFormat.v
Pdb.v
Artifacts.v
Symbolicate.v
Symcache.v
Validation.v
Processing.v
Contract.v
Grouping.v
Fingerprints.v
DataRules.v
Redaction.v
Identifiers.v
Store.v
Auth.v
Membership.v
Sessions.v
Jobs.v
Leases.v
Generations.v
Issues.v
Rollups.v
Publications.v
Resolution.v
Lifecycle.v
Checks.v
Usage.v
Retention.v
Ingest.v
Quotas.v
Accounting.v
Movements.v
Ledgers.v
Admissions.v
Uploads.v
Worlds.v
Scenario.v
Guarantees.v
Submissions.v
Expiry.v
Reconciliation.v
Stale.v
