(* ===== verification/Prelude.v ===== *)
(** * FaultLane, verified

    FaultLane receives the crash reports of Unreal Engine games, stores their uploads, reads and symbolicates
    them, groups repeated failures into issues, and meters what a project uses.  This library models the
    Rust implementation and proves what each part promises.  It is written for a reader of the repository:
    every definition is named after the function, type or statement it translates, and the comment before it
    says which one where the name does not.

    ** The program and the files

    A crash comes in as an archive ([crates/unreal]), is recorded with its upload
    ([apps/server/src/crash_ingest.rs], [usage.rs]), and is queued.  A worker ([worker.rs]) leases the job, runs
    the processor ([crates/processing], which parses with [crates/unreal] and symbolicates with [crates/symbols])
    and publishes the result: redacted ([data_rules.rs]), grouped ([crates/grouping]), and counted in the rollups
    of its issue.  Users resolve issues ([issues.rs]); owners run the organization ([auth.rs]); schedulers expire
    uploads.

    - Foundations.  This file: results, options, lists, machine integers, the automation.  [Text]: strings as code points with
      their UTF-8.  [Json]: values with ordered objects.  [Domain]: [crates/domain].  [Store]: the monad of database
      programs, with its Hoare triples.
    - Reading a crash.  [LogTail], [CrashContext] ([crates/unreal/src/lib.rs]); [CrashRequest] (its [request.rs]),
      against the format that [Archive] specifies: [ArchiveLimits], [ArchiveFormat].
    - Symbols.  [Pdb], [Artifacts] ([crates/symbols/src/lib.rs]); [Symbolicate] ([symbolicate.rs]); [Symcache]
      ([symcache.rs]).
    - Results.  [Validation], [Processing], [Contract] ([crates/processing]); [Grouping], [Fingerprints]
      ([crates/grouping]); [DataRules], [Redaction] ([data_rules.rs]).
    - People.  [Identifiers], [Auth], [Membership], [Sessions] ([auth.rs]).
    - Work.  [Jobs], [Leases], [Generations]: the queue of [worker.rs], the caches that it asks for, and the generations by which
      crashes are processed again; [Stale]: workers that come too late, after the deletions of [Retention].
    - Issues.  [Issues], [Rollups], [Publications], [Resolution], [Lifecycle]: the end of a publication in [worker.rs], and
      the handlers of [issues.rs]; [Checks]: the checks of their tables.
    - Usage and uploads.  [Usage], [Retention] ([usage.rs], and the deletion job of [worker.rs]); [Ingest]
      ([crash_ingest.rs]); their runs in [Accounting], [Movements]; invariants in [Ledgers], [Admissions], [Uploads],
      [Worlds]; a concrete run in [Scenario]; the theorems in [Quotas], [Guarantees], [Submissions], [Expiry],
      [Reconciliation].

    ** How code is modelled

    - Pure code is a function; [?] and [map_err] are the monad [result]; a Rust [enum] is an inductive type, a [struct] a record in a
      module of its name; integers are [N] or [Z] with their checked, saturating or wrapping operations written out.
    - Code that reads is written over an interface of readers ([Read]) whose law says only that a read gives a prefix.
    - A handler is a program of [Store]: state passing over a record of tables.  Each statement and each call to another
      service takes its outcome from a list, so that a theorem about all lists is about every failure at every point; a
      transaction restores the tables unless it commits.  Where the code depends on it (the record of a crash, an upload that
      is completed, an object that is deleted) the outcome may also be lost after it took effect.
    - What statements generate is an argument: the time, ids, random bytes, and the month that the database names.
    - Concurrent work is a step relation over the tables: each program runs as one step, in any order and with any
      outcome; in [Worlds] a request is several steps, between which anything else may run, and requests may stop
      for good at any of them.  Each worker there enforces quotas or does not, as its own settings say.  In [Resolution] a
      step is one operation ([Operation]) with its outcomes, and [Checks] also says where its statements may be interrupted.

    ** What is proved

    - Archives: reading succeeds exactly on encodings of archives within the limits, whatever the reader delivers; no
      input makes the reader pass a limit.
    - Symbols: discovery ends and stays within its limits, matching finds all pairs, frames are only named by caches of
      modules with the name of theirs, artifact paths stay inside of their root.
    - Results: what processing emits validates, is bounded, reads back and does not hold the command line; redaction leaves no
      pattern and keeps the contract; equal fingerprints mean equal components.
    - People: an organization keeps an owner while addresses are lowered alike by the server and the database, roles change only
      by a request whose authenticated caller is entitled to it or by an invitation, tokens work once, revoked sessions stay
      revoked.
    - Work: a worker that lost its lease changes nothing but may ask for a cache and finish the removal of an object; a claim takes
      the next job within the limit; no request to process a crash again is lost; work that fails is given up, and its crash
      marked.
    - Issues: the counts kept one crash at a time are the aggregates of the crashes; issues reopen only by a user or for a
      provably later release; the checks of the tables hold after every statement.
    - Usage: [submit_crash] is a sequence of the steps of [Worlds]; in every world reached by them, usage is counted once,
      admissions and deadlines stay as they were given, accepted uploads are readable (unless a deletion was taken back, which takes
      workers with different settings), and every object of the store is accounted
      for; left-over objects are removed and due uploads are put to deletion; months stay within their policies.

    ** Bounds and fuel

    Recursion that is not structural takes fuel, and a lemma shows the fuel given suffices: the loops over a log, a
    template or digits take the length of their input; reads take the bytes they are to deliver ([covers]);
    the scan takes two more than the entries its limits allow ([scan_fuel]), and [discovery_terminates_within_limits] says that
    it ends; the loop over a chunk takes its length ([push_answers]); the backfill takes one more than the uploads
    without a deadline ([backfill_complete]); a drain takes one element of its list for each batch that its time
    budget allows.

    ** Interfaces

    Code of other packages is a class, and laws that theorems need are stated with it: [Roxmltree], [Zlib],
    [ObjectCrate], [PdbCrate], [FileSystem], [MinidumpCrate], [SymbolicCrate], [OutputFile], [SerdeJson], [Unicode], [Sha256],
    [HmacSha256], [SqlLower], [Network], [FormUrlEncoded].

    ** Not modelled

    Interrupted reads, which the standard library retries; failures of allocation; the serialization of HTTP and the
    routing; columns that only the dashboard reads, audit lines, and search indexes; the timers and threads that start
    the loops of the worker and of the schedulers, its scratch directories and its platform sandbox; the alerts, the
    upload of symbols, the declaration of releases and the read-only views, which need tables of their own; the CLI
    and the web application.  Statements take effect one after the other: the isolation the database
    gives to concurrent transactions is assumed, except that a unique key may turn out to be taken. *)

From Stdlib Require Export ZArith NArith Lia.
From stdpp Require Export base list gmap option strings.
Export list_basics.list list_relations.list.

Declare Scope fl_scope.
Delimit Scope fl_scope with fl.
Open Scope fl_scope.

(** * Fallible computations *)

(** [Result<A, E>]. *)
Inductive result (E A : Type) : Type :=
| Ok (a : A)
| Err (e : E).
Arguments Ok {E A} a.
Arguments Err {E A} e.

#[export] Instance result_ret {E} : MRet (result E) := fun A a => Ok a.
#[export] Instance result_bind {E} : MBind (result E) :=
  fun A B f m => match m with Ok a => f a | Err e => Err e end.
#[export] Instance result_fmap {E} : FMap (result E) :=
  fun A B f m => match m with Ok a => Ok (f a) | Err e => Err e end.

#[export] Instance result_eq_dec {E A} `{EqDecision E, EqDecision A} : EqDecision (result E A).
Proof. solve_decision. Defined.

(** [map_err]. *)
Definition map_err {E F A} (f : E -> F) (m : result E A) : result F A :=
  match m with Ok a => Ok a | Err e => Err (f e) end.

(** [ok_or]. *)
Definition ok_or {E A} (e : E) (m : option A) : result E A :=
  match m with Some a => Ok a | None => Err e end.

(** [is_ok]. *)
Definition is_ok {E A} (m : result E A) : bool :=
  match m with Ok _ => true | Err _ => false end.

(** [is_some_and], [is_none_or] and [is_none]. *)
Definition is_some_and {A} (o : option A) (p : A -> bool) : bool :=
  match o with Some a => p a | None => false end.
Definition is_none_or {A} (o : option A) (p : A -> bool) : bool :=
  match o with Some a => p a | None => true end.
Definition is_none {A} (o : option A) : bool := match o with Some _ => false | None => true end.

(** An early return: [if c { return Err(e) }]. *)
Definition fail_if {E} (c : bool) (e : E) : result E unit :=
  if c then Err e else Ok tt.

(** A loop over a collection that stops at the first error. *)
Fixpoint try_each {E A} (f : A -> result E unit) (l : list A) : result E unit :=
  match l with
  | [] => Ok tt
  | x :: l => match f x with Ok _ => try_each f l | Err e => Err e end
  end.

Section result_lemmas.
Context {E : Type}.

Lemma bind_Ok {A B} (m : result E A) (f : A -> result E B) b :
  (m ≫= f) = Ok b <-> exists a, m = Ok a /\ f a = Ok b.
Proof.
  destruct m as [a|e]; cbn; split; [by eauto|by intros (? & [= ->] & ?)|done|by intros (? & ? & ?)].
Qed.

Lemma ok_or_Ok {A} (e : E) (m : option A) a : ok_or e m = Ok a <-> m = Some a.
Proof. destruct m; cbn; naive_solver. Qed.

Lemma map_err_Ok {F A} (f : E -> F) (m : result E A) a : map_err f m = Ok a <-> m = Ok a.
Proof. destruct m; cbn; naive_solver. Qed.

Lemma fail_if_Ok (c : bool) (e : E) u : fail_if c e = Ok u <-> c = false.
Proof. destruct c, u; cbn; naive_solver. Qed.

Lemma try_each_Ok {A} (f : A -> result E unit) l u :
  try_each f l = Ok u <-> Forall (fun x => f x = Ok tt) l.
Proof.
  destruct u. induction l as [|x l IH]; cbn; [naive_solver|].
  rewrite Forall_cons. destruct (f x) as [[]|e]; naive_solver.
Qed.
End result_lemmas.

(** Splits every successful composite computation of the context into its steps. *)
Ltac inv_ok :=
  repeat match goal with
  | H : Ok _ = Ok _ |- _ => injection H; clear H; intros; try subst
  | H : Err _ = Ok _ |- _ => discriminate H
  | H : Ok _ = Err _ |- _ => discriminate H
  | H : (_ ≫= _) = Ok _ |- _ =>
      apply bind_Ok in H;
      let a := fresh "a" in let H1 := fresh H in destruct H as (a & H1 & H)
  | H : ok_or _ _ = Ok _ |- _ => apply ok_or_Ok in H
  | H : map_err _ _ = Ok _ |- _ => apply map_err_Ok in H
  | H : fail_if _ _ = Ok _ |- _ => apply fail_if_Ok in H
  end.

(** [inv_ok], through the pairs that the steps return. *)
Ltac inv_pairs :=
  inv_ok; repeat (match goal with p : prod _ _ |- _ => destruct p end; inv_ok).

(** * Machine integers *)

(** [u32], [u64] and [usize] values are [N]; [usize] is 64 bits wide. *)
Definition u32_max : N := 4294967295.
Definition u64_max : N := 18446744073709551615.
Definition usize_max : N := u64_max.

Definition saturating_add (a b : N) : N := N.min (a + b) u64_max.
Definition saturating_mul (a b : N) : N := N.min (a * b) u64_max.
Definition saturating_sub (a b : N) : N := (a - b)%N.
Definition checked_add (a b : N) : option N := if (a + b <=? u64_max)%N then Some (a + b)%N else None.
Definition checked_mul (a b : N) : option N := if (a * b <=? u64_max)%N then Some (a * b)%N else None.
Definition checked_sub (a b : N) : option N := if (b <=? a)%N then Some (a - b)%N else None.

(** [u32::try_from] on an unsigned value. *)
Definition to_u32 (n : N) : option N := if (n <=? u32_max)%N then Some n else None.

Lemma checked_add_Some a b c : checked_add a b = Some c <-> c = (a + b)%N /\ (a + b <= u64_max)%N.
Proof. unfold checked_add. destruct (N.leb_spec (a + b) u64_max); naive_solver lia. Qed.

Lemma checked_mul_Some a b c : checked_mul a b = Some c <-> c = (a * b)%N /\ (a * b <= u64_max)%N.
Proof. unfold checked_mul. destruct (N.leb_spec (a * b) u64_max); naive_solver lia. Qed.

Lemma checked_sub_Some a b c : checked_sub a b = Some c <-> c = (a - b)%N /\ (b <= a)%N.
Proof. unfold checked_sub. destruct (N.leb_spec b a); naive_solver lia. Qed.

Lemma to_u32_Some a b : to_u32 a = Some b <-> b = a /\ (a <= u32_max)%N.
Proof. unfold to_u32. destruct (N.leb_spec a u32_max); naive_solver lia. Qed.

(** [i64] values are [Z]. *)
Definition i64_max : Z := 9223372036854775807.
Definition i64_min : Z := -9223372036854775808.
Definition clamp_i64 (z : Z) : Z := Z.max i64_min (Z.min z i64_max).
Definition saturating_add_i64 (a b : Z) : Z := clamp_i64 (a + b).
Definition saturating_sub_i64 (a b : Z) : Z := clamp_i64 (a - b).
Definition saturating_mul_i64 (a b : Z) : Z := clamp_i64 (a * b).
Definition is_i64 (z : Z) : bool := (i64_min <=? z)%Z && (z <=? i64_max)%Z.
Definition checked_add_i64 (a b : Z) : option Z := if is_i64 (a + b) then Some (a + b)%Z else None.

Lemma is_i64_true z : is_i64 z = true <-> (i64_min <= z <= i64_max)%Z.
Proof. unfold is_i64. rewrite andb_true_iff, !Z.leb_le. done. Qed.

Lemma checked_add_i64_Some a b c : checked_add_i64 a b = Some c <-> c = (a + b)%Z /\ (i64_min <= a + b <= i64_max)%Z.
Proof.
  unfold checked_add_i64. destruct (is_i64 (a + b)) eqn:E; rewrite <- is_i64_true, E; naive_solver.
Qed.

(** The length of a collection as an integer of the program. *)
Definition len {A} (l : list A) : N := N.of_nat (length l).

Lemma len_app {A} (l k : list A) : len (l ++ k) = (len l + len k)%N.
Proof. unfold len. rewrite length_app. lia. Qed.

Lemma len_cons {A} (x : A) (l : list A) : len (x :: l) = (1 + len l)%N.
Proof. unfold len. cbn [length]. lia. Qed.

Lemma len_nil {A} : len (@nil A) = 0%N.
Proof. reflexivity. Qed.

Lemma len_take {A} n (l : list A) : (len (take (N.to_nat n) l) <= n)%N.
Proof. unfold len. rewrite length_take. lia. Qed.

#[global] Arguments N.eqb : simpl never.
#[global] Arguments N.leb : simpl never.
#[global] Arguments N.ltb : simpl never.

(** [Read::take] with a limit that can be far beyond the length. *)
Definition take_at_most {A} (n : N) (l : list A) : list A :=
  if (len l <=? n)%N then l else take (N.to_nat n) l.

Lemma take_at_most_all {A} n (l : list A) : (len l <= n)%N -> take_at_most n l = l.
Proof. intros H. unfold take_at_most. by rewrite (proj2 (N.leb_le _ _) H). Qed.

Lemma take_at_most_take {A} n (l : list A) : take_at_most n l = take (N.to_nat n) l.
Proof.
  unfold take_at_most. destruct (N.leb_spec (len l) n); [|done]. rewrite take_ge; [done|]. unfold len in *. lia.
Qed.
