(* ===== verification/Text.v ===== *)
(** Strings of the program: a [String] or [&str] is the list of its Unicode scalar values
    ([text], a list of code points), and its bytes are its UTF-8 encoding.  The file defines the
    string operations of the Rust standard library the program calls, and proves the lemmas on
    UTF-8, trimming, searching and number formatting the components share. *)

From Stdlib Require Import Strings.Ascii Strings.Byte.
From stdpp Require Import sorting.
From S2P Require Import Prelude.

Abbreviation char := N (only parsing).
Abbreviation text := (list N).
Abbreviation bytes := (list Byte.byte).

#[export] Instance byte_eq_dec : EqDecision Byte.byte := Byte.byte_eq_dec.

(** A string literal of the source (ASCII). *)
Definition txt (s : string) : text := map N_of_ascii (String.list_ascii_of_string s).

(** A byte-string literal of the source. *)
Definition byt (s : string) : bytes := String.list_byte_of_string s.

(** * Characters *)

Definition in_range (lo hi c : N) : bool := (lo <=? c)%N && (c <=? hi)%N.

(** [char]: the Unicode scalar values. *)
Definition is_scalar (c : char) : bool := in_range 0 55295 c || in_range 57344 1114111 c.

Definition is_ascii_digit (c : char) : bool := in_range 48 57 c.
Definition is_ascii_upper (c : char) : bool := in_range 65 90 c.
Definition is_ascii_lower (c : char) : bool := in_range 97 122 c.
Definition is_ascii_alphanumeric (c : char) : bool :=
  is_ascii_digit c || is_ascii_upper c || is_ascii_lower c.
Definition is_ascii_hexdigit (c : char) : bool :=
  is_ascii_digit c || in_range 65 70 c || in_range 97 102 c.

(** [char::is_control]: the general category Cc. *)
Definition is_control (c : char) : bool := in_range 0 31 c || in_range 127 159 c.

(** [char::is_whitespace]: the property White_Space. *)
Definition is_whitespace (c : char) : bool :=
  in_range 9 13 c || (c =? 32)%N || (c =? 133)%N || (c =? 160)%N || (c =? 5760)%N
  || in_range 8192 8202 c || in_range 8232 8233 c || (c =? 8239)%N || (c =? 8287)%N
  || (c =? 12288)%N.

(** [char::to_ascii_lowercase], [str::to_ascii_lowercase] and their uppercase counterparts. *)
Definition ascii_lower (c : char) : char := if is_ascii_upper c then (c + 32)%N else c.
Definition ascii_upper (c : char) : char := if is_ascii_lower c then (c - 32)%N else c.
Definition to_ascii_lowercase (s : text) : text := map ascii_lower s.
Definition to_ascii_uppercase (s : text) : text := map ascii_upper s.

(** [str::eq_ignore_ascii_case]. *)
Definition eq_ignore_ascii_case (a b : text) : bool :=
  bool_decide (to_ascii_lowercase a = to_ascii_lowercase b).

(** * Searching and splitting *)

Fixpoint starts_with (s p : text) {struct p} : bool :=
  match p, s with
  | [], _ => true
  | a :: p, c :: s => (a =? c)%N && starts_with s p
  | _ :: _, [] => false
  end.

Definition strip_prefix (s p : text) : option text :=
  if starts_with s p then Some (drop (length p) s) else None.

Definition ends_with (s p : text) : bool := starts_with (reverse s) (reverse p).

Definition strip_suffix (s p : text) : option text :=
  if ends_with s p then Some (take (length s - length p) s) else None.

(** [str::contains] with a string pattern. *)
Fixpoint contains (s p : text) : bool :=
  starts_with s p || match s with [] => false | _ :: s => contains s p end.

(** [str::replace].  With a non-empty pattern the matches are replaced from left to right and do
    not overlap: [skip] counts the characters of the current match still to be dropped.  An empty
    pattern matches at every character boundary. *)
Fixpoint replace_go (p r : text) (skip : nat) (s : text) : text :=
  match s with
  | [] => []
  | c :: s' =>
      match skip with
      | S k => replace_go p r k s'
      | O => if starts_with s p then r ++ replace_go p r (pred (length p)) s'
             else c :: replace_go p r 0 s'
      end
  end.

Definition replace (s p r : text) : text :=
  match p with
  | [] => r ++ concat (map (fun c => c :: r) s)
  | _ => replace_go p r 0 s
  end.

(** [str::split] on the characters satisfying a predicate: never empty. *)
Fixpoint split_on (p : char -> bool) (s : text) : list text :=
  match s with
  | [] => [[]]
  | c :: s =>
      match split_on p s with
      | [] => [[c]]
      | w :: ws => if p c then [] :: w :: ws else (c :: w) :: ws
      end
  end.

Definition is_slash (c : char) : bool := (c =? 47)%N || (c =? 92)%N.

(** [value.rsplit(['/', '\\'])]: the path components, last first. *)
Definition rsplit_slash (s : text) : list text := reverse (split_on is_slash s).

(** [str::lines]: lines end at a line feed, a carriage return before it is dropped, and the text
    after the last line feed is a line unless it is empty. *)
Definition strip_cr (w : text) : text :=
  match strip_suffix w [13%N] with Some v => v | None => w end.

Fixpoint lines_of (ws : list text) : list text :=
  match ws with
  | [] => []
  | [w] => match w with [] => [] | _ => [w] end
  | w :: ws => strip_cr w :: lines_of ws
  end.

Definition lines (s : text) : list text := lines_of (split_on (N.eqb 10) s).

(** [str::trim]. *)
Fixpoint trim_start (s : text) : text :=
  match s with
  | [] => []
  | c :: s' => if is_whitespace c then trim_start s' else s
  end.

Definition trim_end (s : text) : text := reverse (trim_start (reverse s)).
Definition trim (s : text) : text := trim_end (trim_start s).

(** [str::ends_with(char)] on a buffer under construction. *)
Definition ends_with_char (s : text) (c : char) : bool :=
  match last s with Some d => (c =? d)%N | None => false end.

(** [slice::join]. *)
Fixpoint join (sep : text) (ws : list text) : text :=
  match ws with
  | [] => []
  | [w] => w
  | w :: ws => w ++ sep ++ join sep ws
  end.

(** * Order and equality *)

(** The order of [str]: by bytes, which for UTF-8 is the order of the code points. *)
Fixpoint text_leb (a b : text) : bool :=
  match a, b with
  | [], _ => true
  | _ :: _, [] => false
  | x :: a, y :: b => if (x =? y)%N then text_leb a b else (x <? y)%N
  end.

(** [slice::sort] and [slice::sort_by]: a stable sort. *)
Section sorting.
Context {A : Type} (leb : A -> A -> bool).

Fixpoint insert_sorted (x : A) (l : list A) : list A :=
  match l with
  | [] => [x]
  | y :: l' => if leb x y then x :: l else y :: insert_sorted x l'
  end.

Fixpoint sort (l : list A) : list A :=
  match l with
  | [] => []
  | x :: l => insert_sorted x (sort l)
  end.
End sorting.

(** [Vec::dedup]: removes consecutive repetitions. *)
Fixpoint dedup {A} `{EqDecision A} (l : list A) : list A :=
  match l with
  | [] => []
  | x :: l' =>
      match dedup l' with
      | [] => [x]
      | y :: k => if decide (x = y) then y :: k else x :: y :: k
      end
  end.

(** * UTF-8 *)

Definition byte_of (n : N) : Byte.byte :=
  match Byte.of_N n with Some b => b | None => Byte.x00 end.

Definition utf8_char (c : char) : bytes :=
  if (c <? 128)%N then [byte_of c]
  else if (c <? 2048)%N then [byte_of (192 + c / 64); byte_of (128 + c mod 64)]
  else if (c <? 65536)%N then
    [byte_of (224 + c / 4096); byte_of (128 + (c / 64) mod 64); byte_of (128 + c mod 64)]
  else
    [byte_of (240 + c / 262144); byte_of (128 + (c / 4096) mod 64);
     byte_of (128 + (c / 64) mod 64); byte_of (128 + c mod 64)].

(** [from_le_bytes] on an unsigned integer. *)
Fixpoint le_value (bs : bytes) : N :=
  match bs with [] => 0 | b :: bs => Byte.to_N b + 256 * le_value bs end.

(** [str::as_bytes]; [str::len] is the number of bytes. *)
Definition as_bytes (s : text) : bytes := concat (map utf8_char s).
Definition str_len (s : text) : N := len (as_bytes s).

Definition is_cont (b : Byte.byte) : bool := in_range 128 191 (Byte.to_N b).

(** The second byte of a sequence of three or four bytes. *)
Definition second_ok (b0 b1 : Byte.byte) : bool :=
  let x := Byte.to_N b0 in
  let y := Byte.to_N b1 in
  if (x =? 224)%N then in_range 160 191 y
  else if (x =? 237)%N then in_range 128 159 y
  else if (x =? 240)%N then in_range 144 191 y
  else if (x =? 244)%N then in_range 128 143 y
  else in_range 128 191 y.

Definition low6 (b : Byte.byte) : N := (Byte.to_N b - 128)%N.

(** The decomposition of a byte string into characters and maximal invalid chunks that
    [str::from_utf8] and [String::from_utf8_lossy] share: [Some c] is a character, [None] an
    invalid chunk. *)
Fixpoint utf8_chunks (bs : bytes) : list (option char) :=
  match bs with
  | [] => []
  | b0 :: t1 =>
      let x := Byte.to_N b0 in
      if (x <? 128)%N then Some x :: utf8_chunks t1
      else if in_range 194 223 x then
        match t1 with
        | b1 :: t2 =>
            if is_cont b1 then Some ((x - 192) * 64 + low6 b1)%N :: utf8_chunks t2
            else None :: utf8_chunks t1
        | [] => [None]
        end
      else if in_range 224 239 x then
        match t1 with
        | b1 :: t2 =>
            if second_ok b0 b1 then
              match t2 with
              | b2 :: t3 =>
                  if is_cont b2 then
                    Some (((x - 224) * 64 + low6 b1) * 64 + low6 b2)%N :: utf8_chunks t3
                  else None :: utf8_chunks t2
              | [] => [None]
              end
            else None :: utf8_chunks t1
        | [] => [None]
        end
      else if in_range 240 244 x then
        match t1 with
        | b1 :: t2 =>
            if second_ok b0 b1 then
              match t2 with
              | b2 :: t3 =>
                  if is_cont b2 then
                    match t3 with
                    | b3 :: t4 =>
                        if is_cont b3 then
                          Some ((((x - 240) * 64 + low6 b1) * 64 + low6 b2) * 64 + low6 b3)%N
                            :: utf8_chunks t4
                        else None :: utf8_chunks t3
                    | [] => [None]
                    end
                  else None :: utf8_chunks t2
              | [] => [None]
              end
            else None :: utf8_chunks t1
        | [] => [None]
        end
      else None :: utf8_chunks t1
  end.

(** [str::from_utf8] and [String::from_utf8]. *)
Definition from_utf8 (bs : bytes) : option text := mapM id (utf8_chunks bs).

(** [String::from_utf8_lossy]: one U+FFFD per invalid chunk. *)
Definition from_utf8_lossy (bs : bytes) : text := map (default 65533%N) (utf8_chunks bs).

(** * Numbers *)

Definition hex_digit (upper : bool) (d : N) : char :=
  if (d <? 10)%N then (48 + d)%N else if upper then (55 + d)%N else (87 + d)%N.

(** [{:x}] and [{:X}]: at most [fuel] digits, most significant first; 16 are enough for a [u64]. *)
Fixpoint hex_go (upper : bool) (fuel : nat) (n : N) (acc : text) : text :=
  match fuel with
  | O => acc
  | S fuel =>
      let acc := hex_digit upper (n mod 16)%N :: acc in
      if (n <? 16)%N then acc else hex_go upper fuel (n / 16)%N acc
  end.

Definition fmt_hex (upper : bool) (n : N) : text := hex_go upper 16 n [].

(** [{:0wx}]: padded with zeros on the left to [w] characters. *)
Definition pad_left (w : nat) (s : text) : text := replicate (w - length s) 48%N ++ s.

(** [{:02X}] or [{:02x}] of a byte, and of each byte of a string. *)
Definition hex2 (upper : bool) (b : Byte.byte) : text := pad_left 2 (fmt_hex upper (Byte.to_N b)).
Definition hex2s (upper : bool) (bs : bytes) : text := concat (map (hex2 upper) bs).

(** [{}] of an unsigned integer: 20 decimal digits are enough for a [u64]. *)
Fixpoint dec_go (fuel : nat) (n : N) (acc : text) : text :=
  match fuel with
  | O => acc
  | S fuel =>
      let acc := (48 + n mod 10)%N :: acc in
      if (n <? 10)%N then acc else dec_go fuel (n / 10)%N acc
  end.

Definition fmt_dec (n : N) : text := dec_go 20 n [].

Definition hex_value (c : char) : option N :=
  if is_ascii_digit c then Some (c - 48)%N
  else if in_range 97 102 c then Some (c - 87)%N
  else if in_range 65 70 c then Some (c - 55)%N
  else None.

Fixpoint hex_digits (acc : N) (s : text) : option N :=
  match s with
  | [] => Some acc
  | c :: s =>
      match hex_value c with
      | Some d => if (acc * 16 + d <=? u64_max)%N then hex_digits (acc * 16 + d) s else None
      | None => None
      end
  end.

(** [u64::from_str_radix(s, 16)]: an optional plus sign and at least one digit. *)
Definition from_str_radix_16 (s : text) : option N :=
  match s with
  | [] => None
  | c :: s' =>
      if (c =? 43)%N then match s' with [] => None | _ => hex_digits 0 s' end
      else hex_digits 0 s
  end.

(** * Digests *)

(** [sha2::Sha256] on the bytes that were given to it. *)
Class Sha256 : Type := { sha256 : bytes -> bytes }.

(** * Lemmas *)

(** Splits every comparison of the goal and of the hypotheses, keeping the consistent cases. *)
Ltac split_ranges :=
  repeat match goal with
  | |- context [N.leb ?a ?b] => destruct (N.leb_spec a b); try (exfalso; lia); cbn [andb orb negb]
  | |- context [N.ltb ?a ?b] => destruct (N.ltb_spec a b); try (exfalso; lia); cbn [andb orb negb]
  | |- context [N.eqb ?a ?b] => destruct (N.eqb_spec a b); try (exfalso; lia); cbn [andb orb negb]
  end.

(** ** Characters *)

Lemma in_range_true lo hi c : in_range lo hi c = true <-> (lo <= c <= hi)%N.
Proof. unfold in_range. rewrite andb_true_iff, !N.leb_le. done. Qed.

Lemma in_range_false lo hi c : in_range lo hi c = false <-> (c < lo \/ hi < c)%N.
Proof. unfold in_range. rewrite andb_false_iff, !N.leb_gt. done. Qed.

Lemma ascii_lower_idemp c : ascii_lower (ascii_lower c) = ascii_lower c.
Proof.
  unfold ascii_lower at 2. destruct (is_ascii_upper c) eqn:E.
  - apply in_range_true in E. unfold ascii_lower, is_ascii_upper, in_range. split_ranges; lia.
  - unfold ascii_lower. by rewrite E.
Qed.

Lemma to_ascii_lowercase_idemp s : to_ascii_lowercase (to_ascii_lowercase s) = to_ascii_lowercase s.
Proof.
  unfold to_ascii_lowercase. rewrite map_map. apply map_ext. apply ascii_lower_idemp.
Qed.

Lemma is_whitespace_lower c : is_whitespace (ascii_lower c) = is_whitespace c.
Proof.
  unfold ascii_lower. destruct (is_ascii_upper c) eqn:E; [|done].
  apply in_range_true in E. unfold is_whitespace, in_range. split_ranges; done.
Qed.

Lemma is_control_lower c : is_control (ascii_lower c) = is_control c.
Proof.
  unfold ascii_lower. destruct (is_ascii_upper c) eqn:E; [|done].
  apply in_range_true in E. unfold is_control, in_range. split_ranges; done.
Qed.

(** ** Searching *)

Lemma starts_with_spec s p : starts_with s p = true <-> exists k, s = p ++ k.
Proof.
  revert s. induction p as [|a p IH]; intros s; cbn.
  - destruct s; split; eauto.
  - destruct s as [|c s]; [split; [done|by intros []]|].
    rewrite andb_true_iff, N.eqb_eq, IH. split.
    + intros [-> [k ->]]. by exists k.
    + intros [k [= -> ->]]. eauto.
Qed.

Lemma starts_with_app p k : starts_with (p ++ k) p = true.
Proof. apply starts_with_spec. eauto. Qed.

Lemma ends_with_spec s p : ends_with s p = true <-> exists k, s = k ++ p.
Proof.
  unfold ends_with. rewrite starts_with_spec. split; intros [k Hk].
  - exists (reverse k). rewrite <- (reverse_involutive s), Hk, reverse_app, reverse_involutive. done.
  - exists (reverse k). by rewrite Hk, reverse_app.
Qed.

Lemma strip_prefix_Some s p k : strip_prefix s p = Some k <-> s = p ++ k.
Proof.
  unfold strip_prefix. destruct (starts_with s p) eqn:E.
  - apply starts_with_spec in E as [j ->]. rewrite drop_app_length. split; [by intros [= ->]|].
    intros H. by apply app_inv_head in H as ->.
  - split; [done|]. intros ->. by rewrite starts_with_app in E.
Qed.

Lemma strip_suffix_Some s p k : strip_suffix s p = Some k <-> s = k ++ p.
Proof.
  unfold strip_suffix. destruct (ends_with s p) eqn:E.
  - apply ends_with_spec in E as [j ->]. rewrite length_app, Nat.add_sub, take_app_length.
    split; [by intros [= ->]|]. intros H. by apply app_inv_tail in H as ->.
  - split; [done|]. intros ->. exfalso. apply not_true_iff_false in E. apply E.
    apply ends_with_spec. eauto.
Qed.

Lemma contains_spec s p : contains s p = true <-> exists a b, s = a ++ p ++ b.
Proof.
  induction s as [|c s IH]; cbn; rewrite orb_true_iff, starts_with_spec.
  - split.
    + intros [[k ->]|]; [|done]. by exists [], k.
    + intros (a & b & H). left. symmetry in H. apply app_nil in H as [-> H]. by exists b.
  - rewrite IH. split.
    + intros [[k ->]|(a & b & ->)]; [by exists [], k|by exists (c :: a), b].
    + intros ([|x a] & b & H); cbn in H; [left; by exists b|].
      right. injection H as -> ->. eauto.
Qed.

Lemma contains_app_r a s p : contains s p = true -> contains (a ++ s) p = true.
Proof.
  rewrite !contains_spec. intros (x & y & ->). exists (a ++ x), y. by rewrite <- app_assoc.
Qed.

(** ** Splitting *)

Lemma split_on_ne p s : split_on p s <> [].
Proof.
  induction s as [|c s IH]; cbn; [done|]. destruct (split_on p s); [done|]. by destruct (p c).
Qed.

Lemma split_on_no_sep p s : Forall (Forall (fun c => p c = false)) (split_on p s).
Proof.
  induction s as [|c s IH]; cbn; [by repeat constructor|].
  destruct (split_on p s) as [|w ws] eqn:E; [by destruct (split_on_ne p s)|].
  destruct (p c) eqn:Ec; inversion_clear IH; repeat constructor; auto.
Qed.

Lemma split_on_In p s w c : w ∈ split_on p s -> c ∈ w -> c ∈ s.
Proof.
  revert w. induction s as [|d s IH]; cbn; intros w Hw Hc.
  - apply list_elem_of_singleton in Hw as ->. by apply not_elem_of_nil in Hc.
  - destruct (split_on p s) as [|v ws] eqn:E; [by destruct (split_on_ne p s)|].
    destruct (p d).
    + apply elem_of_cons in Hw as [->|Hw]; [by apply not_elem_of_nil in Hc|].
      apply elem_of_cons. right. eauto.
    + apply elem_of_cons in Hw as [->|Hw].
      * apply elem_of_cons in Hc as [->|Hc]; [by left|]. right. apply (IH v); [by left|done].
      * right. apply (IH w); [by right|done].
Qed.

(** ** Trimming *)

Lemma trim_start_suffix s : exists w, s = w ++ trim_start s /\ Forall (fun c => is_whitespace c = true) w.
Proof.
  induction s as [|c s (w & E & Hw)]; cbn; [by exists []|].
  destruct (is_whitespace c) eqn:Ec; [|by exists []].
  exists (c :: w). split; [by cbn; f_equal|by constructor].
Qed.

Lemma trim_start_fix c s : is_whitespace c = false -> trim_start (c :: s) = c :: s.
Proof. cbn. by intros ->. Qed.

Lemma trim_start_ws s : Forall (fun c => is_whitespace c = true) s -> trim_start s = [].
Proof. induction 1 as [|c s H ? IH]; cbn; [done|]. by rewrite H. Qed.

Lemma trim_start_head s c k : trim_start s = c :: k -> is_whitespace c = false.
Proof.
  induction s as [|d s IH]; cbn; [done|]. destruct (is_whitespace d) eqn:E; [done|].
  intros [= -> ->]. done.
Qed.

Lemma trim_start_idemp s : trim_start (trim_start s) = trim_start s.
Proof.
  destruct (trim_start s) as [|c k] eqn:E; [done|].
  apply trim_start_fix. by eapply trim_start_head.
Qed.

Lemma trim_start_app_ne s c k :
  is_whitespace c = false -> trim_start (s ++ c :: k) = trim_start (s ++ [c]) ++ k.
Proof.
  intros Hc. induction s as [|d s IH]; cbn; [by rewrite Hc|].
  destruct (is_whitespace d); [done|]. cbn. f_equal. by rewrite <- app_assoc.
Qed.

Lemma trim_end_cons c s : is_whitespace c = false -> exists k, trim_end (c :: s) = c :: k.
Proof.
  intros Hc. unfold trim_end. rewrite reverse_cons.
  pose proof (trim_start_suffix (reverse s)) as (w & E & Hw).
  destruct (trim_start (reverse s)) as [|d k] eqn:Ek.
  - rewrite app_nil_r in E. rewrite E.
    assert (trim_start (w ++ [c]) = [c]) as ->.
    { clear E. induction Hw as [|x w Hx ? IH]; cbn; [by rewrite Hc|by rewrite Hx]. }
    by exists [].
  - assert (is_whitespace d = false) by (by eapply trim_start_head).
    rewrite E, <- app_assoc. cbn. rewrite trim_start_app_ne by done.
    rewrite reverse_app, reverse_app. cbn. eauto.
Qed.

Lemma trim_start_trim s : trim_start (trim s) = trim s.
Proof.
  unfold trim. destruct (trim_start s) as [|c k] eqn:E; [done|].
  assert (Hc : is_whitespace c = false) by (by eapply trim_start_head).
  destruct (trim_end_cons c k Hc) as [j ->]. by apply trim_start_fix.
Qed.

Lemma trim_end_idemp s : trim_end (trim_end s) = trim_end s.
Proof. unfold trim_end. by rewrite reverse_involutive, trim_start_idemp. Qed.

Lemma trim_idemp s : trim (trim s) = trim s.
Proof.
  unfold trim at 1. rewrite trim_start_trim. unfold trim. apply trim_end_idemp.
Qed.

Lemma trim_start_incl s c : c ∈ trim_start s -> c ∈ s.
Proof.
  destruct (trim_start_suffix s) as (w & E & _). intros H. rewrite E. apply elem_of_app. auto.
Qed.

Lemma trim_incl s c : c ∈ trim s -> c ∈ s.
Proof.
  unfold trim, trim_end. rewrite elem_of_reverse. intros H.
  apply trim_start_incl. apply elem_of_reverse. by apply trim_start_incl.
Qed.

Lemma trim_start_length s : (length (trim_start s) <= length s)%nat.
Proof. destruct (trim_start_suffix s) as (w & E & _). rewrite E at 2. rewrite length_app. lia. Qed.

Lemma trim_length s : (length (trim s) <= length s)%nat.
Proof.
  unfold trim, trim_end. rewrite length_reverse.
  etrans; [apply trim_start_length|]. rewrite length_reverse. apply trim_start_length.
Qed.

(** ** Bytes and UTF-8 *)

Lemma byte_bound b : (Byte.to_N b < 256)%N.
Proof. pose proof (Byte.to_N_bounded b). lia. Qed.

Lemma to_N_byte_of n : (n < 256)%N -> Byte.to_N (byte_of n) = n.
Proof.
  intros H. unfold byte_of. destruct (Byte.of_N n) eqn:E.
  - by apply Byte.to_of_N.
  - apply Byte.of_N_None_iff in E. lia.
Qed.

Lemma byte_of_to_N b : byte_of (Byte.to_N b) = b.
Proof. unfold byte_of. by rewrite Byte.of_to_N. Qed.

Lemma byte_of_eq n b : n = Byte.to_N b -> byte_of n = b.
Proof. intros ->. apply byte_of_to_N. Qed.

Lemma to_N_inj b c : Byte.to_N b = Byte.to_N c -> b = c.
Proof. intros H. rewrite <- (byte_of_to_N b), H. apply byte_of_to_N. Qed.

Lemma is_scalar_true c :
  is_scalar c = true <-> (c <= 55295 \/ (57344 <= c <= 1114111))%N.
Proof. unfold is_scalar. rewrite orb_true_iff, !in_range_true. lia. Qed.

Lemma ascii_is_scalar c : (c < 128)%N -> is_scalar c = true.
Proof. rewrite is_scalar_true. lia. Qed.

Lemma div_64 q r : (r < 64)%N -> ((q * 64 + r) / 64)%N = q.
Proof. intros H. symmetry. apply (N.div_unique _ _ _ r); lia. Qed.

Lemma mod_64 q r : (r < 64)%N -> ((q * 64 + r) mod 64)%N = r.
Proof. intros H. symmetry. apply (N.mod_unique _ _ q); lia. Qed.

Lemma div_4096 c : (c / 4096 = c / 64 / 64)%N.
Proof. by rewrite N.Div0.div_div. Qed.

Lemma div_262144 c : (c / 262144 = c / 64 / 64 / 64)%N.
Proof. by rewrite !N.Div0.div_div. Qed.

(** The division of [c] by [k], as facts [lia] can use. *)
Ltac div_facts c k :=
  let D := fresh "D" in let M := fresh "M" in let P := fresh "P" in
  pose proof (N.div_mod c k ltac:(lia)) as D; pose proof (N.mod_lt c k ltac:(lia)) as M;
  pose proof (N.le_0_l (c mod k)%N) as P.

(** One step of the decoder. *)
Lemma utf8_chunks_step b0 t1 :
  utf8_chunks (b0 :: t1) =
  ltac:(let e := eval cbn [utf8_chunks] in (utf8_chunks (b0 :: t1)) in
        let e := eval cbv zeta in e in exact e).
Proof. reflexivity. Qed.

(** Decides the conditions at the head of the left-hand side, in order. *)
Ltac head_ifs :=
  repeat match goal with
  | |- (if (?a <? ?b)%N then _ else _) = _ => destruct (N.ltb_spec a b); try (exfalso; lia)
  | |- (if (if (?a =? ?b)%N then _ else _) then _ else _) = _ =>
      destruct (N.eqb_spec a b); try (exfalso; lia)
  | |- (if in_range ?a ?b ?c then _ else _) = _ =>
      let E := fresh "E" in
      destruct (in_range a b c) eqn:E;
      [apply in_range_true in E|apply in_range_false in E]; try (exfalso; lia)
  end.

Lemma utf8_chunks_char c bs :
  is_scalar c = true -> utf8_chunks (utf8_char c ++ bs) = Some c :: utf8_chunks bs.
Proof.
  rewrite is_scalar_true. intros Hc. unfold utf8_char.
  destruct (N.ltb_spec c 128) as [H1|H1].
  { cbn [app]. rewrite utf8_chunks_step, to_N_byte_of by lia. by head_ifs. }
  rewrite div_262144, div_4096.
  div_facts c 64%N. div_facts (c / 64)%N 64%N. div_facts (c / 64 / 64)%N 64%N.
  destruct (N.ltb_spec c 2048) as [H2|H2]; [|destruct (N.ltb_spec c 65536) as [H3|H3]];
    cbn [app]; rewrite utf8_chunks_step; unfold is_cont, low6, second_ok;
    rewrite !to_N_byte_of by lia; head_ifs; do 2 f_equal; lia.
Qed.

Lemma utf8_chunks_as_bytes s bs :
  Forall (fun c => is_scalar c = true) s ->
  utf8_chunks (as_bytes s ++ bs) = map Some s ++ utf8_chunks bs.
Proof.
  induction 1 as [|c s Hc ? IH]; [done|]. unfold as_bytes in *. cbn [map concat app].
  rewrite <- app_assoc, utf8_chunks_char by done. by rewrite IH.
Qed.

Lemma mapM_Some_id (s : text) : mapM id (map Some s) = Some s.
Proof. induction s as [|c s IH]; [done|]. cbn in *. by rewrite IH. Qed.

(** Encoding then decoding gives the string back. *)
Lemma from_utf8_as_bytes s :
  Forall (fun c => is_scalar c = true) s -> from_utf8 (as_bytes s) = Some s.
Proof.
  intros H. unfold from_utf8. rewrite <- (app_nil_r (as_bytes s)), utf8_chunks_as_bytes by done.
  cbn. rewrite app_nil_r. apply mapM_Some_id.
Qed.

Lemma as_bytes_app s t : as_bytes (s ++ t) = as_bytes s ++ as_bytes t.
Proof. unfold as_bytes. by rewrite map_app, concat_app. Qed.

Lemma as_bytes_cons c s : as_bytes (c :: s) = utf8_char c ++ as_bytes s.
Proof. done. Qed.

(** Closes [b :: ... = byte_of n :: ...] when each [n] is the value of the byte. *)
Ltac encode_bytes :=
  repeat (apply f_equal2; [symmetry; apply byte_of_eq; lia|]); done.

(** One decoded character is the encoding of its bytes. *)
Lemma utf8_chunks_cons_Some c bs cs :
  utf8_chunks bs = Some c :: cs ->
  is_scalar c = true /\ exists bs', bs = utf8_char c ++ bs' /\ utf8_chunks bs' = cs.
Proof.
  destruct bs as [|b0 t1]; [done|]. rewrite utf8_chunks_step. pose proof (byte_bound b0).
  destruct (N.ltb_spec (Byte.to_N b0) 128) as [H1|H1].
  { intros [= <- <-]. split; [by apply ascii_is_scalar|]. exists t1. split; [|done].
    unfold utf8_char. destruct (N.ltb_spec (Byte.to_N b0) 128); [|lia]. by rewrite byte_of_to_N. }
  destruct (in_range 194 223 _) eqn:R2.
  { apply in_range_true in R2. destruct t1 as [|b1 t2]; [done|]. unfold is_cont, low6.
    destruct (in_range 128 191 (Byte.to_N b1)) eqn:C1; [|done].
    apply in_range_true in C1. intros [= <- <-]. split; [apply is_scalar_true; lia|].
    exists t2. split; [|done]. unfold utf8_char. split_ranges. cbn.
    rewrite div_64, mod_64 by lia. encode_bytes. }
  destruct (in_range 224 239 _) eqn:R3.
  { apply in_range_true in R3. destruct t1 as [|b1 t2]; [done|].
    destruct (second_ok b0 b1) eqn:S1; [|done].
    destruct t2 as [|b2 t3]; [done|]. unfold is_cont, low6.
    destruct (in_range 128 191 (Byte.to_N b2)) eqn:C2; [|done].
    apply in_range_true in C2. intros [= <- <-].
    set (v := (((Byte.to_N b0 - 224) * 64 + (Byte.to_N b1 - 128)) * 64 + (Byte.to_N b2 - 128))%N).
    assert (B : (2048 <= v < 65536)%N /\ (128 <= Byte.to_N b1 <= 191)%N /\ is_scalar v = true).
    { unfold v. rewrite is_scalar_true. revert S1. unfold second_ok, in_range. split_ranges; intros; try done; lia. }
    destruct B as (B & C1 & ?). split; [done|].
    exists t3. split; [|done]. unfold utf8_char. split_ranges. cbn.
    unfold v. rewrite div_4096, !div_64, !mod_64 by lia. encode_bytes. }
  destruct (in_range 240 244 _) eqn:R4; [|done].
  apply in_range_true in R4. destruct t1 as [|b1 t2]; [done|].
  destruct (second_ok b0 b1) eqn:S1; [|done].
  destruct t2 as [|b2 t3]; [done|]. unfold is_cont, low6.
  destruct (in_range 128 191 (Byte.to_N b2)) eqn:C2; [|done].
  destruct t3 as [|b3 t4]; [done|].
  destruct (in_range 128 191 (Byte.to_N b3)) eqn:C3; [|done].
  apply in_range_true in C2, C3. intros [= <- <-].
  set (v := ((((Byte.to_N b0 - 240) * 64 + (Byte.to_N b1 - 128)) * 64 + (Byte.to_N b2 - 128)) * 64
             + (Byte.to_N b3 - 128))%N).
  assert (B : (65536 <= v < 1114112)%N /\ (128 <= Byte.to_N b1 <= 191)%N).
  { revert S1. unfold v, second_ok, in_range. split_ranges; intros; try done; lia. }
  destruct B as (B & C1). split; [apply is_scalar_true; lia|].
  exists t4. split; [|done]. unfold utf8_char. split_ranges. cbn.
  unfold v. rewrite div_262144, div_4096, !div_64, !mod_64 by lia. encode_bytes.
Qed.

Lemma utf8_chunks_all_Some s bs :
  utf8_chunks bs = map Some s -> bs = as_bytes s /\ Forall (fun c => is_scalar c = true) s.
Proof.
  revert bs. induction s as [|c s IH]; intros bs H.
  - destruct bs as [|b0 bs]; [done|]. exfalso. revert H. cbn. by repeat case_match.
  - cbn in H. apply utf8_chunks_cons_Some in H as (? & bs' & -> & H).
    apply IH in H as [-> ?]. split; [done|by constructor].
Qed.

Lemma mapM_id_Some (l : list (option char)) s : mapM id l = Some s -> l = map Some s.
Proof.
  revert s. induction l as [|o l IH]; cbn; intros s H; [by injection H as <-|].
  destruct o as [c|]; [|done]. cbn in H. destruct (mapM id l) eqn:E; [|done].
  injection H as <-. cbn. f_equal. by apply IH.
Qed.

(** Decoding then encoding gives the bytes back. *)
Lemma from_utf8_Some bs s :
  from_utf8 bs = Some s -> bs = as_bytes s /\ Forall (fun c => is_scalar c = true) s.
Proof. intros H. apply utf8_chunks_all_Some. by apply mapM_id_Some. Qed.

Lemma from_utf8_lossy_valid bs s : from_utf8 bs = Some s -> from_utf8_lossy bs = s.
Proof.
  intros H%mapM_id_Some. unfold from_utf8_lossy. rewrite H, map_map.
  by rewrite (map_ext _ id), map_id.
Qed.

Lemma utf8_chunks_scalar bs c : Some c ∈ utf8_chunks bs -> is_scalar c = true.
Proof.
  remember (length bs) as n eqn:Hn. revert bs Hn.
  induction (lt_wf n) as [n _ IH]. intros bs -> Hin.
  destruct (utf8_chunks bs) as [|[d|] cs] eqn:E; [by apply not_elem_of_nil in Hin| |].
  - apply utf8_chunks_cons_Some in E as (Hd & bs' & -> & <-).
    apply elem_of_cons in Hin as [[= ->]|Hin]; [done|].
    eapply IH; [|done|done]. rewrite length_app. unfold utf8_char. repeat case_match; cbn; lia.
  - apply elem_of_cons in Hin as [|Hin]; [done|].
    destruct bs as [|b0 t1]; [done|]. rewrite utf8_chunks_step in E. repeat case_match; try done;
      apply (f_equal (@tail _)) in E; cbn [tail] in E; rewrite <- E in Hin;
      try (by apply not_elem_of_nil in Hin); (eapply IH; [|done|exact Hin]; cbn; lia).
Qed.

Lemma from_utf8_lossy_scalar bs : Forall (fun c => is_scalar c = true) (from_utf8_lossy bs).
Proof.
  unfold from_utf8_lossy. apply Forall_map, Forall_forall. intros [c|] H; cbn; [|done].
  by eapply utf8_chunks_scalar.
Qed.

(** ** Sorting *)

Lemma text_leb_total a b : text_leb a b = true \/ text_leb b a = true.
Proof.
  revert b. induction a as [|x a IH]; intros [|y b]; cbn; auto.
  destruct (N.eqb_spec x y) as [->|]; [rewrite N.eqb_refl; apply IH|].
  destruct (N.eqb_spec y x); [lia|]. rewrite !N.ltb_lt. lia.
Qed.

Lemma text_leb_antisym a b : text_leb a b = true -> text_leb b a = true -> a = b.
Proof.
  revert b. induction a as [|x a IH]; intros [|y b]; cbn; try done.
  destruct (N.eqb_spec x y) as [->|]; [rewrite N.eqb_refl; intros; f_equal; auto|].
  destruct (N.eqb_spec y x); [lia|]. rewrite !N.ltb_lt. lia.
Qed.

Lemma text_leb_trans a b c : text_leb a b = true -> text_leb b c = true -> text_leb a c = true.
Proof.
  revert b c. induction a as [|x a IH]; intros [|y b] [|z c]; cbn; try done.
  destruct (N.eqb_spec x y), (N.eqb_spec y z), (N.eqb_spec x z); subst;
    rewrite ?N.eqb_refl, ?N.ltb_lt; try lia; eauto.
Qed.

(** What a comparison function must satisfy for [sort] to be a function of the multiset. *)
Class TotalOrder {A} (leb : A -> A -> bool) : Prop := {
  leb_total : forall a b, leb a b = true \/ leb b a = true;
  leb_trans : forall a b c, leb a b = true -> leb b c = true -> leb a c = true;
  leb_antisym : forall a b, leb a b = true -> leb b a = true -> a = b;
}.

#[export] Instance text_total_order : TotalOrder text_leb.
Proof. split; [apply text_leb_total|apply text_leb_trans|apply text_leb_antisym]. Qed.

Lemma insert_sorted_perm {A} (leb : A -> A -> bool) x l : insert_sorted leb x l ≡ₚ x :: l.
Proof.
  induction l as [|y l IH]; cbn; [done|]. destruct (leb x y); [done|].
  rewrite IH. constructor.
Qed.

Lemma sort_perm {A} (leb : A -> A -> bool) l : sort leb l ≡ₚ l.
Proof.
  induction l as [|x l IH]; cbn; [done|]. by rewrite insert_sorted_perm, IH.
Qed.

(** The head of a sorted list is a least element; an order that is total and transitive is enough. *)
Lemma head_sort_least {A} (leb : A -> A -> bool) l x :
  (forall a b, leb a b = true \/ leb b a = true) -> (forall a b c, leb a b = true -> leb b c = true -> leb a c = true) ->
  head (sort leb l) = Some x -> x ∈ l /\ forall y, y ∈ l -> leb x y = true.
Proof.
  intros Htot Htr. revert x. induction l as [|a l IH]; [done|]. intros x. cbn [sort].
  assert (Ha : forall b, leb b b = true) by (intros b; by destruct (Htot b b)).
  destruct (sort leb l) as [|b k] eqn:E.
  - intros [= ->]. assert (l = []) as -> by (by apply Permutation_nil_r; rewrite <-E, sort_perm).
    split; [by left|]. intros y ->%list_elem_of_singleton. apply Ha.
  - destruct (IH b eq_refl) as [Hb Hmin]. cbn [insert_sorted]. destruct (leb a b) eqn:Eab; cbn; intros [= <-].
    + split; [by left|]. intros y [->|Hy]%elem_of_cons; [apply Ha|]. eapply Htr; [exact Eab|by apply Hmin].
    + split; [by right|]. intros y [->|Hy]%elem_of_cons; [|by apply Hmin]. by destruct (Htot a b) as [Hc|Hc]; [congruence|].
Qed.

Section sort_lemmas.
Context {A : Type} (leb : A -> A -> bool) `{!TotalOrder leb}.

Let R (a b : A) : Prop := leb a b = true.

#[local] Instance R_trans : Transitive R.
Proof. intros a b c. apply leb_trans. Qed.

#[local] Instance R_antisym : AntiSymm eq R.
Proof. intros a b. apply leb_antisym. Qed.

Lemma insert_sorted_strong x l : StronglySorted R l -> StronglySorted R (insert_sorted leb x l).
Proof.
  induction 1 as [|y l Hl IH Hy]; cbn; [repeat constructor|].
  destruct (leb x y) eqn:E.
  - repeat constructor; auto. eapply Forall_impl; [done|]. intros z Hz. by apply (leb_trans x y z).
  - constructor; [done|]. rewrite insert_sorted_perm. constructor; [|done].
    destruct (leb_total x y); [congruence|done].
Qed.

Lemma sort_strong l : StronglySorted R (sort leb l).
Proof. induction l as [|x l IH]; cbn; [constructor|by apply insert_sorted_strong]. Qed.

(** The result of a sort depends only on the elements and their multiplicities. *)
Lemma sort_ext l k : l ≡ₚ k -> sort leb l = sort leb k.
Proof.
  intros H. apply (StronglySorted_unique R); [apply sort_strong..|]. by rewrite !sort_perm.
Qed.

Context `{EqDecision A}.

Lemma elem_of_dedup x (l : list A) : x ∈ dedup l <-> x ∈ l.
Proof.
  induction l as [|y l IH]; cbn; [done|]. destruct (dedup l) as [|z k].
  - rewrite !elem_of_cons, <- IH. done.
  - case_decide as Hd; subst; rewrite !elem_of_cons, <- IH, elem_of_cons; naive_solver.
Qed.

Lemma dedup_strong (l : list A) : StronglySorted R l -> StronglySorted R (dedup l) /\ NoDup (dedup l).
Proof.
  induction 1 as [|y l Hl [IH1 IH2] Hy]; cbn; [by repeat constructor|].
  assert (Forall (R y) (dedup l)) as Hd.
  { rewrite Forall_forall in Hy |- *. intros x Hx. apply Hy. by rewrite elem_of_dedup in Hx. }
  destruct (dedup l) as [|z k]; [split; [by repeat constructor|apply NoDup_singleton]|].
  case_decide as Hyz; [done|]. split; [by constructor|]. constructor; [|done].
  intros [->|Hk]%elem_of_cons; [done|].
  inversion_clear IH1. apply Forall_cons in Hd as [Hd _].
  apply Hyz, leb_antisym; [done|]. rewrite Forall_forall in H0. by apply H0.
Qed.

(** Sorting and deduplicating depends only on the set of the elements. *)
Lemma dedup_sort_ext l k :
  (forall x, x ∈ l <-> x ∈ k) -> dedup (sort leb l) = dedup (sort leb k).
Proof.
  intros H. destruct (dedup_strong _ (sort_strong l)), (dedup_strong _ (sort_strong k)).
  apply (StronglySorted_unique R); [done..|]. apply NoDup_Permutation; [done..|].
  intros x. by rewrite !elem_of_dedup, !sort_perm.
Qed.

Lemma dedup_sort_nodup l : NoDup (dedup (sort leb l)).
Proof. apply dedup_strong, sort_strong. Qed.

Lemma elem_of_dedup_sort x l : x ∈ dedup (sort leb l) <-> x ∈ l.
Proof. by rewrite elem_of_dedup, sort_perm. Qed.

Lemma dedup_length (l : list A) : (length (dedup l) <= length l)%nat.
Proof.
  induction l as [|y l IH]; cbn; [done|]. destruct (dedup l); cbn in *; [lia|].
  case_decide; cbn; lia.
Qed.
End sort_lemmas.

(** ** Hexadecimal *)

Lemma hex_value_digit up d : (d < 16)%N -> hex_value (hex_digit up d) = Some d.
Proof.
  intros H. unfold hex_digit. destruct (N.ltb_spec d 10), up;
    unfold hex_value, is_ascii_digit, in_range; split_ranges; f_equal; lia.
Qed.

Lemma hex_digit_not_plus up d : (d < 16)%N -> (hex_digit up d =? 43)%N = false.
Proof. intros H. unfold hex_digit. destruct (N.ltb_spec d 10), up; split_ranges; done. Qed.

(** The value of a digit string, without the overflow test of [hex_digits]. *)
Fixpoint hex_fold (a : N) (s : text) : option N :=
  match s with
  | [] => Some a
  | c :: s => match hex_value c with Some d => hex_fold (a * 16 + d)%N s | None => None end
  end.

Lemma hex_fold_app a s t : hex_fold a (s ++ t) = hex_fold a s ≫= fun b => hex_fold b t.
Proof.
  revert a. induction s as [|c s IH]; intros a; cbn; [done|]. by destruct (hex_value c).
Qed.

Lemma hex_fold_le a s b : hex_fold a s = Some b -> (a <= b)%N.
Proof.
  revert a. induction s as [|c s IH]; cbn; intros a; [by intros [= ->]|].
  destruct (hex_value c) as [d|]; [|done]. intros H%IH. lia.
Qed.

(** Below the limit the overflow test never fires. *)
Lemma hex_digits_fold a s b : (b <= u64_max)%N -> hex_fold a s = Some b -> hex_digits a s = Some b.
Proof.
  intros Hb. revert a. induction s as [|c s IH]; cbn; intros a; [done|].
  destruct (hex_value c) as [d|]; [|done]. intros H. pose proof (hex_fold_le _ _ _ H).
  destruct (N.leb_spec (a * 16 + d) u64_max); [by apply IH|lia].
Qed.

Lemma hex_go_app up fuel n acc : hex_go up fuel n acc = hex_go up fuel n [] ++ acc.
Proof.
  revert n acc. induction fuel as [|f IH]; intros n acc; cbn; [done|].
  destruct (n <? 16)%N; [done|]. rewrite IH, (IH _ [_]), <- app_assoc. done.
Qed.

Lemma hex_fold_go up fuel n :
  fuel <> O -> (n < 16 ^ N.of_nat fuel)%N -> hex_fold 0 (hex_go up fuel n []) = Some n.
Proof.
  revert n. induction fuel as [|f IH]; intros n Hf Hn; [done|]. cbn [hex_go].
  pose proof (N.mod_lt n 16 ltac:(lia)) as Hm.
  destruct (N.ltb_spec n 16) as [H|H].
  - cbn. rewrite hex_value_digit by done. rewrite N.mod_small by done. done.
  - destruct f as [|f]; [cbn in Hn; lia|].
    rewrite hex_go_app, hex_fold_app, IH; [|done|].
    + cbn. rewrite hex_value_digit by done. f_equal. pose proof (N.div_mod n 16 ltac:(lia)). lia.
    + apply N.Div0.div_lt_upper_bound. rewrite <- N.pow_succ_r', <- Nat2N.inj_succ. done.
Qed.

Lemma hex_fold_zeros k s : hex_fold 0 (replicate k 48%N ++ s) = hex_fold 0 s.
Proof. induction k as [|k IH]; cbn; done. Qed.

Lemma hex_go_head up fuel n :
  fuel <> O -> exists d k, hex_go up fuel n [] = hex_digit up d :: k /\ (d < 16)%N.
Proof.
  revert n. induction fuel as [|f IH]; intros n Hf; [done|]. cbn [hex_go].
  pose proof (N.mod_lt n 16 ltac:(lia)) as Hm.
  destruct (n <? 16)%N; [by eauto|].
  destruct f as [|f]; [cbn; by eauto|].
  destruct (IH (n / 16)%N ltac:(done)) as (d & k & E & ?).
  rewrite hex_go_app, E. cbn. eauto.
Qed.

Lemma u64_lt_16 n : (n <= u64_max)%N -> (n < 16 ^ N.of_nat 16)%N.
Proof. unfold u64_max. cbn. lia. Qed.

(** [u64::from_str_radix] reads back every [u64] that was formatted in hexadecimal. *)
Lemma from_str_radix_fmt_hex up n : (n <= u64_max)%N -> from_str_radix_16 (fmt_hex up n) = Some n.
Proof.
  intros Hn. unfold from_str_radix_16, fmt_hex.
  assert (E := hex_fold_go up 16 n ltac:(done) (u64_lt_16 n Hn)).
  destruct (hex_go_head up 16 n ltac:(done)) as (d & k & E' & Hd). rewrite E' in *.
  rewrite hex_digit_not_plus by done. by apply hex_digits_fold.
Qed.

Lemma from_str_radix_pad up w n :
  (n <= u64_max)%N -> from_str_radix_16 (pad_left w (fmt_hex up n)) = Some n.
Proof.
  intros Hn. unfold pad_left. destruct (w - length (fmt_hex up n))%nat as [|j] eqn:Ej.
  - by apply from_str_radix_fmt_hex.
  - change (replicate (S j) 48%N) with (48%N :: replicate j 48%N). cbn [app from_str_radix_16].
    change (48 =? 43)%N with false. cbn iota. apply hex_digits_fold; [done|].
    change (48%N :: replicate j 48%N ++ fmt_hex up n) with (replicate (S j) 48%N ++ fmt_hex up n).
    rewrite hex_fold_zeros. apply hex_fold_go; [done|by apply u64_lt_16].
Qed.

Lemma fmt_hex_inj up n m :
  (n <= u64_max)%N -> (m <= u64_max)%N -> fmt_hex up n = fmt_hex up m -> n = m.
Proof.
  intros Hn Hm E. apply (f_equal from_str_radix_16) in E.
  rewrite !from_str_radix_fmt_hex in E by done. by injection E.
Qed.

Lemma len_hex2 up b : length (hex2 up b) = 2%nat.
Proof. destruct up, b; vm_compute; reflexivity. Qed.

Lemma hex2_inj up b c : hex2 up b = hex2 up c -> b = c.
Proof.
  unfold hex2. intros H. apply (f_equal from_str_radix_16) in H.
  rewrite !from_str_radix_pad in H by (pose proof (byte_bound b); pose proof (byte_bound c); unfold u64_max; lia).
  injection H as H. by apply to_N_inj.
Qed.

Lemma len_hex2s up bs : length (hex2s up bs) = (2 * length bs)%nat.
Proof.
  unfold hex2s. induction bs as [|b bs IH]; [done|]. cbn [map concat]. rewrite length_app, len_hex2, IH. cbn. lia.
Qed.

Lemma hex2s_inj up bs cs : hex2s up bs = hex2s up cs -> bs = cs.
Proof.
  revert cs. induction bs as [|b bs IH]; intros cs H.
  - destruct cs as [|c cs]; [done|]. apply (f_equal length) in H. rewrite !len_hex2s in H. done.
  - destruct cs as [|c cs]; [apply (f_equal length) in H; rewrite !len_hex2s in H; done|].
    unfold hex2s in H. cbn [map concat] in H. apply app_inj_1 in H as [H1 H2]; [|by rewrite !len_hex2].
    f_equal; [by eapply hex2_inj|by apply IH].
Qed.
