(* ===== verification/Json.v ===== *)
(** JSON values: the [serde_json::Value] the processing results are built from, validated as and
    redacted in.  [serde_json::Map] is an ordered map on strings: an object is the list of its
    entries, and [obj_insert] keeps the keys in increasing order. *)

From S2P Require Import Prelude Text.

(** [serde_json::Number]: an unsigned, a negative or a floating-point number (its bit pattern). *)
Inductive number : Type :=
| PosInt (n : N)
| NegInt (z : Z)
| Float (bits : N).

Inductive json : Type :=
| JNull
| JBool (b : bool)
| JNumber (n : number)
| JString (s : text)
| JArray (l : list json)
| JObject (m : list (text * json)).

Abbreviation jmap := (list (text * json)).

#[export] Instance number_eq_dec : EqDecision number.
Proof. solve_decision. Defined.

#[export] Instance json_eq_dec : EqDecision json.
Proof.
  refine (fix go x y : Decision (x = y) :=
    match x, y with
    | JNull, JNull => left eq_refl
    | JBool a, JBool b => cast_if (decide (a = b))
    | JNumber a, JNumber b => cast_if (decide (a = b))
    | JString a, JString b => cast_if (decide (a = b))
    | JArray a, JArray b => cast_if (@list_eq_dec _ go a b)
    | JObject a, JObject b => cast_if (@list_eq_dec _ (@prod_eq_dec text _ json go) a b)
    | _, _ => right _
    end); clear go; abstract congruence.
Defined.

(** * Accessors of [serde_json::Value] *)

Definition as_object (v : json) : option jmap := match v with JObject m => Some m | _ => None end.
Definition as_array (v : json) : option (list json) :=
  match v with JArray l => Some l | _ => None end.
Definition as_str (v : json) : option text := match v with JString s => Some s | _ => None end.
Definition as_bool (v : json) : option bool := match v with JBool b => Some b | _ => None end.
Definition as_u64 (v : json) : option N :=
  match v with JNumber (PosInt n) => Some n | _ => None end.

Definition is_null (v : json) : bool := match v with JNull => true | _ => false end.
Definition is_string (v : json) : bool := match v with JString _ => true | _ => false end.
Definition is_array (v : json) : bool := match v with JArray _ => true | _ => false end.
Definition is_object (v : json) : bool := match v with JObject _ => true | _ => false end.
Definition is_u64 (v : json) : bool :=
  match v with JNumber (PosInt _) => true | _ => false end.

(** * [serde_json::Map] and [BTreeMap<String, _>] *)

Section btree_map.
Context {A : Type}.

Fixpoint obj_get (k : text) (m : list (text * A)) : option A :=
  match m with
  | [] => None
  | (k', v) :: m => if decide (k = k') then Some v else obj_get k m
  end.

Fixpoint obj_insert (k : text) (v : A) (m : list (text * A)) : list (text * A) :=
  match m with
  | [] => [(k, v)]
  | (k', v') :: m' =>
      if decide (k = k') then (k, v) :: m'
      else if text_leb k k' then (k, v) :: m
      else (k', v') :: obj_insert k v m'
  end.

(** [get_mut] followed by an assignment through the reference. *)
Fixpoint obj_alter (f : A -> A) (k : text) (m : list (text * A)) : list (text * A) :=
  match m with
  | [] => []
  | (k', v) :: m => if decide (k = k') then (k', f v) :: m else (k', v) :: obj_alter f k m
  end.

(** [entry(k).or_default()] followed by an update through the reference. *)
Definition obj_entry (d : A) (f : A -> A) (k : text) (m : list (text * A)) : list (text * A) :=
  obj_insert k (f (default d (obj_get k m))) m.

Definition obj_keys (m : list (text * A)) : list text := map fst m.
Definition obj_values (m : list (text * A)) : list A := map snd m.

Lemma obj_alter_keys f k m : obj_keys (obj_alter f k m) = obj_keys m.
Proof.
  induction m as [|[k' v] m IH]; cbn; [done|]. case_decide; cbn; [done|]. f_equal. apply IH.
Qed.

Lemma obj_alter_length f k m : length (obj_alter f k m) = length m.
Proof.
  rewrite <- (length_map fst), <- (length_map fst m). f_equal. apply obj_alter_keys.
Qed.

Lemma obj_get_alter f k j m :
  obj_get j (obj_alter f k m) = if decide (j = k) then f <$> obj_get j m else obj_get j m.
Proof.
  induction m as [|[k' v] m IH]; cbn; [by case_decide|].
  destruct (decide (k = k')); cbn; destruct (decide (j = k')); subst; rewrite ?IH;
    repeat case_decide; by subst.
Qed.

Lemma obj_get_alter_eq f k m : obj_get k (obj_alter f k m) = f <$> obj_get k m.
Proof. rewrite obj_get_alter. by case_decide. Qed.

Lemma obj_get_alter_ne f k j m : j <> k -> obj_get j (obj_alter f k m) = obj_get j m.
Proof. intros H. rewrite obj_get_alter. by case_decide. Qed.

Lemma obj_get_insert k j v m :
  obj_get j (obj_insert k v m) = if decide (j = k) then Some v else obj_get j m.
Proof.
  induction m as [|[k' v'] m IH]; cbn; [by repeat case_decide|].
  destruct (decide (k = k')); [|destruct (text_leb k k')]; cbn;
    repeat case_decide; by subst.
Qed.

Lemma obj_get_entry d f k j m :
  obj_get j (obj_entry d f k m) =
    if decide (j = k) then Some (f (default d (obj_get j m))) else obj_get j m.
Proof. unfold obj_entry. rewrite obj_get_insert. case_decide; by subst. Qed.

Lemma obj_get_Some_In k v m : obj_get k m = Some v -> (k, v) ∈ m.
Proof.
  induction m as [|[k' v'] m IH]; cbn; [done|]. case_decide as E.
  - intros [= ->]. subst. left.
  - intros H. right. auto.
Qed.
End btree_map.

(** The object a serialized struct gives: its fields inserted in the order of the declaration. *)
Definition obj_of (fields : jmap) : jmap := foldl (fun m kv => obj_insert kv.1 kv.2 m) [] fields.

(** An object whose fields have distinct keys: its lookups, keys and size are those of the fields. *)
Lemma obj_insert_keys k (v : json) m j : j ∈ obj_keys (obj_insert k v m) <-> j = k \/ j ∈ obj_keys m.
Proof.
  unfold obj_keys. induction m as [|[k' v'] m IH]; cbn; [set_solver|].
  case_decide; subst; cbn; [set_solver|]. destruct (text_leb k k'); cbn; rewrite ?elem_of_cons in *; naive_solver.
Qed.

Lemma obj_insert_length k (v : json) m : k ∉ obj_keys m -> length (obj_insert k v m) = S (length m).
Proof.
  unfold obj_keys. induction m as [|[k' v'] m IH]; cbn; [done|]. rewrite not_elem_of_cons. intros [? ?].
  rewrite decide_False by done. destruct (text_leb k k'); cbn; [done|]. f_equal. auto.
Qed.

Lemma obj_of_from (fields m : jmap) :
  NoDup (map fst fields) -> (forall k, k ∈ map fst fields -> k ∉ obj_keys m) ->
  let m' := foldl (fun m kv => obj_insert kv.1 kv.2 m) m fields in
  (forall k, obj_get k m' = match obj_get k fields with Some v => Some v | None => obj_get k m end)
  /\ length m' = (length m + length fields)%nat
  /\ (forall k, k ∈ obj_keys m' <-> k ∈ obj_keys m \/ k ∈ map fst fields).
Proof.
  revert m. induction fields as [|[k v] fields IH]; intros m Hnd Hm; cbn.
  { split_and!; [done|lia|set_solver]. }
  inversion Hnd as [|? ? Hk Hnd']; subst. destruct (IH (obj_insert k v m)) as (H1 & H2 & H3); [done| |].
  { intros j Hj. rewrite obj_insert_keys. intros [->|?]; [done|]. apply (Hm j); [by right|done]. }
  split_and!.
  - intros j. rewrite H1, obj_get_insert. case_decide; [subst|done].
    destruct (obj_get k fields) as [w|] eqn:E; [|done]. apply obj_get_Some_In in E.
    destruct Hk. apply list_elem_of_fmap. by exists (k, w).
  - rewrite H2, obj_insert_length; [cbn; lia|]. apply Hm. left.
  - intros j. rewrite H3, obj_insert_keys, elem_of_cons. naive_solver.
Qed.

Section obj_of.
Context (fields : jmap) (distinct : NoDup (map fst fields)).

Lemma obj_get_of k : obj_get k (obj_of fields) = obj_get k fields.
Proof.
  unfold obj_of. destruct (obj_of_from fields [] distinct) as [H _]; [set_solver|]. rewrite H.
  by destruct (obj_get k fields).
Qed.

Lemma length_of : length (obj_of fields) = length fields.
Proof. unfold obj_of. by destruct (obj_of_from fields [] distinct) as (_ & -> & _); [set_solver|]. Qed.

Lemma obj_keys_of k : k ∈ obj_keys (obj_of fields) <-> k ∈ map fst fields.
Proof.
  unfold obj_of. destruct (obj_of_from fields [] distinct) as (_ & _ & H); [set_solver|]. rewrite H.
  cbn. set_solver.
Qed.
End obj_of.

(** [Value::get] with a string index. *)
Definition get (v : json) (k : text) : option json := as_object v ≫= obj_get k.

(** [Value::get_mut] with a string index. *)
Definition alter_key (f : json -> json) (k : text) (v : json) : json :=
  match v with JObject m => JObject (obj_alter f k m) | _ => v end.

(** [Value::pointer] on a path of object keys. *)
Definition pointer (v : json) (path : list text) : option json :=
  foldl (fun o k => o ≫= fun v => get v k) (Some v) path.

(** [Value::pointer_mut] on a path of object keys. *)
Fixpoint alter_pointer (f : json -> json) (path : list text) (v : json) : json :=
  match path with
  | [] => f v
  | k :: path => alter_key (alter_pointer f path) k v
  end.

(** A mutable iteration over an array. *)
Definition alter_array (f : json -> json) (v : json) : json :=
  match v with JArray l => JArray (map f l) | _ => v end.

(** * Serialization helpers *)

Definition jstr (s : string) : json := JString (txt s).
Definition jnat (n : N) : json := JNumber (PosInt n).
Definition jopt {A} (f : A -> json) (o : option A) : json :=
  match o with Some a => f a | None => JNull end.
Definition jlist {A} (f : A -> json) (l : list A) : json := JArray (map f l).

(** An object with the given fields. *)
Definition jobj (fields : list (string * json)) : json := JObject (obj_of (map (fun kv => (txt kv.1, kv.2)) fields)).

(** A field that [skip_serializing_if = "Option::is_none"] leaves out. *)
Definition opt_field {A} (k : string) (f : A -> json) (o : option A) : jmap :=
  match o with Some a => [(txt k, f a)] | None => [] end.
