(* ===== verification/Domain.v ===== *)
(** The shared product types of [crates/domain]: the crash type, the processing state and the
    normalized values that keep the text they were computed from. *)

From S2P Require Import Prelude Text Json.

Module CrashType.
Inductive t : Type := Crash | Assert | Ensure | Unknown.

#[global] Instance eq_dec : EqDecision t.
Proof. solve_decision. Defined.

(** [CrashType::classify]. *)
Definition classify (error_type : text) : t :=
  if decide (error_type = txt "Crash") then Crash
  else if decide (error_type = txt "Assert") then Assert
  else if decide (error_type = txt "Ensure") then Ensure
  else Unknown.

(** The [snake_case] name a serialized value carries. *)
Definition name (c : t) : text :=
  match c with
  | Crash => txt "crash" | Assert => txt "assert" | Ensure => txt "ensure"
  | Unknown => txt "unknown"
  end.

Definition to_json (c : t) : json := JString (name c).
End CrashType.

Module ProcessingState.
Inductive t : Type :=
| Received | Stored | Parsed | AwaitingSymbols | Symbolicating | Processed | Failed
| Quarantined.

#[global] Instance eq_dec : EqDecision t.
Proof. solve_decision. Defined.

Definition name (s : t) : text :=
  match s with
  | Received => txt "received" | Stored => txt "stored" | Parsed => txt "parsed"
  | AwaitingSymbols => txt "awaiting_symbols" | Symbolicating => txt "symbolicating"
  | Processed => txt "processed" | Failed => txt "failed" | Quarantined => txt "quarantined"
  end.
End ProcessingState.

Module NormalizedValue.
Record t : Type := Mk { original : text; normalized : text }.

(** [NormalizedValue::path]: backslashes become slashes. *)
Definition path (value : text) : t :=
  {| original := value; normalized := replace value (txt "\") (txt "/") |}.

(** [file_name.strip_suffix(".dll").or_else(|| file_name.strip_suffix(".exe"))]. *)
Definition strip_binary_suffix (file_name : text) : text :=
  match strip_suffix file_name (txt ".dll") with
  | Some stem => stem
  | None => default file_name (strip_suffix file_name (txt ".exe"))
  end.

(** [NormalizedValue::module]: the lower-case stem of the last path component. *)
Definition module (value : text) : t :=
  let file_name := to_ascii_lowercase (default value (head (rsplit_slash value))) in
  {| original := value; normalized := strip_binary_suffix file_name |}.

(** [NormalizedValue::function]. *)
Definition function (value : text) : t :=
  {| original := value; normalized := trim value |}.

(** [NormalizedValue::platform]: the Windows names are one platform. *)
Definition platform (value : text) : t :=
  let identifier := to_ascii_lowercase (trim value) in
  {| original := value;
     normalized := if decide (identifier ∈ [txt "win64"; txt "windows"; txt "windowsnoeditor"])
                   then txt "windows" else identifier |}.

Definition to_json (v : t) : json :=
  JObject (obj_of [(txt "original", JString (original v));
                   (txt "normalized", JString (normalized v))]).
End NormalizedValue.

(** * Properties *)

Import NormalizedValue.

(** Every constructor keeps the text it was given. *)
Lemma original_kept value :
  original (path value) = value /\ original (module value) = value
  /\ original (function value) = value /\ original (platform value) = value.
Proof. done. Qed.

Lemma elem_of_lower c s : c ∈ to_ascii_lowercase s <-> exists d, d ∈ s /\ c = ascii_lower d.
Proof.
  unfold to_ascii_lowercase. rewrite list_elem_of_fmap. naive_solver.
Qed.

Lemma is_slash_lower c : is_slash (ascii_lower c) = is_slash c.
Proof.
  unfold ascii_lower. destruct (is_ascii_upper c) eqn:E; [|done].
  apply in_range_true in E. unfold is_slash. split_ranges; done.
Qed.

Lemma strip_binary_suffix_prefix s : exists k, s = strip_binary_suffix s ++ k.
Proof.
  unfold strip_binary_suffix.
  destruct (strip_suffix s (txt ".dll")) as [k|] eqn:E1.
  { apply strip_suffix_Some in E1. eauto. }
  destruct (strip_suffix s (txt ".exe")) as [k|] eqn:E2; cbn.
  { apply strip_suffix_Some in E2. eauto. }
  exists []. by rewrite app_nil_r.
Qed.

Lemma path_no_backslash value : 92%N ∉ normalized (path value).
Proof.
  unfold path; cbn [normalized]. change (txt "\") with [92%N]. change (txt "/") with [47%N].
  cbn [replace]. induction value as [|c value IH]; cbn; [apply not_elem_of_nil|].
  destruct (N.eqb_spec 92 c) as [<-|Hc]; cbn; rewrite not_elem_of_cons; split; try done.
Qed.

Lemma module_no_slash value : Forall (fun c => is_slash c = false) (normalized (module value)).
Proof.
  cbn [module normalized].
  set (leaf := default value (head (rsplit_slash value))).
  assert (Hleaf : Forall (fun c => is_slash c = false) leaf).
  { unfold leaf, rsplit_slash. pose proof (split_on_no_sep is_slash value) as H.
    pose proof (split_on_ne is_slash value) as Hne. revert H Hne.
    generalize (split_on is_slash value). intros l H Hne. destruct l using rev_ind; [done|].
    rewrite reverse_snoc. cbn. apply Forall_app in H as [_ H]. by rewrite Forall_singleton in H. }
  destruct (strip_binary_suffix_prefix (to_ascii_lowercase leaf)) as [k Hk].
  assert (Forall (fun c => is_slash c = false) (to_ascii_lowercase leaf)) as Hl.
  { apply Forall_forall. intros c (d & Hd & ->)%elem_of_lower. rewrite is_slash_lower.
    rewrite Forall_forall in Hleaf. by apply Hleaf. }
  rewrite Hk in Hl. by apply Forall_app in Hl as [? _].
Qed.

Lemma trim_lower s : trim (to_ascii_lowercase s) = to_ascii_lowercase (trim s).
Proof.
  assert (H : forall s, trim_start (to_ascii_lowercase s) = to_ascii_lowercase (trim_start s)).
  { clear s. intros s. induction s as [|c s IH]; [done|]. cbn. rewrite is_whitespace_lower.
    by destruct (is_whitespace c). }
  unfold trim, trim_end. rewrite H. unfold to_ascii_lowercase in *.
  rewrite <- fmap_reverse, H. by rewrite <- fmap_reverse.
Qed.

Lemma platform_idemp value :
  normalized (platform (normalized (platform value))) = normalized (platform value).
Proof.
  assert (H : forall v i, to_ascii_lowercase (trim v) = i -> to_ascii_lowercase (trim i) = i).
  { intros v i <-. by rewrite trim_lower, trim_idemp, to_ascii_lowercase_idemp. }
  cbn [platform normalized]. specialize (H value _ eq_refl). revert H.
  generalize (to_ascii_lowercase (trim value)). intros i Hi.
  destruct (decide (i ∈ [txt "win64"; txt "windows"; txt "windowsnoeditor"])); [vm_compute; done|].
  rewrite Hi. by rewrite decide_False.
Qed.
