(* ===== verification/LogTail.v ===== *)
(** The bounded log tail of [crates/unreal/src/lib.rs]: [ProjectLogTail::extract] keeps the last
    lines of a log within a byte and a line limit, on character boundaries. *)

From S2P Require Import Prelude Text Json.

(** * String slices *)

(** [str::is_char_boundary]. *)
Definition is_char_boundary (s : bytes) (i : nat) : bool :=
  match i with
  | O => true
  | _ => if (length s <=? i)%nat then (length s =? i)%nat
         else negb (is_cont (nth i s Byte.x00))
  end.

(** [&s[i..]]: [None] is the panic of a slice that starts inside a character. *)
Fixpoint str_from (s : text) (i : nat) {struct s} : option text :=
  match i with
  | O => Some s
  | _ => match s with
         | [] => None
         | c :: s => let w := length (utf8_char c) in
                     if (w <=? i)%nat then str_from s (i - w) else None
         end
  end.

(** [str::find] of an ASCII character, on the bytes of the string. *)
Fixpoint find_byte (x : Byte.byte) (s : bytes) : option nat :=
  match s with
  | [] => None
  | b :: s => if decide (b = x) then Some O else S <$> find_byte x s
  end.

Definition newline : Byte.byte := Byte.x0a.

Module ProjectLogTail.
Record t : Type := Mk { text_ : text; truncated : bool; invalid_utf8 : bool }.

#[global] Instance eq_dec : EqDecision t.
Proof. solve_decision. Defined.

(** The width of the sequence a leading byte announces. *)
Definition lead_width (b : Byte.byte) : option nat :=
  let x := Byte.to_N b in
  if in_range 194 223 x then Some 2%nat
  else if in_range 224 239 x then Some 3%nat
  else if in_range 240 244 x then Some 4%nat
  else None.

Definition valid_utf8 (bs : bytes) : bool := match from_utf8 bs with Some _ => true | None => false end.

(** The body of the loop over the candidates of [next_utf8_boundary]. *)
Definition boundary_from (input : bytes) (start candidate : nat) : option nat :=
  width ← lead_width (nth candidate input Byte.x00);
  let end_ := (candidate + width)%nat in
  if (start <? end_)%nat && (end_ <=? length input)%nat
     && valid_utf8 (take (end_ - candidate) (drop candidate input))
  then Some end_ else None.

Fixpoint first_some {A B} (f : A -> option B) (l : list A) : option B :=
  match l with
  | [] => None
  | x :: l => match f x with Some y => Some y | None => first_some f l end
  end.

Definition next_utf8_boundary (input : bytes) (start : nat) : nat :=
  if (start =? 0)%nat || (length input <=? start)%nat
     || negb (is_cont (nth start input Byte.x00))
  then start
  else default start
         (first_some (boundary_from input start) (seq (start - 3) (start - (start - 3)))).

(** The loop [while !value.is_char_boundary(start) { start += 1 }]. *)
Fixpoint advance_to_boundary (fuel : nat) (value : bytes) (start : nat) : nat :=
  match fuel with
  | O => start
  | S fuel => if is_char_boundary value start then start
              else advance_to_boundary fuel value (S start)
  end.

Definition suffix_start (value : bytes) (max_bytes : N) : nat :=
  if (len value <=? max_bytes)%N then O
  else let start := (length value - N.to_nat max_bytes)%nat in
       advance_to_boundary (length value) value start.

(** The loop [for index in (0..scan_end).rev()]; [index] is one more than the program's. *)
Fixpoint scan_lines (value : bytes) (max_lines : N) (index : nat) (lines : N) : nat :=
  match index with
  | O => O
  | S j => if decide (nth j value Byte.x00 = newline) then
             if (max_lines <? lines + 1)%N then index
             else scan_lines value max_lines j (lines + 1)
           else scan_lines value max_lines j lines
  end.

Definition scan_end (value : bytes) : nat :=
  if decide (last value = Some newline) then (length value - 1)%nat else length value.

Definition last_lines_start (value : bytes) (max_lines : N) : nat :=
  scan_lines value max_lines (scan_end value) 1.

(** Whether the kept window starts inside a line; [None] is an index out of bounds. *)
Definition starts_mid_line (input : bytes) (source_start : nat) (decoded : bytes)
    (byte_start : nat) : option bool :=
  if (0 <? byte_start)%nat then
    b ← decoded !! (byte_start - 1)%nat; Some (bool_decide (b <> newline))
  else if (0 <? source_start)%nat then
    b ← input !! (source_start - 1)%nat; Some (bool_decide (b <> newline))
  else Some false.

Definition partial_line_start (mid : bool) (byte_bounded : bytes) : nat :=
  if mid then
    match find_byte newline byte_bounded with
    | Some index => if (index + 1 <? length byte_bounded)%nat then (index + 1)%nat else O
    | None => O
    end
  else O.

(** [ProjectLogTail::extract]; [None] is a panic. *)
Definition extract (input : bytes) (max_bytes max_lines : N) : option t :=
  if (length input =? 0)%nat then
    Some {| text_ := []; truncated := false; invalid_utf8 := false |}
  else if (max_bytes =? 0)%N || (max_lines =? 0)%N then
    Some {| text_ := []; truncated := true; invalid_utf8 := false |}
  else
    let requested_start := (length input - N.to_nat max_bytes)%nat in
    let source_start := next_utf8_boundary input requested_start in
    let source := drop source_start input in
    let invalid := negb (valid_utf8 source) in
    let decoded := from_utf8_lossy source in
    let byte_start := suffix_start (as_bytes decoded) max_bytes in
    byte_bounded ← str_from decoded byte_start;
    mid ← starts_mid_line input source_start (as_bytes decoded) byte_start;
    let partial := partial_line_start mid (as_bytes byte_bounded) in
    complete_lines ← str_from byte_bounded partial;
    let line_start := last_lines_start (as_bytes complete_lines) max_lines in
    tail ← str_from complete_lines line_start;
    Some {| text_ := tail;
            truncated := (0 <? source_start)%nat || (0 <? byte_start)%nat
                         || (0 <? partial)%nat || (0 <? line_start)%nat;
            invalid_utf8 := invalid |}.

Definition to_json (t : t) : json :=
  JObject (obj_of [(txt "text", JString (text_ t)); (txt "truncated", JBool (truncated t));
                   (txt "invalid_utf8", JBool (invalid_utf8 t))]).
End ProjectLogTail.

(** * Character boundaries *)

Lemma utf8_char_width c : (1 <= length (utf8_char c) <= 4)%nat.
Proof. unfold utf8_char. repeat case_match; cbn; lia. Qed.

Lemma utf8_char_tail_cont c i :
  (0 < i < length (utf8_char c))%nat -> is_cont (nth i (utf8_char c) Byte.x00) = true.
Proof.
  unfold utf8_char, is_cont. rewrite in_range_true.
  div_facts c 64%N. div_facts (c / 64)%N 64%N. div_facts (c / 4096)%N 64%N.
  repeat case_match; cbn; intros Hi;
    (destruct i as [|[|[|[|i]]]]; try lia); cbn; rewrite to_N_byte_of by lia; lia.
Qed.

Lemma utf8_char_lead c :
  is_scalar c = true ->
  exists b k, utf8_char c = b :: k
  /\ (if (c <? 128)%N then Byte.to_N b = c /\ k = [] else (194 <= Byte.to_N b <= 244)%N)
  /\ (c <? 128 = false -> ProjectLogTail.lead_width b = Some (length (utf8_char c)))%N.
Proof.
  rewrite is_scalar_true. intros Hs. unfold utf8_char, ProjectLogTail.lead_width, in_range.
  rewrite div_262144, div_4096.
  div_facts c 64%N. div_facts (c / 64)%N 64%N. div_facts (c / 64 / 64)%N 64%N.
  destruct (N.ltb_spec c 128); [|destruct (N.ltb_spec c 2048); [|destruct (N.ltb_spec c 65536)]];
    do 2 eexists; (split; [reflexivity|]); rewrite ?to_N_byte_of by lia; cbn [length];
    split_ranges; split; try done; try lia.
Qed.

Lemma utf8_char_head_not_cont c k : is_cont (nth 0 (utf8_char c ++ k) Byte.x00) = false.
Proof.
  unfold utf8_char. rewrite div_262144, div_4096.
  div_facts c 64%N. div_facts (c / 64)%N 64%N. div_facts (c / 64 / 64)%N 64%N.
  destruct (N.ltb_spec c 128); [|destruct (N.ltb_spec c 2048); [|destruct (N.ltb_spec c 65536)]];
    cbn; apply in_range_false; unfold byte_of; destruct (Byte.of_N _) eqn:E; cbn; try lia;
    apply Byte.to_of_N in E; rewrite E; lia.
Qed.

Lemma str_from_0 s : str_from s 0 = Some s.
Proof. by destruct s. Qed.

Lemma str_from_spec s i t :
  str_from s i = Some t <-> exists p, s = p ++ t /\ i = length (as_bytes p).
Proof.
  revert i. induction s as [|c s IH]; intros i.
  - destruct i; cbn; (split; [|intros (p & E & ?)]).
    + intros [= <-]. by exists [].
    + symmetry in E. by apply app_nil in E as [_ ->].
    + done.
    + symmetry in E. apply app_nil in E as [-> _]. done.
  - destruct i as [|i].
    { rewrite str_from_0. split; [intros [= <-]; by exists []|]. intros ([|d p] & E & Hl); [by rewrite E|].
      rewrite as_bytes_cons, length_app in Hl. pose proof (utf8_char_width d). lia. }
    cbn. pose proof (utf8_char_width c). destruct (Nat.leb_spec (length (utf8_char c)) (S i)) as [H1|H1].
    + rewrite IH. split; intros (p & E & Hi).
      * exists (c :: p). rewrite as_bytes_cons, length_app. split; [by rewrite E|lia].
      * destruct p as [|d p]; [done|]. injection E as -> ->. exists p.
        rewrite as_bytes_cons, length_app in Hi. split; [done|lia].
    + split; [done|]. intros ([|d p] & E & Hi); [done|]. injection E as -> ->.
      rewrite as_bytes_cons, length_app in Hi. lia.
Qed.

Lemma boundary_cons c s i :
  (length (utf8_char c) <= i)%nat ->
  is_char_boundary (as_bytes (c :: s)) i = is_char_boundary (as_bytes s) (i - length (utf8_char c)).
Proof.
  intros H. pose proof (utf8_char_width c). rewrite as_bytes_cons. unfold is_char_boundary.
  destruct i as [|i]; [lia|]. rewrite length_app.
  destruct (S i - length (utf8_char c))%nat as [|j] eqn:Ej.
  - replace (S i) with (length (utf8_char c)) by lia.
    destruct s as [|d s].
    + change (as_bytes []) with (@nil Byte.byte). cbn [length].
      rewrite Nat.add_0_r, Nat.leb_refl. apply Nat.eqb_refl.
    + rewrite app_nth2, Nat.sub_diag, as_bytes_cons, length_app by lia.
      pose proof (utf8_char_width d).
      destruct (Nat.leb_spec (length (utf8_char c) + (length (utf8_char d) + length (as_bytes s)))
                  (length (utf8_char c))); [lia|].
      by rewrite utf8_char_head_not_cont.
  - destruct (Nat.leb_spec (length (utf8_char c) + length (as_bytes s)) (S i)),
      (Nat.leb_spec (length (as_bytes s)) (S j)); try lia.
    + apply eq_true_iff_eq. rewrite !Nat.eqb_eq. lia.
    + rewrite app_nth2 by lia. do 2 f_equal. f_equal. lia.
Qed.

(** A slice at a character boundary does not panic. *)
Lemma str_from_boundary s i :
  is_char_boundary (as_bytes s) i = true -> exists t, str_from s i = Some t.
Proof.
  revert i. induction s as [|c s IH]; intros i H.
  - destruct i; cbn in *; [eauto|done].
  - destruct i as [|i]; [rewrite str_from_0; eauto|]. cbn [str_from].
    pose proof (utf8_char_width c).
    destruct (Nat.leb_spec (length (utf8_char c)) (S i)) as [Hw|Hw].
    + apply IH. by rewrite boundary_cons in H.
    + exfalso. rewrite as_bytes_cons in H. unfold is_char_boundary in H. rewrite length_app in H.
      destruct (Nat.leb_spec (length (utf8_char c) + length (as_bytes s)) (S i)); [lia|].
      rewrite app_nth1 in H by lia. by rewrite utf8_char_tail_cont in H by lia.
Qed.

Lemma boundary_app p t : is_char_boundary (as_bytes (p ++ t)) (length (as_bytes p)) = true.
Proof.
  induction p as [|c p IH]; [done|]. change ((c :: p) ++ t) with (c :: (p ++ t)).
  rewrite boundary_cons, as_bytes_cons, length_app by (rewrite as_bytes_cons, length_app; lia).
  rewrite <- IH. f_equal. lia.
Qed.

(** An ASCII byte of an encoded string is a character of the string. *)
Lemma ascii_byte_split s j b :
  Forall (fun c => is_scalar c = true) s -> as_bytes s !! j = Some b -> (Byte.to_N b < 128)%N ->
  exists p q, s = p ++ Byte.to_N b :: q /\ j = length (as_bytes p).
Proof.
  intros Hs. revert j. induction Hs as [|c s Hc ? IH]; intros j Hj Hb; [done|].
  rewrite as_bytes_cons in Hj.
  destruct (decide (j < length (utf8_char c))%nat) as [Hlt|Hge].
  - rewrite lookup_app_l in Hj by done.
    destruct (utf8_char_lead c Hc) as (b0 & k & E & Hb0 & _).
    destruct j as [|j].
    + rewrite E in Hj. injection Hj as ->. exists [], s. split; [|done].
      destruct (c <? 128)%N; [by destruct Hb0 as [-> _]|lia].
    + exfalso. pose proof (utf8_char_tail_cont c (S j) ltac:(lia)) as Ht.
      rewrite (nth_lookup_Some _ _ _ _ Hj) in Ht. apply in_range_true in Ht. lia.
  - rewrite lookup_app_r in Hj by lia. destruct (IH _ Hj Hb) as (p & q & -> & E).
    exists (c :: p), q. split; [done|]. rewrite as_bytes_cons, length_app. lia.
Qed.

(** * The limits *)

Import ProjectLogTail.

Lemma boundary_length v : is_char_boundary v (length v) = true.
Proof. unfold is_char_boundary. destruct (length v) eqn:E; [done|]. by rewrite Nat.leb_refl, Nat.eqb_refl. Qed.

(** The search for a boundary stops at one, at most at the end of the string. *)
Lemma advance_to_boundary_spec fuel v start :
  (start <= length v)%nat -> (length v - start <= fuel)%nat ->
  let r := advance_to_boundary fuel v start in
  is_char_boundary v r = true /\ (start <= r <= length v)%nat.
Proof.
  revert start. induction fuel as [|fuel IH]; intros start H1 H2; cbn.
  - replace start with (length v) by lia. split; [apply boundary_length|lia].
  - destruct (is_char_boundary v start) eqn:E; [split; [done|lia]|].
    assert (start <> length v) by (intros ->; by rewrite boundary_length in E).
    destruct (IH (S start)); [lia..|]. split; [done|lia].
Qed.

Lemma suffix_start_spec v mb :
  let r := suffix_start v mb in
  is_char_boundary v r = true /\ (r <= length v)%nat /\ (len v - N.of_nat r <= mb)%N.
Proof.
  unfold suffix_start. destruct (N.leb_spec (len v) mb) as [H|H].
  - split; [done|]. split; [lia|]. lia.
  - unfold len in *.
    destruct (advance_to_boundary_spec (length v) v (length v - N.to_nat mb)) as [? ?]; [lia..|].
    split; [done|]. split; lia.
Qed.

(** The number of line feeds among the first [i] bytes. *)
Definition newlines (v : bytes) : N := len (filter (fun b => b = newline) v).

Lemma newlines_app v w : newlines (v ++ w) = (newlines v + newlines w)%N.
Proof. unfold newlines. by rewrite filter_app, len_app. Qed.

Lemma newlines_snoc v b :
  newlines (v ++ [b]) = (newlines v + if decide (b = newline) then 1 else 0)%N.
Proof. rewrite newlines_app. unfold newlines. rewrite filter_cons. by case_decide. Qed.

Lemma take_S_nth v j : (j < length v)%nat -> take (S j) v = take j v ++ [nth j v Byte.x00].
Proof.
  intros H. destruct (lookup_lt_is_Some_2 v j H) as [b Hb].
  rewrite (take_S_r _ _ _ Hb). by rewrite (nth_lookup_Some _ _ _ _ Hb).
Qed.

(** The line scan keeps at most [ml] lines: the line feeds between its result and the end of the
    scanned prefix number less than [ml], and it starts after a line feed or at the beginning. *)
Lemma scan_lines_spec v ml e i lines :
  (i <= e <= length v)%nat ->
  (lines + newlines (take i v) = 1 + newlines (take e v))%N -> (lines <= ml)%N ->
  let r := scan_lines v ml i lines in
  (r <= i)%nat /\ (1 + newlines (take e v) - newlines (take r v) <= ml)%N
  /\ (r = O \/ exists j, r = S j /\ v !! j = Some newline).
Proof.
  revert lines. induction i as [|j IH]; intros lines He Hl Hml; cbn.
  { rewrite take_0 in *. change (newlines []) with 0%N in *. split; [done|]. split; [lia|by left]. }
  rewrite take_S_nth, newlines_snoc in Hl by lia.
  destruct (decide (nth j v Byte.x00 = newline)) as [E|E].
  - destruct (N.ltb_spec ml (lines + 1)).
    + split; [done|]. split; [rewrite take_S_nth, newlines_snoc, decide_True by (done || lia); lia|].
      right. exists j. split; [done|]. destruct (lookup_lt_is_Some_2 v j ltac:(lia)) as [b Hb].
      rewrite Hb. f_equal. by rewrite <- E, (nth_lookup_Some _ _ _ _ Hb).
    + destruct (IH (lines + 1)%N) as (? & ? & ?); [lia..|]. split; [lia|done].
  - destruct (IH lines) as (? & ? & ?); [lia..|]. split; [lia|done].
Qed.

(** [str::lines] counts the line feeds, and the text after the last one. *)
Lemma lines_of_length ws :
  ws <> [] ->
  length (lines_of ws) = (length ws - if decide (last ws = Some []) then 1 else 0)%nat.
Proof.
  intros H. induction ws as [|w ws IH]; [done|]. destruct ws as [|w' ws].
  - cbn. destruct w; cbn; by case_decide.
  - change (lines_of (w :: w' :: ws)) with (strip_cr w :: lines_of (w' :: ws)).
    cbn [length]. rewrite IH by done. rewrite last_cons_cons. cbn [length].
    case_decide; lia.
Qed.

Definition count_char (c : char) (s : text) : nat := length (filter (fun d => d = c) s).

Lemma split_on_length c s : length (split_on (N.eqb c) s) = S (count_char c s).
Proof.
  unfold count_char. induction s as [|d s IH]; [done|]. cbn [split_on]. rewrite filter_cons.
  destruct (split_on (N.eqb c) s) as [|w ws] eqn:E; [done|].
  destruct (N.eqb_spec c d) as [<-|]; case_decide; cbn in *; try congruence; lia.
Qed.

Lemma lines_length_le s : (length (lines s) <= S (count_char 10 s))%nat.
Proof.
  unfold lines. rewrite lines_of_length by apply split_on_ne. rewrite split_on_length. lia.
Qed.

Lemma split_on_snoc c s : last (split_on (N.eqb c) (s ++ [c])) = Some [].
Proof.
  induction s as [|d s IH]; cbn.
  - by rewrite N.eqb_refl.
  - destruct (split_on (N.eqb c) (s ++ [c])) as [|w ws] eqn:E; [by destruct (split_on_ne _ _ E)|].
    pose proof (split_on_length c (s ++ [c])) as Hl. rewrite E in Hl.
    assert (Hws : ws <> []).
    { intros ->. unfold count_char in Hl. rewrite filter_app, filter_cons, decide_True in Hl by done.
      rewrite length_app in Hl. cbn in Hl. lia. }
    destruct ws; [done|]. by destruct (c =? d)%N.
Qed.

Lemma lines_length_snoc s : length (lines (s ++ [10%N])) = S (count_char 10 s).
Proof.
  unfold lines. rewrite lines_of_length by apply split_on_ne.
  rewrite split_on_snoc, decide_True by done. rewrite split_on_length. unfold count_char.
  rewrite filter_app, filter_cons, decide_True by done. rewrite length_app. cbn. lia.
Qed.

Abbreviation scalars := (Forall (fun c => is_scalar c = true)).

Lemma newlines_utf8_char c :
  is_scalar c = true -> newlines (utf8_char c) = if decide (c = 10%N) then 1%N else 0%N.
Proof.
  intros Hc. destruct (utf8_char_lead c Hc) as (b & k & E & Hb & _).
  assert (Hk : forall x, x ∈ k -> x <> newline).
  { intros x [i Hi]%list_elem_of_lookup_1 ->.
    assert (Hi' : utf8_char c !! S i = Some newline) by by rewrite E.
    pose proof (lookup_lt_Some _ _ _ Hi').
    pose proof (utf8_char_tail_cont c (S i) ltac:(lia)) as Ht.
    by rewrite (nth_lookup_Some _ _ _ _ Hi') in Ht. }
  rewrite E. unfold newlines. rewrite filter_cons.
  assert (filter (fun b => b = newline) k = []) as ->.
  { destruct (filter _ k) as [|x l] eqn:Ef; [done|]. exfalso.
    assert (Hx : x ∈ filter (fun b => b = newline) k) by (rewrite Ef; left).
    apply list_elem_of_filter in Hx as [-> Hx]. by apply (Hk _ Hx). }
  destruct (N.ltb_spec c 128) as [Hlt|Hge].
  - destruct Hb as [Hb _]. case_decide as E1; case_decide as E2; try done.
    + subst b. by rewrite <- Hb in E2.
    + exfalso. apply E1. apply to_N_inj. by rewrite Hb, E2.
  - rewrite !decide_False; [done|lia|]. intros ->. cbn in Hb. lia.
Qed.

Lemma newlines_as_bytes s : scalars s -> newlines (as_bytes s) = N.of_nat (count_char 10 s).
Proof.
  unfold count_char. induction 1 as [|c s Hc ? IH]; [done|].
  rewrite as_bytes_cons, newlines_app, newlines_utf8_char, IH, filter_cons by done.
  case_decide; cbn [length]; lia.
Qed.

Lemma as_bytes_nil s : as_bytes s = [] -> s = [].
Proof.
  destruct s as [|c s]; [done|]. rewrite as_bytes_cons. pose proof (utf8_char_width c).
  intros E. apply app_nil in E as [E _]. rewrite E in *. cbn in *. lia.
Qed.

Lemma last_newline s :
  scalars s -> last (as_bytes s) = Some newline -> exists s', s = s' ++ [10%N].
Proof.
  intros Hs Hl. rewrite last_lookup in Hl.
  destruct (ascii_byte_split s _ _ Hs Hl) as (p & q & E & Hp); [done|].
  exists p. rewrite E. do 2 f_equal. apply as_bytes_nil.
  rewrite E, as_bytes_app, as_bytes_cons, !length_app in Hp.
  change (length (utf8_char (Byte.to_N newline))) with 1%nat in Hp.
  destruct (as_bytes q); [done|]. cbn [length] in Hp. lia.
Qed.

Lemma take_as_bytes_app p q : take (length (as_bytes p)) (as_bytes (p ++ q)) = as_bytes p.
Proof. by rewrite as_bytes_app, take_app_length. Qed.

(** The last lines: a suffix of at most [ml] lines that starts at the start of a line. *)
Lemma last_lines_start_spec s ml :
  scalars s -> (1 <= ml)%N ->
  exists p t, s = p ++ t /\ last_lines_start (as_bytes s) ml = length (as_bytes p)
  /\ (len (lines t) <= ml)%N /\ (p = [] \/ last p = Some 10%N).
Proof.
  intros Hs Hml. unfold last_lines_start.
  assert (He : (scan_end (as_bytes s) <= length (as_bytes s))%nat)
    by (unfold scan_end; case_decide; lia).
  destruct (scan_lines_spec (as_bytes s) ml (scan_end (as_bytes s)) (scan_end (as_bytes s)) 1)
    as (Hr & Hn & Hp); [lia..|].
  set (r := scan_lines _ _ _ _) in *.
  assert (exists p t, s = p ++ t /\ r = length (as_bytes p) /\ (p = [] \/ last p = Some 10%N))
    as (p & t & E & Er & Hlast).
  { destruct Hp as [->|(j & -> & Hj)]; [exists [], s; by auto|].
    destruct (ascii_byte_split s j newline Hs Hj) as (p & q & E & Hj'); [done|].
    exists (p ++ [10%N]), q. rewrite <- app_assoc. split; [done|].
    rewrite as_bytes_app, length_app, last_snoc. change (length (as_bytes [10%N])) with 1%nat.
    split; [lia|by right]. }
  exists p, t. do 2 (split; [done|]). split; [|done].
  rewrite Er in Hn, Hr. clear Hp Er r. subst s. rewrite take_as_bytes_app in Hn.
  apply Forall_app in Hs as Hs'. destruct Hs' as [Hps Hts].
  unfold len, scan_end in *. case_decide as Hd.
  - destruct (last_newline _ Hs Hd) as [s' Es'].
    assert (exists t', t = t' ++ [10%N]) as [t' ->].
    { destruct t as [|c t _] using rev_ind.
      - rewrite app_nil_r in *. exfalso. destruct (as_bytes p) eqn:Eb; [done|cbn in Hr; lia].
      - rewrite app_assoc in Es'. apply app_inj_tail in Es' as [_ ->]. by exists t. }
    rewrite lines_length_snoc. apply Forall_app in Hts as [Hts _].
    rewrite app_assoc, (as_bytes_app _ [10%N]), length_app in Hn.
    change (length (as_bytes [10%N])) with 1%nat in Hn. rewrite Nat.add_sub, take_app_length in Hn.
    rewrite as_bytes_app, newlines_app, !newlines_as_bytes in Hn by done. lia.
  - rewrite firstn_all, as_bytes_app, newlines_app, !newlines_as_bytes in Hn by done.
    pose proof (lines_length_le t). lia.
Qed.

Lemma suffix_start_str s mb :
  exists p t, s = p ++ t /\ suffix_start (as_bytes s) mb = length (as_bytes p)
  /\ (str_len t <= mb)%N /\ ((str_len s <= mb)%N -> p = []).
Proof.
  destruct (suffix_start_spec (as_bytes s) mb) as (Hb & Hl & Hm).
  destruct (str_from_boundary _ _ Hb) as [t Ht].
  apply str_from_spec in Ht as (p & E & Hp). exists p, t. do 2 (split; [done|]). split.
  - rewrite Hp, E in Hm. unfold str_len, len in *. rewrite as_bytes_app, length_app in Hm. lia.
  - intros H. apply as_bytes_nil. destruct (as_bytes p); [done|]. exfalso.
    unfold suffix_start in Hp. unfold str_len in H. apply N.leb_le in H. rewrite H in Hp. done.
Qed.

Lemma find_byte_Some x s i :
  find_byte x s = Some i -> s !! i = Some x /\ forall j, (j < i)%nat -> s !! j <> Some x.
Proof.
  revert i. induction s as [|b s IH]; cbn; intros i; [done|]. case_decide as E.
  - intros [= <-]. subst. split; [done|]. intros j. lia.
  - destruct (find_byte x s) as [k|]; [|done]. intros [= <-]. destruct (IH k eq_refl) as [H1 H2].
    split; [done|]. intros [|j] Hj; cbn; [congruence|]. apply H2. lia.
Qed.

Lemma find_byte_None x s : find_byte x s = None -> x ∉ s.
Proof.
  induction s as [|b s IH]; cbn; [intros _; apply not_elem_of_nil|]. case_decide; [done|].
  destruct (find_byte x s); [done|]. intros _. rewrite not_elem_of_cons. auto.
Qed.

(** A text whose only line feed, if any, is its last character. *)
Definition single_line (t : text) : Prop := forall q r, t = q ++ 10%N :: r -> r = [].

Lemma partial_line_start_str mid s :
  scalars s ->
  exists p t, s = p ++ t /\ partial_line_start mid (as_bytes s) = length (as_bytes p)
  /\ (p = [] \/ last p = Some 10%N) /\ (mid = true -> p = [] -> single_line t).
Proof.
  intros Hs. destruct mid; [|exists [], s; split_and!; [done|done|by left|done]].
  cbn [partial_line_start].
  destruct (find_byte newline (as_bytes s)) as [i|] eqn:E.
  - apply find_byte_Some in E as [Hi Hfirst].
    pose proof (lookup_lt_Some _ _ _ Hi) as Hlt.
    destruct (Nat.ltb_spec (i + 1) (length (as_bytes s))) as [H|H].
    + destruct (ascii_byte_split s i newline Hs Hi) as (p & q & E & Hp); [done|].
      exists (p ++ [10%N]), q. rewrite <- app_assoc. split; [done|].
      rewrite as_bytes_app, length_app, last_snoc. change (length (as_bytes [10%N])) with 1%nat.
      split; [lia|]. split; [by right|]. intros _ Hnil. by apply app_nil in Hnil as [_ ?].
    + exists [], s. split; [done|]. split; [done|]. split; [by left|]. intros _ _ q r E.
      assert (Hq : as_bytes s !! length (as_bytes q) = Some newline).
      { rewrite E, as_bytes_app, lookup_app_r by lia. by rewrite Nat.sub_diag. }
      destruct (decide (length (as_bytes q) < i)%nat) as [Hlt'|Hge]; [by destruct (Hfirst _ Hlt')|].
      apply as_bytes_nil. rewrite E, as_bytes_app, as_bytes_cons, !length_app in H.
      change (length (utf8_char 10)) with 1%nat in H. destruct (as_bytes r); [done|cbn in H; lia].
  - apply find_byte_None in E. exists [], s. split; [done|]. split; [done|]. split; [by left|].
    intros _ _ q r ->. exfalso. apply E. rewrite as_bytes_app, as_bytes_cons.
    apply elem_of_app. right. apply elem_of_app. left. by left.
Qed.

Lemma next_utf8_boundary_le input start :
  (start <= length input)%nat ->
  (start <= next_utf8_boundary input start <= length input)%nat.
Proof.
  intros H. unfold next_utf8_boundary. case_match; [done|].
  assert (Hf : forall l, match first_some (boundary_from input start) l with
    | Some e => (start <= e <= length input)%nat | None => True end).
  { intros l. induction l as [|c l IH]; cbn; [done|].
    destruct (boundary_from input start c) as [e|] eqn:E; [|done].
    unfold boundary_from in E. destruct (lead_width _) as [w|]; [|done].
    cbn [mbind option_bind] in E. case_match eqn:Hc; [|done]. injection E as <-.
    apply andb_prop in Hc as [Hc _]. apply andb_prop in Hc as [Hc1 Hc2].
    apply Nat.ltb_lt in Hc1. apply Nat.leb_le in Hc2. lia. }
  specialize (Hf (seq (start - 3) (start - (start - 3)))).
  destruct (first_some _ _); cbn; lia.
Qed.

Lemma nonzero_as_bytes p : (0 <? length (as_bytes p))%nat = bool_decide (p <> []).
Proof.
  destruct p as [|c p]; [done|]. rewrite as_bytes_cons, length_app.
  pose proof (utf8_char_width c). rewrite bool_decide_true by done. apply Nat.ltb_lt. lia.
Qed.

(** What [extract] drops in front of the text it keeps, step by step: the bytes before the
    window, the characters before the byte limit, the rest of a cut line, and the oldest lines. *)
Lemma extract_steps input mb ml :
  input <> [] -> (1 <= mb)%N -> (1 <= ml)%N ->
  let ss := next_utf8_boundary input (length input - N.to_nat mb) in
  let source := drop ss input in
  exists p1 p2 p3 t mid,
    from_utf8_lossy source = p1 ++ p2 ++ p3 ++ t
    /\ (ss <= length input)%nat
    /\ starts_mid_line input ss (as_bytes (from_utf8_lossy source)) (length (as_bytes p1)) = Some mid
    /\ extract input mb ml = Some {| text_ := t;
         truncated := (0 <? ss)%nat || bool_decide (p1 <> []) || bool_decide (p2 <> [])
                      || bool_decide (p3 <> []);
         invalid_utf8 := negb (valid_utf8 source) |}
    /\ (str_len (p2 ++ p3 ++ t) <= mb)%N /\ (len (lines t) <= ml)%N
    /\ ((str_len (from_utf8_lossy source) <= mb)%N -> p1 = [])
    /\ (p2 = [] \/ last p2 = Some 10%N) /\ (mid = true -> p2 = [] -> single_line (p3 ++ t))
    /\ (p3 = [] \/ last p3 = Some 10%N).
Proof.
  intros Hi Hmb Hml ss source.
  assert (Hss : (ss <= length input)%nat) by (apply next_utf8_boundary_le; lia).
  pose proof (from_utf8_lossy_scalar source) as Hs.
  destruct (suffix_start_str (from_utf8_lossy source) mb) as (p1 & b & E1 & Hp1 & Hb & Hfit).
  rewrite E1, Forall_app in Hs. destruct Hs as [_ Hsb].
  assert (exists mid, starts_mid_line input ss (as_bytes (from_utf8_lossy source))
            (length (as_bytes p1)) = Some mid) as [mid Hmid].
  { unfold starts_mid_line. destruct (Nat.ltb_spec 0 (length (as_bytes p1))) as [H|H].
    - destruct (lookup_lt_is_Some_2 (as_bytes (from_utf8_lossy source)) (length (as_bytes p1) - 1))
        as [x ->]; [|by eauto]. rewrite E1, as_bytes_app, length_app. lia.
    - destruct (Nat.ltb_spec 0 ss); [|by eauto].
      destruct (lookup_lt_is_Some_2 input (ss - 1)) as [x ->]; [lia|by eauto]. }
  destruct (partial_line_start_str mid b Hsb) as (p2 & c & E2 & Hp2 & Hl2 & Hm2).
  rewrite E2, Forall_app in Hsb. destruct Hsb as [_ Hsc].
  destruct (last_lines_start_spec c ml Hsc Hml) as (p3 & t & E3 & Hp3 & Hlines & Hl3).
  exists p1, p2, p3, t, mid. rewrite <- E3, <- E2, <- E1. do 3 (split; [done|]).
  split; [|by auto 10].
  unfold extract. rewrite (proj2 (Nat.eqb_neq _ _)) by (by destruct input).
  rewrite !(proj2 (N.eqb_neq _ _)) by lia. cbn [orb].
  change (next_utf8_boundary input (length input - N.to_nat mb)) with ss. fold source.
  rewrite Hp1. rewrite (proj2 (str_from_spec _ (length (as_bytes p1)) b)) by eauto. cbn [mbind option_bind].
  rewrite Hmid. cbn [mbind option_bind]. rewrite Hp2.
  rewrite (proj2 (str_from_spec _ (length (as_bytes p2)) c)) by eauto. cbn [mbind option_bind].
  rewrite Hp3, (proj2 (str_from_spec _ (length (as_bytes p3)) t)) by eauto. cbn [mbind option_bind].
  by rewrite !nonzero_as_bytes.
Qed.

(** * Valid input: the window starts on a character boundary *)

(** A byte announcing a sequence of [w] bytes starts a sequence of [w] bytes. *)
Lemma lead_in_as_bytes s k w :
  scalars s -> lead_width (nth k (as_bytes s) Byte.x00) = Some w -> (k < length (as_bytes s))%nat ->
  exists p c q, s = p ++ c :: q /\ k = length (as_bytes p) /\ w = length (utf8_char c).
Proof.
  intros Hs. revert k. induction Hs as [|c s Hc ? IH]; intros k Hw Hk; [cbn in Hk; lia|].
  rewrite as_bytes_cons in Hw, Hk. rewrite length_app in Hk.
  destruct (utf8_char_lead c Hc) as (b & j & E & Hb & Hlead).
  destruct (decide (k < length (utf8_char c))%nat) as [Hlt|Hge].
  - rewrite app_nth1 in Hw by done. destruct k as [|k].
    + exists [], c, s. do 2 (split; [done|]). rewrite E in Hw. cbn [nth] in Hw.
      destruct (N.ltb_spec c 128) as [H1|H1].
      * destruct Hb as [Hb _]. unfold lead_width, in_range in Hw. rewrite Hb in Hw.
        revert Hw. split_ranges; done.
      * rewrite Hlead in Hw by done. by injection Hw.
    + pose proof (utf8_char_tail_cont c (S k) ltac:(lia)) as Ht. apply in_range_true in Ht.
      exfalso. unfold lead_width, in_range in Hw. revert Hw. split_ranges; done.
  - rewrite app_nth2 in Hw by lia. destruct (IH _ Hw ltac:(lia)) as (p & d & q & -> & Hp & Hd).
    exists (c :: p), d, q. split; [done|]. rewrite as_bytes_cons, length_app. split; [lia|done].
Qed.

(** The character around a byte that is not on a boundary. *)
Lemma split_inside s i :
  is_char_boundary (as_bytes s) i = false -> (i <= length (as_bytes s))%nat ->
  exists p c q, s = p ++ c :: q
  /\ (length (as_bytes p) < i < length (as_bytes p) + length (utf8_char c))%nat.
Proof.
  revert i. induction s as [|c s IH]; intros i Hb Hi.
  { destruct i; [done|cbn in Hi; lia]. }
  destruct (decide (i < length (utf8_char c))%nat) as [Hlt|Hge].
  - exists [], c, s. split; [done|]. cbn. destruct i; [done|lia].
  - rewrite boundary_cons in Hb by lia. rewrite as_bytes_cons, length_app in Hi.
    destruct (IH _ Hb ltac:(lia)) as (p & d & q & -> & ?).
    exists (c :: p), d, q. split; [done|]. rewrite as_bytes_cons, length_app. lia.
Qed.

Lemma valid_utf8_as_bytes s : scalars s -> valid_utf8 (as_bytes s) = true.
Proof. intros H. unfold valid_utf8. by rewrite from_utf8_as_bytes. Qed.

(** The candidate loop returns the end of the character that covers [start]. *)
Lemma boundary_from_inside p c q start k :
  scalars (p ++ c :: q) ->
  (length (as_bytes p) < start < length (as_bytes p) + length (utf8_char c))%nat ->
  (k <= length (as_bytes p))%nat ->
  boundary_from (as_bytes (p ++ c :: q)) start k =
    if decide (k = length (as_bytes p)) then Some (length (as_bytes p) + length (utf8_char c))%nat
    else None.
Proof.
  intros Hs Hst Hk. set (v := as_bytes (p ++ c :: q)).
  assert (Hv : v = as_bytes p ++ utf8_char c ++ as_bytes q)
    by (unfold v; by rewrite as_bytes_app, as_bytes_cons).
  assert (Hc : is_scalar c = true) by (apply Forall_app in Hs as [_ Hs]; by inversion Hs).
  unfold boundary_from. case_decide as E.
  - subst k. rewrite Hv at 1. rewrite app_nth2, Nat.sub_diag by lia.
    destruct (utf8_char_lead c Hc) as (b & j & Eb & Hb & Hlead).
    replace (nth 0 (utf8_char c ++ as_bytes q) Byte.x00) with b by (by rewrite Eb). rewrite Hlead.
    + cbn [mbind option_bind].
      replace (length (as_bytes p) + length (utf8_char c) - length (as_bytes p))%nat
        with (length (utf8_char c)) by lia.
      assert (take (length (utf8_char c)) (drop (length (as_bytes p)) v) = as_bytes [c]) as ->.
      { rewrite Hv, drop_app_length, take_app_length. unfold as_bytes. cbn. by rewrite app_nil_r. }
      rewrite valid_utf8_as_bytes by (by repeat constructor).
      rewrite (proj2 (Nat.ltb_lt _ _)) by lia. rewrite (proj2 (Nat.leb_le _ _)); [done|].
      rewrite Hv, !length_app. lia.
    + apply N.ltb_ge. destruct (N.ltb_spec c 128) as [H1|H1]; [|done].
      destruct Hb as [_ ->]. rewrite Eb in Hst. cbn in Hst. lia.
  - destruct (lead_width (nth k v Byte.x00)) as [w|] eqn:Ew; [|done]. cbn [mbind option_bind].
    rewrite Hv, app_nth1 in Ew by lia.
    apply Forall_app in Hs as [Hp _].
    destruct (lead_in_as_bytes p k w Hp Ew ltac:(lia)) as (p' & d & q' & Ep & -> & ->).
    rewrite (proj2 (Nat.ltb_ge _ _)); [done|].
    rewrite Ep, as_bytes_app, as_bytes_cons, !length_app in Hst. lia.
Qed.

Lemma first_some_seq {B} (f : nat -> option B) a n i y :
  (a <= i < a + n)%nat -> (forall k, (a <= k < i)%nat -> f k = None) -> f i = Some y ->
  first_some f (seq a n) = Some y.
Proof.
  revert a. induction n as [|n IH]; intros a Hi Hn Hy; [lia|]. cbn.
  destruct (decide (a = i)) as [->|]; [by rewrite Hy|].
  rewrite Hn by lia. apply IH; [lia| |done]. intros k Hk. apply Hn. lia.
Qed.

Lemma not_boundary_test v start :
  is_char_boundary v start = false -> (start <= length v)%nat ->
  (start =? 0)%nat || (length v <=? start)%nat || negb (is_cont (nth start v Byte.x00)) = false.
Proof.
  unfold is_char_boundary. destruct start as [|start]; [done|]. intros E H. cbn [Nat.eqb orb].
  destruct (Nat.leb_spec (length v) (S start)); [|done].
  apply Nat.eqb_neq in E. lia.
Qed.

Lemma next_utf8_boundary_valid s start :
  scalars s -> (start <= length (as_bytes s))%nat ->
  is_char_boundary (as_bytes s) (next_utf8_boundary (as_bytes s) start) = true.
Proof.
  intros Hs Hst. unfold next_utf8_boundary.
  destruct (is_char_boundary (as_bytes s) start) eqn:E.
  - assert ((start =? 0)%nat || (length (as_bytes s) <=? start)%nat
            || negb (is_cont (nth start (as_bytes s) Byte.x00)) = true) as ->; [|done].
    unfold is_char_boundary in E. destruct start; [done|]. cbn [Nat.eqb orb].
    by destruct (length (as_bytes s) <=? S start)%nat.
  - destruct (split_inside s start E Hst) as (p & c & q & -> & Hin).
    pose proof (utf8_char_width c).
    rewrite (first_some_seq _ _ _ (length (as_bytes p)) (length (as_bytes p) + length (utf8_char c))).
    + rewrite not_boundary_test by done. cbn [default].
      change (p ++ c :: q) with (p ++ [c] ++ q). rewrite app_assoc.
      replace (length (as_bytes p) + length (utf8_char c))%nat with (length (as_bytes (p ++ [c]))).
      * apply boundary_app.
      * rewrite as_bytes_app, length_app. f_equal. unfold as_bytes. cbn. by rewrite app_nil_r.
    + lia.
    + intros k Hk. rewrite boundary_from_inside by (done || lia). rewrite decide_False by lia. done.
    + rewrite boundary_from_inside by (done || lia). by rewrite decide_True.
Qed.

(** * The streamed window *)

Lemma nth_app_shift pre (w : bytes) i : nth (length pre + i) (pre ++ w) Byte.x00 = nth i w Byte.x00.
Proof. rewrite app_nth2 by lia. f_equal. lia. Qed.

Lemma boundary_from_shift pre w start k :
  boundary_from (pre ++ w) (length pre + start) (length pre + k)
  = (fun e => (length pre + e)%nat) <$> boundary_from w start k.
Proof.
  unfold boundary_from. rewrite nth_app_shift.
  destruct (lead_width (nth k w Byte.x00)) as [d|]; [|done]. cbn [mbind option_bind].
  rewrite length_app, drop_app_ge by lia.
  replace (length pre + k - length pre)%nat with k by lia.
  replace (length pre + k + d - (length pre + k))%nat with (k + d - k)%nat by lia.
  assert ((length pre + start <? length pre + k + d) = (start <? k + d))%nat as ->
    by (apply eq_true_iff_eq; rewrite !Nat.ltb_lt; lia).
  assert ((length pre + k + d <=? length pre + length w) = (k + d <=? length w))%nat as ->
    by (apply eq_true_iff_eq; rewrite !Nat.leb_le; lia).
  case_match; cbn; f_equal; lia.
Qed.

Lemma first_some_shift {B C} (f : nat -> option B) (g : nat -> option C) (h : B -> C) a n d :
  (forall k, g (d + k)%nat = h <$> f k) ->
  first_some g (seq (d + a) n) = h <$> first_some f (seq a n).
Proof.
  intros H. revert a. induction n as [|n IH]; intros a; cbn; [done|].
  rewrite H. destruct (f a); cbn; [done|]. rewrite <- (IH (S a)). by rewrite Nat.add_succ_r.
Qed.

(** Looking back three bytes is enough: bytes further left do not matter. *)
Lemma next_utf8_boundary_shift pre w start :
  (3 < start)%nat ->
  next_utf8_boundary (pre ++ w) (length pre + start) = (length pre + next_utf8_boundary w start)%nat.
Proof.
  intros H. unfold next_utf8_boundary. rewrite nth_app_shift, length_app.
  rewrite !(proj2 (Nat.eqb_neq _ _)) by lia. cbn [orb].
  assert ((length pre + length w <=? length pre + start) = (length w <=? start))%nat as ->
    by (apply eq_true_iff_eq; rewrite !Nat.leb_le; lia).
  case_match; [done|].
  replace (length pre + start - 3)%nat with (length pre + (start - 3))%nat by lia.
  replace (length pre + start - (length pre + (start - 3)))%nat with (start - (start - 3))%nat by lia.
  rewrite (first_some_shift (boundary_from w start) _ (fun e => (length pre + e)%nat))
    by (intros k; apply boundary_from_shift).
  by destruct (first_some _ _).
Qed.

Lemma starts_mid_line_shift pre w ss d bs :
  (0 < ss)%nat -> starts_mid_line (pre ++ w) (length pre + ss) d bs = starts_mid_line w ss d bs.
Proof.
  intros H. unfold starts_mid_line. case_match; [done|].
  rewrite (proj2 (Nat.ltb_lt 0 (length pre + ss))), (proj2 (Nat.ltb_lt 0 ss)) by lia.
  rewrite lookup_app_r by lia. do 2 f_equal. lia.
Qed.

(** Everything [extract] returns is determined by the last [max_bytes + 4] bytes. *)
Lemma extract_window pre w mb ml :
  (N.to_nat mb + 4 <= length w)%nat -> extract (pre ++ w) mb ml = extract w mb ml.
Proof.
  intros H. unfold extract. rewrite length_app.
  rewrite !(proj2 (Nat.eqb_neq _ _)) by lia. case_match; [done|].
  replace (length pre + length w - N.to_nat mb)%nat
    with (length pre + (length w - N.to_nat mb))%nat by lia.
  rewrite next_utf8_boundary_shift by lia.
  pose proof (next_utf8_boundary_le w (length w - N.to_nat mb) ltac:(lia)) as Hss.
  set (ss := next_utf8_boundary w (length w - N.to_nat mb)) in *.
  rewrite drop_app_ge by lia. replace (length pre + ss - length pre)%nat with ss by lia.
  destruct (str_from _ _); [|done]. cbn [mbind option_bind].
  rewrite starts_mid_line_shift by lia.
  by rewrite (proj2 (Nat.ltb_lt 0 (length pre + ss))), (proj2 (Nat.ltb_lt 0 ss)) by lia.
Qed.

(** No slice or index of [extract] panics. *)
Lemma extract_returns input mb ml : is_Some (extract input mb ml).
Proof.
  destruct (decide (input = [])) as [->|Hi]; [by eexists|].
  destruct (decide (mb = 0 \/ ml = 0)%N) as [H0|H0].
  - unfold extract. rewrite (proj2 (Nat.eqb_neq _ _)) by (by destruct input).
    assert ((mb =? 0)%N || (ml =? 0)%N = true) as -> by (rewrite orb_true_iff, !N.eqb_eq; lia). by eexists.
  - destruct (extract_steps input mb ml Hi) as (p1 & p2 & p3 & t & mid & _ & _ & _ & E & _); [lia..|].
    rewrite E. by eexists.
Qed.

(** * The contract of the log tail *)

(** [extract] always returns (no slice or index of it panics), and what it keeps fits both
    limits: at most [max_bytes] bytes and at most [max_lines] lines. *)
Theorem extract_within_limits input mb ml :
  exists t, extract input mb ml = Some t
  /\ (str_len (text_ t) <= mb)%N /\ (len (lines (text_ t)) <= ml)%N.
Proof.
  destruct (decide (input = [])) as [->|Hi].
  { eexists. split; [reflexivity|]. split; apply N.le_0_l. }
  destruct (N.eqb_spec mb 0) as [->|]; [|destruct (N.eqb_spec ml 0) as [->|]].
  1-2: unfold extract; rewrite (proj2 (Nat.eqb_neq _ _)) by (by destruct input);
    rewrite N.eqb_refl, ?orb_true_r; eexists; (split; [reflexivity|]); split; apply N.le_0_l.
  destruct (extract_steps input mb ml Hi) as (p1 & p2 & p3 & t & mid & _ & _ & _ & E & Hb & Hl & _);
    [lia..|].
  eexists. split; [exact E|]. cbn [text_]. split; [|done].
  unfold str_len, len in *. rewrite !as_bytes_app, !length_app in Hb. lia.
Qed.

Lemma last_app_ne {A} (p q : list A) : q <> [] -> last (p ++ q) = last q.
Proof.
  destruct q as [|x q _] using rev_ind; [done|]. intros _. by rewrite app_assoc, !last_snoc.
Qed.

(** The steps of [extract] on a valid log: it drops characters only. *)
Lemma extract_steps_valid s mb ml :
  scalars s -> s <> [] -> (1 <= mb)%N -> (1 <= ml)%N ->
  exists p0 p2 p3 t mid,
    s = p0 ++ p2 ++ p3 ++ t
    /\ extract (as_bytes s) mb ml = Some {| text_ := t;
         truncated := bool_decide (p0 <> []) || bool_decide (p2 <> []) || bool_decide (p3 <> []);
         invalid_utf8 := false |}
    /\ (mid = false -> p0 = [] \/ last p0 = Some 10%N)
    /\ (p2 = [] \/ last p2 = Some 10%N) /\ (mid = true -> p2 = [] -> single_line (p3 ++ t))
    /\ (p3 = [] \/ last p3 = Some 10%N).
Proof.
  intros Hs Hne Hmb Hml.
  destruct (extract_steps (as_bytes s) mb ml) as
    (p1 & p2 & p3 & t & mid & Ed & Hss & Hmid & E & Hb & _ & Hfit & Hp2 & Hsl & Hp3);
    [by intros ?%as_bytes_nil|done..|].
  set (ss := next_utf8_boundary (as_bytes s) _) in *.
  pose proof (next_utf8_boundary_valid s (length (as_bytes s) - N.to_nat mb) Hs ltac:(lia)) as Hbd.
  pose proof (next_utf8_boundary_le (as_bytes s) (length (as_bytes s) - N.to_nat mb) ltac:(lia)) as Hle.
  fold ss in Hbd, Hle. clearbody ss.
  destruct (str_from_boundary _ _ Hbd) as [u Hu].
  apply str_from_spec in Hu as (p0 & Es & Hp0).
  assert (scalars p0 /\ scalars u) as [Hs0 Hu] by (by rewrite Es, Forall_app in Hs).
  assert (Hsrc : drop ss (as_bytes s) = as_bytes u)
    by (rewrite Hp0, Es, as_bytes_app; apply drop_app_length).
  rewrite Hsrc in Ed, E, Hmid, Hfit.
  rewrite (from_utf8_lossy_valid _ _ (from_utf8_as_bytes u Hu)) in Ed, Hmid, Hfit.
  rewrite valid_utf8_as_bytes in E by done.
  assert (p1 = []) as ->.
  { apply Hfit. rewrite Es, as_bytes_app, length_app in Hle. unfold str_len, len. lia. }
  exists p0, p2, p3, t, mid. rewrite E, Hp0, nonzero_as_bytes. split_and!; try done;
    [by rewrite Es, Ed|by rewrite (bool_decide_eq_false_2 (@nil N <> [])), orb_false_r by tauto|].
  intros ->. unfold starts_mid_line in Hmid. cbn [as_bytes map concat length] in Hmid.
  change (0 <? 0)%nat with false in Hmid. cbn iota in Hmid. rewrite Hp0, nonzero_as_bytes in Hmid.
  destruct p0 as [|c p0]; [by left|]. rewrite bool_decide_true in Hmid by done. right.
  destruct (as_bytes s !! _) as [b|] eqn:Eb; [|done]. cbn in Hmid. injection Hmid as Hmid.
  apply bool_decide_eq_false, dec_stable in Hmid. subst b.
  rewrite Es, as_bytes_app, lookup_app_l in Eb
    by (rewrite as_bytes_cons, length_app; pose proof (utf8_char_width c); lia).
  destruct (last_newline _ Hs0) as [s' ->]; [by rewrite last_lookup, <- Eb, Nat.sub_1_r|].
  apply last_snoc.
Qed.

(** On a valid UTF-8 log the tail is a suffix of the log, [truncated] says exactly whether
    something was dropped, and the tail starts at the start of a line unless it is one line. *)
Theorem extract_valid_suffix s mb ml :
  Forall (fun c => is_scalar c = true) s ->
  exists p t, s = p ++ text_ t /\ extract (as_bytes s) mb ml = Some t
  /\ invalid_utf8 t = false /\ (truncated t = true <-> p <> [])
  /\ (p = [] \/ last p = Some 10%N \/ single_line (text_ t)).
Proof.
  intros Hs. destruct (decide (s = [])) as [->|Hne].
  { exists [], {| text_ := []; truncated := false; invalid_utf8 := false |}. split_and!; auto; done. }
  destruct (decide (mb = 0 \/ ml = 0)%N) as [H0|H0].
  { exists s, {| text_ := []; truncated := true; invalid_utf8 := false |}.
    cbn [text_ truncated invalid_utf8]. rewrite app_nil_r. split_and!; [done| |done|done|].
    - unfold extract. rewrite (proj2 (Nat.eqb_neq _ _))
        by (intros ?%length_zero_iff_nil%as_bytes_nil; done).
      assert ((mb =? 0)%N || (ml =? 0)%N = true) as ->; [|done].
      rewrite orb_true_iff, !N.eqb_eq. lia.
    - do 2 right. intros q r E. by destruct q. }
  destruct (extract_steps_valid s mb ml Hs Hne) as (p0 & p2 & p3 & t & mid & E & Ex & Hm & H2 & Hsl & H3);
    [lia..|].
  exists (p0 ++ p2 ++ p3). eexists. split; [|split; [exact Ex|]]; cbn [text_ truncated invalid_utf8].
  { by rewrite <- !app_assoc. }
  split; [done|]. split.
  { rewrite !orb_true_iff, !bool_decide_eq_true. destruct p0, p2, p3; cbn; naive_solver. }
  destruct p3 as [|x p3]; [|right; left; rewrite app_assoc, last_app_ne by done; naive_solver].
  rewrite app_nil_r. destruct p2 as [|y p2]; [|right; left; rewrite last_app_ne by done; naive_solver].
  rewrite app_nil_r. destruct mid; naive_solver.
Qed.

Lemma extract_valid_suffix_witness :
  exists p t, txt "ab" = p ++ text_ t /\ extract (as_bytes (txt "ab")) 1 1 = Some t
  /\ invalid_utf8 t = false /\ (truncated t = true <-> p <> [])
  /\ (p = [] \/ last p = Some 10%N \/ single_line (text_ t)).
Proof. apply (extract_valid_suffix (txt "ab") 1 1). repeat constructor. Defined.

(** Streaming the log through a window of its last [max_bytes + 4] bytes, as the archive
    reader does, gives the result of [extract] on the whole log. *)
Theorem extract_streamed_window log keep mb ml :
  (mb + 4 <= N.of_nat keep)%N ->
  extract (drop (length log - keep) log) mb ml = extract log mb ml.
Proof.
  intros H. destruct (decide (length log <= keep)%nat) as [Hk|Hk].
  - replace (length log - keep)%nat with 0%nat by lia. done.
  - rewrite <- (take_drop (length log - keep) log) at 3. symmetry. apply extract_window.
    rewrite length_drop. lia.
Qed.

Lemma extract_streamed_window_witness :
  extract (drop (length (byt "abcdefgh") - 6) (byt "abcdefgh")) 2 1 = extract (byt "abcdefgh") 2 1.
Proof. apply (extract_streamed_window (byt "abcdefgh") 6 2 1). lia. Defined.
