(* ===== verification/CrashContext.v ===== *)
(** The crash context of [crates/unreal/src/lib.rs]: the guarded XML parse, the typed extraction of
    the Unreal properties, and the classification of a crash with its signals.  The XML library is
    an interface ([Roxmltree]); the sections and fields are read through it as the program does. *)

From S2P Require Import Prelude Text Json Domain.

Definition CRASH_CONTEXT_ROOT : text := txt "FGenericCrashContext".
Definition CRASH_CONTEXT_PARSER_VERSION : N := 1.

(** What the program uses of [roxmltree]: a document with its root element, and nodes with their
    children, names and texts; parsing under the two options that matter, or an error at a
    position. *)
Inductive XmlErrorKind : Type := DtdDetected | NodesLimitReached | OtherXmlError.

Class Roxmltree : Type := {
  Node : Type;
  Document : Type;
  root_element : Document -> Node;
  root_position : Document -> N * N;
  children : Node -> list Node;
  is_element : Node -> bool;
  tag_name : Node -> text;
  node_text : Node -> option text;
  parse_with_options : forall (allow_dtd : bool) (nodes_limit : N),
    text -> result (XmlErrorKind * (N * N)) Document;
}.

Module ParseError.
Inductive Kind : Type := InvalidXml | DtdForbidden | NodeLimitExceeded | UnexpectedRoot.

Record t : Type := Mk { kind : Kind; line : N; column : N }.

#[global] Instance Kind_eq_dec : EqDecision Kind.
Proof. solve_decision. Defined.
#[global] Instance eq_dec : EqDecision t.
Proof. solve_decision. Defined.

(** [ParseError::from_xml]. *)
Definition from_xml (error : XmlErrorKind * (N * N)) : t :=
  let '(k, (row, col)) := error in
  {| kind := match k with
             | DtdDetected => DtdForbidden
             | NodesLimitReached => NodeLimitExceeded
             | OtherXmlError => InvalidXml
             end;
     line := row; column := col |}.

Definition unexpected_root (position : N * N) : t :=
  {| kind := UnexpectedRoot; line := position.1; column := position.2 |}.

(** [Display]. *)
Definition fmt (e : t) : text :=
  (match kind e with
   | InvalidXml => txt "invalid crash context XML"
   | DtdForbidden => txt "DTD is forbidden in crash context XML"
   | NodeLimitExceeded => txt "crash context XML node limit exceeded"
   | UnexpectedRoot => txt "unexpected crash context XML root"
   end) ++ txt " at " ++ fmt_dec (line e) ++ txt ":" ++ fmt_dec (column e).
End ParseError.

(** * Classification *)

Inductive ClassificationConfidence : Type := High | Medium | Low.
Inductive CrashSignalKind : Type := GpuCrash | OutOfMemory.

#[export] Instance ClassificationConfidence_eq_dec : EqDecision ClassificationConfidence.
Proof. solve_decision. Defined.
#[export] Instance CrashSignalKind_eq_dec : EqDecision CrashSignalKind.
Proof. solve_decision. Defined.

Module CrashSignal.
Record t : Type := Mk {
  kind : CrashSignalKind; confidence : ClassificationConfidence; evidence : list text }.
End CrashSignal.

Module CrashClassification.
Record t : Type := Mk {
  crash_type : CrashType.t; confidence : ClassificationConfidence; evidence : list text;
  signals : list CrashSignal.t }.
End CrashClassification.

(** [normalize_classification_text]. *)
Definition normalize_classification_text (value : text) : text :=
  map ascii_lower (filter (fun c => is_ascii_alphanumeric c = true) value).

(** [truthy]. *)
Definition truthy (value : text) : bool :=
  bool_decide (to_ascii_lowercase (trim value) ∈ [txt "1"; txt "true"; txt "yes"]).

(** [contains_any]. *)
Definition contains_any (value : text) (patterns : list text) : bool :=
  existsb (contains value) patterns.

(** A conditional [evidence.push]. *)
Definition push_if (c : bool) (s : string) : list text := if c then [txt s] else [].

Definition oom_patterns : list text :=
  [txt "out of memory"; txt "out-of-memory"; txt "ran out of memory"; txt "oom allocation"].
Definition gpu_patterns : list text :=
  [txt "gpu crash"; txt "gpu crashed"; txt "gpu timeout"; txt "dxgi_error_device_removed";
   txt "d3d device being lost"].

Definition oom_names : list text := [txt "oom"; txt "outofmemory"; txt "outofmemorycrash"].
Definition gpu_names : list text := [txt "gpucrash"; txt "gpucrashed"; txt "gputimeout"].

(** [classify_crash_context]. *)
Definition classify_crash_context (crash_type : CrashType.t) (crash_type_source : option text)
    (error_message : option text) (structured_oom : bool) : CrashClassification.t :=
  let unknown := bool_decide (crash_type = CrashType.Unknown) in
  let source := default [] (normalize_classification_text <$> crash_type_source) in
  let message := default [] (to_ascii_lowercase <$> error_message) in
  let crash_type_oom := bool_decide (source ∈ oom_names) in
  let error_oom := contains_any message oom_patterns in
  let oom_signals :=
    if structured_oom || crash_type_oom || error_oom then
      [{| CrashSignal.kind := OutOfMemory;
          CrashSignal.confidence := if structured_oom || crash_type_oom then High else Medium;
          CrashSignal.evidence :=
            push_if structured_oom "crash_context.memory_stats.is_oom"
            ++ push_if crash_type_oom "crash_context.crash_type_oom"
            ++ push_if error_oom "crash_context.error_message_oom" |}]
    else [] in
  let crash_type_gpu := bool_decide (source ∈ gpu_names) in
  let error_gpu := contains_any message gpu_patterns in
  let gpu_signals :=
    if crash_type_gpu || error_gpu then
      [{| CrashSignal.kind := GpuCrash;
          CrashSignal.confidence := if crash_type_gpu then High else Medium;
          CrashSignal.evidence :=
            push_if crash_type_gpu "crash_context.crash_type_gpu"
            ++ push_if error_gpu "crash_context.error_message_gpu" |}]
    else [] in
  {| CrashClassification.crash_type := crash_type;
     CrashClassification.confidence := if unknown then Low else High;
     CrashClassification.evidence := if unknown then [] else [txt "crash_context.crash_type"];
     CrashClassification.signals := oom_signals ++ gpu_signals |}.

(** * Extracted data *)

Module CrashContextProperty.
Record t : Type := Mk { name : text; value : text }.
End CrashContextProperty.

Module CrashContextThread.
Record t : Type := Mk {
  call_stack : option text; crash_marker : option text; registers : option text;
  thread_id : option text; thread_name : option text }.
End CrashContextThread.

Module CrashContextData.
Record t : Type := Mk {
  parser_version : N;
  crash_guid : option text;
  crash_type : CrashType.t;
  error_message : option text;
  build_version : option text;
  engine_version : option text;
  platform : option NormalizedValue.t;
  architecture : option text;
  build_configuration : option text;
  command_line : option text;
  modules : list NormalizedValue.t;
  threads : list CrashContextThread.t;
  system_metadata : list CrashContextProperty.t;
  user_comment : option text;
  game_data : list CrashContextProperty.t;
  unknown_fields : list (text * list (text * list text)) }.
End CrashContextData.

(** [normalized_architecture]. *)
Definition normalized_architecture (value : text) : text :=
  let v := to_ascii_lowercase (trim value) in
  if decide (v ∈ [txt "x64"; txt "amd64"; txt "x86_64"]) then txt "x86_64"
  else if decide (v ∈ [txt "x86"; txt "i386"; txt "i686"]) then txt "x86"
  else if decide (v ∈ [txt "aarch64"; txt "arm64"]) then txt "arm64"
  else trim value.

Definition known_runtime_fields : list text :=
  [txt "CrashGUID"; txt "CrashType"; txt "ErrorMessage"; txt "BuildVersion"; txt "EngineVersion";
   txt "PlatformName"; txt "Architecture"; txt "PlatformArchitecture"; txt "BuildConfiguration";
   txt "CommandLine"; txt "Modules"; txt "Threads"; txt "UserDescription"; txt "UserComment"].

(** [is_known_field]. *)
Definition is_known_field (section field : text) : bool :=
  if decide (section ∈ [txt "GameData"; txt "PlatformProperties"]) then true
  else if decide (section = txt "RuntimeProperties") then
    bool_decide (field ∈ known_runtime_fields)
    || starts_with field (txt "Misc.") || starts_with field (txt "MemoryStats.")
  else false.

Section extraction.
Context {X : Roxmltree}.

(** [CrashContextParser::parse] with [node_limit]; the crash context is the document. *)
Definition parse (node_limit : N) (xml : text) : result ParseError.t Document :=
  document ← map_err ParseError.from_xml (parse_with_options false node_limit xml);
  if decide (tag_name (root_element document) <> CRASH_CONTEXT_ROOT) then
    Err (ParseError.unexpected_root (root_position document))
  else Ok document.

(** [CrashContext::sections], [CrashContextSection::fields]: the element children. *)
Definition elements_of (n : Node) : list Node := filter (fun n => is_element n = true) (children n).
Definition sections (context : Document) : list Node := elements_of (root_element context).

(** [CrashContext::section] and [CrashContextSection::field]: the first of that name. *)
Definition find_named (name : text) (l : list Node) : option Node :=
  head (filter (fun n => tag_name n = name) l).
Definition section (context : Document) (name : text) : option Node :=
  find_named name (sections context).
Definition field (s : Node) (name : text) : option Node := find_named name (elements_of s).

(** [field_text], [field_value] and [first_field_value]. *)
Definition field_text (s : option Node) (name : text) : option text :=
  s ← s; f ← field s name; node_text f.
Definition value_or_default (n : Node) : text := default [] (node_text n).
Definition field_value (s : option Node) (name : text) : option text :=
  s ← s; f ← field s name; Some (value_or_default f).
Fixpoint first_field_value (s : option Node) (names : list text) : option text :=
  match names with
  | [] => None
  | name :: names =>
      match field_value s name with Some v => Some v | None => first_field_value s names end
  end.

(** [CrashContext::classification]. *)
Definition classification (context : Document) : CrashClassification.t :=
  let runtime := section context (txt "RuntimeProperties") in
  let crash_type_source := field_text runtime (txt "CrashType") in
  let crash_type := default CrashType.Unknown (CrashType.classify <$> crash_type_source) in
  let structured_oom :=
    match field_text runtime (txt "MemoryStats.bIsOOM") with Some v => truthy v | None => false end in
  classify_crash_context crash_type crash_type_source
    (field_text runtime (txt "ErrorMessage")) structured_oom.

(** [property] and [section_properties]. *)
Definition property (f : Node) : CrashContextProperty.t :=
  {| CrashContextProperty.name := tag_name f; CrashContextProperty.value := value_or_default f |}.
Definition section_properties (s : option Node) : list CrashContextProperty.t :=
  match s with Some s => map property (elements_of s) | None => [] end.

(** [child_value] and [extract_threads]. *)
Definition child_value (n : Node) (name : text) : option text :=
  value_or_default <$> find_named name (elements_of n).
Definition thread_of (n : Node) : CrashContextThread.t :=
  {| CrashContextThread.call_stack := child_value n (txt "CallStack");
     CrashContextThread.crash_marker := child_value n (txt "IsCrashed");
     CrashContextThread.registers := child_value n (txt "Registers");
     CrashContextThread.thread_id := child_value n (txt "ThreadID");
     CrashContextThread.thread_name := child_value n (txt "ThreadName") |}.
Definition extract_threads (runtime : option Node) : list CrashContextThread.t :=
  match (s ← runtime; field s (txt "Threads")) with
  | Some threads => map thread_of (filter (fun n => tag_name n = txt "Thread") (elements_of threads))
  | None => []
  end.

(** [extract_unknown_fields]: one step of the loop over the fields of a section. *)
Definition add_unknown (s : text) (m : list (text * list (text * list text))) (f : Node) :
    list (text * list (text * list text)) :=
  if is_known_field s (tag_name f) then m
  else obj_entry [] (obj_entry [] (fun vs => vs ++ [value_or_default f]) (tag_name f)) s m.
Definition extract_unknown_fields (context : Document) : list (text * list (text * list text)) :=
  foldl (fun m s => foldl (add_unknown (tag_name s)) m (elements_of s)) [] (sections context).

Definition is_metadata_field (f : Node) : bool :=
  starts_with (tag_name f) (txt "Misc.") || starts_with (tag_name f) (txt "MemoryStats.").

(** [CrashContext::extract]. *)
Definition extract (context : Document) (include_command_line : bool) : CrashContextData.t :=
  let runtime := section context (txt "RuntimeProperties") in
  let platform_properties := section context (txt "PlatformProperties") in
  let module_text := field_value runtime (txt "Modules") in
  {| CrashContextData.parser_version := CRASH_CONTEXT_PARSER_VERSION;
     CrashContextData.crash_guid := field_value runtime (txt "CrashGUID");
     CrashContextData.crash_type :=
       default CrashType.Unknown (CrashType.classify <$> field_text runtime (txt "CrashType"));
     CrashContextData.error_message := field_value runtime (txt "ErrorMessage");
     CrashContextData.build_version := field_value runtime (txt "BuildVersion");
     CrashContextData.engine_version := field_value runtime (txt "EngineVersion");
     CrashContextData.platform := NormalizedValue.platform <$> field_value runtime (txt "PlatformName");
     CrashContextData.architecture :=
       normalized_architecture <$>
         (match first_field_value runtime [txt "Architecture"; txt "PlatformArchitecture"] with
          | Some v => Some v
          | None => field_value platform_properties (txt "HostArchitecture")
          end);
     CrashContextData.build_configuration := field_value runtime (txt "BuildConfiguration");
     CrashContextData.command_line :=
       if include_command_line then field_value runtime (txt "CommandLine") else None;
     CrashContextData.modules :=
       match module_text with
       | Some value => map NormalizedValue.module
                         (filter (fun l => l <> []) (map trim (lines value)))
       | None => []
       end;
     CrashContextData.threads := extract_threads runtime;
     CrashContextData.system_metadata :=
       section_properties platform_properties
       ++ match runtime with
          | Some s => map property (filter (fun f => is_metadata_field f = true) (elements_of s))
          | None => []
          end;
     CrashContextData.user_comment :=
       first_field_value runtime [txt "UserDescription"; txt "UserComment"];
     CrashContextData.game_data := section_properties (section context (txt "GameData"));
     CrashContextData.unknown_fields := extract_unknown_fields context |}.
End extraction.

(** * Serialized form *)

Module Serialized.
Definition confidence (c : ClassificationConfidence) : json :=
  jstr match c with High => "high" | Medium => "medium" | Low => "low" end.
Definition signal_kind (k : CrashSignalKind) : json :=
  jstr match k with GpuCrash => "gpu_crash" | OutOfMemory => "out_of_memory" end.
Definition signal (s : CrashSignal.t) : json :=
  JObject (obj_of
    [(txt "kind", signal_kind (CrashSignal.kind s));
     (txt "confidence", confidence (CrashSignal.confidence s));
     (txt "evidence", jlist JString (CrashSignal.evidence s))]).
Definition classification (c : CrashClassification.t) : json :=
  JObject (obj_of
    [(txt "crash_type", CrashType.to_json (CrashClassification.crash_type c));
     (txt "confidence", confidence (CrashClassification.confidence c));
     (txt "evidence", jlist JString (CrashClassification.evidence c));
     (txt "signals", jlist signal (CrashClassification.signals c))]).

Definition property (p : CrashContextProperty.t) : json :=
  JObject (obj_of [(txt "name", JString (CrashContextProperty.name p));
                   (txt "value", JString (CrashContextProperty.value p))]).
Definition thread (t : CrashContextThread.t) : json :=
  JObject (obj_of
    [(txt "call_stack", jopt JString (CrashContextThread.call_stack t));
     (txt "crash_marker", jopt JString (CrashContextThread.crash_marker t));
     (txt "registers", jopt JString (CrashContextThread.registers t));
     (txt "thread_id", jopt JString (CrashContextThread.thread_id t));
     (txt "thread_name", jopt JString (CrashContextThread.thread_name t))]).

(** A [BTreeMap] is an object whose keys are already in order. *)
Definition btree {A} (f : A -> json) (m : list (text * A)) : json :=
  JObject (map (fun kv => (kv.1, f kv.2)) m).

Definition data (d : CrashContextData.t) : json :=
  JObject (obj_of (
    [(txt "parser_version", jnat (CrashContextData.parser_version d));
     (txt "crash_guid", jopt JString (CrashContextData.crash_guid d));
     (txt "crash_type", CrashType.to_json (CrashContextData.crash_type d));
     (txt "error_message", jopt JString (CrashContextData.error_message d));
     (txt "build_version", jopt JString (CrashContextData.build_version d));
     (txt "engine_version", jopt JString (CrashContextData.engine_version d));
     (txt "platform", jopt NormalizedValue.to_json (CrashContextData.platform d));
     (txt "architecture", jopt JString (CrashContextData.architecture d));
     (txt "build_configuration", jopt JString (CrashContextData.build_configuration d))]
    ++ opt_field "command_line" JString (CrashContextData.command_line d)
    ++ [(txt "modules", jlist NormalizedValue.to_json (CrashContextData.modules d));
        (txt "threads", jlist thread (CrashContextData.threads d));
        (txt "system_metadata", jlist property (CrashContextData.system_metadata d));
        (txt "user_comment", jopt JString (CrashContextData.user_comment d));
        (txt "game_data", jlist property (CrashContextData.game_data d));
        (txt "unknown_fields", btree (btree (jlist JString)) (CrashContextData.unknown_fields d))])).
End Serialized.

(** * Lemmas *)

Lemma elem_of_push_if c s x : x ∈ push_if c s <-> c = true /\ x = txt s.
Proof.
  unfold push_if. destruct c; [rewrite list_elem_of_singleton|rewrite elem_of_nil]; naive_solver.
Qed.

(** What the classification of a signal rests on: a structured field of the crash context, or a
    phrase of the error message. *)
Definition source_text (source : option text) : text :=
  default [] (normalize_classification_text <$> source).
Definition message_text (message : option text) : text := default [] (to_ascii_lowercase <$> message).
Definition patterns (k : CrashSignalKind) : list text :=
  match k with OutOfMemory => oom_patterns | GpuCrash => gpu_patterns end.
Definition stated (k : CrashSignalKind) (source : option text) (oom : bool) : Prop :=
  match k with
  | OutOfMemory => oom = true \/ source_text source ∈ oom_names
  | GpuCrash => source_text source ∈ gpu_names
  end.
Definition phrased (k : CrashSignalKind) (message : option text) : Prop :=
  exists m p, message = Some m /\ p ∈ patterns k /\ contains (to_ascii_lowercase m) p = true.

Lemma contains_any_spec v l : contains_any v l = true <-> exists p, p ∈ l /\ contains v p = true.
Proof. unfold contains_any. rewrite existsb_exists. by setoid_rewrite list_elem_of_In. Qed.

Lemma phrased_spec k message : contains_any (message_text message) (patterns k) = true <-> phrased k message.
Proof.
  rewrite contains_any_spec. unfold phrased, message_text.
  destruct message as [m|]; cbn [fmap option_fmap option_map default from_option].
  - naive_solver.
  - split; [|naive_solver]. intros (p & Hp & Hc). exfalso.
    assert (H : Forall (fun p => contains [] p = false) (patterns k)) by (destruct k; repeat constructor).
    rewrite Forall_forall in H. specialize (H p Hp). cbn in *. congruence.
Qed.

Lemma stated_spec k source oom :
  match k with
  | OutOfMemory => oom || bool_decide (source_text source ∈ oom_names)
  | GpuCrash => bool_decide (source_text source ∈ gpu_names)
  end = true <-> stated k source oom.
Proof.
  destruct k; cbn; rewrite ?orb_true_iff, bool_decide_eq_true; done.
Qed.

Section unknown_fields.
Context {X : Roxmltree}.

(** What a map of unknown fields holds under a section and a field. *)
Definition held (m : list (text * list (text * list text))) (s f : text) : list text :=
  default [] (obj_get s m ≫= obj_get f).

(** The values of the fields named [f] among [fields]. *)
Definition values_of (f : text) (fields : list Node) : list text :=
  map value_or_default (filter (fun n => tag_name n = f) fields).

(** The fields of every section named [s], in document order. *)
Definition fields_of_sections (s : text) (l : list Node) : list Node :=
  concat (map elements_of (filter (fun n => tag_name n = s) l)).

Lemma held_add_unknown s m n s' f :
  held (add_unknown s m n) s' f =
    held m s' f ++ (if decide (s' = s /\ tag_name n = f /\ is_known_field s f = false)
                    then [value_or_default n] else []).
Proof.
  unfold held, add_unknown. destruct (is_known_field s (tag_name n)) eqn:K.
  { rewrite decide_False, app_nil_r; [done|]. intros (_ & <- & ?). congruence. }
  rewrite obj_get_entry. destruct (decide (s' = s)) as [->|Hs]; cbn.
  - rewrite obj_get_entry. destruct (decide (f = tag_name n)) as [->|Hf]; cbn.
    + rewrite decide_True by done. by destruct (obj_get s m).
    + rewrite decide_False, app_nil_r by naive_solver. by destruct (obj_get s m).
  - rewrite decide_False, app_nil_r by naive_solver. done.
Qed.

Lemma held_section s fields m s' f :
  held (foldl (add_unknown s) m fields) s' f =
    held m s' f ++ (if decide (s' = s /\ is_known_field s f = false)
                    then values_of f fields else []).
Proof.
  revert m. induction fields as [|n fields IH]; intros m.
  - cbn. case_decide; by rewrite app_nil_r.
  - cbn [foldl]. rewrite IH, held_add_unknown, <- app_assoc. f_equal.
    unfold values_of. rewrite filter_cons.
    repeat case_decide; try done; naive_solver.
Qed.

Lemma held_sections l m s f :
  held (foldl (fun m s => foldl (add_unknown (tag_name s)) m (elements_of s)) m l) s f =
    held m s f ++ (if is_known_field s f then [] else values_of f (fields_of_sections s l)).
Proof.
  revert m. induction l as [|n l IH]; intros m.
  { cbn. case_match; by rewrite app_nil_r. }
  cbn [foldl]. rewrite IH, held_section, <- app_assoc. f_equal.
  unfold fields_of_sections. rewrite filter_cons.
  destruct (is_known_field s f) eqn:K.
  - rewrite decide_False; [done|]. intros [<- ?]. congruence.
  - destruct (decide (s = tag_name n)) as [->|Hs].
    + rewrite !decide_True by done. cbn [map concat]. unfold values_of.
      by rewrite filter_app, map_app.
    + rewrite !decide_False by naive_solver. done.
Qed.

(** What the map of a document holds. *)
Lemma held_extract context s f :
  held (extract_unknown_fields context) s f =
    if is_known_field s f then [] else values_of f (fields_of_sections s (sections context)).
Proof. unfold extract_unknown_fields. by rewrite held_sections. Qed.
End unknown_fields.

(** * Properties *)

(** Nothing of the crash context is lost: under every section and field name the extracted
    [unknown_fields] hold exactly the values of the document's fields of that name, over all the
    sections of that name and in document order, unless the field is one the parser names; the
    sections [GameData] and [PlatformProperties] are kept whole as properties instead. *)
Theorem extract_keeps_every_field {X : Roxmltree} (context : Document) (include : bool) (s f : text) :
  held (CrashContextData.unknown_fields (extract context include)) s f
    = (if is_known_field s f then [] else values_of f (fields_of_sections s (sections context)))
  /\ CrashContextData.game_data (extract context include)
     = map property (default [] (elements_of <$> section context (txt "GameData")))
  /\ CrashContextData.system_metadata (extract context include)
     = map property (default [] (elements_of <$> section context (txt "PlatformProperties")))
       ++ map property (filter (fun n => is_metadata_field n = true)
            (default [] (elements_of <$> section context (txt "RuntimeProperties")))).
Proof.
  split; [apply held_extract|].
  unfold extract; cbn [CrashContextData.game_data CrashContextData.system_metadata].
  unfold section_properties. split; [by destruct (section context _)|].
  f_equal; by destruct (section context _).
Qed.

(** The command line is opt-in: without the option the extracted data has no command line, its
    serialized form has no such key, and neither the unknown fields nor the metadata carry the
    [CommandLine] of the runtime section. *)
Theorem command_line_is_opt_in {X : Roxmltree} (context : Document) :
  let d := extract context false in
  CrashContextData.command_line d = None
  /\ get (Serialized.data d) (txt "command_line") = None
  /\ held (CrashContextData.unknown_fields d) (txt "RuntimeProperties") (txt "CommandLine") = []
  /\ Forall (fun n => is_metadata_field n = true -> tag_name n <> txt "CommandLine")
       (concat (map elements_of (sections context))).
Proof.
  cbn zeta. split; [done|]. split.
  { unfold Serialized.data. cbn [extract CrashContextData.command_line opt_field app].
    unfold get, as_object. cbn [mbind option_bind]. unfold obj_of. cbn [foldl fst snd].
    rewrite !obj_get_insert. by vm_compute. }
  split; [|apply Forall_forall; intros n _ H E; unfold is_metadata_field in H; by rewrite E in H].
  unfold extract; cbn [CrashContextData.unknown_fields]. rewrite held_extract.
  by vm_compute.
Qed.

Ltac signal_cases :=
  cbn -[txt];
  repeat match goal with
  | |- context [decide (?a = ?b :> CrashSignalKind)] =>
      first [rewrite (decide_True (P := a = b)) by done | rewrite (decide_False (P := a = b)) by done]
  | |- NoDup _ => repeat constructor; set_solver
  | |- _ /\ _ => split
  | |- _ <-> _ => split
  | |- forall s, s ∈ [] -> _ => intros s Hs; by apply not_elem_of_nil in Hs
  | |- forall s, s ∈ [_] -> _ => intros s Hs; rewrite list_elem_of_singleton in Hs; subst s; cbn -[txt]
  end; try done; try (by left); try (by right); try (intuition congruence).

(** A classification is what its evidence says: a signal of a kind is reported exactly when the
    crash context states that kind (a structured field) or the error message has one of its
    phrases, its confidence is high exactly when the evidence is structured, it carries its
    evidence, no kind is reported twice, and the confidence of the crash type is low exactly when
    the type is unknown. *)
Theorem classification_is_evidence (ct : CrashType.t) (source message : option text) (oom : bool) :
  let c := classify_crash_context ct source message oom in
  (CrashClassification.confidence c = Low <-> ct = CrashType.Unknown)
  /\ NoDup (map CrashSignal.kind (CrashClassification.signals c))
  /\ forall k, let present := filter (fun s => CrashSignal.kind s = k) (CrashClassification.signals c) in
       (present <> [] <-> stated k source oom \/ phrased k message)
       /\ Forall (fun s => (CrashSignal.confidence s = High <-> stated k source oom)
                           /\ CrashSignal.confidence s <> Low
                           /\ CrashSignal.evidence s <> []) present.
Proof.
  cbn zeta. unfold classify_crash_context.
  cbn [CrashClassification.confidence CrashClassification.signals].
  split; [by case_bool_decide|].
  fold (source_text source) (message_text message).
  split; [|intros k; rewrite Forall_forall; setoid_rewrite <- stated_spec;
           setoid_rewrite <- phrased_spec; destruct k; cbn [patterns]].
  all: destruct oom, (bool_decide (source_text source ∈ oom_names)),
    (contains_any (message_text message) oom_patterns),
    (bool_decide (source_text source ∈ gpu_names)), (contains_any (message_text message) gpu_patterns);
    signal_cases.
Qed.
