(* ===== verification/CrashRequest.v ===== *)
(** The crash archive reader of [crates/unreal/src/request.rs]: the byte and ratio limits as a stack
    of readers, the little-endian envelope, the file table and what is retained of the contents.
    The input, the zlib decoder and the XML library are interfaces. *)

From S2P Require Import Prelude Text Json Domain LogTail CrashContext.

Definition ENVELOPE_MAGIC : bytes := byt "CR1".
Definition ANSI_FIELD_BYTES : N := 260.
Definition READ_BUFFER_BYTES : N := 8 * 1024.

Module CrashRequestLimits.
Record t : Type := Mk {
  compressed_bytes : N;
  expanded_bytes : N;
  expansion_ratio : N;
  files : N;
  file_bytes : N;
  crash_context_bytes : N;
  crash_context_nodes : N;
  minidump_bytes : N;
  log_tail_bytes : N;
  log_tail_lines : N }.

(** [CrashRequestLimits::default]. *)
Definition default : t := {|
  compressed_bytes := 64 * 1024 * 1024;
  expanded_bytes := 256 * 1024 * 1024;
  expansion_ratio := 200;
  files := 128;
  file_bytes := 128 * 1024 * 1024;
  crash_context_bytes := 4 * 1024 * 1024;
  crash_context_nodes := 100000;
  minidump_bytes := 64 * 1024 * 1024;
  log_tail_bytes := 64 * 1024;
  log_tail_lines := 200 |}.
End CrashRequestLimits.

Module FileKind.
Inductive t : Type := CrashContext | Minidump | Log | Unknown.

#[global] Instance eq_dec : EqDecision t.
Proof. solve_decision. Defined.

Definition name (k : t) : text :=
  match k with
  | CrashContext => txt "crash_context" | Minidump => txt "minidump"
  | Log => txt "log" | Unknown => txt "unknown"
  end.
End FileKind.

Module CrashRequestFile.
Record t : Type := Mk { index : N; name : text; size : N; kind : FileKind.t }.
End CrashRequestFile.

Module CrashRequestManifest.
Record t : Type := Mk {
  schema_version : N; envelope : text; directory_name : text; archive_name : text;
  compressed_size : N; expanded_size : N; files : list CrashRequestFile.t }.
End CrashRequestManifest.

Module CrashRequestLog.
Record t : Type := Mk { name : text; tail : ProjectLogTail.t }.
End CrashRequestLog.

Module CrashRequestContents.
Record t : Type := Mk {
  manifest : CrashRequestManifest.t; crash_context : option text; minidump : option bytes;
  log : option CrashRequestLog.t }.
End CrashRequestContents.

(** * Errors *)

Module ErrorKind.
Inductive t : Type :=
| ReadFailed | CompressedTooLarge | InvalidCompression | ExpandedTooLarge
| ExpansionRatioExceeded | UnsupportedEnvelope | InvalidHeader | TooManyFiles | FileTooLarge
| UnsafeFilename | DuplicateCriticalFile | InvalidCrashContextUtf8 | InvalidCrashContext
| TruncatedArchive | TrailingData | ExpandedSizeMismatch | FileCountMismatch.

#[global] Instance eq_dec : EqDecision t.
Proof. solve_decision. Defined.
End ErrorKind.
Import ErrorKind.

Module CrashRequestError.
Record t : Type := Mk { kind : ErrorKind.t; xml_error : option ParseError.t }.

#[global] Instance eq_dec : EqDecision t.
Proof. solve_decision. Defined.

Definition new (kind : ErrorKind.t) : t := {| kind := kind; xml_error := None |}.
Definition xml (error : ParseError.t) : t :=
  {| kind := InvalidCrashContext; xml_error := Some error |}.

(** [Display]. *)
Definition fmt (e : t) : text :=
  match xml_error e with
  | Some error => ParseError.fmt error
  | None =>
      match kind e with
      | ReadFailed => txt "failed to read crash request"
      | CompressedTooLarge => txt "compressed crash request limit exceeded"
      | InvalidCompression => txt "invalid crash request compression"
      | ExpandedTooLarge => txt "expanded crash request limit exceeded"
      | ExpansionRatioExceeded => txt "crash request expansion ratio limit exceeded"
      | UnsupportedEnvelope => txt "unsupported crash request envelope"
      | InvalidHeader => txt "invalid crash request header"
      | TooManyFiles => txt "crash request file count limit exceeded"
      | FileTooLarge => txt "crash request file size limit exceeded"
      | UnsafeFilename => txt "unsafe crash request filename"
      | DuplicateCriticalFile => txt "duplicate critical crash file"
      | InvalidCrashContextUtf8 => txt "crash context must be UTF-8"
      | InvalidCrashContext => txt "invalid crash context XML"
      | TruncatedArchive => txt "truncated crash request archive"
      | TrailingData => txt "trailing data after crash request stream"
      | ExpandedSizeMismatch => txt "crash request expanded size mismatch"
      | FileCountMismatch => txt "crash request file count mismatch"
      end
  end.
End CrashRequestError.
Import CrashRequestError.

(** [io::Error]: one that wraps a [ReadLimitError], or one of a kind the program tells apart. *)
Inductive io_error_kind : Type := InvalidData | InvalidInput | UnexpectedEof | OtherIo.
Inductive io_error : Type :=
| ReadLimitError (kind : ErrorKind.t)
| IoError (kind : io_error_kind).

(** [map_read_error]. *)
Definition map_read_error (error : io_error) : CrashRequestError.t :=
  match error with
  | ReadLimitError kind => CrashRequestError.new kind
  | IoError InvalidData | IoError InvalidInput => CrashRequestError.new InvalidCompression
  | IoError UnexpectedEof => CrashRequestError.new TruncatedArchive
  | IoError OtherIo => CrashRequestError.new ReadFailed
  end.

(** * Readers *)

(** [io::Read]: one call with a buffer of [n] bytes gives the bytes it filled, or an error.  (A call
    that is interrupted and retried is one call.) *)
Class Read (S : Type) : Type := io_read : S -> N -> S * result io_error bytes.

(** What every reader promises: it never fills more than the buffer. *)
Class ReadLaw (S : Type) `{Read S} : Prop :=
  io_read_le s n s' bs : io_read s n = (s', Ok bs) -> (len bs <= n)%N.

(** [impl Read for &[u8]]. *)
#[export] Instance slice_read : Read bytes := fun s n =>
  (drop (N.to_nat n) s, Ok (take (N.to_nat n) s)).

Module CompressedReader.
Record t (R : Type) : Type := Mk { inner : R; limit : N; bytes_read : N }.
Arguments Mk {R} _ _ _.
Arguments inner {R} _.
Arguments limit {R} _.
Arguments bytes_read {R} _.

#[global] Instance read {R} `{Read R} : Read (t R) := fun s n =>
  if (n =? 0)%N then (s, Ok [])
  else
    if (bytes_read s =? limit s)%N then
      let '(i, r) := io_read (inner s) 1 in
      ({| inner := i; limit := limit s; bytes_read := bytes_read s |},
       match r with
       | Ok [] => Ok []
       | Ok _ => Err (ReadLimitError CompressedTooLarge)
       | Err e => Err e
       end)
    else
      let remaining := (limit s - bytes_read s)%N in
      let allowed := N.min remaining n in
      let '(i, r) := io_read (inner s) allowed in
      match r with
      | Ok bs => ({| inner := i; limit := limit s;
                     bytes_read := saturating_add (bytes_read s) (len bs) |}, Ok bs)
      | Err e => ({| inner := i; limit := limit s; bytes_read := bytes_read s |}, Err e)
      end.
End CompressedReader.

Module BufReader.
(** [BufReader<CompressedReader<R>>]: the bytes read ahead and not yet consumed. *)
Record t (R : Type) : Type := Mk { buffer : bytes; inner : CompressedReader.t R }.
Arguments Mk {R} _ _.
Arguments buffer {R} _.
Arguments inner {R} _.

Definition new {R} (inner : CompressedReader.t R) : t R := {| buffer := []; inner := inner |}.

(** [BufRead::fill_buf] and [BufRead::consume]. *)
Definition fill_buf {R} `{Read R} (b : t R) : t R * result io_error bytes :=
  match buffer b with
  | [] =>
      let '(i, r) := io_read (inner b) READ_BUFFER_BYTES in
      match r with
      | Ok bs => ({| buffer := bs; inner := i |}, Ok bs)
      | Err e => ({| buffer := []; inner := i |}, Err e)
      end
  | bs => (b, Ok bs)
  end.
Definition consume {R} (n : N) (b : t R) : t R :=
  {| buffer := drop (N.to_nat n) (buffer b); inner := inner b |}.
End BufReader.

(** What one [read] of a decoder does: it looks at the buffered input and consumes some of it, any
    number of times, and returns.  A decoder has no other access to the input. *)
Inductive decoding (D : Type) : Type :=
| FillBuf (k : result io_error bytes -> decoding D)
| Consume (n : N) (k : decoding D)
| Return (d : D) (r : result io_error bytes).
Arguments FillBuf {D} k.
Arguments Consume {D} n k.
Arguments Return {D} d r.

(** What the program uses of [flate2::bufread::ZlibDecoder]. *)
Class Zlib : Type := {
  decoder : Type;
  new_decoder : decoder;
  decode : decoder -> N -> decoding decoder;
}.

Module ZlibDecoder.
Record t {Z : Zlib} (R : Type) : Type := Mk { state : decoder; reader : BufReader.t R }.
Arguments Mk {Z R} _ _.
Arguments state {Z R} _.
Arguments reader {Z R} _.

Fixpoint run {Z : Zlib} {R} `{Read R} (p : decoding decoder) (b : BufReader.t R) :
    t R * result io_error bytes :=
  match p with
  | FillBuf k => let '(b, r) := BufReader.fill_buf b in run (k r) b
  | Consume n p => run p (BufReader.consume n b)
  | Return d r => ({| state := d; reader := b |}, r)
  end.

Definition new {Z : Zlib} {R} (b : BufReader.t R) : t R := {| state := new_decoder; reader := b |}.

(** A decoder cannot give more than it was asked for: it writes into the buffer of the caller. *)
#[global] Instance read {Z : Zlib} {R} `{Read R} : Read (t R) := fun s n =>
  let '(s, r) := run (decode (state s) n) (reader s) in
  (s, match r with Ok bs => Ok (take (N.to_nat n) bs) | Err e => Err e end).
End ZlibDecoder.

Module ExpandedReader.
Record t {Z : Zlib} (R : Type) : Type := Mk {
  inner : ZlibDecoder.t R; limit : N; ratio : N; bytes_read : N }.
Arguments Mk {Z R} _ _ _ _.
Arguments inner {Z R} _.
Arguments limit {Z R} _.
Arguments ratio {Z R} _.
Arguments bytes_read {Z R} _.

Definition new {Z : Zlib} {R} (inner : ZlibDecoder.t R) (limit ratio : N) : t R :=
  {| inner := inner; limit := limit; ratio := ratio; bytes_read := 0 |}.

(** The cell shared with the [CompressedReader] below the decoder. *)
Definition compressed_bytes_read {Z : Zlib} {R} (s : t R) : N :=
  CompressedReader.bytes_read (BufReader.inner (ZlibDecoder.reader (inner s))).

Definition ratio_limit {Z : Zlib} {R} (s : t R) : N :=
  saturating_mul (compressed_bytes_read s) (ratio s).

#[global] Instance read {Z : Zlib} {R} `{Read R} : Read (t R) := fun s n =>
  let with_inner i := {| inner := i; limit := limit s; ratio := ratio s; bytes_read := bytes_read s |} in
  if (n =? 0)%N then (s, Ok [])
  else
    if (bytes_read s =? limit s)%N then
      let '(i, r) := io_read (inner s) 1 in
      (with_inner i,
       match r with
       | Ok [] => Ok []
       | Ok _ => Err (ReadLimitError ExpandedTooLarge)
       | Err e => Err e
       end)
    else
      let remaining := (limit s - bytes_read s)%N in
      let allowed := N.min remaining n in
      let '(i, r) := io_read (inner s) allowed in
      match r with
      | Ok bs =>
          let s' := {| inner := i; limit := limit s; ratio := ratio s;
                       bytes_read := saturating_add (bytes_read s) (len bs) |} in
          (s', if (ratio_limit s' <? bytes_read s')%N
               then Err (ReadLimitError ExpansionRatioExceeded) else Ok bs)
      | Err e => (with_inner i, Err e)
      end.
End ExpandedReader.

(** * The archive parser over any reader *)

(** A parsing step: it may fail, and gives what it read and the reader it leaves. *)
Definition parser (S A : Type) : Type := S -> result CrashRequestError.t (A * S).

#[export] Instance parser_ret {S} : MRet (parser S) := fun A a s => Ok (a, s).
#[export] Instance parser_bind {S} : MBind (parser S) :=
  fun A B f p s => match p s with Ok (a, s) => f a s | Err e => Err e end.

Definition fail {S A} (k : ErrorKind.t) : parser S A := fun _ => Err (CrashRequestError.new k).
Definition guard_not {S} (c : bool) (k : ErrorKind.t) : parser S unit :=
  if c then fail k else mret tt.
Definition lift {S A} (r : result CrashRequestError.t A) : parser S A :=
  fun s => match r with Ok a => Ok (a, s) | Err e => Err e end.

(** [safe_leaf_name]. *)
Definition forbidden_bytes : bytes := byt "<>:/\|?*" ++ [Byte.x22].
Definition safe_byte (b : Byte.byte) : bool :=
  in_range 32 126 (Byte.to_N b) && negb (bool_decide (b ∈ forbidden_bytes)).
Definition safe_leaf_name (value : text) : bool :=
  bool_decide (value <> []) && bool_decide (value <> txt ".") && bool_decide (value <> txt "..")
  && negb (ends_with_char value 46 || ends_with_char value 32)
  && forallb safe_byte (as_bytes value).

(** [Path::extension] of a name without separators: what follows the last dot, unless there is
    none or nothing precedes it. *)
Definition path_extension (name : text) : option text :=
  if decide (name = txt "..") then None
  else match reverse (split_on (N.eqb 46) name) with
       | extension :: before => if decide (join [46%N] (reverse before) = []) then None else Some extension
       | [] => None
       end.

Definition has_extension (name : text) (e : string) : bool :=
  match path_extension name with Some x => eq_ignore_ascii_case x (txt e) | None => false end.

(** [file_kind]. *)
Definition file_kind (name : text) : FileKind.t :=
  if eq_ignore_ascii_case name (txt "crashcontext.runtime-xml") then FileKind.CrashContext
  else if has_extension name "dmp" then FileKind.Minidump
  else if has_extension name "log" then FileKind.Log
  else FileKind.Unknown.

(** [i32::from_le_bytes]. *)
Definition i32_from_le_bytes (bs : bytes) : Z :=
  let n := Z.of_N (le_value bs) in
  if (n <? 2 ^ 31)%Z then n else (n - 2 ^ 32)%Z.

Section parser.
Context {S : Type} `{Read S}.

(** [Read::read_exact]: read until the buffer is full; each call that does not end the loop fills
    at least one byte. *)
Fixpoint read_exact_io (fuel : nat) (n : N) (s : S) : result io_error (bytes * S) :=
  if (n =? 0)%N then Ok ([], s)
  else match fuel with
       | O => Err (IoError OtherIo)
       | Datatypes.S fuel =>
           match io_read s n with
           | (_, Err e) => Err e
           | (_, Ok []) => Err (IoError UnexpectedEof)
           | (s, Ok bs) =>
               match read_exact_io fuel (n - len bs) s with
               | Ok (bs', s) => Ok (bs ++ bs', s)
               | Err e => Err e
               end
           end
       end.

(** [read_exact]. *)
Definition read_exact (n : N) : parser S bytes := fun s =>
  map_err map_read_error (read_exact_io (N.to_nat n) n s).

(** [read_i32] and [read_count]. *)
Definition read_i32 : parser S Z := bs ← read_exact 4; mret (i32_from_le_bytes bs).
Definition read_count : parser S N :=
  value ← read_i32;
  if (value <? 0)%Z then fail InvalidHeader else mret (Z.to_N value).

(** The position of the first zero byte, or the length. *)
Definition value_length (bs : bytes) : nat := default (length bs) (find_byte Byte.x00 bs).

(** [read_ansi_field]. *)
Definition read_ansi_field : parser S text :=
  length ← read_i32;
  _ ← guard_not (negb (length =? Z.of_N ANSI_FIELD_BYTES)%Z) InvalidHeader;
  bs ← read_exact ANSI_FIELD_BYTES;
  let n := value_length bs in
  _ ← guard_not (existsb (fun b => negb (bool_decide (b = Byte.x00))) (drop n bs)) InvalidHeader;
  value ← lift (ok_or (CrashRequestError.new UnsafeFilename) (from_utf8 (take n bs)));
  _ ← guard_not (negb (safe_leaf_name value)) UnsafeFilename;
  mret value.

(** [discard]: one buffer at a time; [fuel] counts the buffers. *)
Fixpoint discard_loop (fuel : nat) (remaining : N) : parser S unit :=
  if (remaining =? 0)%N then mret tt
  else match fuel with
       | O => fail ReadFailed
       | Datatypes.S fuel =>
           let count := N.min remaining READ_BUFFER_BYTES in
           _ ← read_exact count;
           discard_loop fuel (remaining - count)
       end.
Definition buffers (size : N) : nat := Datatypes.S (N.to_nat (size / READ_BUFFER_BYTES)).
Definition discard (size : N) : parser S unit := discard_loop (buffers size) size.

(** [read_bytes]; a size of the format fits [usize]. *)
Definition read_bytes (size : N) : parser S bytes :=
  if (size <=? usize_max)%N then read_exact size else fail FileTooLarge.

(** [read_log_tail]: the window is the last [max_bytes + 4] bytes read so far. *)
Fixpoint read_window (fuel : nat) (retain : N) (remaining : N) (suffix : bytes) : parser S bytes :=
  if (remaining =? 0)%N then mret suffix
  else match fuel with
       | O => fail ReadFailed
       | Datatypes.S fuel =>
           let count := N.min remaining READ_BUFFER_BYTES in
           chunk ← read_exact count;
           let suffix := suffix ++ chunk in
           let excess := (len suffix - retain)%N in
           read_window fuel retain (remaining - count) (drop (N.to_nat excess) suffix)
       end.
Definition read_log_tail (size max_bytes max_lines : N) : parser S ProjectLogTail.t :=
  let retain := saturating_add max_bytes 4 in
  suffix ← read_window (buffers size) retain size [];
  lift (ok_or (CrashRequestError.new ReadFailed) (ProjectLogTail.extract suffix max_bytes max_lines)).

Context {X : Roxmltree}.

(** [read_crash_context]. *)
Definition read_crash_context (limits : CrashRequestLimits.t) (size : N) : parser S text :=
  _ ← guard_not (CrashRequestLimits.crash_context_bytes limits <? size)%N FileTooLarge;
  bs ← read_bytes size;
  xml ← lift (ok_or (CrashRequestError.new InvalidCrashContextUtf8) (from_utf8 bs));
  _ ← lift (map_err CrashRequestError.xml (parse (CrashRequestLimits.crash_context_nodes limits) xml));
  mret xml.
End parser.

(** [InspectedFiles] and the sets the loop keeps. *)
Module InspectedFiles.
Record t : Type := Mk {
  files : list CrashRequestFile.t; crash_context : option text; minidump : option bytes;
  log : option CrashRequestLog.t }.

Definition empty : t := {| files := []; crash_context := None; minidump := None; log := None |}.
Definition set_crash_context (xml : text) (c : t) : t :=
  {| files := files c; crash_context := Some xml; minidump := minidump c; log := log c |}.
Definition set_minidump (bs : bytes) (c : t) : t :=
  {| files := files c; crash_context := crash_context c; minidump := Some bs; log := log c |}.
Definition set_log (l : CrashRequestLog.t) (c : t) : t :=
  {| files := files c; crash_context := crash_context c; minidump := minidump c; log := Some l |}.
Definition push (f : CrashRequestFile.t) (c : t) : t :=
  {| files := files c ++ [f]; crash_context := crash_context c; minidump := minidump c; log := log c |}.
End InspectedFiles.

Definition is_critical (k : FileKind.t) : bool :=
  match k with FileKind.CrashContext | FileKind.Minidump => true | _ => false end.

Section inspect.
Context {S : Type} `{Read S} {X : Roxmltree}.
Context (limits : CrashRequestLimits.t) (retain_contents validate_crash_context : bool).

(** What the loop does with the contents of a file: the [match kind] of [inspect_files]. *)
Definition inspect_contents (name : text) (kind : FileKind.t) (size : N) (c : InspectedFiles.t) :
    parser S InspectedFiles.t :=
  match kind with
  | FileKind.CrashContext =>
      if validate_crash_context then
        xml ← read_crash_context limits size;
        mret (if retain_contents then InspectedFiles.set_crash_context xml c else c)
      else
        _ ← guard_not (CrashRequestLimits.crash_context_bytes limits <? size)%N FileTooLarge;
        _ ← discard size;
        mret c
  | FileKind.Minidump =>
      if retain_contents then
        _ ← guard_not (CrashRequestLimits.minidump_bytes limits <? size)%N FileTooLarge;
        bs ← read_bytes size;
        mret (InspectedFiles.set_minidump bs c)
      else (_ ← discard size; mret c)
  | FileKind.Log =>
      if retain_contents && bool_decide (InspectedFiles.log c = None) then
        tail ← read_log_tail size (CrashRequestLimits.log_tail_bytes limits)
                 (CrashRequestLimits.log_tail_lines limits);
        mret (InspectedFiles.set_log {| CrashRequestLog.name := name; CrashRequestLog.tail := tail |} c)
      else (_ ← discard size; mret c)
  | FileKind.Unknown => _ ← discard size; mret c
  end.

(** One iteration of the loop of [inspect_files], at [expected_index]. *)
Definition inspect_file (expected_index : N) (critical_files : list FileKind.t)
    (filenames : list text) (c : InspectedFiles.t) :
    parser S (list FileKind.t * list text * InspectedFiles.t) :=
  index ← read_count;
  _ ← guard_not (negb (index =? expected_index)%N) FileCountMismatch;
  name ← read_ansi_field;
  let kind := file_kind name in
  _ ← guard_not (is_critical kind && bool_decide (kind ∈ critical_files)) DuplicateCriticalFile;
  let lower := to_ascii_lowercase name in
  _ ← guard_not (bool_decide (lower ∈ filenames)) DuplicateCriticalFile;
  size ← read_count;
  _ ← guard_not (CrashRequestLimits.file_bytes limits <? size)%N FileTooLarge;
  c ← inspect_contents name kind size c;
  index ← lift (ok_or (CrashRequestError.new FileCountMismatch) (to_u32 index));
  let file := {| CrashRequestFile.index := index; CrashRequestFile.name := name;
                 CrashRequestFile.size := size; CrashRequestFile.kind := kind |} in
  mret (if is_critical kind then kind :: critical_files else critical_files,
        lower :: filenames, InspectedFiles.push file c).

(** The loop over [expected_index..file_count]; [remaining] iterations are left. *)
Fixpoint inspect_loop (remaining : nat) (expected_index : N) (critical_files : list FileKind.t)
    (filenames : list text) (c : InspectedFiles.t) : parser S InspectedFiles.t :=
  match remaining with
  | O => mret c
  | Datatypes.S remaining =>
      '(critical_files, filenames, c) ← inspect_file expected_index critical_files filenames c;
      inspect_loop remaining (expected_index + 1) critical_files filenames c
  end.
Definition inspect_files (file_count : N) : parser S InspectedFiles.t :=
  inspect_loop (N.to_nat file_count) 0 [] [] InspectedFiles.empty.

(** The head of [decode_crash_request]: magic, names, reported size and file table.  It gives the
    names, the reported expanded size and the inspected files. *)
Definition decode_archive : parser S (text * text * N * InspectedFiles.t) :=
  magic ← read_exact (len ENVELOPE_MAGIC);
  _ ← guard_not (negb (bool_decide (magic = ENVELOPE_MAGIC))) UnsupportedEnvelope;
  directory_name ← read_ansi_field;
  archive_name ← read_ansi_field;
  reported_expanded_size ← read_count;
  _ ← guard_not (CrashRequestLimits.expanded_bytes limits <? reported_expanded_size)%N ExpandedTooLarge;
  reported_file_count ← read_count;
  _ ← guard_not (CrashRequestLimits.files limits <? reported_file_count)%N TooManyFiles;
  contents ← inspect_files reported_file_count;
  mret (directory_name, archive_name, reported_expanded_size, contents).
End inspect.

Section decode_crash_request.
Context {Z : Zlib} {X : Roxmltree} {R : Type} `{Read R}.

(** The stack of readers [decode_crash_request] builds over its input. *)
Definition expanded_reader (input : R) (limits : CrashRequestLimits.t) : ExpandedReader.t R :=
  let compressed := {| CompressedReader.inner := input;
                       CompressedReader.limit := CrashRequestLimits.compressed_bytes limits;
                       CompressedReader.bytes_read := 0 |} in
  ExpandedReader.new (ZlibDecoder.new (BufReader.new compressed))
    (CrashRequestLimits.expanded_bytes limits) (CrashRequestLimits.expansion_ratio limits).

(** [decode_crash_request]. *)
Definition decode_crash_request (input : R) (limits : CrashRequestLimits.t)
    (retain_contents validate_crash_context : bool) :
    result CrashRequestError.t CrashRequestContents.t :=
  '(directory_name, archive_name, reported_expanded_size, contents, expanded) ←
    decode_archive limits retain_contents validate_crash_context (expanded_reader input limits);
  let '(expanded, extra) := io_read expanded 1 in
  extra ← map_err map_read_error extra;
  _ ← fail_if (bool_decide (extra <> [])) (CrashRequestError.new ExpandedSizeMismatch);
  let expanded_size := ExpandedReader.bytes_read expanded in
  _ ← fail_if (negb (expanded_size =? reported_expanded_size)%N)
        (CrashRequestError.new ExpandedSizeMismatch);
  let '(compressed, rest) := BufReader.fill_buf (ZlibDecoder.reader (ExpandedReader.inner expanded)) in
  rest ← map_err map_read_error rest;
  _ ← fail_if (bool_decide (rest <> [])) (CrashRequestError.new TrailingData);
  Ok {| CrashRequestContents.manifest :=
          {| CrashRequestManifest.schema_version := 1;
             CrashRequestManifest.envelope := txt "cr1";
             CrashRequestManifest.directory_name := directory_name;
             CrashRequestManifest.archive_name := archive_name;
             CrashRequestManifest.compressed_size :=
               CompressedReader.bytes_read (BufReader.inner compressed);
             CrashRequestManifest.expanded_size := expanded_size;
             CrashRequestManifest.files := InspectedFiles.files contents |};
        CrashRequestContents.crash_context := InspectedFiles.crash_context contents;
        CrashRequestContents.minidump := InspectedFiles.minidump contents;
        CrashRequestContents.log := InspectedFiles.log contents |}.

(** [inspect_crash_request], [inspect_crash_envelope] and [read_crash_request]. *)
Definition inspect_crash_request (input : R) (limits : CrashRequestLimits.t) :
    result CrashRequestError.t CrashRequestManifest.t :=
  CrashRequestContents.manifest <$> decode_crash_request input limits false true.
Definition inspect_crash_envelope (input : R) (limits : CrashRequestLimits.t) :
    result CrashRequestError.t CrashRequestManifest.t :=
  CrashRequestContents.manifest <$> decode_crash_request input limits false false.
Definition read_crash_request (input : R) (limits : CrashRequestLimits.t) :
    result CrashRequestError.t CrashRequestContents.t :=
  decode_crash_request input limits true true.
End decode_crash_request.
