(* ===== verification/Archive.v ===== *)
(** The CR1 archive format as an abstract value: what an archive holds, how it is written, which
    archives the limits admit and what reading one gives.  This is the specification that the
    reader of [CrashRequest] refines; concrete instances of its interfaces close the file. *)

From S2P Require Import Prelude Text Json Domain LogTail CrashContext CrashRequest.

(** An archive: two names and its members, each a name with its contents. *)
Record archive : Type := Archive {
  directory : text;
  title : text;
  members : list (text * bytes);
}.

(** * Encoding *)

Definition le32 (n : N) : bytes :=
  [byte_of (n mod 256); byte_of (n / 256 mod 256); byte_of (n / 65536 mod 256);
   byte_of (n / 16777216 mod 256)].

Definition ansi_field (v : text) : bytes :=
  le32 ANSI_FIELD_BYTES ++ as_bytes v
  ++ replicate (N.to_nat (ANSI_FIELD_BYTES - len (as_bytes v))) Byte.x00.

Definition encode_member (i : N) (m : text * bytes) : bytes :=
  le32 i ++ ansi_field m.1 ++ le32 (len m.2) ++ m.2.

Fixpoint encode_members (i : N) (ms : list (text * bytes)) : bytes :=
  match ms with
  | [] => []
  | m :: ms => encode_member i m ++ encode_members (i + 1) ms
  end.

(** The expanded size an archive reports: fixed fields, and 272 bytes with each content. *)
Definition archive_size (a : archive) : N :=
  539 + foldr (fun m n => (272 + len m.2 + n)%N) 0%N (members a).

Definition encode (a : archive) : bytes :=
  ENVELOPE_MAGIC ++ ansi_field (directory a) ++ ansi_field (title a) ++ le32 (archive_size a)
  ++ le32 (len (members a)) ++ encode_members 0 (members a).

(** * Admittance archives *)

Definition i32_max : N := 2147483647.

Definition field_ok (v : text) : Prop :=
  safe_leaf_name v = true /\ (len (as_bytes v) <= ANSI_FIELD_BYTES)%N.

Section spec.
Context {X : Roxmltree} (limits : CrashRequestLimits.t) (retain validate : bool).

(** What each kind of file must satisfy beyond the size limit of every file. *)
Definition content_ok (kind : FileKind.t) (content : bytes) : Prop :=
  match kind with
  | FileKind.CrashContext =>
      (len content <= CrashRequestLimits.crash_context_bytes limits)%N
      /\ (validate = true -> exists xml d, from_utf8 content = Some xml
            /\ parse (CrashRequestLimits.crash_context_nodes limits) xml = Ok d)
  | FileKind.Minidump =>
      retain = true -> (len content <= CrashRequestLimits.minidump_bytes limits)%N
  | FileKind.Log | FileKind.Unknown => True
  end.

Definition member_ok (m : text * bytes) : Prop :=
  field_ok m.1 /\ (len m.2 <= N.min i32_max (CrashRequestLimits.file_bytes limits))%N
  /\ content_ok (file_kind m.1) m.2.

Definition member_kinds (ms : list (text * bytes)) : list FileKind.t :=
  filter (fun k => is_critical k = true) (map (fun m => file_kind m.1) ms).

Record archive_ok (a : archive) : Prop := {
  directory_ok : field_ok (directory a);
  title_ok : field_ok (title a);
  size_ok : (archive_size a <= N.min i32_max (CrashRequestLimits.expanded_bytes limits))%N;
  count_ok : (len (members a) <= N.min i32_max (CrashRequestLimits.files limits))%N;
  members_ok : Forall member_ok (members a);
  names_ok : NoDup (map (fun m => to_ascii_lowercase m.1) (members a));
  critical_ok : NoDup (member_kinds (members a));
}.

(** * What reading an archive gives *)

Fixpoint entries (i : N) (ms : list (text * bytes)) : list CrashRequestFile.t :=
  match ms with
  | [] => []
  | m :: ms =>
      {| CrashRequestFile.index := i; CrashRequestFile.name := m.1;
         CrashRequestFile.size := len m.2; CrashRequestFile.kind := file_kind m.1 |}
      :: entries (i + 1) ms
  end.

(** The first member of a kind. *)
Definition member_of_kind (k : FileKind.t) (ms : list (text * bytes)) : option (text * bytes) :=
  head (filter (fun m => file_kind m.1 = k) ms).

Definition read_context (ms : list (text * bytes)) : option text :=
  if retain && validate then member_of_kind FileKind.CrashContext ms ≫= fun m => from_utf8 m.2 else None.
Definition read_minidump (ms : list (text * bytes)) : option bytes :=
  if retain then snd <$> member_of_kind FileKind.Minidump ms else None.
Definition log_of (m : text * bytes) : option CrashRequestLog.t :=
  tail ← ProjectLogTail.extract m.2 (CrashRequestLimits.log_tail_bytes limits)
           (CrashRequestLimits.log_tail_lines limits);
  Some {| CrashRequestLog.name := m.1; CrashRequestLog.tail := tail |}.
Definition read_log (ms : list (text * bytes)) : option CrashRequestLog.t :=
  if retain then member_of_kind FileKind.Log ms ≫= log_of else None.

(** The contents of an archive that took [compressed] bytes of the input. *)
Definition contents (compressed : N) (a : archive) : CrashRequestContents.t :=
  {| CrashRequestContents.manifest :=
       {| CrashRequestManifest.schema_version := 1;
          CrashRequestManifest.envelope := txt "cr1";
          CrashRequestManifest.directory_name := directory a;
          CrashRequestManifest.archive_name := title a;
          CrashRequestManifest.compressed_size := compressed;
          CrashRequestManifest.expanded_size := archive_size a;
          CrashRequestManifest.files := entries 0 (members a) |};
     CrashRequestContents.crash_context := read_context (members a);
     CrashRequestContents.minidump := read_minidump (members a);
     CrashRequestContents.log := read_log (members a) |}.
End spec.

(** * Instances for concrete runs *)

(** A decoder that stores: it gives the buffered input as it is. *)
#[local] Instance stored : Zlib := {|
  decoder := unit;
  new_decoder := tt;
  decode := fun _ n => FillBuf (fun r =>
    match r with
    | Ok bs => let out := take (N.to_nat n) bs in Consume (len out) (Return tt (Ok out))
    | Err e => Return tt (Err e)
    end);
|}.

(** A document that is one element whose name is the whole input. *)
#[local] Instance one_element : Roxmltree := {|
  Node := text; Document := text; root_element := id; root_position := fun _ => (1, 1)%N;
  children := fun _ => []; is_element := fun _ => true; tag_name := id; node_text := fun _ => None;
  parse_with_options := fun _ _ xml =>
    if decide (xml = []) then Err (OtherXmlError, (1, 1)%N) else Ok xml;
|}.

Definition sample_limits : CrashRequestLimits.t := {|
  CrashRequestLimits.compressed_bytes := 4096; CrashRequestLimits.expanded_bytes := 4096;
  CrashRequestLimits.expansion_ratio := 2; CrashRequestLimits.files := 4;
  CrashRequestLimits.file_bytes := 64; CrashRequestLimits.crash_context_bytes := 32;
  CrashRequestLimits.crash_context_nodes := 8; CrashRequestLimits.minidump_bytes := 16;
  CrashRequestLimits.log_tail_bytes := 4; CrashRequestLimits.log_tail_lines := 1 |}.

Definition sample_archive : archive := {|
  directory := txt "UECC-1"; title := txt "UECC-1.ue4crash";
  members := [(txt "CrashContext.runtime-xml", byt "FGenericCrashContext");
              (txt "UE.dmp", byt "MDMP"); (txt "Game.log", byt "opening")] |}.

Example sample_reads :
  read_crash_request (encode sample_archive) sample_limits
    = Ok (contents sample_limits true true (len (encode sample_archive)) sample_archive).
Proof. vm_compute. reflexivity. Qed.
