(* ===== verification/ArchiveLimits.v ===== *)
(** The resource limits of the crash archive reader: the stack of readers never lets more through
    than its limits, and an accepted archive has a file table the program can trust. *)

From S2P Require Import Prelude Text Json Domain LogTail CrashContext CrashRequest Archive.
Import ErrorKind CrashRequestError.

(** * Inversion of parsing steps *)

Section inversion.
Context {S : Type}.

Lemma parser_bind_Ok {A B} (p : parser S A) (f : A -> parser S B) s b s' :
  (p ≫= f) s = Ok (b, s') <-> exists a s1, p s = Ok (a, s1) /\ f a s1 = Ok (b, s').
Proof.
  unfold mbind, parser_bind. destruct (p s) as [[a s1]|e]; naive_solver.
Qed.

Lemma parser_ret_Ok {A} (a b : A) (s s' : S) : mret (M := parser S) a s = Ok (b, s') <-> a = b /\ s = s'.
Proof. unfold mret, parser_ret. naive_solver. Qed.

Lemma fail_Ok {A} k (s s' : S) (a : A) : fail k s = Ok (a, s') <-> False.
Proof. done. Qed.

Lemma guard_not_Ok (c : bool) k (s s' : S) u : guard_not c k s = Ok (u, s') <-> c = false /\ s = s'.
Proof. unfold guard_not. destruct c, u; unfold fail, mret, parser_ret; naive_solver. Qed.

Lemma lift_Ok {A} (r : result CrashRequestError.t A) (s s' : S) a :
  lift r s = Ok (a, s') <-> r = Ok a /\ s = s'.
Proof. unfold lift. destruct r; naive_solver. Qed.
End inversion.

(** Splits every successful parse of the context into its steps. *)
Ltac inv_parse :=
  repeat match goal with
  | H : (_ ≫= _) _ = Ok (_, _) |- _ =>
      apply parser_bind_Ok in H;
      let a := fresh "a" in let s1 := fresh "s" in let H1 := fresh H in
      destruct H as (a & s1 & H1 & H)
  | H : mret _ _ = Ok (_, _) |- _ => apply parser_ret_Ok in H as [? ?]; try subst
  | H : fail _ _ = Ok (_, _) |- _ => apply fail_Ok in H as []
  | H : guard_not _ _ _ = Ok (_, _) |- _ => apply guard_not_Ok in H as [? ?]; try subst
  | H : lift _ _ = Ok (_, _) |- _ => apply lift_Ok in H as [? ?]; try subst
  | H : (if ?c then _ else _) _ = Ok (_, _) |- _ => let E := fresh "E" in destruct c eqn:E
  end; inv_ok.

(** * Accounting *)

(** A reader that counts the bytes it gives, and the invariant it keeps. *)
Class Counted (S : Type) `{Read S} (I : S -> Prop) (count : S -> N) : Prop :=
  counted : forall s n s' bs, I s -> io_read s n = (s', Ok bs) ->
    I s' /\ (len bs <= n)%N /\ count s' = (count s + len bs)%N.

Section accounting.
Context {S : Type} `{HR : Read S} (I : S -> Prop) (count : S -> N) `{!Counted S I count}.

(** [p] takes [k] bytes from the reader. *)
Definition takes {A} (p : parser S A) (k : N) (P : A -> Prop) : Prop :=
  forall s a s', I s -> p s = Ok (a, s') -> I s' /\ count s' = (count s + k)%N /\ P a.

Lemma takes_weaken {A} (p : parser S A) k k' (P P' : A -> Prop) :
  takes p k P -> k = k' -> (forall a, P a -> P' a) -> takes p k' P'.
Proof. intros H <- HP s a s' Hs E. destruct (H s a s' Hs E) as (? & ? & ?). auto. Qed.

Lemma takes_bind {A B} (p : parser S A) (f : A -> parser S B) k l (P : A -> Prop) (Q : B -> Prop) :
  takes p k P -> (forall a, P a -> takes (f a) (l - k) Q) -> (k <= l)%N -> takes (p ≫= f) l Q.
Proof.
  intros Hp Hf Hl s b s' Hs H. inv_parse. destruct (Hp s a s0 Hs H0) as (Hs0 & E & Ha).
  destruct (Hf a Ha s0 b s' Hs0 H) as (? & ? & ?). split_and!; [done|lia|done].
Qed.

Lemma takes_ret {A} (a : A) k (P : A -> Prop) : k = 0%N -> P a -> takes (mret a) k P.
Proof. intros -> Ha s b s' Hs H. inv_parse. split_and!; [done|lia|done]. Qed.

Lemma takes_fail {A} k j (P : A -> Prop) : takes (fail k) j P.
Proof. intros s a s' _ H. inv_parse. Qed.

Lemma takes_guard c k : takes (guard_not c k) 0 (fun _ => c = false).
Proof. intros s a s' Hs H. inv_parse. split_and!; [done|lia|done]. Qed.

Lemma takes_lift {A} (r : result CrashRequestError.t A) : takes (lift r) 0 (fun a => r = Ok a).
Proof. intros s a s' Hs H. inv_parse. split_and!; [done|lia|done]. Qed.

Lemma takes_read_exact n : takes (read_exact n) n (fun bs => len bs = n).
Proof.
  intros s bs s' Hs H. unfold read_exact in H. inv_ok. revert n s bs s' Hs H.
  assert (G : forall fuel n s bs s', I s -> read_exact_io fuel n s = Ok (bs, s') ->
    I s' /\ count s' = (count s + n)%N /\ len bs = n); [|eauto].
  induction fuel as [|fuel IH]; intros n s bs s' Hs H; cbn in H.
  all: destruct (N.eqb_spec n 0) as [->|Hn]; inv_ok; try (split_and!; [done|lia|done]).
  destruct (io_read s n) as [s1 [[|b0 bs1]|e]] eqn:E; inv_ok.
  destruct (read_exact_io _ _ s1) as [[bs2 s2]|e] eqn:E2; inv_ok.
  destruct (counted _ _ _ _ Hs E) as (Hs1 & Hle & Hc). destruct (IH _ _ _ _ Hs1 E2) as (? & ? & ?).
  change (b0 :: bs1 ++ bs2) with ((b0 :: bs1) ++ bs2). rewrite len_app. split_and!; [done|lia|lia].
Qed.
End accounting.

Create HintDb takes.
#[export] Hint Resolve takes_ret takes_fail takes_guard takes_lift takes_read_exact : takes.

(** Takes a composite parser apart, one step at a time. *)
Ltac takes_step :=
  lazymatch goal with
  | |- takes _ _ (_ ≫= _) _ _ =>
      eapply takes_bind; [solve [eauto with takes]|let a := fresh "a" in let Ha := fresh "Ha" in intros a Ha|]
  | |- takes _ _ (if ?c then _ else _) _ _ => let E := fresh "E" in destruct c eqn:E
  | |- takes _ _ (mret _) _ _ => apply takes_ret
  | |- takes _ _ (fail _) _ _ => apply takes_fail
  end.
Ltac takes_steps := repeat takes_step; try (cbn beta in *; lia); try done.

(** The limit of the kind of a file: a crash context always has its own, a minidump where its
    contents are kept. *)
Definition kind_fits (limits : CrashRequestLimits.t) (retain : bool) (kind : FileKind.t) (size : N) : Prop :=
  (kind = FileKind.CrashContext -> (size <= CrashRequestLimits.crash_context_bytes limits)%N)
  /\ (kind = FileKind.Minidump -> retain = true -> (size <= CrashRequestLimits.minidump_bytes limits)%N).

Section takes.
Context {S : Type} `{HR : Read S} {X : Roxmltree} (I : S -> Prop) (count : S -> N) `{!Counted S I count}.

Lemma takes_read_i32 : takes I count read_i32 4 (fun _ => True).
Proof. unfold read_i32. takes_steps. Qed.
Hint Resolve takes_read_i32 : takes.

Lemma takes_read_count : takes I count read_count 4 (fun _ => True).
Proof. unfold read_count. takes_steps. Qed.
Hint Resolve takes_read_count : takes.

Lemma takes_read_ansi_field :
  takes I count read_ansi_field 264 (fun v => safe_leaf_name v = true).
Proof.
  unfold read_ansi_field, ANSI_FIELD_BYTES. takes_steps. by apply negb_false_iff.
Qed.
Hint Resolve takes_read_ansi_field : takes.

Lemma takes_read_bytes n : takes I count (read_bytes n) n (fun bs => len bs = n).
Proof. unfold read_bytes. takes_steps. eauto with takes. Qed.
Hint Resolve takes_read_bytes : takes.

Lemma takes_discard size : takes I count (discard size) size (fun _ => True).
Proof.
  unfold discard. generalize (buffers size). intros fuel. revert size.
  induction fuel as [|fuel IH]; intros size; cbn [discard_loop]; takes_steps.
  all: by apply N.eqb_eq.
Qed.
Hint Resolve takes_discard : takes.

Lemma takes_read_window fuel retain size suffix :
  takes I count (read_window fuel retain size suffix) size (fun _ => True).
Proof.
  revert size suffix.
  induction fuel as [|fuel IH]; intros size suffix; cbn [read_window]; takes_steps.
  all: by apply N.eqb_eq.
Qed.
Hint Resolve takes_read_window : takes.

Lemma takes_read_log_tail size mb ml : takes I count (read_log_tail size mb ml) size (fun _ => True).
Proof.
  unfold read_log_tail. takes_steps.
  eapply takes_weaken; [apply takes_lift|lia|done].
Qed.
Hint Resolve takes_read_log_tail : takes.

Lemma takes_read_crash_context limits size :
  takes I count (read_crash_context limits size) size
    (fun _ => (size <= CrashRequestLimits.crash_context_bytes limits)%N).
Proof. unfold read_crash_context. takes_steps. by apply N.ltb_ge. Qed.
Hint Resolve takes_read_crash_context : takes.

Lemma takes_inspect_contents limits retain validate name kind size c :
  takes I count (inspect_contents limits retain validate name kind size c) size
    (fun c' => InspectedFiles.files c' = InspectedFiles.files c /\ kind_fits limits retain kind size).
Proof.
  destruct kind; cbn [inspect_contents]; takes_steps.
  all: cbn beta in *; repeat match goal with H : (_ <? _)%N = false |- _ => apply N.ltb_ge in H end.
  all: by destruct retain.
Qed.
Hint Resolve takes_inspect_contents : takes.
End takes.

(** * The file table *)

(** The bytes an entry takes in the archive: index, name field, size and contents. *)
Definition entry_size (f : CrashRequestFile.t) : N := 272 + CrashRequestFile.size f.
Definition table_size (fs : list CrashRequestFile.t) : N := foldr (fun f n => (entry_size f + n)%N) 0%N fs.
Definition lower_name (f : CrashRequestFile.t) : text := to_ascii_lowercase (CrashRequestFile.name f).
Definition critical_kinds (fs : list CrashRequestFile.t) : list FileKind.t :=
  filter (fun k => is_critical k = true) (map CrashRequestFile.kind fs).

Definition entry_ok (limits : CrashRequestLimits.t) (retain : bool) (i : N) (f : CrashRequestFile.t) : Prop :=
  CrashRequestFile.index f = i
  /\ safe_leaf_name (CrashRequestFile.name f) = true
  /\ CrashRequestFile.kind f = file_kind (CrashRequestFile.name f)
  /\ (CrashRequestFile.size f <= CrashRequestLimits.file_bytes limits)%N
  /\ kind_fits limits retain (CrashRequestFile.kind f) (CrashRequestFile.size f).

(** The entries [fs] continue a table at index [i], after the lower-case names and critical kinds
    already seen. *)
Record table_ok (limits : CrashRequestLimits.t) (retain : bool) (i : N) (critical : list FileKind.t)
    (names : list text) (fs : list CrashRequestFile.t) : Prop := {
  table_entries : forall j f, fs !! j = Some f -> entry_ok limits retain (i + N.of_nat j) f;
  table_names : NoDup names -> NoDup (map lower_name fs ++ names);
  table_critical : NoDup critical -> NoDup (critical_kinds fs ++ critical);
}.

Lemma table_nil limits retain i critical names : table_ok limits retain i critical names [].
Proof. by split. Qed.

Lemma table_cons limits retain i critical names f fs :
  entry_ok limits retain i f -> lower_name f ∉ names ->
  (is_critical (CrashRequestFile.kind f) = true -> CrashRequestFile.kind f ∉ critical) ->
  table_ok limits retain (i + 1)
    (if is_critical (CrashRequestFile.kind f) then CrashRequestFile.kind f :: critical else critical)
    (lower_name f :: names) fs ->
  table_ok limits retain i critical names (f :: fs).
Proof.
  intros Hf Hname Hcrit [He Hn Hc]. split.
  - intros [|j] g Hg; cbn in Hg.
    + injection Hg as <-. by rewrite N.add_0_r.
    + replace (i + N.of_nat (S j))%N with (i + 1 + N.of_nat j)%N by lia. eauto.
  - intros Hd. cbn. rewrite Permutation_middle. apply Hn. by constructor.
  - intros Hd. unfold critical_kinds in *. cbn [map]. rewrite filter_cons.
    destruct (is_critical (CrashRequestFile.kind f)); [|by apply Hc].
    rewrite decide_True by done. cbn. rewrite Permutation_middle. apply Hc. constructor; auto.
Qed.

Section table.
Context {S : Type} `{HR : Read S} {X : Roxmltree} (I : S -> Prop) (count : S -> N) `{!Counted S I count}.
Context (limits : CrashRequestLimits.t) (retain validate : bool).

Lemma inspect_file_Ok i critical names c s critical' names' c' s' :
  I s -> inspect_file limits retain validate i critical names c s = Ok (critical', names', c', s') ->
  exists f, I s' /\ count s' = (count s + entry_size f)%N
  /\ InspectedFiles.files c' = InspectedFiles.files c ++ [f]
  /\ entry_ok limits retain i f /\ lower_name f ∉ names
  /\ (is_critical (CrashRequestFile.kind f) = true -> CrashRequestFile.kind f ∉ critical)
  /\ names' = lower_name f :: names
  /\ critical' = (if is_critical (CrashRequestFile.kind f) then CrashRequestFile.kind f :: critical
                  else critical).
Proof.
  intros Hs H. unfold inspect_file in H. inv_parse.
  apply (takes_read_count I count) in H0 as (Hs1 & E1 & _); [|done].
  apply (takes_read_ansi_field I count) in H2 as (Hs2 & E2 & Hsafe); [|done].
  apply (takes_read_count I count) in H5 as (Hs3 & E3 & _); [|done].
  apply (takes_inspect_contents I count) in H7 as (Hs4 & E4 & Hfiles & Hkind); [|done].
  injection H as <- <- <-.
  eexists. split_and!; [done| |cbn; by rewrite Hfiles|..]; cbn; try done.
  - unfold entry_size. cbn. lia.
  - split_and!; cbn; [|done|done|by apply N.ltb_ge|done].
    match goal with E : to_u32 _ = Some _ |- _ => apply to_u32_Some in E as [-> _] end.
    by match goal with E : negb (_ =? i)%N = false |- _ =>
      apply negb_false_iff, N.eqb_eq in E end.
  - unfold lower_name. cbn. by eapply bool_decide_eq_false_1.
  - intros Hc. match goal with E : is_critical _ && _ = false |- _ => rewrite Hc in E end.
    by eapply bool_decide_eq_false_1.
Qed.

Lemma inspect_loop_Ok n i critical names c s c' s' :
  I s -> inspect_loop limits retain validate n i critical names c s = Ok (c', s') ->
  exists fs, I s' /\ count s' = (count s + table_size fs)%N /\ length fs = n
  /\ InspectedFiles.files c' = InspectedFiles.files c ++ fs
  /\ table_ok limits retain i critical names fs.
Proof.
  revert i critical names c s. induction n as [|n IH]; intros i critical names c s Hs H; cbn in H.
  - inv_parse. exists []. rewrite app_nil_r. split_and!; [done|cbn; lia|done|done|apply table_nil].
  - apply parser_bind_Ok in H as ([[critical1 names1] c1] & s1 & H1 & H).
    apply inspect_file_Ok in H1 as (f & Hs1 & E1 & Hf1 & Hok & Hname & Hcrit & -> & ->); [|done].
    apply IH in H as (fs & Hs' & E2 & Hlen & Hf2 & Ht); [|done].
    exists (f :: fs). split_and!; [done|cbn; unfold table_size in *; lia|cbn; lia| |].
    + by rewrite Hf2, Hf1, <- app_assoc.
    + by apply table_cons.
Qed.

(** What [decode_archive] has read when it returns. *)
Lemma decode_archive_Ok s d a n c s' :
  I s -> decode_archive limits retain validate s = Ok (d, a, n, c, s') ->
  I s' /\ count s' = (count s + (539 + table_size (InspectedFiles.files c)))%N
  /\ safe_leaf_name d = true /\ safe_leaf_name a = true
  /\ (n <= CrashRequestLimits.expanded_bytes limits)%N
  /\ (len (InspectedFiles.files c) <= CrashRequestLimits.files limits)%N
  /\ table_ok limits retain 0 [] [] (InspectedFiles.files c).
Proof.
  intros Hs H. unfold decode_archive in H. inv_parse. simplify_eq.
  apply (takes_read_exact I count) in H0 as (Hs1 & E1 & _); [|done].
  apply (takes_read_ansi_field I count) in H2 as (Hs2 & E2 & Hd); [|done].
  apply (takes_read_ansi_field I count) in H3 as (Hs3 & E3 & Ha); [|done].
  apply (takes_read_count I count) in H4 as (Hs4 & E4 & _); [|done].
  apply (takes_read_count I count) in H6 as (Hs5 & E5 & _); [|done].
  apply inspect_loop_Ok in H8 as (fs & Hs6 & E6 & Hlen & Hfs & Ht); [|done].
  cbn [InspectedFiles.files InspectedFiles.empty app] in Hfs. subst fs.
  change (len ENVELOPE_MAGIC) with 3%N in *.
  repeat match goal with E : (_ <? _)%N = false |- _ => apply N.ltb_ge in E end.
  split_and!; try done; [lia|]. unfold len. rewrite Hlen. lia.
Qed.
End table.

(** * The stack of readers *)

(** The numbers of the limits are [u64] values. *)
Definition limits_u64 (limits : CrashRequestLimits.t) : Prop :=
  (CrashRequestLimits.compressed_bytes limits <= u64_max)%N
  /\ (CrashRequestLimits.expanded_bytes limits <= u64_max)%N.

Section stack.
Context {Z : Zlib} {R : Type} `{HR : Read R} `{!ReadLaw R}.

Definition compressed_ok (c : CompressedReader.t R) : Prop :=
  (CompressedReader.bytes_read c <= CompressedReader.limit c <= u64_max)%N.

(** The input was read further, under the same limit. *)
Definition read_on (c c' : CompressedReader.t R) : Prop :=
  compressed_ok c -> compressed_ok c'
  /\ CompressedReader.limit c' = CompressedReader.limit c
  /\ (CompressedReader.bytes_read c <= CompressedReader.bytes_read c')%N.

#[local] Instance read_on_preorder : PreOrder read_on.
Proof.
  split; [by intros c|]. intros c1 c2 c3 H12 H23 H1.
  destruct (H12 H1) as (H2 & E & ?). destruct (H23 H2) as (? & ? & ?). split_and!; [done|congruence|lia].
Qed.

Lemma compressed_read (c : CompressedReader.t R) n c' r : io_read c n = (c', r) -> read_on c c'.
Proof.
  unfold io_read, CompressedReader.read. intros H Hc. unfold compressed_ok in *.
  destruct (n =? 0)%N; [by simplify_eq|].
  destruct (N.eqb_spec (CompressedReader.bytes_read c) (CompressedReader.limit c)).
  - destruct (io_read (CompressedReader.inner c) 1). simplify_eq. cbn. split_and!; try done; lia.
  - destruct (io_read (CompressedReader.inner c) _) as [i [bs|e]] eqn:E; simplify_eq; cbn; [|split_and!; try done; lia].
    apply io_read_le in E. unfold saturating_add. split_and!; try done; lia.
Qed.

Lemma compressed_read_le (c : CompressedReader.t R) n c' bs : io_read c n = (c', Ok bs) -> (len bs <= n)%N.
Proof.
  unfold io_read, CompressedReader.read. intros H.
  destruct (N.eqb_spec n 0); [simplify_eq; apply N.le_0_l|]. destruct (_ =? _)%N.
  - destruct (io_read (CompressedReader.inner c) 1) as [i [[|b bs']|e]]; simplify_eq. apply N.le_0_l.
  - destruct (io_read (CompressedReader.inner c) _) as [i [bs'|e]] eqn:E; simplify_eq.
    apply io_read_le in E. lia.
Qed.

Lemma fill_buf_reads b b' r : BufReader.fill_buf b = (b', r) -> read_on (BufReader.inner b) (BufReader.inner b').
Proof.
  unfold BufReader.fill_buf. destruct (BufReader.buffer b); [|intros; by simplify_eq].
  destruct (io_read (BufReader.inner b) READ_BUFFER_BYTES) as [c [bs|e]] eqn:E; intros; simplify_eq; cbn;
    by eapply compressed_read.
Qed.

(** Whatever a decoder does, it only reads the input on. *)
Lemma run_reads p b z r :
  ZlibDecoder.run p b = (z, r) -> read_on (BufReader.inner b) (BufReader.inner (ZlibDecoder.reader z)).
Proof.
  revert b. induction p as [k IH|n p IH|d r']; intros b H; cbn in H.
  - destruct (BufReader.fill_buf b) as [b1 r1] eqn:E. transitivity (BufReader.inner b1); eauto using fill_buf_reads.
  - by apply IH in H.
  - by simplify_eq.
Qed.

(** * The invariant of the expanded reader *)

Definition compressed_of (s : ExpandedReader.t R) : CompressedReader.t R :=
  BufReader.inner (ZlibDecoder.reader (ExpandedReader.inner s)).

Record expanded_ok (limits : CrashRequestLimits.t) (s : ExpandedReader.t R) : Prop := {
  compressed_limit : CompressedReader.limit (compressed_of s) = CrashRequestLimits.compressed_bytes limits;
  expanded_limit : ExpandedReader.limit s = CrashRequestLimits.expanded_bytes limits;
  expanded_ratio : ExpandedReader.ratio s = CrashRequestLimits.expansion_ratio limits;
  compressed_fits : compressed_ok (compressed_of s);
  expanded_fits : (ExpandedReader.bytes_read s <= ExpandedReader.limit s)%N;
  ratio_fits : (ExpandedReader.bytes_read s <= ExpandedReader.ratio_limit s)%N;
}.

Lemma decoder_read (z : ZlibDecoder.t R) n z' r :
  io_read z n = (z', r) ->
  read_on (BufReader.inner (ZlibDecoder.reader z)) (BufReader.inner (ZlibDecoder.reader z'))
  /\ forall bs, r = Ok bs -> (len bs <= n)%N.
Proof.
  unfold io_read, ZlibDecoder.read. destruct (ZlibDecoder.run _ _) as [z1 r1] eqn:E. intros [= -> <-].
  split; [by eapply run_reads|]. intros bs. destruct r1 as [bs1|e]; [|done]. intros [= <-]. apply len_take.
Qed.

Lemma saturating_mul_mono a b k : (a <= b)%N -> (saturating_mul a k <= saturating_mul b k)%N.
Proof. unfold saturating_mul. intros H. pose proof (N.mul_le_mono_r a b k H). lia. Qed.

Lemma expanded_inner limits s z' :
  read_on (compressed_of s) (BufReader.inner (ZlibDecoder.reader z')) -> expanded_ok limits s ->
  expanded_ok limits {| ExpandedReader.inner := z'; ExpandedReader.limit := ExpandedReader.limit s;
    ExpandedReader.ratio := ExpandedReader.ratio s; ExpandedReader.bytes_read := ExpandedReader.bytes_read s |}.
Proof.
  intros Hr []. destruct Hr as (H1 & H2 & H3); [done|].
  split; cbn; [by rewrite <- compressed_limit0|done..|].
  etransitivity; [exact ratio_fits0|]. unfold ExpandedReader.ratio_limit, ExpandedReader.compressed_bytes_read.
  cbn. by apply saturating_mul_mono.
Qed.

#[export] Instance expanded_counted limits :
  limits_u64 limits -> Counted (ExpandedReader.t R) (expanded_ok limits) ExpandedReader.bytes_read.
Proof.
  intros [_ Hu] s n s' bs Hs H. unfold io_read, ExpandedReader.read in H.
  destruct (N.eqb_spec n 0); [simplify_eq; split_and!; [done|apply N.le_0_l|by rewrite len_nil, N.add_0_r]|].
  destruct (N.eqb_spec (ExpandedReader.bytes_read s) (ExpandedReader.limit s)).
  - destruct (io_read (ExpandedReader.inner s) 1) as [z' [[|b bs']|err]] eqn:E; simplify_eq.
    apply decoder_read in E as [Hr _]. split_and!; [by apply expanded_inner|apply N.le_0_l|by rewrite len_nil, N.add_0_r].
  - destruct (io_read (ExpandedReader.inner s) _) as [z' [bs'|err]] eqn:E; [|by simplify_eq].
    cbv zeta in H. destruct (_ <? _)%N eqn:Er in H; simplify_eq. apply N.ltb_ge in Er.
    apply decoder_read in E as [Hr Hle]. specialize (Hle bs eq_refl).
    apply (expanded_inner limits) in Hr as []; [|done].
    destruct Hs as [_ Hl _ _ Hf _]. 
    assert (Ha : saturating_add (ExpandedReader.bytes_read s) (len bs) = (ExpandedReader.bytes_read s + len bs)%N)
      by (unfold saturating_add; lia).
    split_and!; [|lia|exact Ha]. split; try done. cbn. rewrite Ha. lia.
Qed.
End stack.

Lemma expanded_reader_ok {Z : Zlib} {R} (input : R) limits :
  limits_u64 limits -> expanded_ok limits (expanded_reader input limits).
Proof. intros [? ?]. split; cbn; try done; try apply N.le_0_l. split; [apply N.le_0_l|done]. Qed.


Lemma slice_read_law : ReadLaw bytes.
Proof. intros s n s' bs [= _ <-]. apply len_take. Qed.

