(* ===== verification/ArchiveFormat.v ===== *)
(** The archive reader refines the CR1 format: over any reader that delivers some bytes, reading
    succeeds exactly when they are the encoding of an archive the limits admit, and gives the
    contents of that archive. *)

From S2P Require Import Prelude Text Json Domain LogTail CrashContext CrashRequest Archive ArchiveLimits.
Import ErrorKind CrashRequestError.

(** * Readers that deliver *)

Section delivers.
Context {S : Type} `{HR : Read S} (Q : S -> Prop).

(** The reader gives exactly [data], in pieces of its choice, then reports the end and is in a
    state [Q]. *)
Inductive delivers : S -> bytes -> Prop :=
| delivers_end s :
    (forall n s' r, n <> 0%N -> io_read s n = (s', r) -> r = Ok [] /\ Q s') ->
    delivers s []
| delivers_more s data (piece : N -> N) :
    data <> [] ->
    (forall n s' r, n <> 0%N -> io_read s n = (s', r) ->
      (0 < piece n <= N.min n (len data))%N /\ r = Ok (take (N.to_nat (piece n)) data)) ->
    (forall n s' r, n <> 0%N -> io_read s n = (s', r) ->
      delivers s' (drop (N.to_nat (piece n)) data)) ->
    delivers s data.

Lemma len_take_le n (l : bytes) : (n <= len l)%N -> len (take (N.to_nat n) l) = n.
Proof. unfold len. rewrite length_take. lia. Qed.

Lemma len_drop n (l : bytes) : len (drop (N.to_nat n) l) = (len l - n)%N.
Proof. unfold len. rewrite length_drop. lia. Qed.

Lemma len_ne {A} (l : list A) : l <> [] <-> (0 < len l)%N.
Proof. unfold len. destruct l; cbn [length]; split; [done|lia|lia|done]. Qed.

(** What [read_exact] does on delivered data; the fuel is enough. *)
Lemma read_exact_delivers fuel n s data :
  (N.to_nat n <= fuel)%nat -> delivers s data ->
  if (n <=? len data)%N then
    exists s', read_exact_io fuel n s = Ok (take (N.to_nat n) data, s')
      /\ delivers s' (drop (N.to_nat n) data)
  else read_exact_io fuel n s = Err (IoError UnexpectedEof).
Proof.
  revert n s data. induction fuel as [|fuel IH]; intros n s data Hf Hd; cbn [read_exact_io].
  all: destruct (N.eqb_spec n 0) as [->|Hn];
    [rewrite (proj2 (N.leb_le _ _)) by lia; exists s; by rewrite ?drop_0|]; try lia.
  destruct (io_read s n) as [s1 r] eqn:E. destruct Hd as [s He|s data piece Hne Hp Hd].
  - destruct (He _ _ _ Hn E) as [-> _]. rewrite (proj2 (N.leb_gt _ _)) by (rewrite len_nil; lia). done.
  - destruct (Hp _ _ _ Hn E) as [Hk ->]. specialize (Hd _ _ _ Hn E).
    assert (Hlen : len (take (N.to_nat (piece n)) data) = piece n) by (apply len_take_le; lia).
    destruct (take (N.to_nat (piece n)) data) as [|b0 bs] eqn:Et.
    { rewrite len_nil in Hlen. lia. }
    specialize (IH (n - len (b0 :: bs))%N s1 _ ltac:(lia) Hd). rewrite Hlen in *.
    rewrite len_drop in IH. destruct (N.leb_spec n (len data)).
    + rewrite (proj2 (N.leb_le _ _)) in IH by lia. destruct IH as (s' & -> & Hs').
      exists s'. rewrite drop_drop in Hs'. rewrite <- Et, take_take_drop.
      replace (N.to_nat (piece n) + N.to_nat (n - piece n))%nat with (N.to_nat n) in * by lia. done.
    + rewrite (proj2 (N.leb_gt _ _)) in IH by lia. by rewrite IH.
Qed.

Lemma read_exact_of n s data :
  delivers s data ->
  if (n <=? len data)%N then
    exists s', read_exact n s = Ok (take (N.to_nat n) data, s') /\ delivers s' (drop (N.to_nat n) data)
  else read_exact n s = Err (CrashRequestError.new TruncatedArchive).
Proof.
  intros Hd. pose proof (read_exact_delivers _ n s data (le_n _) Hd) as H. unfold read_exact.
  destruct (n <=? len data)%N; [|by rewrite H]. destruct H as (s' & -> & ?). by exists s'.
Qed.
End delivers.

Lemma read_exact_io_0 {S} `{Read S} fuel (s : S) : read_exact_io fuel 0 s = Ok ([], s).
Proof. by destruct fuel. Qed.

(** A slice gives what it holds at once. *)
Lemma read_exact_slice n (data : bytes) :
  read_exact n data =
    if (n <=? len data)%N then Ok (take (N.to_nat n) data, drop (N.to_nat n) data)
    else Err (CrashRequestError.new TruncatedArchive).
Proof.
  unfold read_exact. destruct (N.to_nat n) as [|fuel] eqn:Ef.
  { assert (n = 0%N) as -> by lia. by rewrite (proj2 (N.leb_le _ _)) by lia. }
  cbn [read_exact_io]. rewrite (proj2 (N.eqb_neq _ _)) by lia. unfold io_read, slice_read. rewrite Ef.
  destruct (N.leb_spec n (len data)) as [Hl|Hl].
  - assert (Hlen : len (take (S fuel) data) = n) by (unfold len in *; rewrite length_take; lia).
    destruct (take (S fuel) data) as [|b bs] eqn:Et; [rewrite len_nil in Hlen; lia|].
    rewrite Hlen, N.sub_diag, read_exact_io_0. by rewrite app_nil_r.
  - unfold len in Hl. rewrite take_ge, drop_ge by lia. destruct data as [|b bs]; [done|].
    destruct fuel as [|fuel]; [cbn in Hl; lia|]. cbn [read_exact_io].
    rewrite (proj2 (N.eqb_neq _ _)) by (unfold len; lia).
    unfold io_read. by rewrite take_nil.
Qed.

(** * A delivering reader behaves as the slice it delivers *)

Section simulation.
Context {S : Type} `{HR : Read S} {X : Roxmltree} (Q : S -> Prop).

(** [p] over a reader does what [q] does over the bytes it delivers, errors included. *)
Definition sim {A} (p : parser S A) (q : parser bytes A) : Prop :=
  forall s data, delivers Q s data ->
    match p s, q data with
    | Ok (a, s'), Ok (b, data') => a = b /\ delivers Q s' data'
    | Err e, Err e' => e = e'
    | _, _ => False
    end.

Lemma sim_ret {A} (a : A) : sim (mret a) (mret a).
Proof. by intros s data Hd. Qed.

Lemma sim_fail {A} k : sim (A := A) (fail k) (fail k).
Proof. by intros s data Hd. Qed.

Lemma sim_guard c k : sim (guard_not c k) (guard_not c k).
Proof. by destruct c. Qed.

Lemma sim_lift {A} (r : result CrashRequestError.t A) : sim (lift r) (lift r).
Proof. destruct r; by intros s data Hd. Qed.

Lemma sim_bind {A B} (p : parser S A) q (f : A -> parser S B) g :
  sim p q -> (forall a, sim (f a) (g a)) -> sim (p ≫= f) (q ≫= g).
Proof.
  intros Hp Hf s data Hd. specialize (Hp s data Hd). unfold mbind, parser_bind.
  destruct (p s) as [[a s']|e], (q data) as [[b data']|e']; try done.
  destruct Hp as [<- Hd']. by apply Hf.
Qed.

Lemma sim_read_exact n : sim (read_exact n) (read_exact n).
Proof.
  intros s data Hd. pose proof (read_exact_of Q n s data Hd) as H1.
  rewrite read_exact_slice. destruct (n <=? len data)%N; [|by rewrite H1].
  by destruct H1 as (s' & -> & ?).
Qed.
End simulation.

Create HintDb sim.
#[export] Hint Resolve sim_ret sim_fail sim_guard sim_lift sim_read_exact : sim.

Ltac sim_step :=
  lazymatch goal with
  | |- sim _ (_ ≫= _) (_ ≫= _) => apply sim_bind; [|intros ?]
  | |- sim _ (if ?c then _ else _) _ => destruct c eqn:?
  | |- sim _ (match ?x with _ => _ end) _ => destruct x eqn:?
  | |- sim _ (let '(_, _) := ?x in _) _ => destruct x
  end.
Ltac sim_steps := repeat sim_step; eauto with sim.

Section simulations.
Context {S : Type} `{HR : Read S} {X : Roxmltree} (Q : S -> Prop).

Lemma sim_read_count : sim Q read_count read_count.
Proof. unfold read_count, read_i32. sim_steps. Qed.
Hint Resolve sim_read_count : sim.

Lemma sim_read_ansi_field : sim Q read_ansi_field read_ansi_field.
Proof. unfold read_ansi_field, read_i32. sim_steps. Qed.
Hint Resolve sim_read_ansi_field : sim.

Lemma sim_read_bytes n : sim Q (read_bytes n) (read_bytes n).
Proof. unfold read_bytes. sim_steps. Qed.
Hint Resolve sim_read_bytes : sim.

Lemma sim_discard n : sim Q (discard n) (discard n).
Proof.
  unfold discard. generalize (buffers n). intros fuel. revert n.
  induction fuel as [|fuel IH]; intros n; cbn [discard_loop]; sim_steps.
Qed.
Hint Resolve sim_discard : sim.

Lemma sim_read_window fuel retain n suffix :
  sim Q (read_window fuel retain n suffix) (read_window fuel retain n suffix).
Proof.
  revert n suffix. induction fuel as [|fuel IH]; intros n suffix; cbn [read_window]; sim_steps.
Qed.
Hint Resolve sim_read_window : sim.

Lemma sim_inspect_contents limits retain validate name kind size c :
  sim Q (inspect_contents limits retain validate name kind size c)
        (inspect_contents limits retain validate name kind size c).
Proof.
  destruct kind; cbn [inspect_contents]; unfold read_crash_context, read_log_tail; sim_steps.
Qed.
Hint Resolve sim_inspect_contents : sim.

Lemma sim_inspect_loop limits retain validate n i critical names c :
  sim Q (inspect_loop limits retain validate n i critical names c)
        (inspect_loop limits retain validate n i critical names c).
Proof.
  revert i critical names c.
  induction n as [|n IH]; intros i critical names c; cbn [inspect_loop]; unfold inspect_file; sim_steps.
Qed.
Hint Resolve sim_inspect_loop : sim.

Lemma sim_decode_archive limits retain validate :
  sim Q (decode_archive limits retain validate) (decode_archive limits retain validate).
Proof. unfold decode_archive, inspect_files. sim_steps. Qed.
End simulations.

(** * The format, one field at a time *)

Lemma read_exact_Ok n (data bs rest : bytes) :
  read_exact n data = Ok (bs, rest) <-> data = bs ++ rest /\ len bs = n.
Proof.
  rewrite read_exact_slice. destruct (N.leb_spec n (len data)) as [H|H]; split.
  - intros [= <- <-]. split; [by rewrite take_drop|by apply len_take_le].
  - intros [-> <-]. unfold len. rewrite Nat2N.id, take_app_length, drop_app_length. done.
  - done.
  - intros [-> <-]. rewrite len_app in H. lia.
Qed.

Lemma len_le32 n : len (le32 n) = 4%N.
Proof. done. Qed.

Lemma le_value_le32 n : (n < 4294967296)%N -> le_value (le32 n) = n.
Proof.
  intros H. unfold le32. cbn [le_value]. rewrite !to_N_byte_of by (apply N.mod_lt; lia).
  pose proof (N.div_mod n 256 ltac:(lia)). pose proof (N.div_mod (n / 256) 256 ltac:(lia)).
  pose proof (N.div_mod (n / 65536) 256 ltac:(lia)).
  assert (n / 65536 = n / 256 / 256)%N by (by rewrite N.div_div).
  assert (n / 16777216 = n / 65536 / 256)%N by (by rewrite N.div_div).
  assert (n / 16777216 < 256)%N by (apply N.div_lt_upper_bound; lia).
  rewrite (N.mod_small (n / 16777216)) by done. lia.
Qed.

Lemma le32_le_value bs : len bs = 4%N -> le32 (le_value bs) = bs /\ (le_value bs < 4294967296)%N.
Proof.
  intros H. destruct bs as [|a [|b [|c [|d [|]]]]]; try (unfold len in H; cbn in H; lia).
  cbn [le_value]. pose proof (byte_bound a). pose proof (byte_bound b). pose proof (byte_bound c).
  pose proof (byte_bound d). split; [|lia]. unfold le32. 
  set (na := Byte.to_N a) in *. set (nb := Byte.to_N b) in *. set (nc := Byte.to_N c) in *.
  set (nd := Byte.to_N d) in *.
  assert (E0 : ((na + 256 * (nb + 256 * (nc + 256 * (nd + 256 * 0)))) mod 256 = na)%N)
    by (rewrite N.mul_comm, N.Div0.mod_add; by apply N.mod_small).
  assert (D1 : ((na + 256 * (nb + 256 * (nc + 256 * (nd + 256 * 0)))) / 256
                = nb + 256 * (nc + 256 * (nd + 256 * 0)))%N)
    by (rewrite (N.mul_comm 256), N.div_add by done; rewrite N.div_small by done; lia).
  assert (D2 : ((nb + 256 * (nc + 256 * (nd + 256 * 0))) / 256 = nc + 256 * (nd + 256 * 0))%N)
    by (rewrite (N.mul_comm 256), N.div_add by done; rewrite N.div_small by done; lia).
  assert (D3 : ((nc + 256 * (nd + 256 * 0)) / 256 = nd + 256 * 0)%N)
    by (rewrite (N.mul_comm 256), N.div_add by done; rewrite N.div_small by done; lia).
  change 65536%N with (256 * 256)%N. change 16777216%N with (256 * 256 * 256)%N.
  rewrite <- !N.Div0.div_div, D1, D2, D3, E0.
  assert (M : forall p q, (p < 256)%N -> ((p + 256 * q) mod 256 = p)%N)
    by (intros p q Hp; rewrite N.mul_comm, N.Div0.mod_add; by apply N.mod_small).
  rewrite !M by done. subst na nb nc nd. by rewrite !byte_of_to_N.
Qed.

(** Proves that a composite parser succeeds by giving its first step. *)
Ltac parse_step tac := apply parser_bind_Ok; eexists _, _; split; [tac|].
Ltac guard_step tac :=
  apply parser_bind_Ok; exists tt; eexists; split; [apply guard_not_Ok; split; [tac|reflexivity]|].

Lemma read_i32_Ok (data rest : bytes) n :
  (n <= i32_max)%N -> read_i32 data = Ok (Z.of_N n, rest) <-> data = le32 n ++ rest.
Proof.
  intros Hn. unfold read_i32, i32_max in *. split.
  - intros H. inv_parse. apply read_exact_Ok in H0 as [-> Hl]. apply le32_le_value in Hl as [El Hb].
    unfold i32_from_le_bytes in *.
    destruct (Z.ltb_spec (Z.of_N (le_value a)) (2 ^ 31)); [|lia].
    rewrite <- El. do 2 f_equal. lia.
  - intros ->. parse_step ltac:(by apply (read_exact_Ok 4 _ (le32 n))). apply parser_ret_Ok. split; [|done].
    unfold i32_from_le_bytes. rewrite le_value_le32 by lia. by rewrite (proj2 (Z.ltb_lt _ _)) by lia.
Qed.

Lemma i32_bounds bs : len bs = 4%N -> (i32_from_le_bytes bs < 2 ^ 31)%Z.
Proof.
  intros [_ H]%le32_le_value. unfold i32_from_le_bytes.
  destruct (Z.ltb_spec (Z.of_N (le_value bs)) (2 ^ 31)); lia.
Qed.

Lemma read_i32_bounds (data rest : bytes) z : read_i32 data = Ok (z, rest) -> (z < 2 ^ 31)%Z.
Proof.
  unfold read_i32. intros H. inv_parse. apply read_exact_Ok in H0 as [_ Hl]. by apply i32_bounds.
Qed.

Lemma read_count_Ok (data rest : bytes) n :
  read_count data = Ok (n, rest) <-> data = le32 n ++ rest /\ (n <= i32_max)%N.
Proof.
  unfold read_count. split.
  - intros H. inv_parse. apply Z.ltb_ge in E. pose proof (read_i32_bounds _ _ _ H0).
    rewrite <- (Z2N.id a) in H0 by done. unfold i32_max. split; [|lia].
    apply read_i32_Ok in H0; [done|unfold i32_max; lia].
  - intros [-> Hn]. parse_step ltac:(by apply (read_i32_Ok _ _ n)).
    rewrite (proj2 (Z.ltb_ge _ _)) by lia. by rewrite N2Z.id.
Qed.

(** * The name field *)

Lemma value_length_spec p k : Byte.x00 ∉ p -> value_length (p ++ replicate k Byte.x00) = length p.
Proof.
  unfold value_length. intros Hp. induction p as [|b p IH].
  - destruct k; [done|]. cbn. by rewrite decide_True.
  - apply not_elem_of_cons in Hp as [Hb Hp]. cbn. rewrite decide_False by congruence.
    specialize (IH Hp). destruct (find_byte Byte.x00 (p ++ _)); cbn in *; lia.
Qed.

Lemma zeros_replicate (bs : bytes) :
  existsb (fun b => negb (bool_decide (b = Byte.x00))) bs = false <-> bs = replicate (length bs) Byte.x00.
Proof.
  induction bs as [|b bs IH]; cbn; [done|]. rewrite orb_false_iff, negb_false_iff, bool_decide_eq_true, IH.
  split; [intros [-> E]; by f_equal|intros [= -> E]; by split].
Qed.

Lemma utf8_char_safe c : forallb safe_byte (utf8_char c) = true -> (c < 128)%N.
Proof.
  assert (H : forall m, safe_byte (byte_of (128 + m mod 64)) = false).
  { intros m. pose proof (N.mod_lt m 64 ltac:(done)) as Hm. revert Hm.
    generalize (m mod 64)%N. intros k Hk. unfold safe_byte. rewrite to_N_byte_of by lia. unfold in_range.
    rewrite (proj2 (N.leb_gt (128 + k) 126)) by lia. by rewrite andb_false_r. }
  unfold utf8_char. destruct (N.ltb_spec c 128); [done|].
  repeat match goal with |- context [if ?c then _ else _] => destruct c end;
    cbn [forallb]; rewrite !H, ?andb_false_l, ?andb_false_r; done.
Qed.

Lemma safe_scalars v : safe_leaf_name v = true -> Forall (fun c => is_scalar c = true) v.
Proof.
  unfold safe_leaf_name. rewrite !andb_true_iff. intros [_ H]. induction v as [|c v IH]; [done|].
  rewrite as_bytes_cons, forallb_app, andb_true_iff in H. destruct H as [Hc Hv].
  constructor; [by apply ascii_is_scalar, utf8_char_safe|auto].
Qed.

Lemma safe_no_zero v : safe_leaf_name v = true -> Byte.x00 ∉ as_bytes v.
Proof.
  unfold safe_leaf_name. rewrite !andb_true_iff. intros [_ H] Hin.
  rewrite forallb_forall in H. by apply list_elem_of_In, H in Hin.
Qed.

Lemma read_ansi_field_Ok (data rest : bytes) v :
  read_ansi_field data = Ok (v, rest) <-> data = ansi_field v ++ rest /\ field_ok v.
Proof.
  unfold read_ansi_field, ansi_field, field_ok. split.
  - intros H. inv_parse.
    repeat match goal with
    | E : negb _ = false |- _ => apply negb_false_iff in E
    | E : (_ =? _)%Z = true |- _ => apply Z.eqb_eq in E as ->
    | E : existsb _ _ = false |- _ => apply zeros_replicate in E
    | E : read_exact _ _ = _ |- _ => apply read_exact_Ok in E as [-> Hl]
    | E : read_i32 _ = _ |- _ => apply (read_i32_Ok _ _ ANSI_FIELD_BYTES) in E as ->; [|done]
    | E : from_utf8 _ = Some _ |- _ => apply from_utf8_Some in E as [Eb _]
    end.
    rename H3 into Ez. rewrite <- Eb. assert (Hle : (value_length a1 <= length a1)%nat).
    { unfold value_length. destruct (find_byte Byte.x00 a1) eqn:Ef; [|done].
      apply find_byte_Some in Ef as [Ef _]. apply lookup_lt_Some in Ef. cbn; lia. }
    split; [|split; [done|unfold len in *; rewrite length_take; lia]].
    rewrite <- (take_drop (value_length a1) a1) at 1. rewrite Ez, <- !app_assoc. do 4 f_equal.
    rewrite length_drop. unfold len in *. rewrite length_take. lia.
  - intros [-> [Hs Hl]]. rewrite <- app_assoc.
    set (zeros := replicate _ _).
    assert (El : len (as_bytes v ++ zeros) = ANSI_FIELD_BYTES).
    { rewrite len_app. unfold zeros, len in *. rewrite length_replicate. lia. }
    assert (Ev : value_length (as_bytes v ++ zeros) = length (as_bytes v))
      by (apply value_length_spec; by apply safe_no_zero).
    parse_step ltac:(by apply (read_i32_Ok _ _ ANSI_FIELD_BYTES)).
    guard_step ltac:(done).
    parse_step ltac:(by apply read_exact_Ok).
    rewrite Ev, drop_app_length, take_app_length.
    guard_step ltac:(apply zeros_replicate; unfold zeros; by rewrite length_replicate).
    parse_step ltac:(apply lift_Ok; split; [|done]; by rewrite from_utf8_as_bytes by (by apply safe_scalars)).
    rewrite Hs. guard_step ltac:(done). by apply parser_ret_Ok.
Qed.

(** * The contents of a file *)

(** The buffers of [discard] and [read_window] cover the size. *)
Definition covers (fuel : nat) (n : N) : Prop := (n <= N.of_nat fuel * READ_BUFFER_BYTES)%N.

Lemma buffers_cover n : covers (buffers n) n.
Proof.
  unfold covers, buffers, READ_BUFFER_BYTES. pose proof (N.div_mod n 8192 ltac:(done)) as E.
  pose proof (N.mod_lt n 8192 ltac:(done)) as Hm. revert E Hm. change (8 * 1024)%N with 8192%N.
  generalize (n mod 8192)%N (n / 8192)%N. intros r q -> Hr. lia.
Qed.

Lemma covers_step fuel n :
  covers (S fuel) n -> covers fuel (n - N.min n READ_BUFFER_BYTES).
Proof. unfold covers, READ_BUFFER_BYTES. lia. Qed.

Lemma covers_0 n : covers 0 n -> n = 0%N.
Proof. unfold covers. lia. Qed.

(** The window [read_log_tail] keeps of what it has read. *)
Definition window (retain : N) (l : bytes) : bytes := drop (N.to_nat (len l - retain)) l.

Lemma window_window retain l k : window retain (window retain l ++ k) = window retain (l ++ k).
Proof.
  unfold window. rewrite !len_app, len_drop. destruct (N.leb_spec (len l) retain) as [H|H].
  - replace (len l - retain)%N with 0%N by lia. cbn. do 2 f_equal. lia.
  - rewrite <- (drop_app_le l k) by (unfold len in *; lia). rewrite drop_drop. f_equal. lia.
Qed.

Lemma window_fits retain l : (len l <= retain)%N -> window retain l = l.
Proof. unfold window. intros H. by replace (len l - retain)%N with 0%N by lia. Qed.

(** The loop invariant of [read_log_tail]: the window of everything read. *)
Lemma read_window_Ok fuel retain n read (data w rest : bytes) :
  covers fuel n ->
  read_window fuel retain n (window retain read) data = Ok (w, rest)
  <-> exists bs, data = bs ++ rest /\ len bs = n /\ w = window retain (read ++ bs).
Proof.
  revert n read data. induction fuel as [|fuel IH]; intros n read data Hc; cbn [read_window].
  all: destruct (N.eqb_spec n 0) as [->|Hn].
  1,3: split; [intros H; inv_parse; exists []; by rewrite app_nil_r|];
    intros (bs & -> & Hl & ->); apply parser_ret_Ok; destruct bs; [by rewrite app_nil_r|rewrite len_cons in Hl; lia].
  { by apply covers_0 in Hc. }
  apply covers_step in Hc. fold (window retain (window retain read ++ [])). split.
  - intros H. inv_parse. apply read_exact_Ok in H0 as [-> Hl].
    change (drop _ _) with (window retain (window retain read ++ a)) in H. rewrite window_window in H.
    apply IH in H as (bs & -> & Hb & ->); [|done].
    exists (a ++ bs). rewrite len_app, !app_assoc. split_and!; [done|lia|done].
  - intros (bs & -> & Hl & ->).
    set (k := N.min n READ_BUFFER_BYTES) in *.
    parse_step ltac:(apply (read_exact_Ok k _ (take (N.to_nat k) bs)); split;
      [by rewrite app_assoc, take_drop|apply len_take_le; lia]).
    change (drop _ (_ ++ take _ _)) with (window retain (window retain read ++ take (N.to_nat k) bs)).
    rewrite window_window. apply IH; [done|]. exists (drop (N.to_nat k) bs).
    rewrite len_drop, <- app_assoc, take_drop. split_and!; [done|lia|done].
Qed.

Lemma read_window_start retain n (data w rest : bytes) :
  read_window (buffers n) retain n [] data = Ok (w, rest)
  <-> exists bs, data = bs ++ rest /\ len bs = n /\ w = window retain bs.
Proof. apply (read_window_Ok (buffers n) retain n []). apply buffers_cover. Qed.

Lemma discard_Ok n (data rest : bytes) u :
  discard n data = Ok (u, rest) <-> exists bs, data = bs ++ rest /\ len bs = n.
Proof.
  unfold discard. pose proof (buffers_cover n) as Hc. revert Hc. generalize (buffers n).
  destruct u. intros fuel. revert n data.
  induction fuel as [|fuel IH]; intros n data Hc; cbn [discard_loop].
  all: destruct (N.eqb_spec n 0) as [->|Hn].
  1,3: split; [intros H; inv_parse; by exists []|];
    intros (bs & -> & Hl); apply parser_ret_Ok; destruct bs; [done|rewrite len_cons in Hl; lia].
  { by apply covers_0 in Hc. }
  apply covers_step in Hc. split.
  - intros H. inv_parse. apply read_exact_Ok in H0 as [-> Hl]. apply IH in H as (bs & -> & Hb); [|done].
    exists (a ++ bs). rewrite len_app, app_assoc. split; [done|lia].
  - intros (bs & -> & Hl). set (k := N.min n READ_BUFFER_BYTES) in *.
    parse_step ltac:(apply (read_exact_Ok k _ (take (N.to_nat k) bs)); split;
      [by rewrite app_assoc, take_drop|apply len_take_le; lia]).
    apply IH; [done|]. exists (drop (N.to_nat k) bs). rewrite len_drop. split; [done|lia].
Qed.

Lemma read_bytes_Ok n (data bs rest : bytes) :
  (n <= i32_max)%N -> read_bytes n data = Ok (bs, rest) <-> data = bs ++ rest /\ len bs = n.
Proof.
  intros Hn. unfold read_bytes. rewrite (proj2 (N.leb_le _ _)); [apply read_exact_Ok|].
  unfold usize_max, u64_max, i32_max in *. lia.
Qed.

Lemma extract_retained n mb ml bs :
  (n <= i32_max)%N -> len bs = n ->
  ProjectLogTail.extract (window (saturating_add mb 4) bs) mb ml = ProjectLogTail.extract bs mb ml.
Proof.
  intros Hn Hl. assert (Hr : (saturating_add mb 4 = mb + 4 \/ n <= saturating_add mb 4)%N)
    by (unfold saturating_add, u64_max, i32_max in *; lia).
  revert Hr. generalize (saturating_add mb 4). intros retain Hr.
  destruct (N.leb_spec (len bs) retain) as [H|H]; [by rewrite window_fits|].
  unfold window. rewrite <- (take_drop (N.to_nat (len bs - retain)) bs) at 3.
  symmetry. apply extract_window. rewrite length_drop. unfold len in *. lia.
Qed.

(** The streamed tail is the tail of the whole file. *)
Lemma read_log_tail_Ok n mb ml (data rest : bytes) t :
  (n <= i32_max)%N ->
  read_log_tail n mb ml data = Ok (t, rest)
  <-> exists bs, data = bs ++ rest /\ len bs = n /\ ProjectLogTail.extract bs mb ml = Some t.
Proof.
  intros Hn. unfold read_log_tail. split.
  - intros H. inv_parse. apply read_window_start in H0 as (bs & -> & Hl & ->).
    exists bs. match goal with E : ProjectLogTail.extract _ _ _ = _ |- _ =>
      rewrite (extract_retained n) in E by done end. done.
  - intros (bs & -> & Hl & Ht). parse_step ltac:(apply read_window_start; by eauto).
    apply lift_Ok. split; [|done]. by rewrite (extract_retained n), Ht by done.
Qed.

Section contents.
Context {X : Roxmltree} (limits : CrashRequestLimits.t) (retain validate : bool).

(** What the loop keeps of a member. *)
Definition retain_member (m : text * bytes) (c : InspectedFiles.t) : InspectedFiles.t :=
  match file_kind m.1 with
  | FileKind.CrashContext =>
      match (if retain && validate then from_utf8 m.2 else None) with
      | Some xml => InspectedFiles.set_crash_context xml c
      | None => c
      end
  | FileKind.Minidump => if retain then InspectedFiles.set_minidump m.2 c else c
  | FileKind.Log =>
      match (if retain && bool_decide (InspectedFiles.log c = None) then log_of limits m else None) with
      | Some l => InspectedFiles.set_log l c
      | None => c
      end
  | FileKind.Unknown => c
  end.

Lemma read_crash_context_Ok n (data rest : bytes) xml :
  (n <= i32_max)%N ->
  read_crash_context limits n data = Ok (xml, rest)
  <-> exists bs d, data = bs ++ rest /\ len bs = n
      /\ (n <= CrashRequestLimits.crash_context_bytes limits)%N
      /\ from_utf8 bs = Some xml /\ parse (CrashRequestLimits.crash_context_nodes limits) xml = Ok d.
Proof.
  intros Hn. unfold read_crash_context. split.
  - intros H. inv_parse. match goal with E : read_bytes _ _ = _ |- _ => apply read_bytes_Ok in E as [-> Hl]; [|done] end.
    match goal with E : (_ <? _)%N = false |- _ => apply N.ltb_ge in E end. eauto 10.
  - intros (bs & d & -> & Hl & Hs & Hx & Hd). guard_step ltac:(by apply N.ltb_ge).
    parse_step ltac:(by apply read_bytes_Ok). parse_step ltac:(apply lift_Ok; by rewrite Hx).
    parse_step ltac:(apply lift_Ok; by rewrite Hd). by apply parser_ret_Ok.
Qed.

Lemma log_of_Some m : is_Some (log_of limits m).
Proof.
  unfold log_of. destruct (extract_returns m.2 (CrashRequestLimits.log_tail_bytes limits)
    (CrashRequestLimits.log_tail_lines limits)) as [t ->]. by eexists.
Qed.

(** A file of which nothing is kept. *)
Lemma skip_Ok n c c' (data rest : bytes) :
  (_ ← discard n; mret c) data = Ok (c', rest)
  <-> exists bs, data = bs ++ rest /\ len bs = n /\ c' = (c : InspectedFiles.t).
Proof.
  split.
  - intros H. inv_parse. apply discard_Ok in H0 as (bs & -> & Hl). by exists bs.
  - intros (bs & -> & Hl & ->). apply parser_bind_Ok. exists tt, rest.
    split; [apply discard_Ok; eauto|by apply parser_ret_Ok].
Qed.

Lemma inspect_contents_Ok name n c c' (data rest : bytes) :
  (n <= i32_max)%N ->
  inspect_contents limits retain validate name (file_kind name) n c data = Ok (c', rest)
  <-> exists bs, data = bs ++ rest /\ len bs = n /\ content_ok limits retain validate (file_kind name) bs
      /\ c' = retain_member (name, bs) c.
Proof.
  intros Hn. unfold retain_member. cbn [fst snd]. destruct (file_kind name); cbn [inspect_contents content_ok].
  - destruct validate; cbn iota; split.
    + intros H. inv_parse. apply read_crash_context_Ok in H0 as (bs & d & -> & Hl & Hs & Hx & Hd); [|done].
      exists bs. split_and!; [done|done|lia|eauto|]. rewrite andb_true_r. destruct retain; [by rewrite Hx|done].
    + intros (bs & -> & Hl & (Hs & Hv) & ->). destruct (Hv eq_refl) as (xml & d & Hx & Hd).
      parse_step ltac:(apply read_crash_context_Ok; [done|]; exists bs, d; subst n; done).
      apply parser_ret_Ok. rewrite andb_true_r. destruct retain; [by rewrite Hx|done].
    + intros H. apply parser_bind_Ok in H as (u & s1 & Hg & H). apply guard_not_Ok in Hg as [Hg <-].
      apply N.ltb_ge in Hg. apply skip_Ok in H as (bs & -> & Hl & ->).
      exists bs. rewrite andb_false_r. split_and!; [done|done|lia|done|done].
    + intros (bs & -> & Hl & (Hs & _) & ->). guard_step ltac:(apply N.ltb_ge; lia).
      apply skip_Ok. exists bs. by rewrite andb_false_r.
  - destruct retain; cbn iota; [|rewrite skip_Ok; naive_solver]. split.
    + intros H. inv_parse. match goal with E : read_bytes _ _ = _ |- _ => apply read_bytes_Ok in E as [-> Hl]; [|done] end.
      match goal with E : (_ <? _)%N = false |- _ => apply N.ltb_ge in E end.
      eexists. split_and!; [done|done|lia|done].
    + intros (bs & -> & Hl & Hs & ->). specialize (Hs eq_refl). guard_step ltac:(apply N.ltb_ge; lia).
      parse_step ltac:(by apply read_bytes_Ok). by apply parser_ret_Ok.
  - destruct (retain && bool_decide (InspectedFiles.log c = None)); [|rewrite skip_Ok; naive_solver]. split.
    + intros H. inv_parse. apply read_log_tail_Ok in H0 as (bs & -> & Hl & Ht); [|done].
      exists bs. unfold log_of. cbn [fst snd]. by rewrite Ht.
    + intros (bs & -> & Hl & _ & ->). destruct (log_of_Some (name, bs)) as [l Hlog]. rewrite Hlog.
      unfold log_of in Hlog. cbn [fst snd] in Hlog.
      destruct (ProjectLogTail.extract bs _ _) as [t|] eqn:Ht; [|done]. injection Hlog as <-.
      parse_step ltac:(apply read_log_tail_Ok; [done|by eauto]). by apply parser_ret_Ok.
  - rewrite skip_Ok. naive_solver.
Qed.
End contents.

(** * The file table *)

Section table.
Context {X : Roxmltree} (limits : CrashRequestLimits.t) (retain validate : bool).

Definition entry (i : N) (m : text * bytes) : CrashRequestFile.t :=
  {| CrashRequestFile.index := i; CrashRequestFile.name := m.1;
     CrashRequestFile.size := len m.2; CrashRequestFile.kind := file_kind m.1 |}.
Definition add_member (i : N) (m : text * bytes) (c : InspectedFiles.t) : InspectedFiles.t :=
  InspectedFiles.push (entry i m) (retain_member limits retain validate m c).
Definition add_critical (m : text * bytes) (critical : list FileKind.t) : list FileKind.t :=
  if is_critical (file_kind m.1) then file_kind m.1 :: critical else critical.

(** A member the loop accepts after the names and critical kinds seen so far. *)
Definition fresh_member (critical : list FileKind.t) (names : list text) (m : text * bytes) : Prop :=
  member_ok limits retain validate m
  /\ to_ascii_lowercase m.1 ∉ names
  /\ (is_critical (file_kind m.1) = true -> file_kind m.1 ∉ critical).

Lemma inspect_file_Ok_iff i critical names c r (data rest : bytes) :
  (i <= i32_max)%N ->
  inspect_file limits retain validate i critical names c data = Ok (r, rest)
  <-> exists m, data = encode_member i m ++ rest /\ fresh_member critical names m
      /\ r = (add_critical m critical, to_ascii_lowercase m.1 :: names, add_member i m c).
Proof.
  intros Hi. unfold inspect_file, encode_member, fresh_member, member_ok. split.
  - intros H. inv_parse.
    repeat match goal with
    | E : read_count _ = _ |- _ => apply read_count_Ok in E as [-> ?]
    | E : read_ansi_field _ = _ |- _ => apply read_ansi_field_Ok in E as [-> ?]
    | E : inspect_contents _ _ _ _ _ _ _ _ = _ |- _ =>
        apply inspect_contents_Ok in E as (bs & -> & Hl & Hc & ->); [|done]
    | E : to_u32 _ = Some _ |- _ => apply to_u32_Some in E as [-> _]
    | E : negb (_ =? _)%N = false |- _ => apply negb_false_iff, N.eqb_eq in E as ->
    | E : (_ <? _)%N = false |- _ => apply N.ltb_ge in E
    | E : bool_decide _ = false |- _ => apply bool_decide_eq_false in E
    end.
    exists (a1, bs). cbn [fst snd]. subst a4. rewrite <- !app_assoc. split_and!; try done; [lia|].
    intros Hk. match goal with E : is_critical _ && _ = false |- _ => rewrite Hk in E;
      by apply bool_decide_eq_false in E end.
  - intros ([name bs] & -> & ((Hf & Hs & Hc) & Hname & Hcrit) & ->). cbn [fst snd] in *.
    rewrite <- !app_assoc.
    parse_step ltac:(by apply read_count_Ok). guard_step ltac:(by rewrite N.eqb_refl).
    parse_step ltac:(by apply read_ansi_field_Ok).
    guard_step ltac:(destruct (is_critical (file_kind name)); [|done];
      apply bool_decide_eq_false; by apply Hcrit).
    guard_step ltac:(by apply bool_decide_eq_false).
    parse_step ltac:(apply read_count_Ok; split; [done|lia]).
    guard_step ltac:(apply N.ltb_ge; lia).
    parse_step ltac:(apply inspect_contents_Ok; [lia|by exists bs]).
    parse_step ltac:(apply lift_Ok; split; [|done];
      apply ok_or_Ok, to_u32_Some; unfold i32_max, u32_max in *; split; [done|lia]).
    by apply parser_ret_Ok.
Qed.

(** The members the loop accepts one after the other. *)
Fixpoint fresh_members (critical : list FileKind.t) (names : list text) (ms : list (text * bytes)) : Prop :=
  match ms with
  | [] => True
  | m :: ms => fresh_member critical names m
      /\ fresh_members (add_critical m critical) (to_ascii_lowercase m.1 :: names) ms
  end.
Fixpoint add_members (i : N) (ms : list (text * bytes)) (c : InspectedFiles.t) : InspectedFiles.t :=
  match ms with
  | [] => c
  | m :: ms => add_members (i + 1) ms (add_member i m c)
  end.

Lemma inspect_loop_Ok_iff n i critical names c c' (data rest : bytes) :
  (i + N.of_nat n <= i32_max + 1)%N ->
  inspect_loop limits retain validate n i critical names c data = Ok (c', rest)
  <-> exists ms, data = encode_members i ms ++ rest /\ length ms = n
      /\ fresh_members critical names ms /\ c' = add_members i ms c.
Proof.
  revert i critical names c data.
  induction n as [|n IH]; intros i critical names c data Hi; cbn [inspect_loop]; split.
  - intros H. inv_parse. by exists [].
  - intros (ms & -> & Hl & _ & ->). destruct ms; [|done]. by apply parser_ret_Ok.
  - intros H. apply parser_bind_Ok in H as ([[critical1 names1] c1] & data1 & H1 & H).
    apply inspect_file_Ok_iff in H1 as (m & -> & Hm & [= -> -> ->]); [|lia].
    apply IH in H as (ms & -> & Hl & Hms & ->); [|lia].
    exists (m :: ms). cbn [encode_members length fresh_members add_members]. rewrite <- app_assoc. split; [done|]. split; [by f_equal|]. by split; [split|].
  - intros ([|m ms] & -> & Hl & Hms & ->); [done|]. destruct Hms as [Hm Hms]. cbn [encode_members].
    rewrite <- app_assoc. injection Hl as Hl.
    parse_step ltac:(apply inspect_file_Ok_iff; [lia|by exists m]).
    apply IH; [lia|]. by exists ms.
Qed.

Lemma nodup_middle {A} (x : A) l k : NoDup (x :: l ++ k) <-> NoDup (l ++ x :: k).
Proof. by rewrite Permutation_middle. Qed.

Lemma nodup_tail {A} (x : A) l k : NoDup (l ++ x :: k) -> x ∉ k /\ NoDup (x :: k).
Proof. intros (_ & _ & H)%NoDup_app. split; [|done]. by apply NoDup_cons in H as [? _]. Qed.

Lemma fresh_members_spec critical names ms :
  NoDup critical -> NoDup names ->
  fresh_members critical names ms
  <-> Forall (member_ok limits retain validate) ms
      /\ NoDup (map (fun m => to_ascii_lowercase m.1) ms ++ names)
      /\ NoDup (member_kinds ms ++ critical).
Proof.
  revert critical names. induction ms as [|m ms IH]; intros critical names Hc Hn; [by cbn; split|].
  cbn [fresh_members map app]. unfold fresh_member, add_critical, member_kinds in *. cbn [map].
  rewrite Forall_cons, filter_cons, nodup_middle.
  destruct (is_critical (file_kind m.1)) eqn:Ek.
  - rewrite (decide_True (P := true = true)) by done. cbn [app]. rewrite nodup_middle. split.
    + intros ((Hm & Hname & Hk) & H). apply IH in H; [|constructor; auto|by constructor]. naive_solver.
    + intros ((Hm & H1) & H2 & H3). pose proof (nodup_tail _ _ _ H2) as [? ?].
      pose proof (nodup_tail _ _ _ H3) as [? ?]. split; [by split_and!|]. by apply IH.
  - rewrite (decide_False (P := false = true)) by done. split.
    + intros ((Hm & Hname & Hk) & H). apply IH in H; [|done|by constructor]. naive_solver.
    + intros ((Hm & H1) & H2 & H3). pose proof (nodup_tail _ _ _ H2) as [? ?].
      split; [by split_and!|]. by apply IH.
Qed.

(** * What the loop has kept at the end *)

Lemma add_members_files i ms c :
  InspectedFiles.files (add_members i ms c) = InspectedFiles.files c ++ entries i ms.
Proof.
  revert i c. induction ms as [|m ms IH]; intros i c; cbn; [by rewrite app_nil_r|].
  rewrite IH. unfold add_member, retain_member. cbn [InspectedFiles.files InspectedFiles.push].
  rewrite <- app_assoc. f_equal. repeat case_match; done.
Qed.

Lemma member_of_kind_cons k m ms :
  member_of_kind k (m :: ms) = if decide (file_kind m.1 = k) then Some m else member_of_kind k ms.
Proof. unfold member_of_kind. rewrite filter_cons. by case_decide. Qed.

Lemma no_second_critical k m ms :
  is_critical k = true -> file_kind m.1 = k -> NoDup (member_kinds (m :: ms)) -> member_of_kind k ms = None.
Proof.
  intros Hk Hm H. unfold member_kinds in H. cbn [map] in H. rewrite filter_cons, Hm, Hk in H.
  rewrite decide_True in H by done. apply NoDup_cons in H as [H _].
  unfold member_of_kind. destruct (filter _ ms) as [|m' l] eqn:E; [done|]. exfalso. apply H.
  assert (Hin : m' ∈ filter (fun m => file_kind m.1 = k) ms) by (rewrite E; left).
  apply list_elem_of_filter in Hin as [Hm' Hin]. apply list_elem_of_filter. split; [done|].
  apply list_elem_of_fmap. by exists m'.
Qed.

Lemma member_kinds_tail m ms : NoDup (member_kinds (m :: ms)) -> NoDup (member_kinds ms).
Proof.
  unfold member_kinds. cbn [map]. rewrite filter_cons. case_decide; [|done]. by intros [_ ?]%NoDup_cons.
Qed.
Lemma add_member_parts i m c :
  InspectedFiles.crash_context (add_member i m c)
    = match (if decide (file_kind m.1 = FileKind.CrashContext) then
               if retain && validate then from_utf8 m.2 else None else None) with
      | Some xml => Some xml | None => InspectedFiles.crash_context c end
  /\ InspectedFiles.minidump (add_member i m c)
    = (if decide (file_kind m.1 = FileKind.Minidump) then
         if retain then Some m.2 else InspectedFiles.minidump c else InspectedFiles.minidump c)
  /\ InspectedFiles.log (add_member i m c)
    = match InspectedFiles.log c with
      | Some l => Some l
      | None => if decide (file_kind m.1 = FileKind.Log) then
                  if retain then log_of limits m else None else None
      end.
Proof.
  unfold add_member, retain_member. destruct c as [fs xml dump lg]. cbn.
  destruct (file_kind m.1); repeat case_decide; try done; destruct retain; cbn; try by destruct lg.
  - destruct validate; cbn; [|by destruct lg]. destruct (from_utf8 m.2), lg; done.
  - destruct lg; cbn; [done|]. by destruct (log_of limits m).
Qed.

Lemma add_members_context i ms c :
  NoDup (member_kinds ms) ->
  InspectedFiles.crash_context (add_members i ms c)
    = match read_context retain validate ms with
      | Some xml => Some xml | None => InspectedFiles.crash_context c end.
Proof.
  revert i c. induction ms as [|m ms IH]; intros i c Hk; cbn [add_members].
  { unfold read_context. by destruct (retain && validate). }
  rewrite IH by (by eapply member_kinds_tail).
  destruct (add_member_parts i m c) as (-> & _ & _). unfold read_context. rewrite member_of_kind_cons.
  destruct (decide (file_kind m.1 = FileKind.CrashContext)) as [E|E]; [|done].
  rewrite (no_second_critical _ m ms) by done. by destruct (retain && validate).
Qed.

Lemma add_members_minidump i ms c :
  NoDup (member_kinds ms) ->
  InspectedFiles.minidump (add_members i ms c)
    = match read_minidump retain ms with Some d => Some d | None => InspectedFiles.minidump c end.
Proof.
  revert i c. induction ms as [|m ms IH]; intros i c Hk; cbn [add_members].
  { unfold read_minidump. by destruct retain. }
  rewrite IH by (by eapply member_kinds_tail).
  destruct (add_member_parts i m c) as (_ & -> & _). unfold read_minidump. rewrite member_of_kind_cons.
  destruct (decide (file_kind m.1 = FileKind.Minidump)) as [E|E]; [|done].
  rewrite (no_second_critical _ m ms) by done. by destruct retain.
Qed.

Lemma add_members_log i ms c :
  InspectedFiles.log (add_members i ms c)
    = match InspectedFiles.log c with Some l => Some l | None => read_log limits retain ms end.
Proof.
  revert i c. induction ms as [|m ms IH]; intros i c; cbn [add_members].
  { unfold read_log. by destruct (InspectedFiles.log c), retain. }
  rewrite IH. destruct (add_member_parts i m c) as (_ & _ & ->). unfold read_log.
  rewrite member_of_kind_cons. destruct (InspectedFiles.log c); [done|].
  destruct (decide (file_kind m.1 = FileKind.Log)); [|done]. destruct retain; [|done].
  by destruct (log_of_Some limits m) as [l Hl]; cbn; rewrite Hl.
Qed.
End table.

(** * The archive *)

Lemma table_size_entries ms i : table_size (entries i ms) = foldr (fun m n => (272 + len m.2 + n)%N) 0%N ms.
Proof.
  revert i. induction ms as [|m ms IH]; intros i; [done|]. cbn. unfold table_size in IH. by rewrite IH.
Qed.

Lemma len_ansi_field v : field_ok v -> len (ansi_field v) = 264%N.
Proof.
  intros [_ Hl]. unfold ansi_field. rewrite !len_app, len_le32. unfold len in *. rewrite length_replicate.
  unfold ANSI_FIELD_BYTES in *. lia.
Qed.

Section archive.
Context {X : Roxmltree} (limits : CrashRequestLimits.t) (retain validate : bool).

(** What the parser has found when it has read a whole archive. *)
Definition found (a : archive) : InspectedFiles.t :=
  {| InspectedFiles.files := entries 0 (members a);
     InspectedFiles.crash_context := read_context retain validate (members a);
     InspectedFiles.minidump := read_minidump retain (members a);
     InspectedFiles.log := read_log limits retain (members a) |}.

(** The parser takes an archive whose reported size is [n]. *)
Definition reported (n : N) (a : archive) : bytes :=
  ENVELOPE_MAGIC ++ ansi_field (directory a) ++ ansi_field (title a) ++ le32 n
  ++ le32 (len (members a)) ++ encode_members 0 (members a).

Lemma add_members_found a :
  NoDup (member_kinds (members a)) ->
  add_members limits retain validate 0 (members a) InspectedFiles.empty = found a.
Proof.
  intros Hk. pose proof (add_members_files limits retain validate 0 (members a) InspectedFiles.empty) as H1.
  pose proof (add_members_context limits retain validate 0 (members a) InspectedFiles.empty Hk) as H2.
  pose proof (add_members_minidump limits retain validate 0 (members a) InspectedFiles.empty Hk) as H3.
  pose proof (add_members_log limits retain validate 0 (members a) InspectedFiles.empty) as H4.
  destruct (add_members limits retain validate 0 (members a) InspectedFiles.empty). cbn in *. subst.
  unfold found. f_equal; by case_match.
Qed.

Lemma decode_archive_Ok_iff (data rest : bytes) d t n c :
  decode_archive limits retain validate data = Ok (d, t, n, c, rest)
  <-> exists ms, let a := Archive d t ms in
      data = reported n a ++ rest
      /\ field_ok d /\ field_ok t
      /\ (n <= N.min i32_max (CrashRequestLimits.expanded_bytes limits))%N
      /\ (len ms <= N.min i32_max (CrashRequestLimits.files limits))%N
      /\ Forall (member_ok limits retain validate) ms
      /\ NoDup (map (fun m => to_ascii_lowercase m.1) ms) /\ NoDup (member_kinds ms)
      /\ c = found a.
Proof.
  pose proof (fun ms => fresh_members_spec limits retain validate [] [] ms NoDup_nil_2 NoDup_nil_2) as Hfresh.
  setoid_rewrite app_nil_r in Hfresh.
  unfold decode_archive, inspect_files, reported. cbn zeta. split.
  - intros H. inv_parse. simplify_eq.
    repeat match goal with
    | E : read_exact _ _ = _ |- _ => apply read_exact_Ok in E as [-> _]
    | E : read_count _ = _ |- _ => apply read_count_Ok in E as [-> ?]
    | E : read_ansi_field _ = _ |- _ => apply read_ansi_field_Ok in E as [-> ?]
    | E : (_ <? _)%N = false |- _ => apply N.ltb_ge in E
    | E : negb (bool_decide _) = false |- _ => apply negb_false_iff, bool_decide_eq_true in E as ->
    | E : inspect_loop _ _ _ _ _ _ _ _ _ = _ |- _ =>
        apply inspect_loop_Ok_iff in E as (ms & -> & Hl & Hms & ->); [|lia]
    end.
    apply Hfresh in Hms as (Hms & Hn & Hk). exists ms. cbn [directory title members].
    match type of Hl with _ = N.to_nat ?k => assert (len ms = k) as <- by (unfold len; lia) end.
    pose proof (add_members_found (Archive d t ms) Hk) as Hf. cbn [members] in Hf. rewrite Hf.
    rewrite <- !app_assoc. split_and!; try done; lia.
  - intros (ms & -> & Hd & Ht & Hn & Hl & Hms & Hnames & Hk & ->). cbn [directory title members].
    rewrite <- !app_assoc.
    parse_step ltac:(by apply read_exact_Ok). guard_step ltac:(by rewrite bool_decide_true).
    parse_step ltac:(by apply read_ansi_field_Ok). parse_step ltac:(by apply read_ansi_field_Ok).
    parse_step ltac:(apply read_count_Ok; split; [done|lia]). guard_step ltac:(apply N.ltb_ge; lia).
    parse_step ltac:(apply read_count_Ok; split; [done|lia]). guard_step ltac:(apply N.ltb_ge; lia).
    parse_step ltac:(apply inspect_loop_Ok_iff; [unfold i32_max in *; lia|];
      exists ms; split_and!; [done|unfold len; lia|by apply Hfresh|done]).
    apply parser_ret_Ok. split; [|done]. f_equal. apply (add_members_found (Archive d t ms) Hk).
Qed.
End archive.

(** * The whole reader *)

Section decode.
Context {Z : Zlib} {X : Roxmltree} {R : Type} `{HR : Read R} `{!ReadLaw R}.
Context (input : R) (limits : CrashRequestLimits.t) (Hlimits : limits_u64 limits).

(** The compressed stream has ended, after [z] bytes, with no data after it. *)
Definition ended (z : N) (s : ExpandedReader.t R) : Prop :=
  exists b, BufReader.fill_buf (ZlibDecoder.reader (ExpandedReader.inner s)) = (b, Ok [])
    /\ CompressedReader.bytes_read (BufReader.inner b) = z.

Lemma delivers_last (Q : ExpandedReader.t R -> Prop) s rest s' r :
  delivers Q s rest -> io_read s 1 = (s', r) ->
  if bool_decide (rest = []) then r = Ok [] /\ Q s' else exists bs, r = Ok bs /\ bs <> [].
Proof.
  intros [s0 He|s0 data piece Hne Hp _] E; [rewrite bool_decide_true by done; by apply (He 1%N)|].
  rewrite bool_decide_false by done. destruct (Hp 1%N _ _ ltac:(done) E) as [Hk ->].
  eexists. split; [done|]. intros Et. apply (f_equal len) in Et. rewrite len_take_le in Et by lia.
  rewrite len_nil in Et. lia.
Qed.

(** Over a delivering reader the program is the parser of the delivered bytes, the size check and
    the check that nothing is left. *)
Lemma decode_delivered z data retain validate :
  delivers (ended z) (expanded_reader input limits) data ->
  decode_crash_request input limits retain validate
    = match decode_archive limits retain validate data with
      | Ok (d, t, n, c, rest) =>
          if bool_decide (rest = []) && (539 + table_size (InspectedFiles.files c) =? n)%N then
            Ok {| CrashRequestContents.manifest :=
                    {| CrashRequestManifest.schema_version := 1;
                       CrashRequestManifest.envelope := txt "cr1";
                       CrashRequestManifest.directory_name := d;
                       CrashRequestManifest.archive_name := t;
                       CrashRequestManifest.compressed_size := z;
                       CrashRequestManifest.expanded_size := n;
                       CrashRequestManifest.files := InspectedFiles.files c |};
                  CrashRequestContents.crash_context := InspectedFiles.crash_context c;
                  CrashRequestContents.minidump := InspectedFiles.minidump c;
                  CrashRequestContents.log := InspectedFiles.log c |}
          else Err (CrashRequestError.new ExpandedSizeMismatch)
      | Err e => Err e
      end.
Proof.
  intros Hd. pose proof (sim_decode_archive (ended z) limits retain validate _ _ Hd) as Hs.
  pose proof (expanded_counted limits Hlimits) as Hc. unfold decode_crash_request.
  destruct (decode_archive limits retain validate (expanded_reader input limits)) as [[[[[d t] n] c] s1]|e] eqn:E1;
    destruct (decode_archive limits retain validate data) as [[[[[d' t'] n'] c'] rest]|e']; try done;
    [|by cbn; rewrite Hs].
  destruct Hs as [[= <- <- <- <-] Hs1]. cbn [mbind result_bind].
  eapply decode_archive_Ok in E1 as (Hok & Hn & _); [|exact Hc|by apply expanded_reader_ok].
  destruct (io_read s1 1) as [s2 r] eqn:E2. pose proof (delivers_last _ _ _ _ _ Hs1 E2) as Hlast.
  destruct (bool_decide (rest = [])).
  - destruct Hlast as [-> (b & Hb & Hz)]. cbn [map_err mbind result_bind].
    eapply (counted (I := expanded_ok limits)) in E2 as (_ & _ & E2); [|exact Hok].
    rewrite len_nil, N.add_0_r in E2. rewrite E2, Hn. cbn [ExpandedReader.bytes_read expanded_reader ExpandedReader.new].
    rewrite N.add_0_l. rewrite (bool_decide_false (@nil Byte.byte <> [])) by tauto. cbn [fail_if mbind result_bind].
    destruct (N.eqb_spec (539 + table_size (InspectedFiles.files c)) n) as [->|]; cbn; [|done].
    rewrite Hb. cbn. rewrite Hz. done.
  - destruct Hlast as (bs & -> & Hbs). cbn [map_err mbind result_bind andb].
    by rewrite bool_decide_true.
Qed.
(** C1: the reader accepts exactly the CR1 archives.  Over an input that delivers [data] and then ends
    after [z] compressed bytes, decoding succeeds exactly when [data] is the encoding of an archive
    that the limits admit (safe names, no duplicates, bounded sizes, a crash context that parses when
    it is validated), and the result is what the format says: the manifest, and, in the retaining
    mode, the crash context, the minidump and the tail of the first log. *)
Theorem decode_refines_format z data retain validate c :
  delivers (ended z) (expanded_reader input limits) data ->
  decode_crash_request input limits retain validate = Ok c
  <-> exists a, data = encode a /\ archive_ok limits retain validate a
      /\ c = contents limits retain validate z a.
Proof.
  intros Hd. rewrite (decode_delivered z data retain validate Hd). split.
  - destruct (decode_archive limits retain validate data) as [[[[[d t] n] ins] rest]|] eqn:E; [|done].
    apply decode_archive_Ok_iff in E as (ms & -> & Hdir & Htit & Hn & Hl & Hms & Hnames & Hk & ->).
    destruct (decide (rest = [])) as [->|]; [|by rewrite bool_decide_false].
    rewrite bool_decide_true by done. cbn [andb found InspectedFiles.files members].
    rewrite table_size_entries. destruct (N.eqb_spec (archive_size (Archive d t ms)) n) as [<-|Hne];
      [|by rewrite (proj2 (N.eqb_neq _ _))].
    fold (archive_size (Archive d t ms)). rewrite N.eqb_refl. intros [= <-].
    exists (Archive d t ms). split; [by rewrite app_nil_r|]. split; [|done]. by split.
  - intros (a & -> & [] & ->). destruct a as [d t ms]. cbn [directory title members] in *.
    assert (E : decode_archive limits retain validate (encode (Archive d t ms))
                = Ok (d, t, archive_size (Archive d t ms), found limits retain validate (Archive d t ms), [])).
    { apply decode_archive_Ok_iff. exists ms. cbn zeta. rewrite app_nil_r. by split_and!. }
    rewrite E, bool_decide_true by done. cbn [andb found InspectedFiles.files members].
    rewrite table_size_entries. fold (archive_size (Archive d t ms)). by rewrite N.eqb_refl.
Qed.

(** The three entry points agree.  Over a delivering input, whatever the full reader accepts the
    inspecting reader and the envelope reader accept with the same manifest, and an archive the
    inspecting reader accepts the envelope reader accepts too. *)
Theorem entry_points_agree z data m :
  delivers (ended z) (expanded_reader input limits) data ->
  (CrashRequestContents.manifest <$> read_crash_request input limits = Ok m ->
     inspect_crash_request input limits = Ok m)
  /\ (inspect_crash_request input limits = Ok m -> inspect_crash_envelope input limits = Ok m).
Proof.
  intros Hd. unfold read_crash_request, inspect_crash_request, inspect_crash_envelope.
  assert (Hweaken : forall r v r' v',
    (forall k b, content_ok limits r v k b -> content_ok limits r' v' k b) ->
    CrashRequestContents.manifest <$> decode_crash_request input limits r v = Ok m ->
    CrashRequestContents.manifest <$> decode_crash_request input limits r' v' = Ok m).
  { intros r v r' v' Hok. rewrite !(decode_delivered z data _ _ Hd).
    destruct (decode_archive limits r v data) as [[[[[d t] n] ins] rest]|] eqn:E; [|done].
    apply decode_archive_Ok_iff in E as (ms & Hdata & Hdir & Htit & Hn & Hl & Hms & Hnames & Hk & ->).
    assert (E : decode_archive limits r' v' data = Ok (d, t, n, found limits r' v' (Archive d t ms), rest)).
    { apply decode_archive_Ok_iff. exists ms. split_and!; try done.
      eapply Forall_impl; [exact Hms|]. intros x (? & ? & ?). split_and!; auto. }
    rewrite E. cbn [found InspectedFiles.files members].
    by destruct (bool_decide (rest = []) && _). }
  split; apply Hweaken; intros k b; destruct k; cbn; naive_solver.
Qed.
End decode.

(** * A run *)

Lemma take_min {A} n (l : list A) : take (n `min` length l) l = take n l.
Proof.
  destruct (decide (n <= length l)%nat); [by rewrite Nat.min_l|].
  rewrite Nat.min_r, !take_ge by lia. done.
Qed.

Lemma drop_min {A} n (l : list A) : drop (n `min` length l) l = drop n l.
Proof.
  destruct (decide (n <= length l)%nat); [by rewrite Nat.min_l|].
  rewrite Nat.min_r, !drop_ge by lia. done.
Qed.

Section stored.
#[local] Existing Instance stored.
Context (limits : CrashRequestLimits.t) (data : bytes).
Context (Hbuffer : (len data <= READ_BUFFER_BYTES)%N) (Hu64 : limits_u64 limits).
Context (Hc : (len data <= CrashRequestLimits.compressed_bytes limits)%N).
Context (He : (len data <= CrashRequestLimits.expanded_bytes limits)%N).
Context (Hr : (1 <= CrashRequestLimits.expansion_ratio limits)%N).

(** The stack over a stored slice that is all in the buffer and of which [rest] is still to come. *)
Definition loaded (rest : bytes) : ExpandedReader.t bytes :=
  {| ExpandedReader.inner :=
       {| ZlibDecoder.state := (tt : @decoder stored);
          ZlibDecoder.reader :=
            {| BufReader.buffer := rest;
               BufReader.inner := {| CompressedReader.inner := [];
                 CompressedReader.limit := CrashRequestLimits.compressed_bytes limits;
                 CompressedReader.bytes_read := len data |} |} |} ;
     ExpandedReader.limit := CrashRequestLimits.expanded_bytes limits;
     ExpandedReader.ratio := CrashRequestLimits.expansion_ratio limits;
     ExpandedReader.bytes_read := len data - len rest |}.

(** The compressed reader at the end of the slice. *)
Lemma compressed_end n :
  let c := {| CompressedReader.inner := ([] : bytes);
              CompressedReader.limit := CrashRequestLimits.compressed_bytes limits;
              CompressedReader.bytes_read := len data |} in
  io_read c n = (c, Ok []).
Proof.
  cbn zeta. unfold io_read, CompressedReader.read. cbn [CompressedReader.bytes_read CompressedReader.limit
    CompressedReader.inner]. destruct (n =? 0)%N; [done|]. destruct (_ =? _)%N.
  - unfold io_read, slice_read. by rewrite take_nil, drop_nil.
  - unfold io_read, slice_read. rewrite take_nil, drop_nil. destruct Hu64. do 2 f_equal.
    unfold saturating_add. rewrite len_nil. lia.
Qed.

(** The decoder over a buffer that holds something. *)
Lemma stored_read (c : CompressedReader.t bytes) u (bs : bytes) n :
  bs <> [] ->
  io_read {| ZlibDecoder.state := u; ZlibDecoder.reader := {| BufReader.buffer := bs; BufReader.inner := c |} |} n
  = ({| ZlibDecoder.state := (tt : @decoder stored);
        ZlibDecoder.reader := {| BufReader.buffer := drop (N.to_nat n) bs; BufReader.inner := c |} |},
     Ok (take (N.to_nat n) bs)).
Proof.
  intros Hbs. unfold io_read, ZlibDecoder.read. cbn [ZlibDecoder.state ZlibDecoder.reader decode stored].
  cbn [ZlibDecoder.run]. unfold BufReader.fill_buf. cbn [BufReader.buffer].
  destruct bs as [|b bs]; [done|]. cbn [ZlibDecoder.run]. rewrite take_take, Nat.min_id.
  unfold BufReader.consume. cbn [BufReader.buffer BufReader.inner].
  unfold len. rewrite Nat2N.id, length_take, drop_min. done.
Qed.

Lemma stored_end (c : CompressedReader.t bytes) u n :
  c = {| CompressedReader.inner := [];
         CompressedReader.limit := CrashRequestLimits.compressed_bytes limits;
         CompressedReader.bytes_read := len data |} ->
  io_read {| ZlibDecoder.state := u; ZlibDecoder.reader := {| BufReader.buffer := []; BufReader.inner := c |} |} n
  = ({| ZlibDecoder.state := (tt : @decoder stored);
        ZlibDecoder.reader := {| BufReader.buffer := []; BufReader.inner := c |} |}, Ok []).
Proof.
  intros ->. unfold io_read at 1, ZlibDecoder.read. cbn [ZlibDecoder.state ZlibDecoder.reader decode stored].
  cbn [ZlibDecoder.run]. unfold BufReader.fill_buf. cbn [BufReader.buffer BufReader.inner].
  rewrite compressed_end. cbn [ZlibDecoder.run]. by rewrite !take_nil.
Qed.

Lemma loaded_read rest n :
  (len rest <= len data)%N -> rest <> [] -> n <> 0%N ->
  io_read (loaded rest) n
    = (loaded (drop (N.to_nat (N.min n (len rest))) rest),
       Ok (take (N.to_nat (N.min n (len rest))) rest)).
Proof.
  intros Hl Hne Hn. pose proof (proj1 (len_ne rest) Hne) as Hpos. unfold io_read, ExpandedReader.read, loaded.
  rewrite (proj2 (N.eqb_neq n 0)) by done. cbn [ExpandedReader.bytes_read ExpandedReader.limit ExpandedReader.inner].
  rewrite (proj2 (N.eqb_neq _ _)) by lia. rewrite stored_read by done.
  set (m := N.min (_ - _) n).
  assert (Hm : N.min m (len rest) = N.min n (len rest)) by lia.
  assert (Ht : take (N.to_nat m) rest = take (N.to_nat (N.min n (len rest))) rest)
    by (rewrite <- Hm, N2Nat.inj_min; unfold len; by rewrite Nat2N.id, take_min).
  assert (Hd : drop (N.to_nat m) rest = drop (N.to_nat (N.min n (len rest))) rest)
    by (rewrite <- Hm, N2Nat.inj_min; unfold len; by rewrite Nat2N.id, drop_min).
  rewrite Ht, Hd, len_drop, len_take_le by lia. cbv zeta.
  cbn [ExpandedReader.ratio ExpandedReader.bytes_read]. unfold ExpandedReader.ratio_limit,
    ExpandedReader.compressed_bytes_read, saturating_add, saturating_mul.
  cbn [ExpandedReader.inner ExpandedReader.ratio ZlibDecoder.reader BufReader.inner CompressedReader.bytes_read].
  destruct Hu64 as [Hu1 Hu2].
  rewrite (proj2 (N.ltb_ge _ _)) by (apply N.min_glb; nia). do 3 f_equal. lia.
Qed.

Lemma loaded_end n : n <> 0%N -> io_read (loaded []) n = (loaded [], Ok []).
Proof.
  intros Hn. unfold io_read, ExpandedReader.read, loaded. rewrite (proj2 (N.eqb_neq n 0)) by done.
  cbn [ExpandedReader.bytes_read ExpandedReader.limit ExpandedReader.inner].
  rewrite !stored_end by done. destruct (_ =? _)%N; [done|]. cbv zeta.
  unfold ExpandedReader.ratio_limit, ExpandedReader.compressed_bytes_read, saturating_add, saturating_mul.
  cbn [ExpandedReader.inner ExpandedReader.ratio ExpandedReader.bytes_read ZlibDecoder.reader BufReader.inner
    CompressedReader.bytes_read]. destruct Hu64 as [Hu1 Hu2]. rewrite len_nil.
  rewrite (proj2 (N.ltb_ge _ _)) by (apply N.min_glb; nia). do 2 f_equal. lia.
Qed.

Lemma loaded_delivers rest :
  (len rest <= len data)%N -> delivers (ended (len data)) (loaded rest) rest.
Proof.
  induction rest as [rest IH] using (well_founded_induction (Wf_nat.well_founded_ltof _ length)).
  intros Hl. destruct (decide (rest = [])) as [->|Hne].
  - apply delivers_end. intros n s' r Hn. rewrite loaded_end by done. intros [= <- <-]. split; [done|].
    unfold ended, loaded, BufReader.fill_buf. cbn [ExpandedReader.inner ZlibDecoder.reader BufReader.buffer BufReader.inner].
    rewrite compressed_end. by eexists.
  - pose proof (proj1 (len_ne rest) Hne) as Hpos.
    apply (delivers_more _ _ _ (fun n => N.min n (len rest)) Hne); intros n s' r Hn;
      rewrite loaded_read by done; intros [= <- <-].
    + split; [lia|done].
    + apply IH; [|rewrite len_drop; lia]. unfold Wf_nat.ltof. rewrite length_drop. unfold len in *. lia.
Qed.

(** The first read loads the whole slice. *)
Lemma first_read n :
  data <> [] -> n <> 0%N -> io_read (expanded_reader data limits) n = io_read (loaded data) n.
Proof.
  intros Hne Hn. pose proof (proj1 (len_ne data) Hne) as Hpos.
  assert (Hz : forall k, io_read (ExpandedReader.inner (expanded_reader data limits)) k
    = io_read (ExpandedReader.inner (loaded data)) k).
  { intros k. unfold loaded. cbn [ExpandedReader.inner]. rewrite stored_read by done.
    unfold io_read, ZlibDecoder.read. cbn [expanded_reader ExpandedReader.new ExpandedReader.inner ZlibDecoder.new
      ZlibDecoder.state ZlibDecoder.reader decode stored ZlibDecoder.run]. unfold BufReader.fill_buf.
    cbn [BufReader.new BufReader.buffer BufReader.inner]. unfold io_read, CompressedReader.read.
    cbn [CompressedReader.bytes_read CompressedReader.limit CompressedReader.inner].
    rewrite (proj2 (N.eqb_neq READ_BUFFER_BYTES 0)), (proj2 (N.eqb_neq _ _)) by (unfold READ_BUFFER_BYTES; lia).
    unfold io_read, slice_read. rewrite (take_ge data), (drop_ge data) by (unfold len in *; lia).
    cbn [ZlibDecoder.run]. rewrite take_take, Nat.min_id. unfold BufReader.consume.
    cbn [BufReader.buffer BufReader.inner]. unfold len at 1. rewrite Nat2N.id, length_take, drop_min.
    unfold saturating_add. destruct Hu64. rewrite N.min_l by lia. by rewrite N.add_0_l. }
  unfold io_read, ExpandedReader.read. rewrite !Hz, (proj2 (N.eqb_neq n 0)) by done.
  unfold expanded_reader, ExpandedReader.new, loaded.
  cbn [ExpandedReader.bytes_read ExpandedReader.limit ExpandedReader.ratio].
  by rewrite N.sub_diag.
Qed.

Lemma stored_delivers : data <> [] -> delivers (ended (len data)) (expanded_reader data limits) data.
Proof.
  intros Hne. pose proof (loaded_delivers data ltac:(lia)) as Hd.
  inversion Hd as [|s0 d0 piece _ Hp Hrest]; subst; [done|].
  apply (delivers_more _ _ _ piece Hne); intros n s' r Hn; rewrite first_read by done; eauto.
Qed.
End stored.

Lemma sample_archive_ok : archive_ok (X := one_element) sample_limits true true sample_archive.
Proof.
  split.
  - split; vm_compute; done.
  - split; vm_compute; done.
  - vm_compute. done.
  - vm_compute. done.
  - constructor; [|constructor; [|constructor; [|constructor]]].
    + split; [split; vm_compute; done|]. split; [vm_compute; done|]. split; [vm_compute; done|].
      intros _. exists CRASH_CONTEXT_ROOT, CRASH_CONTEXT_ROOT. split; vm_compute; reflexivity.
    + split; [split; vm_compute; done|]. split; [vm_compute; done|]. intros _. vm_compute. done.
    + split; [split; vm_compute; done|]. split; [vm_compute; done|]. vm_compute. done.
  - refine (bool_decide_unpack _ _). vm_compute. exact I.
  - refine (bool_decide_unpack _ _). vm_compute. exact I.
Qed.

Lemma decode_refines_format_witness :
  decode_crash_request (Z := stored) (X := one_element) (encode sample_archive) sample_limits true true
    = Ok (contents sample_limits true true (len (encode sample_archive)) sample_archive).
Proof.
  apply (decode_refines_format (Z := stored) (X := one_element) (ReadLaw0 := slice_read_law)
    (encode sample_archive) sample_limits ltac:(by vm_compute) (len (encode sample_archive))
    (encode sample_archive) true true).
  - apply stored_delivers; vm_compute; try done; discriminate.
  - exists sample_archive. split; [reflexivity|]. split; [apply sample_archive_ok|reflexivity].
Defined.

Lemma entry_points_agree_witness :
  inspect_crash_request (Z := stored) (X := one_element) (encode sample_archive) sample_limits
    = Ok (CrashRequestContents.manifest
            (contents sample_limits true true (len (encode sample_archive)) sample_archive)).
Proof.
  refine (proj1 (entry_points_agree (Z := stored) (X := one_element) (ReadLaw0 := slice_read_law)
    (encode sample_archive) sample_limits ltac:(by vm_compute) (len (encode sample_archive))
    (encode sample_archive) _ _) _).
  - apply stored_delivers; vm_compute; try done; discriminate.
  - vm_compute. reflexivity.
Defined.

(** * The compressed byte limit *)

Section compressed_limit.
Context {S : Type} `{HR : Read S} (Q : S -> Prop).

Definition limited (s : S) (l k : N) : CompressedReader.t S :=
  {| CompressedReader.inner := s; CompressedReader.limit := l; CompressedReader.bytes_read := k |}.

(** One read below the limit. *)
Lemma limited_read s l k data n c r :
  delivers Q s data -> (k < l <= u64_max)%N -> n <> 0%N ->
  io_read (limited s l k) n = (c, r) ->
  exists s' bs rest, r = Ok bs /\ data = bs ++ rest /\ (len bs <= N.min n (l - k))%N
    /\ (data <> [] -> bs <> []) /\ c = limited s' l (k + len bs) /\ (data <> [] -> delivers Q s' rest).
Proof.
  intros Hd Hk Hn. unfold io_read at 1, CompressedReader.read, limited.
  rewrite (proj2 (N.eqb_neq n 0)) by done.
  cbn [CompressedReader.bytes_read CompressedReader.limit CompressedReader.inner].
  rewrite (proj2 (N.eqb_neq k l)) by lia. set (m := N.min (l - k) n).
  destruct (io_read s m) as [s' r'] eqn:E.
  destruct Hd as [s He|s data piece Hne Hp Hd].
  - destruct (He m _ _ ltac:(lia) E) as [-> _]. intros [= <- <-]. exists s', [], []. 
    unfold saturating_add. rewrite len_nil. split_and!; try done; [lia|]. f_equal. lia.
  - destruct (Hp m _ _ ltac:(lia) E) as [Hlen ->]. specialize (Hd m _ _ ltac:(lia) E).
    intros [= <- <-]. exists s', (take (N.to_nat (piece m)) data), (drop (N.to_nat (piece m)) data).
    unfold saturating_add. rewrite take_drop, len_take_le by lia.
    split_and!; try done; [lia| |f_equal; lia].
    intros _. apply len_ne. rewrite len_take_le; lia.
Qed.

Lemma limited_exact fuel n s l k data :
  (N.to_nat n <= fuel)%nat -> delivers Q s data -> (k <= l <= u64_max)%N ->
  match read_exact_io fuel n (limited s l k) with
  | Ok (bs, _) => bs = take (N.to_nat n) data /\ (n <= N.min (len data) (l - k))%N
  | Err e => (N.min (len data) (l - k) < n)%N
      /\ e = if (len data <=? l - k)%N then IoError UnexpectedEof else ReadLimitError CompressedTooLarge
  end.
Proof.
  revert n s k data. induction fuel as [|fuel IH]; intros n s k data Hf Hd Hk; cbn [read_exact_io].
  all: destruct (N.eqb_spec n 0) as [->|Hn]; [split; [done|lia]|]; try lia.
  destruct (decide (k = l)) as [->|Hne].
  { unfold io_read, CompressedReader.read, limited. rewrite (proj2 (N.eqb_neq n 0)) by done.
    cbn [CompressedReader.bytes_read CompressedReader.limit CompressedReader.inner].
    rewrite N.eqb_refl. destruct (io_read s 1) as [s' r] eqn:E. destruct Hd as [s He|s data piece Hne Hp _].
    - destruct (He 1%N _ _ ltac:(done) E) as [-> _]. rewrite (proj2 (N.leb_le _ _)) by (rewrite len_nil; lia).
      split; [lia|done].
    - destruct (Hp 1%N _ _ ltac:(done) E) as [Hlen ->]. rewrite (proj2 (N.leb_gt _ _)) by lia.
      destruct (take _ data) as [|b bs] eqn:Et; [|split; [lia|done]].
      apply (f_equal len) in Et. rewrite len_take_le, len_nil in Et; lia. }
  destruct (io_read (limited s l k) n) as [c r] eqn:E.
  apply (limited_read s l k data) in E as (s' & bs & rest & -> & -> & Hlen & Hbs & -> & Hd'); [|done|lia|done].
  destruct bs as [|b bs].
  { destruct rest; [|destruct Hbs; done]. rewrite app_nil_r, (len_nil (A := Byte.byte)).
    rewrite (proj2 (N.leb_le _ _)) by lia. split; [lia|done]. }
  specialize (IH (n - len (b :: bs))%N s' (k + len (b :: bs))%N rest). rewrite len_app in *.
  assert (0 < len (b :: bs))%N by (rewrite len_cons; lia).
  destruct (read_exact_io fuel _ _) as [[bs' c']|e].
  - destruct IH as [-> Hle]; [lia|by apply Hd'|lia|]. split; [|lia].
    rewrite take_app_ge by (unfold len in *; lia). do 2 f_equal. unfold len in *. lia.
  - destruct IH as [Hlt ->]; [lia|by apply Hd'|lia|]. split; [lia|].
    destruct (N.leb_spec (len rest) (l - (k + len (b :: bs)))).
    + by rewrite (proj2 (N.leb_le _ _)) by lia.
    + by rewrite (proj2 (N.leb_gt _ _)) by lia.
Qed.

(** The compressed limit is exact.  Below it the reader is transparent: reading [n] bytes gives
    the first [n] bytes of the input.  When the input ends first, the error is a truncated archive;
    when the input has more than [l] bytes and more than [l] are asked for, the error is the
    compressed limit, never a truncated or shortened result. *)
Theorem compressed_limit_exact n s l data :
  delivers Q s data -> (l <= u64_max)%N ->
  match read_exact n (limited s l 0) with
  | Ok (bs, _) => bs = take (N.to_nat n) data /\ (n <= N.min (len data) l)%N
  | Err e => (N.min (len data) l < n)%N
      /\ e = CrashRequestError.new (if (len data <=? l)%N then TruncatedArchive else CompressedTooLarge)
  end.
Proof.
  intros Hd Hl. pose proof (limited_exact (N.to_nat n) n s l 0 data (le_n _) Hd ltac:(lia)) as H.
  rewrite N.sub_0_r in H. unfold read_exact. destruct (read_exact_io _ n _) as [[bs c]|e]; [done|].
  cbn [map_err]. destruct H as [Hn ->]. split; [done|]. by destruct (len data <=? l)%N.
Qed.
End compressed_limit.

Lemma slice_delivers (data : bytes) : delivers (fun s => s = []) data data.
Proof.
  induction data as [data IH] using (well_founded_induction (Wf_nat.well_founded_ltof _ length)).
  destruct (decide (data = [])) as [->|Hne].
  - apply delivers_end. intros n s' r Hn [= <- <-]. by rewrite take_nil, drop_nil.
  - pose proof (proj1 (len_ne data) Hne) as Hpos.
    apply (delivers_more _ _ _ (fun n => N.min n (len data)) Hne); intros n s' r Hn [= <- <-].
    + split; [lia|]. rewrite N2Nat.inj_min. unfold len. by rewrite Nat2N.id, take_min.
    + rewrite <- (drop_min (N.to_nat n) data).
      replace (N.to_nat (N.min n (len data))) with (N.to_nat n `min` length data)%nat
        by (rewrite N2Nat.inj_min; unfold len; by rewrite Nat2N.id).
      apply IH. unfold Wf_nat.ltof. rewrite length_drop. unfold len in *. lia.
Qed.

Lemma compressed_limit_exact_witness :
  match read_exact 3 (limited (byt "abcd") 2 0) with
  | Ok (bs, _) => bs = take 3 (byt "abcd") /\ (3 <= N.min 4 2)%N
  | Err e => (N.min 4 2 < 3)%N /\ e = CrashRequestError.new CompressedTooLarge
  end.
Proof.
  apply (compressed_limit_exact (fun s => s = []) 3 (byt "abcd") 2 (byt "abcd")); [apply slice_delivers|].
  vm_compute. discriminate.
Defined.
