(* ===== verification/Pdb.v ===== *)
(** The PDB layout reader of [crates/symbols/src/lib.rs]: the MSF header, the block map, the stream
    directory and the debug stream's header, with the checks that keep every read inside the file. *)

From S2P Require Import Prelude Text.

Inductive ArtifactErrorCode : Type :=
| Malformed | MissingDebugIdentity | Unreadable | UnsupportedArchitecture | UnsupportedFormat.

#[export] Instance ArtifactErrorCode_eq_dec : EqDecision ArtifactErrorCode.
Proof. solve_decision. Defined.

Definition MAX_METADATA_READ_BYTES : N := 16 * 1024 * 1024.
Definition MAX_PDB_PAGE_BYTES : N := 64 * 1024.
Definition PDB_HEADER_BYTES : N := 4096.
Definition PDB_RAW_HEADER_BYTES : N := 52.
Definition PDB_DBI_HEADER_BYTES : N := 64.
Definition PDB_DBI_STREAM : N := 3.
Definition PDB_MAGIC : bytes :=
  byt "Microsoft C/C++ MSF 7.00" ++ [Byte.x0d; Byte.x0a; Byte.x1a] ++ byt "DS"
  ++ [Byte.x00; Byte.x00; Byte.x00].

Abbreviation checked A := (result ArtifactErrorCode A).

(** [<[u8]>::get] with a range of [n] bytes at [offset]. *)
Definition get_range (bs : bytes) (offset n : N) : option bytes :=
  if (offset + n <=? len bs)%N then Some (take (N.to_nat n) (drop (N.to_nat offset) bs)) else None.

(** [read_u32_at] and [read_u16_at]. *)
Definition read_u32_at (bs : bytes) (offset : N) : checked N :=
  value ← ok_or Malformed (get_range bs offset 4); Ok (le_value value).
Definition read_u16_at (bs : bytes) (offset : N) : checked N :=
  value ← ok_or Malformed (get_range bs offset 2); Ok (le_value value).

Module PdbLayout.
Record t : Type := Mk { page_size : N; pages_used : N; directory_bytes : N; file_bytes : N }.
End PdbLayout.
Import PdbLayout.

(** [usize::is_power_of_two]. *)
Definition is_power_of_two (n : N) : bool := (0 <? n)%N && (N.land n (n - 1) =? 0)%N.

(** [parse_pdb_layout]. *)
Definition parse_pdb_layout (header : bytes) (file_bytes : N) : checked PdbLayout.t :=
  _ ← fail_if (negb (bool_decide (get_range header 0 (len PDB_MAGIC) = Some PDB_MAGIC))) Malformed;
  page_size ← read_u32_at header 32;
  pages_used ← read_u32_at header 40;
  directory_bytes ← read_u32_at header 44;
  _ ← fail_if (negb (is_power_of_two page_size)
               || negb (in_range 256 MAX_PDB_PAGE_BYTES page_size)
               || (pages_used =? 0)%N
               || (MAX_METADATA_READ_BYTES <? directory_bytes)%N) Malformed;
  described_bytes ← ok_or Malformed (checked_mul pages_used page_size);
  _ ← fail_if (file_bytes <? described_bytes)%N Malformed;
  Ok {| page_size := page_size; pages_used := pages_used; directory_bytes := directory_bytes;
        file_bytes := file_bytes |}.

(** [pages_needed]. *)
Definition pages_needed (bs page_size : N) : checked N :=
  n ← ok_or Malformed (checked_add bs (saturating_sub page_size 1)); Ok (n / page_size)%N.

(** [read_page_number]. *)
Definition read_page_number (bs : bytes) (offset pages_used : N) : checked N :=
  page ← read_u32_at bs offset;
  _ ← fail_if ((page =? 0)%N || (pages_used <=? page)%N) Malformed;
  Ok page.

(** A loop that pushes the result of each index [i..i + n]. *)
Fixpoint push_each {A} (f : N -> checked A) (i : N) (n : nat) : checked (list A) :=
  match n with
  | O => Ok []
  | S n => x ← f i; xs ← push_each f (i + 1) n; Ok (x :: xs)
  end.

Section file.
(** The content of the file; [seek] and [read_exact] read it. *)
Context (file : bytes).

(** [read_file_bytes]. *)
Definition read_file_bytes (offset n file_bytes : N) : checked bytes :=
  end_ ← ok_or Malformed (checked_add offset n);
  _ ← fail_if (file_bytes <? end_)%N Malformed;
  ok_or Malformed (get_range file offset n).

(** The loop of [read_pdb_pages], with [output] read so far. *)
Fixpoint read_pages_loop (pages : list N) (page_size n file_bytes : N) (output : bytes) : checked bytes :=
  match pages with
  | [] => Ok output
  | page :: pages =>
      let remaining := saturating_sub n (len output) in
      let chunk_bytes := N.min remaining page_size in
      page_offset ← ok_or Malformed (checked_mul page page_size);
      chunk ← read_file_bytes page_offset chunk_bytes file_bytes;
      read_pages_loop pages page_size n file_bytes (output ++ chunk)
  end.

(** [read_pdb_pages]. *)
Definition read_pdb_pages (pages : list N) (page_size n file_bytes : N) : checked bytes :=
  required_pages ← pages_needed n page_size;
  _ ← fail_if (len pages <? required_pages)%N Malformed;
  read_pages_loop (take (N.to_nat required_pages) pages) page_size n file_bytes [].

(** [read_pdb_directory]. *)
Definition read_pdb_directory (header : bytes) (layout : PdbLayout.t) : checked bytes :=
  directory_pages ← pages_needed (directory_bytes layout) (page_size layout);
  block_map_bytes ← ok_or Malformed (checked_mul directory_pages 4);
  block_map_pages ← pages_needed block_map_bytes (page_size layout);
  block_map_size ← ok_or Malformed (checked_mul block_map_pages 4);
  block_map_end ← ok_or Malformed (checked_add PDB_RAW_HEADER_BYTES block_map_size);
  _ ← fail_if (len header <? block_map_end)%N Malformed;
  block_map ← push_each (fun index =>
    scaled ← ok_or Malformed (checked_mul index 4);
    offset ← ok_or Malformed (checked_add PDB_RAW_HEADER_BYTES scaled);
    read_page_number header offset (pages_used layout)) 0 (N.to_nat block_map_pages);
  directory_page_bytes ←
    read_pdb_pages block_map (page_size layout) block_map_bytes (file_bytes layout);
  stream_table_pages ← push_each (fun index =>
    offset ← ok_or Malformed (checked_mul index 4);
    read_page_number directory_page_bytes offset (pages_used layout)) 0 (N.to_nat directory_pages);
  read_pdb_pages stream_table_pages (page_size layout) (directory_bytes layout) (file_bytes layout).

(** [stream_size]. *)
Definition stream_size (directory : bytes) (stream : N) : checked N :=
  scaled ← ok_or Malformed (checked_mul stream 4);
  offset ← ok_or Malformed (checked_add 4 scaled);
  read_u32_at directory offset.

(** The pages of the streams before [PDB_DBI_STREAM]; [n] streams are left from [stream]. *)
Fixpoint preceding_pages (directory : bytes) (layout : PdbLayout.t) (stream : N) (n : nat)
    (pages : N) : checked N :=
  match n with
  | O => Ok pages
  | S n =>
      size ← stream_size directory stream;
      pages ← (if (size =? u32_max)%N then Ok pages
               else needed ← pages_needed size (page_size layout);
                    ok_or Malformed (checked_add pages needed));
      preceding_pages directory layout (stream + 1) n pages
  end.

(** The check of every page number in [offset..end_], four bytes at a time. *)
Fixpoint check_pages (directory : bytes) (layout : PdbLayout.t) (fuel : nat) (offset end_ : N) : checked unit :=
  if (end_ <=? offset)%N then Ok tt
  else match fuel with
       | O => Ok tt
       | S fuel =>
           _ ← read_page_number directory offset (pages_used layout);
           check_pages directory layout fuel (offset + 4) end_
       end.

(** [pdb_stream_first_page]. *)
Definition pdb_stream_first_page (directory : bytes) (layout : PdbLayout.t) : checked N :=
  stream_count ← read_u32_at directory 0;
  _ ← fail_if (stream_count <=? PDB_DBI_STREAM)%N Malformed;
  stream_sizes_bytes ← ok_or Malformed (checked_mul stream_count 4);
  stream_pages_offset ← ok_or Malformed (checked_add 4 stream_sizes_bytes);
  _ ← fail_if (len directory <? stream_pages_offset)%N Malformed;
  preceding ← preceding_pages directory layout 0 (N.to_nat PDB_DBI_STREAM) 0;
  debug_stream_bytes ← stream_size directory PDB_DBI_STREAM;
  _ ← fail_if ((debug_stream_bytes =? u32_max)%N || (debug_stream_bytes <? PDB_DBI_HEADER_BYTES)%N) Malformed;
  debug_pages ← pages_needed debug_stream_bytes (page_size layout);
  preceding_bytes ← ok_or Malformed (checked_mul preceding 4);
  first_debug_page_offset ← ok_or Malformed (checked_add stream_pages_offset preceding_bytes);
  debug_bytes ← ok_or Malformed (checked_mul debug_pages 4);
  debug_page_list_end ← ok_or Malformed (checked_add first_debug_page_offset debug_bytes);
  _ ← fail_if (len directory <? debug_page_list_end)%N Malformed;
  debug_page ← read_page_number directory first_debug_page_offset (pages_used layout);
  _ ← check_pages directory layout (N.to_nat debug_pages) first_debug_page_offset debug_page_list_end;
  Ok debug_page.

(** [read_pdb_debug_header]: the machine and the age of the debug stream. *)
Definition read_pdb_debug_header : checked (N * N) :=
  let file_bytes := len file in
  header ← read_file_bytes 0 PDB_HEADER_BYTES file_bytes;
  layout ← parse_pdb_layout header file_bytes;
  directory ← read_pdb_directory header layout;
  debug_page ← pdb_stream_first_page directory layout;
  debug_header ← read_pdb_pages [debug_page] (page_size layout) PDB_DBI_HEADER_BYTES
                   (PdbLayout.file_bytes layout);
  signature ← read_u32_at debug_header 0;
  _ ← fail_if (negb (signature =? u32_max)%N) Malformed;
  original_age ← read_u32_at debug_header 8;
  machine ← read_u16_at debug_header 58;
  Ok (machine, original_age).
End file.

(** * Lemmas *)

Lemma get_range_Some bs off n r :
  get_range bs off n = Some r <->
  (off + n <= len bs)%N /\ r = take (N.to_nat n) (drop (N.to_nat off) bs).
Proof. unfold get_range. destruct (N.leb_spec (off + n) (len bs)); naive_solver lia. Qed.

Lemma get_range_len bs off n r : get_range bs off n = Some r -> len r = n.
Proof.
  intros [H ->]%get_range_Some. unfold len in *. rewrite length_take, length_drop. lia.
Qed.

(** A range of a range. *)
Lemma get_range_range bs off n r off' n' :
  get_range bs off n = Some r -> (off' + n' <= n)%N -> get_range r off' n' = get_range bs (off + off') n'.
Proof.
  intros Hr Hle. pose proof (get_range_len _ _ _ _ Hr) as Hl. apply get_range_Some in Hr as [H ->].
  unfold get_range. rewrite Hl. rewrite !(proj2 (N.leb_le _ _)) by lia. f_equal.
  rewrite skipn_firstn_comm, take_take, drop_drop. rewrite Nat.min_l by lia. by rewrite N2Nat.inj_add.
Qed.

Lemma read_u32_at_Ok bs off v :
  read_u32_at bs off = Ok v <-> exists r, get_range bs off 4 = Some r /\ v = le_value r.
Proof.
  unfold read_u32_at. rewrite bind_Ok. setoid_rewrite ok_or_Ok. naive_solver.
Qed.

Lemma read_u16_at_Ok bs off v :
  read_u16_at bs off = Ok v <-> exists r, get_range bs off 2 = Some r /\ v = le_value r.
Proof.
  unfold read_u16_at. rewrite bind_Ok. setoid_rewrite ok_or_Ok. naive_solver.
Qed.

Lemma read_page_number_Ok bs off used p :
  read_page_number bs off used = Ok p <-> read_u32_at bs off = Ok p /\ (0 < p < used)%N.
Proof.
  unfold read_page_number. split.
  - intros H. inv_ok. match goal with E : _ || _ = false |- _ => apply orb_false_iff in E as [E1 E2] end.
    apply N.eqb_neq in E1. apply N.leb_gt in E2. split; [done|lia].
  - intros [-> Hp]. cbn. rewrite (proj2 (N.eqb_neq _ _)), (proj2 (N.leb_gt _ _)) by lia. done.
Qed.

Lemma pages_needed_spec n p k :
  (0 < p)%N -> pages_needed n p = Ok k -> (n <= k * p)%N /\ (k * p < n + p)%N.
Proof.
  intros Hp H. unfold pages_needed, saturating_sub in H. inv_ok.
  match goal with E : checked_add _ _ = Some _ |- _ => apply checked_add_Some in E as [-> _] end.
  pose proof (N.div_mod (n + (p - 1)) p ltac:(lia)) as E.
  pose proof (N.mod_lt (n + (p - 1)) p ltac:(lia)) as Hm. revert E Hm.
  generalize ((n + (p - 1)) mod p)%N ((n + (p - 1)) / p)%N. intros r q E Hm. nia.
Qed.

(** * Pages of the file *)

Section pages.
Context (file : bytes) (p used : N) (Hp : (0 < p)%N) (Hused : (used * p <= len file)%N)
  (Hu64 : (len file <= u64_max)%N).

Definition page_of (page : N) : bytes := take (N.to_nat p) (drop (N.to_nat (page * p)) file).

(** The first [n] bytes of what the pages hold, one after the other. *)
Definition stored (pages : list N) (n : N) : bytes := take (N.to_nat n) (concat (map page_of pages)).

Definition in_file (pages : list N) : Prop := Forall (fun page => (page < used)%N) pages.

Lemma page_fits page : (page < used)%N -> (page * p + p <= len file)%N.
Proof. intros H. nia. Qed.

Lemma len_page_of page : (page < used)%N -> len (page_of page) = p.
Proof.
  intros H%page_fits. unfold page_of, len in *. rewrite length_take, length_drop. lia.
Qed.

Lemma len_pages pages : in_file pages -> len (concat (map page_of pages)) = (len pages * p)%N.
Proof.
  induction 1 as [|page pages Hpage _ IH]; [done|]. cbn [map concat].
  rewrite len_app, len_page_of, IH, len_cons by done. lia.
Qed.

Lemma read_page page n :
  (page < used)%N -> (n <= p)%N ->
  read_file_bytes file (page * p) n (len file) = Ok (take (N.to_nat n) (page_of page)).
Proof.
  intros H%page_fits Hn. unfold read_file_bytes.
  rewrite (proj2 (checked_add_Some _ _ _)) by (split; [done|lia]). cbn [ok_or mbind result_bind].
  unfold fail_if. rewrite (proj2 (N.ltb_ge _ _)) by lia. cbn [mbind result_bind].
  unfold get_range. rewrite (proj2 (N.leb_le _ _)) by lia. cbn [ok_or]. f_equal.
  unfold page_of. rewrite take_take. f_equal. lia.
Qed.

Lemma read_pages_loop_spec pages n output :
  in_file pages -> (len output + len pages * p < n + p)%N -> (n <= len output + len pages * p)%N ->
  (pages <> [] -> len output <= n)%N ->
  read_pages_loop file pages p n (len file) output
    = Ok (output ++ take (N.to_nat (n - len output)) (concat (map page_of pages))).
Proof.
  intros Hf. revert output. induction Hf as [|page pages Hpage Hf IH]; intros output H1 H2 H3; cbn [read_pages_loop].
  - cbn. by rewrite take_nil, app_nil_r.
  - rewrite len_cons in *. specialize (H3 ltac:(done)).
    pose proof (page_fits page Hpage). unfold saturating_sub.
    rewrite (proj2 (checked_mul_Some _ _ _)) by (split; [done|lia]). cbn [ok_or mbind result_bind].
    rewrite read_page by (done || lia). cbn [mbind result_bind].
    assert (Hl : len (take (N.to_nat (N.min (n - len output) p)) (page_of page)) = N.min (n - len output) p).
    { pose proof (len_page_of page Hpage) as E. unfold len in *. rewrite length_take. lia. }
    rewrite IH; rewrite ?len_app, ?Hl; [|nia..|intros Hne].
    + rewrite <- app_assoc. do 2 f_equal. cbn [map concat]. rewrite take_app.
      pose proof (len_page_of page Hpage) as E. unfold len in *. f_equal.
      * destruct (decide (n - N.of_nat (length output) <= p)%N); [f_equal; lia|].
        rewrite !take_ge by lia. done.
      * f_equal. lia.
    + destruct pages; [done|]. rewrite len_cons in *. nia.
Qed.

Lemma read_pdb_pages_Ok pages n out :
  in_file pages ->
  read_pdb_pages file pages p n (len file) = Ok out -> out = stored pages n /\ len out = n.
Proof.
  intros Hf H. unfold read_pdb_pages in H. inv_ok.
  match goal with E : pages_needed _ _ = Ok ?k |- _ => rename k into req; pose proof (pages_needed_spec _ _ _ Hp E) as [Hn1 Hn2] end.
  match goal with E : (_ <? _)%N = false |- _ => apply N.ltb_ge in E; rename E into Hreq end.
  assert (Hf' : in_file (take (N.to_nat req) pages)) by (by apply Forall_take).
  assert (Hl : len (take (N.to_nat req) pages) = req) by (unfold len in *; rewrite length_take; lia).
  rewrite read_pages_loop_spec in H; rewrite ?len_nil, ?Hl in *; [|done|lia..|intros; lia].
  injection H as <-. cbn [app]. rewrite N.sub_0_r. unfold stored.
  rewrite <- (take_drop (N.to_nat req) pages) at 2. rewrite map_app, concat_app, take_app.
  pose proof (len_pages _ Hf') as Hc. rewrite Hl in Hc.
  replace (N.to_nat n - length (concat (map page_of (take (N.to_nat req) pages))))%nat with 0%nat
    by (unfold len in Hc; lia).
  cbn [take]. rewrite app_nil_r. split; [done|]. unfold len in *. rewrite length_take. lia.
Qed.
End pages.

Lemma push_each_Ok {A} (f : N -> checked A) i n xs :
  push_each f i n = Ok xs ->
  length xs = n /\ forall j x, xs !! j = Some x -> f (i + N.of_nat j)%N = Ok x.
Proof.
  revert i xs. induction n as [|n IH]; intros i xs H; cbn in H; inv_ok; [done|].
  match goal with E : push_each _ _ _ = Ok _ |- _ => apply IH in E as [<- Hf] end.
  split; [done|]. intros [|j] x; cbn.
  - intros [= <-]. by rewrite N.add_0_r.
  - intros Hx. rewrite <- (Hf j x Hx). f_equal. lia.
Qed.

Lemma push_pages_in_file (f : N -> checked N) i n xs used :
  (forall k x, f k = Ok x -> (x < used)%N) -> push_each f i n = Ok xs -> in_file used xs.
Proof.
  intros Hf [_ H]%push_each_Ok. apply Forall_lookup_2. intros j x Hx. eauto.
Qed.

(** What [parse_pdb_layout] accepts. *)
Lemma parse_pdb_layout_Ok header n layout :
  parse_pdb_layout header n = Ok layout ->
  read_u32_at header 32 = Ok (page_size layout) /\ read_u32_at header 40 = Ok (pages_used layout)
  /\ read_u32_at header 44 = Ok (directory_bytes layout)
  /\ get_range header 0 (len PDB_MAGIC) = Some PDB_MAGIC
  /\ is_power_of_two (page_size layout) = true /\ (256 <= page_size layout <= MAX_PDB_PAGE_BYTES)%N
  /\ (0 < pages_used layout)%N /\ (directory_bytes layout <= MAX_METADATA_READ_BYTES)%N
  /\ (pages_used layout * page_size layout <= n)%N /\ PdbLayout.file_bytes layout = n.
Proof.
  intros H. unfold parse_pdb_layout in H. inv_ok.
  repeat match goal with
  | E : _ || _ = false |- _ => apply orb_false_iff in E as [? ?]
  | E : negb _ = false |- _ => apply negb_false_iff in E
  | E : (_ <? _)%N = false |- _ => apply N.ltb_ge in E
  | E : (_ =? _)%N = false |- _ => apply N.eqb_neq in E
  | E : checked_mul _ _ = Some _ |- _ => apply checked_mul_Some in E as [-> _]
  | E : in_range _ _ _ = true |- _ => apply in_range_true in E
  | E : bool_decide _ = true |- _ => apply bool_decide_eq_true in E
  end.
  cbn. split_and!; try done; lia.
Qed.

Lemma read_file_bytes_Ok file off n fb out :
  read_file_bytes file off n fb = Ok out -> get_range file off n = Some out.
Proof. intros H. unfold read_file_bytes in H. by inv_ok. Qed.

Lemma read_u32_range file off n r off' :
  get_range file off n = Some r -> (off' + 4 <= n)%N -> read_u32_at r off' = read_u32_at file (off + off').
Proof. intros Hr Hle. unfold read_u32_at. by rewrite (get_range_range _ _ _ _ _ _ Hr). Qed.

Lemma read_u16_range file off n r off' :
  get_range file off n = Some r -> (off' + 2 <= n)%N -> read_u16_at r off' = read_u16_at file (off + off').
Proof. intros Hr Hle. unfold read_u16_at. by rewrite (get_range_range _ _ _ _ _ _ Hr). Qed.

(** A short piece of one page. *)
Lemma stored_one file p page n :
  (page * p + p <= len file)%N -> (n <= p)%N -> get_range file (page * p) n = Some (stored file p [page] n).
Proof.
  intros H Hn. apply get_range_Some. split; [lia|]. unfold stored, page_of. cbn [map concat].
  rewrite app_nil_r, take_take. f_equal. lia.
Qed.

Lemma first_page_in_file directory layout page :
  pdb_stream_first_page directory layout = Ok page -> (0 < page < pages_used layout)%N.
Proof.
  intros H. unfold pdb_stream_first_page in H. inv_ok.
  match goal with E : read_page_number _ _ _ = Ok _ |- _ => by apply read_page_number_Ok in E as [_ ?] end.
Qed.

(** * Properties *)

(** The stream directory is what the file stores.  When the layout is inside the file, a directory
    that is read consists of the bytes of pages inside the file: its pages are listed, in order, in
    the block map pages, which the header lists, and it is exactly [directory_bytes] long. *)
Theorem directory_is_stored file header layout directory :
  (0 < page_size layout)%N -> (pages_used layout * page_size layout <= len file <= u64_max)%N ->
  PdbLayout.file_bytes layout = len file ->
  read_pdb_directory file header layout = Ok directory ->
  exists block_map pages,
    in_file (pages_used layout) block_map /\ in_file (pages_used layout) pages
    /\ (forall j x, block_map !! j = Some x ->
          read_u32_at header (PDB_RAW_HEADER_BYTES + N.of_nat j * 4) = Ok x)
    /\ (forall j x, pages !! j = Some x ->
          read_u32_at (stored file (page_size layout) block_map (len pages * 4)) (N.of_nat j * 4) = Ok x)
    /\ directory = stored file (page_size layout) pages (directory_bytes layout)
    /\ len directory = directory_bytes layout.
Proof.
  intros Hp [Hused Hu] Hfb H. unfold read_pdb_directory in H. rewrite Hfb in H. inv_ok.
  pose proof (push_each_Ok _ _ _ _ H6) as [Hl1 G1]. pose proof (push_each_Ok _ _ _ _ H8) as [Hl2 G2].
  apply (push_pages_in_file _ _ _ _ (pages_used layout)) in H6;
    [|intros k x Hx; inv_ok; match goal with E : read_page_number _ _ _ = Ok _ |- _ =>
        apply read_page_number_Ok in E end; lia].
  apply (push_pages_in_file _ _ _ _ (pages_used layout)) in H8;
    [|intros k x Hx; inv_ok; match goal with E : read_page_number _ _ _ = Ok _ |- _ =>
        apply read_page_number_Ok in E end; lia].
  rename H7 into R1, a5 into block_map, a7 into pages.
  apply (read_pdb_pages_Ok _ _ (pages_used layout)) in R1 as [-> _], H as [-> Hlen]; try done.
  match goal with E : checked_mul ?k 4%N = Some _, E' : pages_needed (directory_bytes _) _ = Ok ?k |- _ =>
    apply checked_mul_Some in E as [-> _] end.
  exists block_map, pages. split_and!; try done.
  - intros j x Hx. apply G1 in Hx. rewrite N.add_0_l in Hx. inv_ok.
    match goal with E : read_page_number _ _ _ = Ok _ |- _ => apply read_page_number_Ok in E as [E _];
      rewrite <- E end. f_equal.
    repeat match goal with E : checked_mul _ _ = Some _ |- _ => apply checked_mul_Some in E as [-> _]
      | E : checked_add _ _ = Some _ |- _ => apply checked_add_Some in E as [-> _] end. done.
  - intros j x Hx. apply G2 in Hx. rewrite N.add_0_l in Hx. inv_ok.
    match goal with E : read_page_number _ _ _ = Ok _ |- _ => apply read_page_number_Ok in E as [E _];
      rewrite <- E end.
    match goal with E : checked_mul (N.of_nat j) _ = Some _ |- _ => apply checked_mul_Some in E as [-> _] end.
    do 2 f_equal. unfold len. lia.
Qed.

(** C39: the debug header comes from the debug stream's first page, inside the file.  The machine and
    the age are the little-endian fields at offsets 58 and 8 of a page whose number is below the
    page count, and all pages the header describes lie in the file. *)
Theorem debug_header_in_file file machine age :
  (len file <= u64_max)%N ->
  read_pdb_debug_header file = Ok (machine, age) ->
  exists page_size pages_used page,
    read_u32_at file 32 = Ok page_size /\ read_u32_at file 40 = Ok pages_used
    /\ is_power_of_two page_size = true /\ (256 <= page_size <= MAX_PDB_PAGE_BYTES)%N
    /\ (0 < page < pages_used)%N /\ (pages_used * page_size <= len file)%N
    /\ read_u32_at file (page * page_size) = Ok u32_max
    /\ read_u32_at file (page * page_size + 8) = Ok age
    /\ read_u16_at file (page * page_size + 58) = Ok machine.
Proof.
  intros Hu H. unfold read_pdb_debug_header in H. inv_ok.
  apply read_file_bytes_Ok in H0. apply first_page_in_file in H3.
  apply parse_pdb_layout_Ok in H1 as (E1 & E2 & _ & _ & Hpow & Hp & _ & _ & Hused & Hfb).
  rewrite Hfb in H4. apply (read_pdb_pages_Ok _ _ (pages_used a0)) in H4 as [-> _];
    [|lia|lia|lia|by constructor; [lia|]].
  assert (Hr : get_range file (a2 * page_size a0) PDB_DBI_HEADER_BYTES
    = Some (stored file (page_size a0) [a2] PDB_DBI_HEADER_BYTES))
    by (apply stored_one; unfold PDB_DBI_HEADER_BYTES; nia).
  rewrite (read_u32_range _ _ _ _ _ H0) in E1 by (by vm_compute).
  rewrite (read_u32_range _ _ _ _ _ H0) in E2 by (by vm_compute).
  rewrite (read_u32_range _ _ _ _ _ Hr) in H5 by (by vm_compute).
  rewrite (read_u32_range _ _ _ _ _ Hr) in H7 by (by vm_compute).
  rewrite (read_u16_range _ _ _ _ _ Hr) in H8 by (by vm_compute).
  apply negb_false_iff, N.eqb_eq in H6 as ->. rewrite N.add_0_r in H5. rewrite N.add_0_l in E1. rewrite N.add_0_l in E2.
  exists (page_size a0), (pages_used a0), a2. split_and!; done || lia.
Qed.

(** A sample: 256-byte pages, the block map on page 1, the directory on page 2 and the debug stream
    on page 3. *)
Definition word (n : N) : bytes := [byte_of (n mod 256); byte_of (n / 256); Byte.x00; Byte.x00].
Definition fill (n : nat) (bs : bytes) : bytes := bs ++ replicate (n - length bs) Byte.x00.
Definition sample_pdb : bytes :=
  fill 4352 (
    fill 256 (PDB_MAGIC ++ word 256 ++ word 0 ++ word 17 ++ word 24 ++ word 0 ++ word 1)
    ++ fill 256 (word 2)
    ++ fill 256 (word 4 ++ word 0 ++ word 0 ++ word 0 ++ word 64 ++ word 3)
    ++ fill 256 (replicate 4 Byte.xff ++ word 0 ++ word 7 ++ replicate 46 Byte.x00 ++ word 332)).

Lemma debug_header_in_file_witness :
  exists page_size pages_used page,
    read_u32_at sample_pdb 32 = Ok page_size /\ read_u32_at sample_pdb 40 = Ok pages_used
    /\ is_power_of_two page_size = true /\ (256 <= page_size <= MAX_PDB_PAGE_BYTES)%N
    /\ (0 < page < pages_used)%N /\ (pages_used * page_size <= len sample_pdb)%N
    /\ read_u32_at sample_pdb (page * page_size) = Ok u32_max
    /\ read_u32_at sample_pdb (page * page_size + 8) = Ok 7%N
    /\ read_u16_at sample_pdb (page * page_size + 58) = Ok 332%N.
Proof.
  apply (debug_header_in_file sample_pdb 332 7); [vm_compute; discriminate|vm_compute; reflexivity].
Defined.

Definition sample_layout : PdbLayout.t :=
  {| page_size := 256; pages_used := 17; directory_bytes := 24; file_bytes := 4352 |}.

Lemma directory_is_stored_witness :
  exists block_map pages,
    in_file 17 block_map /\ in_file 17 pages
    /\ (forall j x, block_map !! j = Some x ->
          read_u32_at (take 4096 sample_pdb) (PDB_RAW_HEADER_BYTES + N.of_nat j * 4) = Ok x)
    /\ (forall j x, pages !! j = Some x ->
          read_u32_at (stored sample_pdb 256 block_map (len pages * 4)) (N.of_nat j * 4) = Ok x)
    /\ fill 24 (word 4 ++ word 0 ++ word 0 ++ word 0 ++ word 64 ++ word 3) = stored sample_pdb 256 pages 24
    /\ len (fill 24 (word 4 ++ word 0 ++ word 0 ++ word 0 ++ word 64 ++ word 3)) = 24%N.
Proof.
  apply (directory_is_stored sample_pdb (take 4096 sample_pdb) sample_layout).
  - vm_compute. reflexivity.
  - vm_compute. split; discriminate.
  - vm_compute. reflexivity.
  - vm_compute. reflexivity.
Defined.
