(* ===== verification/Artifacts.v ===== *)
(** The artifact scan of [crates/symbols/src/lib.rs]: discovery under limits, parsing of PE files and
    PDBs into identities, and the matching of executables with their debug files.  The file system
    and the [object] and [pdb] crates are interfaces. *)

From stdpp Require Import sorting.
From S2P Require Import Prelude Text LogTail Pdb.

Definition ARTIFACT_SCAN_SCHEMA_VERSION : N := 1.
Definition MAX_DEBUG_DIRECTORY_BYTES : N := 64 * 1024.
Definition MAX_CODEVIEW_BYTES : N := 64 * 1024.
Definition IMAGE_DEBUG_DIRECTORY_BYTES : N := 28.
Definition IMAGE_DEBUG_TYPE_CODEVIEW_VALUE : N := 2.

Inductive ArtifactType : Type := PeExecutable | PeDynamicLibrary | PdbFile.
Inductive Architecture : Type := X86 | X86_64 | Arm64.
Inductive MatchState : Type := Matched | MissingCompanion | Mismatched | Invalid.

#[export] Instance ArtifactType_eq_dec : EqDecision ArtifactType.
Proof. solve_decision. Defined.
#[export] Instance Architecture_eq_dec : EqDecision Architecture.
Proof. solve_decision. Defined.
#[export] Instance MatchState_eq_dec : EqDecision MatchState.
Proof. solve_decision. Defined.

Module ArtifactRecord.
Record t : Type := Mk {
  path : text; module : text; artifact_type : ArtifactType; architecture : option Architecture;
  size : option N; debug_id : option text; code_id : option text; match_state : MatchState;
  matches : list text; error : option ArtifactErrorCode }.

Definition set_match (state : MatchState) (ms : list text) (r : t) : t :=
  {| path := path r; module := module r; artifact_type := artifact_type r;
     architecture := architecture r; size := size r; debug_id := debug_id r; code_id := code_id r;
     match_state := state; matches := ms; error := error r |}.
Definition set_place (p m : text) (r : t) : t :=
  {| path := p; module := m; artifact_type := artifact_type r;
     architecture := architecture r; size := size r; debug_id := debug_id r; code_id := code_id r;
     match_state := match_state r; matches := matches r; error := error r |}.
End ArtifactRecord.

Module ArtifactScan.
Record t : Type := Mk { schema_version : N; artifacts : list ArtifactRecord.t }.
End ArtifactScan.

Module ArtifactScanLimits.
Record t : Type := Mk { entries : N; depth : N; files : N; file_bytes : N; total_bytes : N }.

Definition unlimited : t :=
  {| entries := usize_max; depth := usize_max; files := usize_max; file_bytes := u64_max;
     total_bytes := u64_max |}.
End ArtifactScanLimits.

Inductive ScanError : Type :=
| InspectRoot | ReadDirectory | TooManyEntries | DirectoryDepthExceeded | TooManyFiles
| ArtifactTooLarge | TotalSizeExceeded.

(** The messages of [ScanError::fmt]. *)
Definition scan_error_message (e : ScanError) : text :=
  match e with
  | InspectRoot => txt "failed to inspect artifact path"
  | ReadDirectory => txt "failed to read artifact directory"
  | TooManyEntries => txt "artifact tree entry limit exceeded"
  | DirectoryDepthExceeded => txt "artifact directory depth limit exceeded"
  | TooManyFiles => txt "artifact file count limit exceeded"
  | ArtifactTooLarge => txt "artifact file size limit exceeded"
  | TotalSizeExceeded => txt "artifact total size limit exceeded"
  end.

#[export] Instance ScanError_eq_dec : EqDecision ScanError.
Proof. solve_decision. Defined.

Module Identity.
Record t : Type := Mk { guid : bytes; age : N; original_age : option N }.
End Identity.

Module ParsedArtifact.
Record t : Type := Mk {
  record : ArtifactRecord.t; identity : option Identity.t; expected_pdb_name : option text }.

Definition set_match (state : MatchState) (ms : list text) (a : t) : t :=
  {| record := ArtifactRecord.set_match state ms (record a); identity := identity a;
     expected_pdb_name := expected_pdb_name a |}.
Definition set_place (p m : text) (a : t) : t :=
  {| record := ArtifactRecord.set_place p m (record a); identity := identity a;
     expected_pdb_name := expected_pdb_name a |}.
End ParsedArtifact.

Module PeCodeView.
Record t : Type := Mk { guid : bytes; age : N; path : bytes }.
End PeCodeView.

(** * Paths: the components of a Unix path, as bytes *)

Abbreviation path := (list bytes).

(** [Path::extension] of the last component, on its bytes. *)
Definition dot : Byte.byte := Byte.x2e.
Fixpoint rsplit_dot (name : bytes) : option (bytes * bytes) :=
  match name with
  | [] => None
  | b :: name =>
      match rsplit_dot name with
      | Some (before, after) => Some (b :: before, after)
      | None => if decide (b = dot) then Some ([], name) else None
      end
  end.
Definition extension (p : path) : option bytes :=
  name ← last p;
  if decide (name = [dot; dot]) then None
  else match rsplit_dot name with
       | Some (_ :: _, after) => Some after
       | _ => None
       end.
Definition extension_is (p : path) (e : string) : bool :=
  match extension p ≫= from_utf8 with
  | Some x => eq_ignore_ascii_case x (txt e)
  | None => false
  end.

(** [supported_extension] and [inferred_artifact_type]. *)
Definition supported_extension (p : path) : bool :=
  extension_is p "exe" || extension_is p "dll" || extension_is p "pdb".
Definition inferred_artifact_type (p : path) : ArtifactType :=
  if extension_is p "pdb" then PdbFile
  else if extension_is p "dll" then PeDynamicLibrary
  else PeExecutable.

(** [normalize_path] and [file_name]. *)
Definition normalize_path (p : path) : text := join (txt "/") (map from_utf8_lossy p).
Definition file_name (p : path) : text := from_utf8_lossy (default [] (last p)).

(** * Identities *)

(** [canonical_pe_guid]: the first three fields are stored little-endian. *)
Definition canonical_pe_guid (raw : bytes) : bytes :=
  map (fun i => nth i raw Byte.x00) [3; 2; 1; 0; 5; 4; 7; 6; 8; 9; 10; 11; 12; 13; 14; 15]%nat.

(** [format_debug_id]. *)
Definition slice (guid : bytes) (i n : nat) : bytes := take n (drop i guid).
Definition format_debug_id (guid : bytes) (age : N) : text :=
  hex2s true (slice guid 0 4) ++ txt "-" ++ hex2s true (slice guid 4 2) ++ txt "-" ++ hex2s true (slice guid 6 2)
  ++ txt "-" ++ hex2s true (slice guid 8 2) ++ txt "-" ++ hex2s true (slice guid 10 6) ++ txt "-"
  ++ fmt_hex true age.

(** [code_view_file_name]. *)
Definition code_view_file_name (p : bytes) : text :=
  default [] (head (rsplit_slash (from_utf8_lossy p))).

(** * PE files *)

(** What the program uses of the [object] crate.  Its parsers read the file through a bounded
    reader, given here as a function of offset and size. *)
Inductive PeKind : Type := Pe32 | Pe64 | OtherKind.
Inductive ObjectArchitecture : Type := I386 | ObjX86_64 | Aarch64 | OtherArchitecture.
Inductive ObjectKind : Type := Dynamic | Executable | OtherObject.

(** The fields of a parsed PE file the program reads; the debug directory is absent, or its file
    range may be unavailable. *)
Module PeFile.
Record t : Type := Mk {
  architecture : ObjectArchitecture; kind : ObjectKind; time_date_stamp : N; size_of_image : N;
  debug_directory : option (option (N * N)) }.
End PeFile.

Abbreviation reader := (N -> N -> option bytes).

Class ObjectCrate : Type := {
  read_cache : bytes -> reader;
  parse_kind : reader -> option PeKind;
  parse_pe_file : PeKind -> reader -> option PeFile.t;
}.

(** [BoundedPeReader::read_bytes_at]. *)
Definition bounded_read (inner : reader) : reader := fun offset size =>
  if (MAX_METADATA_READ_BYTES <? size)%N then None else inner offset size.

(** [object_architecture]. *)
Definition object_architecture (a : ObjectArchitecture) : checked Architecture :=
  match a with
  | I386 => Ok X86
  | ObjX86_64 => Ok X86_64
  | Aarch64 => Ok Arm64
  | OtherArchitecture => Err UnsupportedArchitecture
  end.

(** [chunks_exact]; [fuel] bounds the number of chunks. *)
Fixpoint chunks_exact (fuel : nat) (k : N) (bs : bytes) : list bytes :=
  match fuel with
  | O => []
  | S fuel =>
      match get_range bs 0 k with
      | Some chunk => chunk :: chunks_exact fuel k (drop (N.to_nat k) bs)
      | None => []
      end
  end.

Definition RSDS : bytes := byt "RSDS".

(** The CodeView record at a debug directory entry, if it is one: [Ok None] is [continue]. *)
Definition code_view_at (data : reader) (entry : bytes) : checked (option PeCodeView.t) :=
  kind ← read_u32_at entry 12;
  if negb (kind =? IMAGE_DEBUG_TYPE_CODEVIEW_VALUE)%N then Ok None
  else
    size ← read_u32_at entry 16;
    offset ← read_u32_at entry 24;
    _ ← fail_if (MAX_CODEVIEW_BYTES <? size)%N Malformed;
    code_view ← ok_or Malformed (data offset size);
    if negb (bool_decide (get_range code_view 0 4 = Some RSDS)) || (len code_view <? 25)%N then Ok None
    else
      guid ← ok_or Malformed (get_range code_view 4 16);
      age ← read_u32_at code_view 20;
      let rest := drop 24 code_view in
      path ← ok_or Malformed (n ← find_byte Byte.x00 rest; Some (take n rest));
      Ok (Some {| PeCodeView.guid := guid; PeCodeView.age := age; PeCodeView.path := path |}).

(** The loop of [read_pe_code_view]. *)
Fixpoint first_code_view (data : reader) (entries : list bytes) : checked (option PeCodeView.t) :=
  match entries with
  | [] => Ok None
  | entry :: entries =>
      found ← code_view_at data entry;
      match found with Some v => Ok (Some v) | None => first_code_view data entries end
  end.

(** [read_pe_code_view]. *)
Definition read_pe_code_view (data : reader) (file : PeFile.t) : checked (option PeCodeView.t) :=
  match PeFile.debug_directory file with
  | None => Ok None
  | Some None => Err Malformed
  | Some (Some (offset, size)) =>
      _ ← fail_if ((MAX_DEBUG_DIRECTORY_BYTES <? size)%N
                   || negb (size mod IMAGE_DEBUG_DIRECTORY_BYTES =? 0)%N) Malformed;
      bs ← ok_or Malformed (data offset size);
      first_code_view data (chunks_exact (length bs) IMAGE_DEBUG_DIRECTORY_BYTES bs)
  end.

Definition pe_artifact_type (k : ObjectKind) : checked ArtifactType :=
  match k with
  | Dynamic => Ok PeDynamicLibrary
  | Executable => Ok PeExecutable
  | OtherObject => Err UnsupportedFormat
  end.

(** [{timestamp:08X}{image_size:X}]. *)
Definition format_code_id (timestamp image_size : N) : text :=
  pad_left 8 (fmt_hex true timestamp) ++ fmt_hex true image_size.

(** A record as the parsers build it; the path and the module are filled in by [parse_artifact]. *)
Definition new_record (ty : ArtifactType) (arch : Architecture) (size : option N) (debug_id : text)
    (code_id : option text) : ArtifactRecord.t :=
  {| ArtifactRecord.path := []; ArtifactRecord.module := []; ArtifactRecord.artifact_type := ty;
     ArtifactRecord.architecture := Some arch; ArtifactRecord.size := size;
     ArtifactRecord.debug_id := Some debug_id; ArtifactRecord.code_id := code_id;
     ArtifactRecord.match_state := MissingCompanion; ArtifactRecord.matches := [];
     ArtifactRecord.error := None |}.

(** What the program uses of the [pdb] crate: opening a source and reading its information stream
    (GUID and age), and the machine types. *)
Inductive MachineType : Type := MachineX86 | MachineAmd64 | MachineArm64 | OtherMachine.
Class PdbCrate : Type := {
  pdb_information : (list (N * N) -> option bytes) -> option (bytes * N);
  machine_type : N -> MachineType;
}.
Section parse.
Context {Obj : ObjectCrate}.

(** [parse_pe_kind] and [parse_pe]. *)
Definition parse_pe_kind (k : PeKind) (data : reader) (size : option N) : checked ParsedArtifact.t :=
  file ← ok_or Malformed (parse_pe_file k data);
  architecture ← object_architecture (PeFile.architecture file);
  view ← read_pe_code_view data file;
  code_view ← ok_or MissingDebugIdentity view;
  let guid := canonical_pe_guid (PeCodeView.guid code_view) in
  let age := PeCodeView.age code_view in
  artifact_type ← pe_artifact_type (PeFile.kind file);
  Ok {| ParsedArtifact.record := new_record artifact_type architecture size (format_debug_id guid age)
          (Some (format_code_id (PeFile.time_date_stamp file) (PeFile.size_of_image file)));
        ParsedArtifact.identity :=
          Some {| Identity.guid := guid; Identity.age := age; Identity.original_age := None |};
        ParsedArtifact.expected_pdb_name := Some (code_view_file_name (PeCodeView.path code_view)) |}.
Definition parse_pe (file : bytes) (size : option N) : checked ParsedArtifact.t :=
  let data := bounded_read (read_cache file) in
  k ← ok_or Malformed (parse_kind data);
  match k with
  | Pe32 | Pe64 => parse_pe_kind k data size
  | OtherKind => Err UnsupportedFormat
  end.

(** [BoundedPdbSource::view]: slices of the file, as one buffer of at most
    [MAX_METADATA_READ_BYTES]. *)
Fixpoint slices_size (total : N) (slices : list (N * N)) : option N :=
  match slices with
  | [] => Some total
  | (_, size) :: slices =>
      total ← checked_add total size;
      if (total <=? MAX_METADATA_READ_BYTES)%N then slices_size total slices else None
  end.
Fixpoint read_slices (file : bytes) (slices : list (N * N)) : option bytes :=
  match slices with
  | [] => Some []
  | (offset, size) :: slices =>
      chunk ← get_range file offset size; rest ← read_slices file slices; Some (chunk ++ rest)
  end.
Definition pdb_view (file : bytes) (slices : list (N * N)) : option bytes :=
  _ ← slices_size 0 slices; read_slices file slices.

Context {P : PdbCrate}.

(** [pdb_architecture]. *)
Definition pdb_architecture (m : MachineType) : checked Architecture :=
  match m with
  | MachineX86 => Ok X86
  | MachineAmd64 => Ok X86_64
  | MachineArm64 => Ok Arm64
  | OtherMachine => Err UnsupportedArchitecture
  end.

(** [parse_pdb]. *)
Definition parse_pdb (file : bytes) (size : option N) : checked ParsedArtifact.t :=
  '(machine, original_age) ← read_pdb_debug_header file;
  '(guid, age) ← ok_or Malformed (pdb_information (pdb_view file));
  architecture ← pdb_architecture (machine_type machine);
  Ok {| ParsedArtifact.record := new_record PdbFile architecture size (format_debug_id guid age) None;
        ParsedArtifact.identity :=
          Some {| Identity.guid := guid; Identity.age := age; Identity.original_age := Some original_age |};
        ParsedArtifact.expected_pdb_name := None |}.
End parse.

(** * The file system *)

Inductive FileType : Type := IsFile | IsDir | IsOther.

(** A directory entry: its name, its type and its size, either of which may fail to be read. *)
Module DirEntry.
Record t : Type := Mk { name : bytes; file_type : option FileType; size : option N }.
End DirEntry.

Class FileSystem : Type := {
  symlink_metadata : path -> option (FileType * N);
  metadata_len : path -> option N;
  open_file : path -> option bytes;
  read_dir : path -> option (list (option DirEntry.t));
  canonicalize : path -> option path;
}.

(** What discovery accumulates: the files with their relative paths, and the bytes they have. *)
Module Discovered.
Record t : Type := Mk { files : list (path * text); total_bytes : N }.
Definition empty : t := {| files := []; total_bytes := 0 |}.
End Discovered.

Section scan.
Context {Obj : ObjectCrate} {P : PdbCrate} {F : FileSystem}.

(** [parse_artifact]. *)
Definition parse_artifact (p : path) (relative : text) : ParsedArtifact.t :=
  let artifact_type := inferred_artifact_type p in
  let module := file_name p in
  let size := metadata_len p in
  let parsed :=
    match open_file p with
    | Some file => if decide (artifact_type = PdbFile) then parse_pdb file size else parse_pe file size
    | None => Err Unreadable
    end in
  match parsed with
  | Ok artifact => ParsedArtifact.set_place relative module artifact
  | Err code =>
      {| ParsedArtifact.record :=
           {| ArtifactRecord.path := relative; ArtifactRecord.module := module;
              ArtifactRecord.artifact_type := artifact_type; ArtifactRecord.architecture := None;
              ArtifactRecord.size := size; ArtifactRecord.debug_id := None;
              ArtifactRecord.code_id := None; ArtifactRecord.match_state := Invalid;
              ArtifactRecord.matches := []; ArtifactRecord.error := Some code |};
         ParsedArtifact.identity := None; ParsedArtifact.expected_pdb_name := None |}
  end.

Section limits.
Context (limits : ArtifactScanLimits.t).

(** [add_file]. *)
Definition add_file (p : path) (relative : text) (size : N) (d : Discovered.t) : result ScanError Discovered.t :=
  _ ← fail_if (ArtifactScanLimits.files limits <=? len (Discovered.files d))%N TooManyFiles;
  _ ← fail_if (ArtifactScanLimits.file_bytes limits <? size)%N ArtifactTooLarge;
  total ← ok_or TotalSizeExceeded
    (total ← checked_add (Discovered.total_bytes d) size;
     if (total <=? ArtifactScanLimits.total_bytes limits)%N then Some total else None);
  Ok {| Discovered.files := Discovered.files d ++ [(p, relative)]; Discovered.total_bytes := total |}.

(** The state of [discover_files]: the directories still to visit (the top of the stack first) with
    their depths, the entries seen, and what was discovered. *)
Definition discovery : Type := list (path * N) * N * Discovered.t.

(** One directory entry. *)
Definition discover_entry (root relative : path) (depth : N) (entry : option DirEntry.t)
    (s : discovery) : result ScanError discovery :=
  let '(directories, entries_seen, d) := s in
  entries_seen ← ok_or TooManyEntries
    (n ← checked_add entries_seen 1;
     if (n <=? ArtifactScanLimits.entries limits)%N then Some n else None);
  entry ← ok_or ReadDirectory entry;
  file_type ← ok_or ReadDirectory (DirEntry.file_type entry);
  let child_relative := relative ++ [DirEntry.name entry] in
  match file_type with
  | IsDir => Ok ((child_relative, saturating_add depth 1) :: directories, entries_seen, d)
  | IsFile =>
      if supported_extension child_relative then
        size ← ok_or ReadDirectory (DirEntry.size entry);
        d ← add_file (root ++ child_relative) (normalize_path child_relative) size d;
        Ok (directories, entries_seen, d)
      else Ok (directories, entries_seen, d)
  | IsOther => Ok (directories, entries_seen, d)
  end.
Fixpoint discover_entries (root relative : path) (depth : N) (entries : list (option DirEntry.t))
    (s : discovery) : result ScanError discovery :=
  match entries with
  | [] => Ok s
  | entry :: entries =>
      s ← discover_entry root relative depth entry s; discover_entries root relative depth entries s
  end.

(** The loop of [discover_files]; it visits at most [fuel] directories, and [None] says that more
    were left. *)
Fixpoint discover_loop (fuel : nat) (root : path) (s : discovery) : option (result ScanError Discovered.t) :=
  match s with
  | ([], _, d) => Some (Ok d)
  | ((relative, depth) :: directories, entries_seen, d) =>
      match fuel with
      | O => None
      | S fuel =>
          if (ArtifactScanLimits.depth limits <? depth)%N then Some (Err DirectoryDepthExceeded)
          else match read_dir (root ++ relative) with
               | None => Some (Err ReadDirectory)
               | Some entries =>
                   match discover_entries root relative depth entries (directories, entries_seen, d) with
                   | Ok s => discover_loop fuel root s
                   | Err e => Some (Err e)
                   end
               end
      end
  end.
Definition discover_files (fuel : nat) (root : path) (d : Discovered.t) :
    option (result ScanError Discovered.t) :=
  discover_loop fuel root ([([], 0%N)], 0%N, d).
End limits.

(** * Matching *)

Definition is_pe (t : ArtifactType) : bool :=
  match t with PeExecutable | PeDynamicLibrary => true | PdbFile => false end.
Definition type_of (a : ParsedArtifact.t) : ArtifactType := ArtifactRecord.artifact_type (ParsedArtifact.record a).
Definition state_of (a : ParsedArtifact.t) : MatchState := ArtifactRecord.match_state (ParsedArtifact.record a).
Definition path_of (a : ParsedArtifact.t) : text := ArtifactRecord.path (ParsedArtifact.record a).
Definition module_of (a : ParsedArtifact.t) : text := ArtifactRecord.module (ParsedArtifact.record a).

(** The part of [compatible] after the two sides are told apart. *)
Definition compatible_pair (pe pdb : ParsedArtifact.t) : bool :=
  match ParsedArtifact.identity pe, ParsedArtifact.identity pdb with
  | Some pe_identity, Some pdb_identity =>
      bool_decide (ArtifactRecord.architecture (ParsedArtifact.record pe)
                   = ArtifactRecord.architecture (ParsedArtifact.record pdb))
      && bool_decide (Identity.guid pe_identity = Identity.guid pdb_identity)
      && (Identity.age pe_identity <=? Identity.age pdb_identity)%N
      && match Identity.original_age pdb_identity with
         | Some age => (age =? Identity.age pe_identity)%N
         | None => true
         end
  | _, _ => false
  end.

(** [compatible]. *)
Definition compatible (left right : ParsedArtifact.t) : bool :=
  match is_pe (type_of left), is_pe (type_of right) with
  | true, false => compatible_pair left right
  | false, true => compatible_pair right left
  | _, _ => false
  end.

Definition names (pe pdb : ParsedArtifact.t) : bool :=
  match ParsedArtifact.expected_pdb_name pe with
  | Some name => eq_ignore_ascii_case name (module_of pdb)
  | None => false
  end.

(** [has_named_mismatch]. *)
Definition has_named_mismatch (index : nat) (artifact : ParsedArtifact.t)
    (artifacts : list ParsedArtifact.t) : bool :=
  existsb (fun '(other_index, other) =>
    if bool_decide (index = other_index) || bool_decide (state_of other = Invalid) then false
    else match is_pe (type_of artifact), is_pe (type_of other) with
         | true, false => names artifact other
         | false, true => names other artifact
         | _, _ => false
         end) (zip (seq 0 (length artifacts)) artifacts).

(** The companions of the artifact at [left]. *)
Definition companions (left : nat) (artifact : ParsedArtifact.t) (artifacts : list ParsedArtifact.t) :
    list text :=
  sort text_leb (map (fun e => path_of e.2)
    (filter (fun e => negb (bool_decide (left = e.1)) && compatible artifact e.2 = true)
       (zip (seq 0 (length artifacts)) artifacts))).

(** One iteration of the loop of [match_artifacts]. *)
Definition match_one (artifacts : list ParsedArtifact.t) (left : nat) : list ParsedArtifact.t :=
  match artifacts !! left with
  | Some artifact =>
      if decide (state_of artifact = Invalid) then artifacts
      else
        let matches := companions left artifact artifacts in
        let state := if decide (matches = []) then
                       if has_named_mismatch left artifact artifacts then Mismatched else MissingCompanion
                     else Matched in
        <[left := ParsedArtifact.set_match state matches artifact]> artifacts
  | None => artifacts
  end.
Definition match_artifacts (artifacts : list ParsedArtifact.t) : list ParsedArtifact.t :=
  foldl match_one artifacts (seq 0 (length artifacts)).

(** [scan_artifacts_with_limits]; [fuel] is that of [discover_files]. *)
Definition scan_artifacts_with_limits (fuel : nat) (root : path) (limits : ArtifactScanLimits.t) :
    option (result ScanError ArtifactScan.t) :=
  let finish d :=
    let files := sort (fun a b => text_leb a.2 b.2) (Discovered.files d) in
    let artifacts := match_artifacts (map (fun '(p, relative) => parse_artifact p relative) files) in
    {| ArtifactScan.schema_version := ARTIFACT_SCAN_SCHEMA_VERSION;
       ArtifactScan.artifacts := map ParsedArtifact.record artifacts |} in
  match symlink_metadata root with
  | None => Some (Err InspectRoot)
  | Some (IsFile, size) =>
      Some (if supported_extension root
            then finish <$> add_file limits root (file_name root) size Discovered.empty
            else Ok (finish Discovered.empty))
  | Some (IsDir, _) => fmap (M := result ScanError) finish <$> discover_files limits fuel root Discovered.empty
  | Some (IsOther, _) => Some (Ok (finish Discovered.empty))
  end.
End scan.

(** * Matching: lemmas *)

(** Two versions of an artifact that only matching tells apart. *)
Record same_artifact (a b : ParsedArtifact.t) : Prop := {
  same_identity : ParsedArtifact.identity a = ParsedArtifact.identity b;
  same_expected : ParsedArtifact.expected_pdb_name a = ParsedArtifact.expected_pdb_name b;
  same_type : type_of a = type_of b;
  same_architecture : ArtifactRecord.architecture (ParsedArtifact.record a)
                      = ArtifactRecord.architecture (ParsedArtifact.record b);
  same_path : path_of a = path_of b;
  same_module : module_of a = module_of b;
  same_invalid : state_of a = Invalid <-> state_of b = Invalid;
}.

#[export] Instance same_artifact_equiv : Equivalence same_artifact.
Proof.
  split.
  - by intros a.
  - by intros a b [].
  - intros a b c [] []. split; first [congruence|by etransitivity].
Qed.

Lemma same_set_match state ms a :
  state <> Invalid -> state_of a <> Invalid -> same_artifact (ParsedArtifact.set_match state ms a) a.
Proof. by intros H1 H2. Qed.

#[export] Instance compatible_proper : Proper (same_artifact ==> same_artifact ==> eq) compatible.
Proof.
  intros a a' [] b b' []. unfold compatible, compatible_pair.
  by rewrite same_identity0, same_identity1, same_type0, same_type1, same_architecture0, same_architecture1.
Qed.

#[export] Instance names_proper : Proper (same_artifact ==> same_artifact ==> eq) names.
Proof. intros a a' [] b b' []. unfold names. by rewrite same_expected0, same_module1. Qed.

Definition same_artifacts (l k : list ParsedArtifact.t) : Prop := Forall2 same_artifact l k.

Lemma companions_same i a a' l l' :
  same_artifact a a' -> same_artifacts l l' -> companions i a l = companions i a' l'.
Proof.
  intros Ha Hl. unfold companions. f_equal. rewrite (Forall2_length _ _ _ Hl).
  generalize (seq 0 (length l')). induction Hl as [|x y l l' Hxy Hl IH]; intros [|n ns]; try done.
  cbn [zip zip_with]. rewrite !filter_cons. cbn [fst snd].
  pose proof (compatible_proper a a' Ha x y Hxy) as E. rewrite E.
  case_decide; cbn [map fst snd]; rewrite ?(same_path _ _ Hxy); first [apply IH|f_equal; apply IH].
Qed.

Lemma mismatch_same i a a' l l' :
  same_artifact a a' -> same_artifacts l l' -> has_named_mismatch i a l = has_named_mismatch i a' l'.
Proof.
  intros Ha Hl. unfold has_named_mismatch. rewrite (Forall2_length _ _ _ Hl).
  generalize (seq 0 (length l')). induction Hl as [|x y l l' Hxy Hl IH]; intros [|n ns]; try done.
  cbn [zip zip_with existsb]. f_equal; [|apply IH]. rewrite (same_type _ _ Ha), (same_type _ _ Hxy).
  rewrite (names_proper a a' Ha x y Hxy), (names_proper x y Hxy a a' Ha).
  by rewrite (bool_decide_ext _ _ (same_invalid _ _ Hxy)).
Qed.

(** What matching makes of the artifact at [i]. *)
Definition resolve (artifacts : list ParsedArtifact.t) (i : nat) (a : ParsedArtifact.t) : ParsedArtifact.t :=
  if decide (state_of a = Invalid) then a
  else let matches := companions i a artifacts in
       ParsedArtifact.set_match
         (if decide (matches = []) then
            if has_named_mismatch i a artifacts then Mismatched else MissingCompanion
          else Matched) matches a.

Lemma resolve_same l i a : same_artifact (resolve l i a) a.
Proof.
  unfold resolve. destruct (decide (state_of a = Invalid)); [done|]. apply same_set_match; [|done].
  by repeat case_match.
Qed.

Lemma match_one_resolve l0 l i :
  same_artifacts l l0 -> match_one l i = match l !! i with Some a => <[i := resolve l0 i a]> l | None => l end.
Proof.
  intros Hl. unfold match_one, resolve. destruct (l !! i) as [a|] eqn:E; [|done].
  destruct (decide (state_of a = Invalid)); [by rewrite list_insert_id|].
  by rewrite (companions_same i a a l l0), (mismatch_same i a a l l0).
Qed.

(** After [n] iterations the first [n] artifacts are resolved against the original list. *)
Lemma match_loop l n :
  (n <= length l)%nat ->
  let l' := foldl match_one l (seq 0 n) in
  same_artifacts l' l /\ forall i, l' !! i = if decide (i < n)%nat then resolve l i <$> l !! i else l !! i.
Proof.
  induction n as [|n IH]; intros Hn; cbn zeta.
  { split; [apply Forall_Forall2_diag; by apply Forall_true|]. intros i. by rewrite decide_False by lia. }
  destruct (IH ltac:(lia)) as [Hsame Hl]. rewrite seq_S, foldl_app. cbn [foldl Nat.add].
  set (l' := foldl match_one l (seq 0 n)) in *. rewrite (match_one_resolve l l' n Hsame).
  destruct (lookup_lt_is_Some_2 l n ltac:(lia)) as [a Ha].
  assert (Ha' : l' !! n = Some a) by (rewrite Hl, decide_False by lia; done). rewrite Ha'. split.
  - unfold same_artifacts in *. rewrite <- (list_insert_id l n a Ha). apply Forall2_insert; [done|apply resolve_same].
  - intros i. destruct (decide (i = n)) as [->|Hi].
    + rewrite list_lookup_insert_eq by (by apply lookup_lt_Some in Ha'). by rewrite decide_True, Ha by lia.
    + rewrite list_lookup_insert_ne by done. rewrite Hl. repeat case_decide; first [done|lia].
Qed.

Lemma match_artifacts_lookup l i : match_artifacts l !! i = resolve l i <$> l !! i.
Proof.
  destruct (match_loop l (length l) (le_n _)) as [_ H]. unfold match_artifacts. rewrite H.
  case_decide; [done|]. by rewrite lookup_ge_None_2 by lia.
Qed.

Lemma zip_seq_lookup {A} (l : list A) s i x :
  (i, x) ∈ zip (seq s (length l)) l <-> (s <= i)%nat /\ l !! (i - s)%nat = Some x.
Proof.
  revert s. induction l as [|y l IH]; intros s; cbn.
  - rewrite elem_of_nil. split; [done|]. by intros [_ ?].
  - rewrite elem_of_cons, IH. split.
    + intros [[= -> ->]|[H1 H2]]; [by rewrite Nat.sub_diag|]. split; [lia|].
      by replace (i - s)%nat with (S (i - S s)) by lia.
    + intros [H1 H2]. destruct (decide (i = s)) as [->|]; [rewrite Nat.sub_diag in H2; naive_solver|].
      right. split; [lia|]. by replace (i - s)%nat with (S (i - S s)) in H2 by lia.
Qed.

Lemma elem_of_companions p i a l :
  p ∈ companions i a l <-> exists j b, j <> i /\ l !! j = Some b /\ compatible a b = true /\ path_of b = p.
Proof.
  unfold companions. rewrite (sort_perm text_leb). rewrite list_elem_of_fmap. split.
  - intros ([j b] & -> & [Hp Hin]%list_elem_of_filter). apply zip_seq_lookup in Hin as [_ Hb].
    rewrite Nat.sub_0_r in Hb. cbn in *. apply andb_true_iff in Hp as [Hi Hc].
    apply negb_true_iff, bool_decide_eq_false in Hi. exists j, b. by split_and!.
  - intros (j & b & Hj & Hb & Hc & <-). exists (j, b). split; [done|]. apply list_elem_of_filter. cbn. split.
    + rewrite Hc. rewrite bool_decide_false by done. done.
    + apply zip_seq_lookup. rewrite Nat.sub_0_r. split; [lia|done].
Qed.

Lemma compatible_comm a b : compatible a b = compatible b a.
Proof. unfold compatible. by destruct (is_pe (type_of a)), (is_pe (type_of b)). Qed.

(** * Properties of matching *)

(** C29: matching is order-independent and complete.  The loop updates the artifacts in place, yet each
    valid artifact ends with exactly the sorted paths of the other artifacts compatible with it; it is
    [Matched] exactly when there is one, and otherwise [Mismatched] exactly when a companion is named
    but not compatible.  Nothing else of an artifact changes, and invalid artifacts stay as they are. *)
Theorem matching_is_complete l i a :
  l !! i = Some a ->
  exists r, match_artifacts l !! i = Some r
  /\ ParsedArtifact.identity r = ParsedArtifact.identity a /\ path_of r = path_of a
  /\ (state_of a = Invalid -> r = a)
  /\ (state_of a <> Invalid ->
      let ms := ArtifactRecord.matches (ParsedArtifact.record r) in
      (forall p, p ∈ ms <-> exists j b, j <> i /\ l !! j = Some b /\ compatible a b = true /\ path_of b = p)
      /\ StronglySorted (fun p q => text_leb p q = true) ms
      /\ (state_of r = Matched <-> ms <> [])
      /\ (state_of r = Mismatched <-> ms = [] /\ has_named_mismatch i a l = true)).
Proof.
  intros Ha. exists (resolve l i a). rewrite match_artifacts_lookup, Ha. split; [done|].
  pose proof (resolve_same l i a) as [Hid _ _ _ Hpath _ _]. split_and!; try done.
  - intros Hs. unfold resolve. by rewrite decide_True.
  - intros Hs. unfold resolve. rewrite decide_False by done. cbn zeta.
    cbn [ParsedArtifact.set_match ParsedArtifact.record ArtifactRecord.set_match ArtifactRecord.matches].
    split; [intros p; apply elem_of_companions|]. split; [apply sort_strong; apply _|].
    unfold state_of. cbn [ParsedArtifact.set_match ParsedArtifact.record ArtifactRecord.set_match
      ArtifactRecord.match_state].
    destruct (decide (companions i a l = [])) as [E|E]; [rewrite E|]; destruct (has_named_mismatch i a l);
      naive_solver.
Qed.

(** Matching is symmetric.  Among artifacts with distinct paths, one lists another as a match
    exactly when the other lists it, so a [Matched] executable always has a [Matched] debug file. *)
Theorem matching_is_symmetric l i j a b ra rb :
  NoDup (map path_of l) -> i <> j ->
  l !! i = Some a -> l !! j = Some b -> state_of a <> Invalid -> state_of b <> Invalid ->
  match_artifacts l !! i = Some ra -> match_artifacts l !! j = Some rb ->
  path_of b ∈ ArtifactRecord.matches (ParsedArtifact.record ra)
  <-> path_of a ∈ ArtifactRecord.matches (ParsedArtifact.record rb).
Proof.
  intros Hnd Hij Ha Hb Hsa Hsb. rewrite !match_artifacts_lookup, Ha, Hb. intros [= <-] [= <-].
  assert (Hside : forall i j a b, i <> j -> l !! i = Some a -> l !! j = Some b -> state_of a <> Invalid ->
    path_of b ∈ ArtifactRecord.matches (ParsedArtifact.record (resolve l i a)) <-> compatible a b = true).
  { clear -Hnd. intros i j a b Hij Ha Hb Hs. unfold resolve. rewrite decide_False by done.
    cbn [ParsedArtifact.set_match ParsedArtifact.record ArtifactRecord.set_match ArtifactRecord.matches].
    rewrite elem_of_companions. split.
    - intros (k & b' & _ & Hb' & Hc & Hp).
      assert (k = j) as -> by (eapply (NoDup_lookup (map path_of l)); [done|by rewrite list_lookup_fmap, Hb'|];
        rewrite list_lookup_fmap, Hb; cbn; by rewrite Hp). naive_solver.
    - intros Hc. exists j, b. by split_and!. }
  rewrite (Hside i j), (Hside j i) by done. by rewrite compatible_comm.
Qed.

(** A debug identifier names one identity: two 16-byte GUIDs with [u32] ages have the same
    identifier only if both agree. *)
Theorem format_debug_id_injective guid age guid' age' :
  length guid = 16%nat -> length guid' = 16%nat -> (age <= u32_max)%N -> (age' <= u32_max)%N ->
  format_debug_id guid age = format_debug_id guid' age' -> guid = guid' /\ age = age'.
Proof.
  intros Hl Hl' Ha Ha' H. unfold format_debug_id in H.
  assert (Hslice : forall i n, length (hex2s true (slice guid i n)) = length (hex2s true (slice guid' i n))).
  { intros i n. rewrite !len_hex2s. unfold slice. rewrite !length_take, !length_drop. lia. }
  do 5 (apply app_inj_1 in H as [? H]; [|apply Hslice]; apply app_inj_1 in H as [_ H]; [|done]).
  apply fmt_hex_inj in H; [|unfold u64_max, u32_max in *; lia..]. split; [|done].
  repeat match goal with E : hex2s _ _ = hex2s _ _ |- _ => apply hex2s_inj in E end.
  do 17 (destruct guid as [|? guid]; try done). do 17 (destruct guid' as [|? guid']; try done).
  unfold slice in *. cbn in *. congruence.
Qed.

(** * Discovery *)

Section discovery.
Context {F : FileSystem} (limits : ArtifactScanLimits.t).

(** What was discovered is within the limits: there are sizes for the files, each within the file
    limit, and they add up to the total. *)
Record accounted (d : Discovered.t) : Prop := {
  accounted_sizes : exists sizes, length sizes = length (Discovered.files d)
    /\ Discovered.total_bytes d = foldr N.add 0%N sizes
    /\ Forall (fun size => (size <= ArtifactScanLimits.file_bytes limits)%N) sizes;
  accounted_count : (len (Discovered.files d) <= ArtifactScanLimits.files limits)%N;
  accounted_total : (Discovered.total_bytes d <= ArtifactScanLimits.total_bytes limits)%N;
}.

Lemma accounted_empty : accounted Discovered.empty.
Proof. split; [by exists []|apply N.le_0_l..]. Qed.

Lemma add_file_accounted p relative size d d' :
  accounted d -> add_file limits p relative size d = Ok d' ->
  accounted d' /\ Discovered.files d' = Discovered.files d ++ [(p, relative)].
Proof.
  intros [(sizes & Hl & Ht & Hs) Hc Hb] H. unfold add_file in H. inv_ok.
  repeat match goal with
  | E : (_ <=? _)%N = false |- _ => apply N.leb_gt in E
  | E : (_ <? _)%N = false |- _ => apply N.ltb_ge in E
  | E : _ ≫= _ = Some _ |- _ => apply bind_Some in E as (t & Et & E)
  | E : checked_add _ _ = Some _ |- _ => apply checked_add_Some in E as [-> _]
  end.
  destruct (_ <=? _)%N eqn:Eb; [|done]. simplify_eq. apply N.leb_le in Eb. cbn. split; [|done]. split.
  - exists (sizes ++ [size]). cbn. rewrite !length_app, Hl, foldr_app, Forall_app, Forall_singleton.
    split_and!; try done. cbn. rewrite N.add_0_r, Ht. clear.
    induction sizes as [|x sizes IH]; cbn; [done|]. rewrite <- IH. lia.
  - cbn. rewrite len_app. unfold len in *. cbn. lia.
  - done.
Qed.

(** The work that is left: the directories on the stack and the entries the limit still allows. *)
Definition work (s : discovery) : N :=
  let '(directories, entries_seen, _) := s in
  (len directories + (ArtifactScanLimits.entries limits - entries_seen))%N.
Definition discovered (s : discovery) : Discovered.t := s.2.

Lemma discover_entry_Ok root relative depth entry s s' :
  accounted (discovered s) -> discover_entry limits root relative depth entry s = Ok s' ->
  accounted (discovered s') /\ (work s' <= work s)%N.
Proof.
  intros Hd H. destruct s as [[directories seen] d]. unfold discover_entry in H. inv_ok.
  match goal with E : _ ≫= _ = Some _ |- _ => apply bind_Some in E as (n & En & E);
    apply checked_add_Some in En as [-> _]; destruct (N.leb_spec (seen + 1) (ArtifactScanLimits.entries limits));
    [injection E as <-|done] end.
  unfold work. destruct a1; [destruct (supported_extension _); inv_ok| |]; inv_ok; cbn in *.
  - eapply add_file_accounted in Hd as [Hd _]; [|done]. split; [done|lia].
  - split; [done|lia].
  - rewrite len_cons. split; [done|lia].
  - split; [done|lia].
Qed.

Lemma discover_entries_Ok root relative depth entries s s' :
  accounted (discovered s) -> discover_entries limits root relative depth entries s = Ok s' ->
  accounted (discovered s') /\ (work s' <= work s)%N.
Proof.
  revert s. induction entries as [|entry entries IH]; intros s Hd H; cbn in H; inv_ok; [done|].
  match goal with E : discover_entry _ _ _ _ _ _ = Ok _ |- _ => apply discover_entry_Ok in E as [H1 H2]; [|done] end.
  destruct (IH _ H1 H) as [? ?]. split; [done|lia].
Qed.

Lemma discover_loop_spec fuel root s :
  accounted (discovered s) ->
  ((work s < N.of_nat fuel)%N -> is_Some (discover_loop limits fuel root s))
  /\ forall d, discover_loop limits fuel root s = Some (Ok d) -> accounted d.
Proof.
  revert s. induction fuel as [|fuel IH]; intros [[directories seen] d] Hd;
    (destruct directories as [|[relative depth] directories]; cbn;
     [split; [by eexists|intros d' [= <-]; done]|]).
  { rewrite len_cons. split; [lia|done]. }
  destruct (_ <? depth)%N; [split; [by eexists|done]|].
  destruct (read_dir _) as [entries|]; [|split; [by eexists|done]].
  destruct (discover_entries _ _ _ _ _ _) as [s'|e] eqn:E; [|split; [by eexists|done]].
  apply discover_entries_Ok in E as [Hs' Hw]; [|done]. destruct (IH s' Hs') as [H1 H2].
  split; [|done]. intros Hf. apply H1. cbn in Hw. rewrite len_cons in Hf. lia.
Qed.

(** C38: the walk of the artifact tree ends and stays within its limits.  However the directories
    nest, visiting at most one directory more than the entry limit is enough, so the loop always
    returns; and when it succeeds the files fit the file limit, each has a size within the size
    limit, and their sizes add up to the total, within the total limit. *)
Theorem discovery_terminates_within_limits fuel root :
  (ArtifactScanLimits.entries limits + 1 < N.of_nat fuel)%N ->
  exists r, discover_files limits fuel root Discovered.empty = Some r
  /\ forall d, r = Ok d ->
       (len (Discovered.files d) <= ArtifactScanLimits.files limits)%N
       /\ (Discovered.total_bytes d <= ArtifactScanLimits.total_bytes limits)%N
       /\ exists sizes, length sizes = length (Discovered.files d)
          /\ Discovered.total_bytes d = foldr N.add 0%N sizes
          /\ Forall (fun size => (size <= ArtifactScanLimits.file_bytes limits)%N) sizes.
Proof.
  intros Hf. unfold discover_files.
  destruct (discover_loop_spec fuel root ([([], 0%N)], 0%N, Discovered.empty)) as [H1 H2];
    [apply accounted_empty|].
  destruct H1 as [r Hr]; [unfold work, len; cbn [length]; lia|]. exists r. split; [done|]. intros d ->.
  destruct (H2 d Hr) as [Hs Hc Ht]. by split_and!.
Qed.
End discovery.

(** * Samples *)

Definition sample_fs : FileSystem := {|
  symlink_metadata := fun _ => Some (IsDir, 0%N);
  metadata_len := fun _ => Some 3%N;
  open_file := fun _ => None;
  read_dir := fun p =>
    if decide (p = [byt "root"]) then
      Some [Some {| DirEntry.name := byt "bin"; DirEntry.file_type := Some IsDir; DirEntry.size := Some 0%N |};
            Some {| DirEntry.name := byt "a.exe"; DirEntry.file_type := Some IsFile; DirEntry.size := Some 3%N |}]
    else Some [Some {| DirEntry.name := byt "a.pdb"; DirEntry.file_type := Some IsFile;
                       DirEntry.size := Some 3%N |}];
  canonicalize := Some |}.

Definition sample_scan_limits : ArtifactScanLimits.t :=
  {| ArtifactScanLimits.entries := 3; ArtifactScanLimits.depth := 1; ArtifactScanLimits.files := 2;
     ArtifactScanLimits.file_bytes := 4; ArtifactScanLimits.total_bytes := 6 |}.

Example sample_discovers :
  discover_files (F := sample_fs) sample_scan_limits 5 [byt "root"] Discovered.empty
  = Some (Ok {| Discovered.files := [([byt "root"; byt "a.exe"], txt "a.exe");
                                     ([byt "root"; byt "bin"; byt "a.pdb"], txt "bin/a.pdb")];
                Discovered.total_bytes := 6 |}).
Proof. vm_compute. reflexivity. Qed.

Lemma discovery_terminates_within_limits_witness :
  exists r, discover_files (F := sample_fs) sample_scan_limits 5 [byt "root"] Discovered.empty = Some r
  /\ forall d, r = Ok d ->
       (len (Discovered.files d) <= 2)%N /\ (Discovered.total_bytes d <= 6)%N
       /\ exists sizes, length sizes = length (Discovered.files d)
          /\ Discovered.total_bytes d = foldr N.add 0%N sizes
          /\ Forall (fun size => (size <= 4)%N) sizes.
Proof.
  apply (discovery_terminates_within_limits (F := sample_fs) sample_scan_limits 5 [byt "root"]).
  vm_compute. reflexivity.
Defined.

Definition sample_guid : bytes := byt "0123456789abcdef".
Definition sample_artifact (ty : ArtifactType) (p : string) (age : N) (original : option N) : ParsedArtifact.t :=
  {| ParsedArtifact.record :=
       ArtifactRecord.set_place (txt p) (txt p) (new_record ty X86_64 None (format_debug_id sample_guid age) None);
     ParsedArtifact.identity :=
       Some {| Identity.guid := sample_guid; Identity.age := age; Identity.original_age := original |};
     ParsedArtifact.expected_pdb_name := None |}.
Definition sample_artifacts : list ParsedArtifact.t :=
  [sample_artifact PeExecutable "a.exe" 1 None; sample_artifact PdbFile "a.pdb" 2 (Some 1%N)].

Lemma matching_is_complete_witness :
  exists r, match_artifacts sample_artifacts !! 0%nat = Some r
  /\ ParsedArtifact.identity r = ParsedArtifact.identity (sample_artifact PeExecutable "a.exe" 1 None)
  /\ path_of r = txt "a.exe".
Proof.
  destruct (matching_is_complete sample_artifacts 0 (sample_artifact PeExecutable "a.exe" 1 None) eq_refl)
    as (r & H1 & H2 & H3 & _).
  exists r. split; [exact H1|]. split; [exact H2|exact H3].
Defined.

Lemma matching_is_symmetric_witness :
  txt "a.pdb" ∈ [txt "a.pdb"] <-> txt "a.exe" ∈ [txt "a.exe"].
Proof.
  apply (matching_is_symmetric sample_artifacts 0 1 (sample_artifact PeExecutable "a.exe" 1 None)
    (sample_artifact PdbFile "a.pdb" 2 (Some 1%N))
    (ParsedArtifact.set_match Matched [txt "a.pdb"] (sample_artifact PeExecutable "a.exe" 1 None))
    (ParsedArtifact.set_match Matched [txt "a.exe"] (sample_artifact PdbFile "a.pdb" 2 (Some 1%N)))).
  - refine (bool_decide_unpack _ _). vm_compute. exact I.
  - discriminate.
  - reflexivity.
  - reflexivity.
  - discriminate.
  - discriminate.
  - vm_compute. reflexivity.
  - vm_compute. reflexivity.
Defined.

Lemma format_debug_id_injective_witness : sample_guid = sample_guid /\ 7%N = 7%N.
Proof.
  apply (format_debug_id_injective sample_guid 7 sample_guid 7); vm_compute; first [reflexivity|discriminate].
Defined.
