(* ===== verification/Symbolicate.v ===== *)
(** Symbolication ([crates/symbols/src/symbolicate.rs]): the choice of artifacts for the modules of a
    minidump, the confinement of artifact paths, and the bounded result built from the unwound
    threads.  The minidump crates are interfaces. *)

From stdpp Require Import sorting gmap.
From S2P Require Import Prelude Text LogTail Pdb Artifacts.

Definition MAX_EXCEPTION_REASON_CHARS : nat := 512.
Definition MAX_ASSERTION_CHARS : nat := 4096.
Definition SYMBOLICATION_SCHEMA_VERSION : N := 2.

Module SymbolicationLimits.
Record t : Type := Mk {
  dump_bytes : N; artifact_entries : N; artifact_depth : N; artifacts : N; artifact_bytes : N;
  total_artifact_bytes : N; threads : N; modules : N; frames_per_thread : N; wall_time : N }.

(** [SymbolicationLimits::default]; the wall time is in seconds. *)
Definition default : t := {|
  dump_bytes := 64 * 1024 * 1024; artifact_entries := 4096; artifact_depth := 64; artifacts := 512;
  artifact_bytes := 1024 * 1024 * 1024; total_artifact_bytes := 4 * 1024 * 1024 * 1024;
  threads := 512; modules := 4096; frames_per_thread := 512; wall_time := 120 |}.
End SymbolicationLimits.

Module SymbolicationError.
Inductive t : Type :=
| ReadDump | DumpTooLarge | InvalidDump | UnsupportedPlatform | UnsupportedArchitecture
| TooManyThreads | TooManyModules | InvalidSymbolRoot | InvalidSymCache | SymCacheTooLarge
| SymCacheIdentityMismatch | ArtifactScan (e : ScanError) | UnsafeArtifactPath | RuntimeFailed
| ProcessingFailed | TimedOut | WorkerFailed.

#[global] Instance eq_dec : EqDecision t.
Proof. solve_decision. Defined.
End SymbolicationError.

Module SymbolicationErrorKind.
Inductive t : Type :=
| ReadDump | DumpTooLarge | InvalidDump | UnsupportedPlatform | UnsupportedArchitecture
| TooManyThreads | TooManyModules | InvalidSymbolRoot | InvalidSymCache | SymCacheTooLarge
| SymCacheIdentityMismatch | ArtifactScan | UnsafeArtifactPath | RuntimeFailed
| ProcessingFailed | TimedOut | WorkerFailed.
End SymbolicationErrorKind.

Import SymbolicationError.

(** [SymbolicationError::kind]. *)
Definition kind (e : SymbolicationError.t) : SymbolicationErrorKind.t :=
  match e with
  | ReadDump => SymbolicationErrorKind.ReadDump
  | DumpTooLarge => SymbolicationErrorKind.DumpTooLarge
  | InvalidDump => SymbolicationErrorKind.InvalidDump
  | UnsupportedPlatform => SymbolicationErrorKind.UnsupportedPlatform
  | UnsupportedArchitecture => SymbolicationErrorKind.UnsupportedArchitecture
  | TooManyThreads => SymbolicationErrorKind.TooManyThreads
  | TooManyModules => SymbolicationErrorKind.TooManyModules
  | InvalidSymbolRoot => SymbolicationErrorKind.InvalidSymbolRoot
  | InvalidSymCache => SymbolicationErrorKind.InvalidSymCache
  | SymCacheTooLarge => SymbolicationErrorKind.SymCacheTooLarge
  | SymCacheIdentityMismatch => SymbolicationErrorKind.SymCacheIdentityMismatch
  | ArtifactScan _ => SymbolicationErrorKind.ArtifactScan
  | UnsafeArtifactPath => SymbolicationErrorKind.UnsafeArtifactPath
  | RuntimeFailed => SymbolicationErrorKind.RuntimeFailed
  | ProcessingFailed => SymbolicationErrorKind.ProcessingFailed
  | TimedOut => SymbolicationErrorKind.TimedOut
  | WorkerFailed => SymbolicationErrorKind.WorkerFailed
  end.

(** The messages of [SymbolicationError::fmt]. *)
Definition message (e : SymbolicationError.t) : text :=
  match e with
  | ReadDump => txt "failed to read minidump"
  | DumpTooLarge => txt "minidump size limit exceeded"
  | InvalidDump => txt "invalid minidump"
  | UnsupportedPlatform => txt "minidump platform is not supported"
  | UnsupportedArchitecture => txt "minidump architecture is not supported"
  | TooManyThreads => txt "minidump thread limit exceeded"
  | TooManyModules => txt "minidump module limit exceeded"
  | InvalidSymbolRoot => txt "invalid symbol directory"
  | InvalidSymCache => txt "invalid derived symbol cache"
  | SymCacheTooLarge => txt "derived symbol cache size limit exceeded"
  | SymCacheIdentityMismatch => txt "derived symbol cache identity does not match"
  | ArtifactScan e => scan_error_message e
  | UnsafeArtifactPath => txt "unsafe symbol artifact path"
  | RuntimeFailed => txt "failed to start minidump processor"
  | ProcessingFailed => txt "failed to process minidump"
  | TimedOut => txt "minidump processing timed out"
  | WorkerFailed => txt "minidump processing worker failed"
  end.

Module ModuleSymbolStatus.
Inductive t : Type := Matched | MissingPe | MissingPdb | Mismatched | MissingIdentity.

#[global] Instance eq_dec : EqDecision t.
Proof. solve_decision. Defined.
End ModuleSymbolStatus.

Module FrameSymbolStatus.
Inductive t : Type :=
| Resolved | Unresolved | MissingPe | MissingPdb | Mismatched | MissingIdentity | UnknownModule.

#[global] Instance eq_dec : EqDecision t.
Proof. solve_decision. Defined.
End FrameSymbolStatus.

Module SymbolicatedModule.
Record t : Type := Mk {
  module : text; base_address : text; size : N; code_id : option text; debug_id : option text;
  status : ModuleSymbolStatus.t; pe : option text; pdb : option text; symcache_format : option N }.
End SymbolicatedModule.

Module InlineSymbol.
Record t : Type := Mk { function : text; source_file : option text; source_line : option N }.
End InlineSymbol.

Module SymbolicatedFrame.
Record t : Type := Mk {
  instruction : text; module : option text; module_relative : option text; trust : text;
  symbol_status : FrameSymbolStatus.t; function : option text; source_file : option text;
  source_line : option N; inlines : list InlineSymbol.t }.
End SymbolicatedFrame.

Module ThreadUnwindStatus.
Inductive t : Type := Ok | MissingContext | MissingMemory | UnsupportedCpu | DumpThreadSkipped.
End ThreadUnwindStatus.

Module SymbolicatedThread.
Record t : Type := Mk {
  thread_id : N; faulting : bool; name : option text; unwind_status : ThreadUnwindStatus.t;
  frames_truncated : bool; frames : list SymbolicatedFrame.t }.
End SymbolicatedThread.

Module SymbolicationResult.
Record t : Type := Mk {
  schema_version : N; symbolicator_version : text; minidump_version : text;
  minidump_processor_version : text; minidump_unwind_version : text; platform : text;
  architecture : text; faulting_thread_id : option N; exception_reason : option text;
  assertion : option text; modules : list SymbolicatedModule.t;
  threads : list SymbolicatedThread.t }.
End SymbolicationResult.

(** * What the minidump crates give *)

Module CallStackInfo.
Inductive t : Type := Ok | MissingContext | MissingMemory | UnsupportedCpu | DumpThreadSkipped.
End CallStackInfo.

Module StackFrame.
Record t : Type := Mk {
  instruction : N; module : option (text * N); trust : text; function_name : option text;
  source_file_name : option text; source_line : option N;
  inlines : list (text * option text * option N) }.
End StackFrame.

Module CallStack.
Record t : Type := Mk {
  thread_id : N; thread_name : option text; info : CallStackInfo.t; frames : list StackFrame.t }.
End CallStack.

Module ProcessState.
Record t : Type := Mk {
  threads : list CallStack.t; requesting_thread : option nat; exception_reason : option text;
  assertion : option text }.
End ProcessState.

Inductive CodeViewInfo : Type := Pdb20 (file_name : bytes) | Pdb70 (file_name : bytes) | OtherCodeView.

Module MinidumpModule.
Record t : Type := Mk {
  name : text; base_address : N; size : N; code_identifier : option text;
  debug_identifier : option text; codeview_info : option CodeViewInfo }.

Definition set_name (n : text) (m : t) : t :=
  {| name := n; base_address := base_address m; size := size m; code_identifier := code_identifier m;
     debug_identifier := debug_identifier m; codeview_info := codeview_info m |}.
Definition set_codeview (c : option CodeViewInfo) (m : t) : t :=
  {| name := name m; base_address := base_address m; size := size m; code_identifier := code_identifier m;
     debug_identifier := debug_identifier m; codeview_info := c |}.
End MinidumpModule.

(** * Small helpers *)

(** [leaf_name]: the last non-empty component. *)
Definition leaf_name (p : text) : text :=
  default (txt "unknown") (head (filter (fun part => part <> []) (rsplit_slash p))).

(** [format_address], [format_relative_address] and [parse_address]. *)
Definition format_address (address : N) : text := txt "0x" ++ pad_left 16 (fmt_hex true address).
Definition format_relative_address (address : N) : text := txt "0x" ++ fmt_hex true address.
Definition parse_address (address : text) : option N := strip_prefix address (txt "0x") ≫= from_str_radix_16.

(** [bounded_text]. *)
Definition bounded_text (value : text) (maximum : nat) : option text :=
  let value := take maximum
    (filter (fun c => negb (is_control c) || bool_decide (c ∈ [10; 13; 9]%N) = true) value) in
  if decide (trim value = []) then None else Some value.

(** * Choosing artifacts *)

Module ArtifactSelection.
Record t : Type := Mk {
  pe : option ArtifactRecord.t; pdb : option ArtifactRecord.t; status : ModuleSymbolStatus.t }.
End ArtifactSelection.

Definition usable_pe (a : ArtifactRecord.t) : bool :=
  is_pe (ArtifactRecord.artifact_type a) && bool_decide (ArtifactRecord.error a = None).

(** The test of [exact_pe]. *)
Definition is_exact_pe (expected_code : text) (debug_id : option text) (a : ArtifactRecord.t) : bool :=
  usable_pe a
  && bool_decide (ArtifactRecord.architecture a = Some X86_64)
  && bool_decide (ArtifactRecord.code_id a = Some expected_code)
  && match debug_id with
     | Some expected => bool_decide (ArtifactRecord.debug_id a = Some expected)
     | None => true
     end.

Definition is_pdb_at (p : text) (a : ArtifactRecord.t) : bool :=
  bool_decide (ArtifactRecord.path a = p)
  && bool_decide (ArtifactRecord.artifact_type a = PdbFile)
  && bool_decide (ArtifactRecord.error a = None)
  && bool_decide (ArtifactRecord.architecture a = Some X86_64).

Definition find (p : ArtifactRecord.t -> bool) (l : list ArtifactRecord.t) : option ArtifactRecord.t :=
  List.find p l.

Definition is_related_pe (module_name : text) (code_id debug_id : option text) (a : ArtifactRecord.t) : bool :=
  usable_pe a
  && (eq_ignore_ascii_case (ArtifactRecord.module a) module_name
      || bool_decide (ArtifactRecord.code_id a = code_id)
      || bool_decide (debug_id <> None) && bool_decide (ArtifactRecord.debug_id a = debug_id)).

(** [choose_artifacts]. *)
Definition choose_artifacts (module_name : text) (code_id debug_id : option text)
    (artifacts : list ArtifactRecord.t) : ArtifactSelection.t :=
  let exact_pe := expected_code ← code_id; find (is_exact_pe expected_code debug_id) artifacts in
  match exact_pe with
  | Some pe =>
      match debug_id with
      | None =>
          {| ArtifactSelection.pe := Some pe; ArtifactSelection.pdb := None;
             ArtifactSelection.status := ModuleSymbolStatus.MissingIdentity |}
      | Some _ =>
          let pdb := ProjectLogTail.first_some (fun p => find (is_pdb_at p) artifacts)
                       (ArtifactRecord.matches pe) in
          {| ArtifactSelection.pe := Some pe; ArtifactSelection.pdb := pdb;
             ArtifactSelection.status :=
               match pdb with
               | Some _ => ModuleSymbolStatus.Matched
               | None => ModuleSymbolStatus.MissingPdb
               end |}
      end
  | None =>
      {| ArtifactSelection.pe := None; ArtifactSelection.pdb := None;
         ArtifactSelection.status :=
           match code_id with
           | None => ModuleSymbolStatus.MissingIdentity
           | Some _ =>
               if existsb (is_related_pe module_name code_id debug_id) artifacts
               then ModuleSymbolStatus.Mismatched else ModuleSymbolStatus.MissingPe
           end |}
  end.

(** * Artifact paths *)

Inductive component : Type := RootDir | CurDir | ParentDir | Normal (name : bytes).

#[export] Instance component_eq_dec : EqDecision component.
Proof. solve_decision. Defined.

Definition slash_byte : Byte.byte := Byte.x2f.

(** The pieces between slashes. *)
Fixpoint split_slash (s : bytes) : list bytes :=
  match s with
  | [] => [[]]
  | b :: s =>
      if decide (b = slash_byte) then [] :: split_slash s
      else match split_slash s with w :: ws => (b :: w) :: ws | [] => [[b]] end
  end.

(** A piece: empty pieces and inner [.] are dropped. *)
Definition piece_component (first : bool) (w : bytes) : list component :=
  if decide (w = []) then []
  else if decide (w = [dot]) then (if first then [CurDir] else [])
  else if decide (w = [dot; dot]) then [ParentDir]
  else [Normal w].

(** [Path::components] on Unix. *)
Definition components (s : bytes) : list component :=
  match s with
  | b :: _ =>
      if decide (b = slash_byte) then RootDir :: concat (map (piece_component false) (split_slash s))
      else match split_slash s with
           | w :: ws => piece_component true w ++ concat (map (piece_component false) ws)
           | [] => []
           end
  | [] => []
  end.

Definition normal_name (c : component) : option bytes := match c with Normal w => Some w | _ => None end.

(** An absolute path as its bytes, and [path_text]. *)
Definition path_bytes (p : path) : bytes :=
  match p with [] => [slash_byte] | _ => concat (map (fun w => slash_byte :: w) p) end.
Definition path_text (p : path) : result SymbolicationError.t text :=
  ok_or UnsafeArtifactPath (from_utf8 (path_bytes p)).

(** [Path::starts_with]: component by component. *)
Fixpoint path_starts_with (p base : path) : bool :=
  match base, p with
  | [], _ => true
  | b :: base, c :: p => bool_decide (b = c) && path_starts_with p base
  | _ :: _, [] => false
  end.

Section paths.
Context {F : FileSystem}.

(** [resolve_artifact]. *)
Definition resolve_artifact (root : path) (relative : text) : result SymbolicationError.t path :=
  names ← ok_or UnsafeArtifactPath (mapM normal_name (components (as_bytes relative)));
  let candidate := root ++ names in
  '(file_type, _) ← ok_or UnsafeArtifactPath (symlink_metadata candidate);
  _ ← fail_if (match file_type with IsFile => false | _ => true end) UnsafeArtifactPath;
  canonical ← ok_or UnsafeArtifactPath (canonicalize candidate);
  _ ← fail_if (negb (path_starts_with canonical root)) UnsafeArtifactPath;
  Ok canonical.

(** [rewrite_debug_path]. *)
Definition rewrite_debug_path (module : MinidumpModule.t) (p : text) : MinidumpModule.t :=
  let bs := as_bytes p ++ [Byte.x00] in
  MinidumpModule.set_codeview
    (match MinidumpModule.codeview_info module with
     | Some (Pdb20 _) => Some (Pdb20 bs)
     | Some (Pdb70 _) => Some (Pdb70 bs)
     | c => c
     end) module.

(** [Option::map(f).transpose()?]. *)
Definition transpose {A B} (f : A -> result SymbolicationError.t B) (o : option A) :
    result SymbolicationError.t (option B) :=
  match o with Some a => Some <$> f a | None => Ok None end.

(** One iteration of the loop of [prepare_modules]. *)
Definition prepare_module (artifacts : list ArtifactRecord.t) (root : path) (fallback : text)
    (module : MinidumpModule.t) : result SymbolicationError.t (MinidumpModule.t * SymbolicatedModule.t) :=
  let module_name := leaf_name (MinidumpModule.name module) in
  let code_id := to_ascii_uppercase <$> MinidumpModule.code_identifier module in
  let debug_id := to_ascii_uppercase <$> MinidumpModule.debug_identifier module in
  let selection := choose_artifacts module_name code_id debug_id artifacts in
  pe ← transpose (fun a => resolve_artifact root (ArtifactRecord.path a)) (ArtifactSelection.pe selection);
  pdb ← transpose (fun a => resolve_artifact root (ArtifactRecord.path a)) (ArtifactSelection.pdb selection);
  pe_path ← transpose path_text pe;
  pdb_path ← transpose path_text pdb;
  let local_module := rewrite_debug_path (MinidumpModule.set_name (default fallback pe_path) module)
                        (default fallback pdb_path) in
  Ok (local_module,
      {| SymbolicatedModule.module := module_name;
         SymbolicatedModule.base_address := format_address (MinidumpModule.base_address module);
         SymbolicatedModule.size := MinidumpModule.size module;
         SymbolicatedModule.code_id := code_id;
         SymbolicatedModule.debug_id := debug_id;
         SymbolicatedModule.status := ArtifactSelection.status selection;
         SymbolicatedModule.pe := ArtifactRecord.path <$> ArtifactSelection.pe selection;
         SymbolicatedModule.pdb := ArtifactRecord.path <$> ArtifactSelection.pdb selection;
         SymbolicatedModule.symcache_format := None |}).

(** [a.cmp(b)] is at most [Equal], on the base address and then the module. *)
Definition diagnostic_leb (l r : SymbolicatedModule.t) : bool :=
  if decide (SymbolicatedModule.base_address l = SymbolicatedModule.base_address r)
  then text_leb (SymbolicatedModule.module l) (SymbolicatedModule.module r)
  else text_leb (SymbolicatedModule.base_address l) (SymbolicatedModule.base_address r).

Fixpoint prepare_each (artifacts : list ArtifactRecord.t) (root : path) (fallback : text)
    (modules : list MinidumpModule.t) :
    result SymbolicationError.t (list (MinidumpModule.t * SymbolicatedModule.t)) :=
  match modules with
  | [] => Ok []
  | m :: modules =>
      p ← prepare_module artifacts root fallback m;
      ps ← prepare_each artifacts root fallback modules; Ok (p :: ps)
  end.

(** [prepare_modules]: the rewritten modules and the diagnostics. *)
Definition prepare_modules (modules : list MinidumpModule.t) (scan : ArtifactScan.t) (root : path) :
    result SymbolicationError.t (list MinidumpModule.t * list SymbolicatedModule.t) :=
  fallback ← path_text root;
  prepared ← prepare_each (ArtifactScan.artifacts scan) root fallback modules;
  Ok (map fst prepared, sort diagnostic_leb (map snd prepared)).
End paths.

(** * The result *)

(** [frame_status]. *)
Definition frame_status (status : ModuleSymbolStatus.t) : FrameSymbolStatus.t :=
  match status with
  | ModuleSymbolStatus.Matched => FrameSymbolStatus.Unresolved
  | ModuleSymbolStatus.MissingPdb => FrameSymbolStatus.MissingPdb
  | ModuleSymbolStatus.MissingPe => FrameSymbolStatus.MissingPe
  | ModuleSymbolStatus.Mismatched => FrameSymbolStatus.Mismatched
  | ModuleSymbolStatus.MissingIdentity => FrameSymbolStatus.MissingIdentity
  end.

(** [thread_status]. *)
Definition thread_status (status : CallStackInfo.t) : ThreadUnwindStatus.t :=
  match status with
  | CallStackInfo.Ok => ThreadUnwindStatus.Ok
  | CallStackInfo.MissingContext => ThreadUnwindStatus.MissingContext
  | CallStackInfo.MissingMemory => ThreadUnwindStatus.MissingMemory
  | CallStackInfo.UnsupportedCpu => ThreadUnwindStatus.UnsupportedCpu
  | CallStackInfo.DumpThreadSkipped => ThreadUnwindStatus.DumpThreadSkipped
  end.

Abbreviation statuses := (gmap N ModuleSymbolStatus.t).

(** [map_frame]. *)
Definition map_frame (module_status : statuses) (frame : StackFrame.t) : SymbolicatedFrame.t :=
  let base := snd <$> StackFrame.module frame in
  {| SymbolicatedFrame.instruction := format_address (StackFrame.instruction frame);
     SymbolicatedFrame.module := (fun m => leaf_name m.1) <$> StackFrame.module frame;
     SymbolicatedFrame.module_relative :=
       address ← base; d ← checked_sub (StackFrame.instruction frame) address;
       Some (format_relative_address d);
     SymbolicatedFrame.trust := StackFrame.trust frame;
     SymbolicatedFrame.symbol_status :=
       match StackFrame.function_name frame with
       | Some _ => FrameSymbolStatus.Resolved
       | None =>
           match base ≫= fun address => module_status !! address with
           | Some status => frame_status status
           | None => FrameSymbolStatus.UnknownModule
           end
       end;
     SymbolicatedFrame.function := StackFrame.function_name frame;
     SymbolicatedFrame.source_file := StackFrame.source_file_name frame;
     SymbolicatedFrame.source_line := StackFrame.source_line frame;
     SymbolicatedFrame.inlines :=
       map (fun i => {| InlineSymbol.function := i.1.1; InlineSymbol.source_file := i.1.2;
                        InlineSymbol.source_line := i.2 |}) (StackFrame.inlines frame) |}.

(** Collecting into a [BTreeMap]: a later entry replaces an earlier one. *)
Definition collect_statuses (modules : list SymbolicatedModule.t) : statuses :=
  foldl (fun m module =>
    match parse_address (SymbolicatedModule.base_address module) with
    | Some base => <[base := SymbolicatedModule.status module]> m
    | None => m
    end) ∅ modules.

(** The order of the threads: the faulting one first, then by identifier and index. *)
Definition thread_leb (faulting_index : option nat) (l r : nat * CallStack.t) : bool :=
  let flag (i : nat) := if decide (Some i = faulting_index) then 0%nat else 1%nat in
  let '(a, b) := (flag l.1, flag r.1) in
  let '(x, y) := (CallStack.thread_id l.2, CallStack.thread_id r.2) in
  (a <? b)%nat || ((a =? b)%nat && ((x <? y)%N || ((x =? y)%N && (l.1 <=? r.1)%nat))).

Definition map_thread (module_status : statuses) (faulting_index : option nat) (frames_per_thread : N)
    (t : nat * CallStack.t) : SymbolicatedThread.t :=
  let frames := CallStack.frames t.2 in
  {| SymbolicatedThread.thread_id := CallStack.thread_id t.2;
     SymbolicatedThread.faulting := bool_decide (Some t.1 = faulting_index);
     SymbolicatedThread.name := CallStack.thread_name t.2;
     SymbolicatedThread.unwind_status := thread_status (CallStack.info t.2);
     SymbolicatedThread.frames_truncated := (frames_per_thread <? len frames)%N;
     SymbolicatedThread.frames :=
       map (map_frame module_status) (take (N.to_nat frames_per_thread) frames) |}.

(** The index of the faulting thread, if it is one. *)
Definition faulting_index (state : ProcessState.t) : option nat :=
  i ← ProcessState.requesting_thread state;
  if decide (i < length (ProcessState.threads state))%nat then Some i else None.

Definition indexed_threads (state : ProcessState.t) : list (nat * CallStack.t) :=
  zip (seq 0 (length (ProcessState.threads state))) (ProcessState.threads state).

(** [build_result]. *)
Definition build_result (state : ProcessState.t) (modules : list SymbolicatedModule.t)
    (limits : SymbolicationLimits.t) : SymbolicationResult.t :=
  let faulting := faulting_index state in
  {| SymbolicationResult.schema_version := SYMBOLICATION_SCHEMA_VERSION;
     SymbolicationResult.symbolicator_version := txt "0.1.0";
     SymbolicationResult.minidump_version := txt "0.27.0";
     SymbolicationResult.minidump_processor_version := txt "0.27.0";
     SymbolicationResult.minidump_unwind_version := txt "0.27.0";
     SymbolicationResult.platform := txt "windows";
     SymbolicationResult.architecture := txt "x86_64";
     SymbolicationResult.faulting_thread_id :=
       CallStack.thread_id <$> (faulting ≫= fun i => ProcessState.threads state !! i);
     SymbolicationResult.exception_reason :=
       ProcessState.exception_reason state ≫= fun v => bounded_text v MAX_EXCEPTION_REASON_CHARS;
     SymbolicationResult.assertion :=
       ProcessState.assertion state ≫= fun v => bounded_text v MAX_ASSERTION_CHARS;
     SymbolicationResult.modules := modules;
     SymbolicationResult.threads :=
       map (map_thread (collect_statuses modules) faulting (SymbolicationLimits.frames_per_thread limits))
         (take (N.to_nat (SymbolicationLimits.threads limits))
            (sort (thread_leb faulting) (indexed_threads state))) |}.

(** * The pipeline *)

Inductive Os : Type := Windows | OtherOs.
Inductive Cpu : Type := CpuX86_64 | OtherCpu.

(** What the program uses of [minidump], [minidump-processor] and [minidump-unwind]: a dump is read
    from bytes, its streams may be missing, and processing it against prepared modules may fail.
    [runtime] says whether the runtime that drives the processor could be built. *)
Class MinidumpCrate : Type := {
  Minidump : Type;
  read_minidump : bytes -> option Minidump;
  system_info : Minidump -> option (Os * Cpu);
  thread_count : Minidump -> option N;
  module_list : Minidump -> option (list MinidumpModule.t);
  runtime : bool;
  process_minidump : Minidump -> list MinidumpModule.t -> option ProcessState.t;
}.

Section pipeline.
Context {Obj : ObjectCrate} {P : PdbCrate} {F : FileSystem} {M : MinidumpCrate}.
Context (limits : SymbolicationLimits.t).

Definition scan_limits : ArtifactScanLimits.t :=
  {| ArtifactScanLimits.entries := SymbolicationLimits.artifact_entries limits;
     ArtifactScanLimits.depth := SymbolicationLimits.artifact_depth limits;
     ArtifactScanLimits.files := SymbolicationLimits.artifacts limits;
     ArtifactScanLimits.file_bytes := SymbolicationLimits.artifact_bytes limits;
     ArtifactScanLimits.total_bytes := SymbolicationLimits.total_artifact_bytes limits |}.

(** The fuel of the scan: one directory more than the entries. *)
Definition scan_fuel : nat := N.to_nat (SymbolicationLimits.artifact_entries limits + 2).

(** [scan_symbol_root]. *)
Definition scan_symbol_root (root : path) : result SymbolicationError.t (path * ArtifactScan.t) :=
  '(file_type, _) ← ok_or InvalidSymbolRoot (symlink_metadata root);
  _ ← fail_if (match file_type with IsDir => false | _ => true end) InvalidSymbolRoot;
  canonical ← ok_or InvalidSymbolRoot (canonicalize root);
  match scan_artifacts_with_limits scan_fuel canonical scan_limits with
  | Some r => scan ← map_err ArtifactScan r; Ok (canonical, scan)
  | None => Err WorkerFailed
  end.

(** [symbolicate_bytes_inner]. *)
Definition symbolicate_bytes_inner (bs : bytes) (symbol_root : path) :
    result SymbolicationError.t SymbolicationResult.t :=
  dump ← ok_or InvalidDump (read_minidump bs);
  '(os, cpu) ← ok_or InvalidDump (system_info dump);
  _ ← fail_if (match os with Windows => false | OtherOs => true end) UnsupportedPlatform;
  _ ← fail_if (match cpu with CpuX86_64 => false | OtherCpu => true end) UnsupportedArchitecture;
  threads ← ok_or InvalidDump (thread_count dump);
  _ ← fail_if (SymbolicationLimits.threads limits <? threads)%N TooManyThreads;
  original_modules ← ok_or InvalidDump (module_list dump);
  _ ← fail_if (SymbolicationLimits.modules limits <? len original_modules)%N TooManyModules;
  '(canonical_root, scan) ← scan_symbol_root symbol_root;
  '(modules, diagnostics) ← prepare_modules original_modules scan canonical_root;
  _ ← fail_if (negb runtime) RuntimeFailed;
  state ← ok_or ProcessingFailed (process_minidump dump modules);
  Ok (build_result state diagnostics limits).

(** [read_dump]: at most one byte more than the limit is read. *)
Definition read_dump (p : path) (limit : N) : result SymbolicationError.t bytes :=
  file ← ok_or ReadDump (open_file p);
  let bs := take_at_most (saturating_add limit 1) file in
  _ ← fail_if (limit <? len bs)%N DumpTooLarge;
  Ok bs.

(** [symbolicate_inner]. *)
Definition symbolicate_inner (dump_path symbol_root : path) :
    result SymbolicationError.t SymbolicationResult.t :=
  bs ← read_dump dump_path (SymbolicationLimits.dump_bytes limits);
  symbolicate_bytes_inner bs symbol_root.

(** How the wait for the worker thread ends: it was not started, it did not answer in time, it died,
    or it answered. *)
Inductive Wait : Type := SpawnFailed | TimeoutElapsed | Disconnected | Received.

(** [run_symbolicator]. *)
Definition run_symbolicator (wait : Wait) (operation : result SymbolicationError.t SymbolicationResult.t) :
    result SymbolicationError.t SymbolicationResult.t :=
  if (SymbolicationLimits.wall_time limits =? 0)%N then Err TimedOut
  else match wait with
       | SpawnFailed => Err RuntimeFailed
       | TimeoutElapsed => Err TimedOut
       | Disconnected => Err WorkerFailed
       | Received => operation
       end.

(** [symbolicate_minidump] and [symbolicate_minidump_bytes]. *)
Definition symbolicate_minidump (wait : Wait) (dump_path symbol_root : path) :
    result SymbolicationError.t SymbolicationResult.t :=
  run_symbolicator wait (symbolicate_inner dump_path symbol_root).
Definition symbolicate_minidump_bytes (wait : Wait) (dump : bytes) (symbol_root : path) :
    result SymbolicationError.t SymbolicationResult.t :=
  if (SymbolicationLimits.dump_bytes limits <? len dump)%N then Err DumpTooLarge
  else run_symbolicator wait (symbolicate_bytes_inner dump symbol_root).
End pipeline.

(** * Lemmas *)

Lemma in_first_some {A B} (f : A -> option B) l y :
  ProjectLogTail.first_some f l = Some y -> exists x, x ∈ l /\ f x = Some y.
Proof.
  induction l as [|x l IH]; cbn; [done|]. destruct (f x) eqn:E.
  - intros [= ->]. exists x. split; [left|done].
  - intros (z & Hz & ?)%IH. exists z. split; [by right|done].
Qed.

Lemma find_Some p l a : find p l = Some a -> a ∈ l /\ p a = true.
Proof. intros [? ?]%List.find_some. split; [by apply list_elem_of_In|done]. Qed.

(** Splits boolean conjunctions and decided equalities. *)
Ltac split_bools :=
  repeat match goal with
  | H : _ && _ = true |- _ => apply andb_true_iff in H as [? ?]
  | H : bool_decide _ = true |- _ => apply bool_decide_eq_true in H
  end.

Lemma thread_order faulting : forall l r, thread_leb faulting l r = true \/ thread_leb faulting r l = true.
Proof.
  intros [i a] [j b]. unfold thread_leb. cbn.
  destruct (decide (Some i = faulting)), (decide (Some j = faulting)); cbn; auto.
  all: destruct (N.ltb_spec (CallStack.thread_id a) (CallStack.thread_id b)); cbn; auto.
  all: destruct (N.ltb_spec (CallStack.thread_id b) (CallStack.thread_id a)); cbn; auto.
  all: assert (CallStack.thread_id a = CallStack.thread_id b) as -> by lia; rewrite N.eqb_refl; cbn.
  all: rewrite !Nat.leb_le; lia.
Qed.

Lemma normal_names cs names : mapM normal_name cs = Some names -> cs = map Normal names.
Proof.
  revert names. induction cs as [|c cs IH]; intros names H; cbn in H; [by injection H as <-|].
  destruct c; try done. cbn in H. destruct (mapM normal_name cs) as [ns|]; [|done].
  injection H as <-. cbn. f_equal. by apply IH.
Qed.

Lemma path_starts_with_spec p base : path_starts_with p base = true <-> exists rest, p = base ++ rest.
Proof.
  revert p. induction base as [|b base IH]; intros p; [split; [by exists p|by destruct p]|].
  destruct p as [|c p]; [split; [done|by intros [? ?]]|].
  change (path_starts_with (c :: p) (b :: base)) with (bool_decide (b = c) && path_starts_with p base).
  rewrite andb_true_iff, bool_decide_eq_true, IH. split.
  - intros [-> [rest ->]]. by exists rest.
  - intros [rest [= -> ->]]. split; [done|by exists rest].
Qed.

Lemma parse_format_relative a : (a <= u64_max)%N -> parse_address (format_relative_address a) = Some a.
Proof.
  intros Ha. unfold parse_address, format_relative_address.
  rewrite (proj2 (strip_prefix_Some _ _ _) eq_refl). by apply from_str_radix_fmt_hex.
Qed.

Lemma parse_format a : (a <= u64_max)%N -> parse_address (format_address a) = Some a.
Proof.
  intros Ha. unfold parse_address, format_address.
  rewrite (proj2 (strip_prefix_Some _ _ _) eq_refl). by apply from_str_radix_pad.
Qed.

(** What collecting leaves at a base address that only one of the modules has. *)
Lemma collect_lookup modules (m0 : statuses) base :
  foldl (fun m module =>
    match parse_address (SymbolicatedModule.base_address module) with
    | Some base => <[base := SymbolicatedModule.status module]> m
    | None => m
    end) m0 modules !! base
  = match last (filter (fun module => parse_address (SymbolicatedModule.base_address module) = Some base) modules) with
    | Some module => Some (SymbolicatedModule.status module)
    | None => m0 !! base
    end.
Proof.
  revert m0. induction modules as [|m modules IH]; intros m0; [done|]. cbn [foldl]. rewrite IH, filter_cons.
  destruct (parse_address (SymbolicatedModule.base_address m)) as [b|].
  - destruct (decide (Some b = Some base)) as [[= ->]|Hb].
    + rewrite last_cons. destruct (last _); [done|]. by rewrite lookup_insert_eq.
    + destruct (last _); [done|]. rewrite lookup_insert_ne by congruence. done.
  - by rewrite decide_False.
Qed.

Lemma sort_first {A} (leb : A -> A -> bool) l x :
  x ∈ l -> (forall y, y ∈ l -> leb x y = true) ->
  (forall y, y ∈ l -> leb y x = true -> y = x) -> head (sort leb l) = Some x.
Proof.
  induction l as [|z l IH]; intros Hin Hmin Huniq; [by apply not_elem_of_nil in Hin|]. cbn [sort].
  assert (Hz : forall y, y ∈ sort leb l -> y ∈ l) by (intros y; by rewrite sort_perm).
  apply elem_of_cons in Hin as [<-|Hl].
  2: { assert (Hh : head (sort leb l) = Some x).
    { apply IH; [done|intros y Hy; apply Hmin; by right|intros y Hy; apply Huniq; by right]. }
    destruct (sort leb l) as [|w k] eqn:E; [done|]. injection Hh as ->. cbn.
    destruct (leb z x) eqn:Ez; [|done]. cbn. f_equal. apply Huniq; [left|done]. }
  destruct (sort leb l) as [|w k]; [done|]. cbn.
  rewrite (Hmin w); [done|]. right. apply Hz. left.
Qed.

Lemma faulting_lookup state i :
  faulting_index state = Some i -> exists t, ProcessState.threads state !! i = Some t.
Proof.
  unfold faulting_index. destruct (ProcessState.requesting_thread state) as [j|]; [|done]. cbn.
  case_decide as H; [|done]. intros [= ->]. by apply lookup_lt_is_Some_2.
Qed.

Lemma faulting_first state i t :
  faulting_index state = Some i -> ProcessState.threads state !! i = Some t ->
  head (sort (thread_leb (Some i)) (indexed_threads state)) = Some (i, t).
Proof.
  intros Hi Ht. unfold indexed_threads.
  assert (Hin : forall y, y ∈ zip (seq 0 (length (ProcessState.threads state))) (ProcessState.threads state) ->
    y.1 = i -> y = (i, t)).
  { intros [j u] Hy Hj. cbn in Hj. subst j. apply zip_seq_lookup in Hy as [_ Hy]. rewrite Nat.sub_0_r in Hy.
    congruence. }
  apply sort_first.
  - apply zip_seq_lookup. rewrite Nat.sub_0_r. split; [lia|done].
  - intros y Hy. destruct (decide (y.1 = i)) as [E|E].
    + rewrite (Hin y Hy E). destruct (thread_order (Some i) (i, t) (i, t)); done.
    + unfold thread_leb. cbn. rewrite (decide_True (P := Some i = Some i)) by done.
      rewrite (decide_False (P := Some y.1 = Some i)) by congruence. done.
  - intros y Hy Hle. apply Hin; [done|]. destruct (decide (y.1 = i)) as [|E]; [done|]. exfalso.
    unfold thread_leb in Hle. cbn in Hle. rewrite (decide_True (P := Some i = Some i)) in Hle by done.
    rewrite (decide_False (P := Some y.1 = Some i)) in Hle by congruence. done.
Qed.

Lemma resolve_inversion {F : FileSystem} root relative p :
  resolve_artifact root relative = Ok p ->
  exists names rest, components (as_bytes relative) = map Normal names
  /\ (exists size, symlink_metadata (root ++ names) = Some (IsFile, size))
  /\ canonicalize (root ++ names) = Some p /\ p = root ++ rest.
Proof.
  intros H. unfold resolve_artifact in H. inv_ok.
  destruct a0 as [[] size]; inv_ok; try done.
  match goal with E : mapM _ _ = Some _ |- _ => apply normal_names in E end.
  match goal with E : negb _ = false |- _ => apply negb_false_iff, path_starts_with_spec in E as [rest ->] end.
  exists a, rest. split_and!; try done. by exists size.
Qed.

Lemma transpose_Ok {A B} (f : A -> result SymbolicationError.t B) o b :
  transpose f o = Ok b -> forall a, o = Some a -> exists x, b = Some x /\ f a = Ok x.
Proof. intros H a ->. cbn in H. destruct (f a) as [x|]; [|done]. injection H as <-. by exists x. Qed.

Section prepared.
Context {F : FileSystem}.

Lemma prepare_each_Ok artifacts root fallback modules ps :
  prepare_each artifacts root fallback modules = Ok ps ->
  length ps = length modules
  /\ forall p, p ∈ ps -> exists m, m ∈ modules /\ prepare_module artifacts root fallback m = Ok p.
Proof.
  revert ps. induction modules as [|m modules IH]; intros ps H; cbn [prepare_each] in H; inv_ok.
  - split; [done|]. intros p Hp. by apply not_elem_of_nil in Hp.
  - match goal with E : prepare_each _ _ _ _ = Ok _ |- _ => apply IH in E as [Hl Hin] end.
    split; [cbn; by rewrite Hl|]. intros p [->|Hp]%elem_of_cons.
    + exists m. split; [left|done].
    + destruct (Hin p Hp) as (m' & ? & ?). exists m'. split; [by right|done].
Qed.

(** The artifacts of a diagnostic resolve below the root. *)
Lemma prepare_module_Ok artifacts root fallback m lm d :
  prepare_module artifacts root fallback m = Ok (lm, d) ->
  forall relative, SymbolicatedModule.pe d = Some relative \/ SymbolicatedModule.pdb d = Some relative ->
  exists p, resolve_artifact root relative = Ok p.
Proof.
  intros H relative Hd. unfold prepare_module in H. inv_ok.
  cbn in Hd. set (s := choose_artifacts _ _ _ _) in *.
  destruct Hd as [Hd|Hd]; apply fmap_Some in Hd as (a' & Ha & ->);
    repeat match goal with E : transpose _ _ = Ok _ |- _ => pose proof (transpose_Ok _ _ _ E _ Ha); clear E end;
    naive_solver.
Qed.
End prepared.

(** The fuel of the scan is enough. *)
Lemma scan_returns {Obj : ObjectCrate} {P : PdbCrate} {F : FileSystem} limits root :
  is_Some (scan_artifacts_with_limits (scan_fuel limits) root (scan_limits limits)).
Proof.
  unfold scan_artifacts_with_limits. destruct (symlink_metadata root) as [[[] size]|]; try by eexists.
  destruct (discover_loop_spec (scan_limits limits) (scan_fuel limits) root ([([], 0%N)], 0%N, Discovered.empty)
    (accounted_empty _)) as [[r Hr] _].
  - unfold work, scan_fuel, len. cbn. lia.
  - unfold discover_files. rewrite Hr. by eexists.
Qed.

Lemma scan_symbol_root_Ok {Obj : ObjectCrate} {P : PdbCrate} {F : FileSystem} limits root canonical scan :
  scan_symbol_root limits root = Ok (canonical, scan) -> canonicalize root = Some canonical.
Proof.
  unfold scan_symbol_root. intros H. inv_pairs.
  destruct (scan_artifacts_with_limits _ _ _); inv_ok. done.
Qed.

Lemma prepare_modules_Ok {F : FileSystem} modules scan canonical locals diagnostics :
  prepare_modules modules scan canonical = Ok (locals, diagnostics) ->
  length diagnostics = length modules
  /\ forall d relative, d ∈ diagnostics ->
       SymbolicatedModule.pe d = Some relative \/ SymbolicatedModule.pdb d = Some relative ->
       exists rest, resolve_artifact canonical relative = Ok (canonical ++ rest).
Proof.
  unfold prepare_modules. intros H. inv_ok.
  match goal with E : prepare_each _ _ _ _ = Ok _ |- _ => apply prepare_each_Ok in E as [Hl Hin] end.
  split; [by rewrite sort_perm, length_map, Hl|]. intros d relative Hd.
  rewrite sort_perm in Hd. apply list_elem_of_fmap in Hd as ([lm d'] & -> & Hd).
  destruct (Hin _ Hd) as (m & _ & Hm). intros Hr. destruct (prepare_module_Ok _ _ _ _ _ _ Hm _ Hr) as [p Hp].
  pose proof (resolve_inversion _ _ _ Hp) as (? & rest & _ & _ & _ & ->). by exists rest.
Qed.

Lemma build_result_threads state modules limits :
  (len (SymbolicationResult.threads (build_result state modules limits)) <= SymbolicationLimits.threads limits)%N.
Proof.
  unfold build_result. cbn [SymbolicationResult.threads]. unfold len. rewrite length_map. apply len_take.
Qed.

(** * Properties *)

(** Artifacts are chosen exactly.  A module is [Matched] only when one scanned x64 executable has
    both the code identifier and the debug identifier of the module and one scanned x64 debug file is
    among the executable's matches; no debug file is ever chosen without its executable, and without
    a code identifier nothing is. *)
Theorem chosen_artifacts_are_exact name code_id debug_id artifacts :
  let s := choose_artifacts name code_id debug_id artifacts in
  (ArtifactSelection.status s = ModuleSymbolStatus.Matched <->
     ArtifactSelection.pe s <> None /\ ArtifactSelection.pdb s <> None)
  /\ (forall pe, ArtifactSelection.pe s = Some pe ->
        pe ∈ artifacts /\ is_pe (ArtifactRecord.artifact_type pe) = true
        /\ ArtifactRecord.error pe = None /\ ArtifactRecord.architecture pe = Some X86_64
        /\ code_id <> None /\ ArtifactRecord.code_id pe = code_id
        /\ (debug_id <> None -> ArtifactRecord.debug_id pe = debug_id))
  /\ (forall pdb, ArtifactSelection.pdb s = Some pdb ->
        exists pe, ArtifactSelection.pe s = Some pe /\ ArtifactRecord.path pdb ∈ ArtifactRecord.matches pe
        /\ debug_id <> None /\ pdb ∈ artifacts /\ ArtifactRecord.artifact_type pdb = PdbFile
        /\ ArtifactRecord.error pdb = None /\ ArtifactRecord.architecture pdb = Some X86_64).
Proof.
  cbn zeta. unfold choose_artifacts. destruct code_id as [code|]; cbn [mbind option_bind]; [|naive_solver].
  destruct (find (is_exact_pe code debug_id) artifacts) as [pe|] eqn:E.
  2: { cbn. split_and!; [|done|done]. destruct (existsb _ _); naive_solver. }
  apply find_Some in E as [Hin Hpe]. unfold is_exact_pe, usable_pe in Hpe.
  destruct debug_id as [d|]; cbn; split_bools.
  - split_and!.
    + destruct (ProjectLogTail.first_some _ _); naive_solver.
    + intros ? [= <-]. by split_and!.
    + intros pdb Hp. apply in_first_some in Hp as (p & Hp & Hf). apply find_Some in Hf as [Hpdb Hf].
      unfold is_pdb_at in Hf. split_bools. subst. exists pe. by split_and!.
  - split_and!; [naive_solver| |done]. intros ? [= <-]. by split_and!.
Qed.

(** No artifact path leaves the symbol root.  A path that resolves is made of normal components
    only, names a regular file that is not a symbolic link, and its canonical form is below the
    root. *)
Theorem resolved_artifact_is_confined {F : FileSystem} root relative p :
  resolve_artifact root relative = Ok p ->
  exists names rest, components (as_bytes relative) = map Normal names
  /\ (exists size, symlink_metadata (root ++ names) = Some (IsFile, size))
  /\ canonicalize (root ++ names) = Some p /\ p = root ++ rest.
Proof. apply resolve_inversion. Qed.

(** The result is bounded and starts with the crash.  At most [threads] threads are kept, each with
    at most [frames_per_thread] of its frames and a flag that says exactly whether frames were cut;
    when the dump names a faulting thread it is kept first, it alone is marked, and its identifier is
    reported. *)
Theorem result_is_bounded_and_faulting_first state modules limits :
  let r := build_result state modules limits in
  (len (SymbolicationResult.threads r) <= SymbolicationLimits.threads limits)%N
  /\ (forall t, t ∈ SymbolicationResult.threads r -> exists i c,
        ProcessState.threads state !! i = Some c
        /\ SymbolicatedThread.thread_id t = CallStack.thread_id c
        /\ (SymbolicatedThread.faulting t = true <-> faulting_index state = Some i)
        /\ (len (SymbolicatedThread.frames t) <= SymbolicationLimits.frames_per_thread limits)%N
        /\ (SymbolicatedThread.frames_truncated t = true
             <-> (len (SymbolicatedThread.frames t) < len (CallStack.frames c))%N))
  /\ (forall i, faulting_index state = Some i -> (0 < SymbolicationLimits.threads limits)%N ->
        exists t ts, SymbolicationResult.threads r = t :: ts /\ SymbolicatedThread.faulting t = true
        /\ SymbolicationResult.faulting_thread_id r = Some (SymbolicatedThread.thread_id t)).
Proof.
  cbn zeta. unfold build_result. cbn [SymbolicationResult.threads SymbolicationResult.faulting_thread_id].
  split_and!.
  - apply (build_result_threads state modules limits).
  - intros t (ic & -> & Hic)%list_elem_of_fmap. destruct ic as [i c].
    assert (Hk : (i, c) ∈ sort (thread_leb (faulting_index state)) (indexed_threads state))
      by (rewrite <-(take_drop (N.to_nat (SymbolicationLimits.threads limits))); apply elem_of_app; by left).
    rewrite sort_perm in Hk. apply zip_seq_lookup in Hk as [_ Hc]. rewrite Nat.sub_0_r in Hc.
    exists i, c. cbn. split_and!; [done|done| |unfold len; rewrite length_map; apply len_take|].
    + rewrite bool_decide_eq_true. naive_solver.
    + rewrite N.ltb_lt. unfold len. rewrite length_map, length_take. lia.
  - intros i Hi Hn. destruct (faulting_lookup _ _ Hi) as [c Hc].
    pose proof (faulting_first state i c Hi Hc) as Hh. rewrite Hi.
    destruct (sort _ _) as [|ic ics]; [done|]. injection Hh as ->.
    destruct (N.to_nat (SymbolicationLimits.threads limits)) as [|n] eqn:En; [lia|].
    cbn [take map]. eexists _, _. split; [done|]. cbn. rewrite bool_decide_true by done.
    by rewrite Hc.
Qed.

(** Addresses survive their text form: parsing an absolute or a relative address as the results
    carry it gives the address back. *)
Theorem addresses_round_trip a :
  (a <= u64_max)%N ->
  parse_address (format_address a) = Some a /\ parse_address (format_relative_address a) = Some a.
Proof. intros Ha. split; [by apply parse_format|by apply parse_format_relative]. Qed.

(** An unresolved frame reports why.  A frame without a function name, in a module whose base
    address only one diagnostic has, carries the status of that diagnostic. *)
Theorem unresolved_frame_reports_its_module pre post m base frame :
  (base <= u64_max)%N ->
  SymbolicatedModule.base_address m = format_address base ->
  Forall (fun m' => SymbolicatedModule.base_address m' <> format_address base) (pre ++ post) ->
  Forall (fun m' => exists b, (b <= u64_max)%N /\ SymbolicatedModule.base_address m' = format_address b) (pre ++ post) ->
  StackFrame.function_name frame = None ->
  snd <$> StackFrame.module frame = Some base ->
  SymbolicatedFrame.symbol_status (map_frame (collect_statuses (pre ++ m :: post)) frame)
    = frame_status (SymbolicatedModule.status m).
Proof.
  intros Hb Hm Hne Hfmt Hf Hbase. unfold map_frame. cbn [SymbolicatedFrame.symbol_status]. rewrite Hf, Hbase.
  cbn [mbind option_bind]. unfold collect_statuses. rewrite collect_lookup.
  assert (Hnone : forall l, l ⊆ pre ++ post ->
    filter (fun module => parse_address (SymbolicatedModule.base_address module) = Some base) l = []).
  { intros l Hl. apply filter_nil_iff || idtac. destruct (filter _ l) as [|x k] eqn:E; [done|]. exfalso.
    assert (Hx : x ∈ filter (fun module => parse_address (SymbolicatedModule.base_address module) = Some base) l)
      by (rewrite E; left). apply list_elem_of_filter in Hx as [Hx Hin]. apply Hl in Hin.
    rewrite Forall_forall in Hne, Hfmt. destruct (Hfmt x Hin) as (b & Hb' & Eb).
    rewrite Eb, parse_format in Hx by done. injection Hx as ->. by apply (Hne x Hin). }
  rewrite filter_app, filter_cons, Hm, parse_format, decide_True by done.
  rewrite (Hnone pre), (Hnone post) by set_solver. done.
Qed.

(** C33: a symbolication that succeeds stayed within every limit.  The dump was not larger than its
    limit, a wall time was allowed and the worker answered in it; the result has one diagnostic for
    every module of the dump, in the order of the diagnostics and within the module limit, and at most
    [threads] threads; and every artifact that a diagnostic names resolves to a regular file below the
    canonical symbol root. *)
Theorem symbolication_is_confined_and_bounded
    {Obj : ObjectCrate} {P : PdbCrate} {F : FileSystem} {M : MinidumpCrate} limits wait dump root r :
  symbolicate_minidump_bytes limits wait dump root = Ok r ->
  (len dump <= SymbolicationLimits.dump_bytes limits)%N
  /\ SymbolicationLimits.wall_time limits <> 0%N /\ wait = Received
  /\ (exists d modules, read_minidump dump = Some d /\ system_info d = Some (Windows, CpuX86_64)
        /\ module_list d = Some modules
        /\ length (SymbolicationResult.modules r) = length modules)
  /\ (len (SymbolicationResult.modules r) <= SymbolicationLimits.modules limits)%N
  /\ (len (SymbolicationResult.threads r) <= SymbolicationLimits.threads limits)%N
  /\ (exists canonical, canonicalize root = Some canonical
        /\ forall d relative, d ∈ SymbolicationResult.modules r ->
             SymbolicatedModule.pe d = Some relative \/ SymbolicatedModule.pdb d = Some relative ->
             exists rest, resolve_artifact canonical relative = Ok (canonical ++ rest)).
Proof.
  intros H. unfold symbolicate_minidump_bytes in H. destruct (_ <? _)%N eqn:Hd in H; [done|].
  apply N.ltb_ge in Hd. unfold run_symbolicator in H. destruct (_ =? _)%N eqn:Hw in H; [done|].
  apply N.eqb_neq in Hw. destruct wait; try done. unfold symbolicate_bytes_inner in H. inv_pairs.
  destruct (_ : Os); [|done]. destruct (_ : Cpu); [|done].
  match goal with E : (_ <? len _)%N = false |- _ => apply N.ltb_ge in E end.
  match goal with E : scan_symbol_root _ _ = _ |- _ => apply scan_symbol_root_Ok in E end.
  match goal with E : prepare_modules _ _ _ = _ |- _ => apply prepare_modules_Ok in E as [Hl Hr] end.
  cbn [SymbolicationResult.modules build_result]. split_and!; try done.
  - eexists _, _. by split_and!.
  - unfold len. by rewrite Hl.
  - apply build_result_threads.
  - eexists. split; [done|exact Hr].
Qed.

(** * Samples *)

(** A symbol root that holds one executable, seen through crates that parse nothing. *)
Definition symbol_fs : FileSystem := {|
  symlink_metadata := fun p =>
    if decide (p = [byt "root"]) then Some (IsDir, 0%N)
    else if decide (p = [byt "root"; byt "a.exe"]) then Some (IsFile, 3%N) else None;
  metadata_len := fun _ => Some 3%N;
  open_file := fun _ => Some (byt "MZ!");
  read_dir := fun _ =>
    Some [Some {| DirEntry.name := byt "a.exe"; DirEntry.file_type := Some IsFile; DirEntry.size := Some 3%N |}];
  canonicalize := Some |}.

Definition opaque_objects : ObjectCrate :=
  {| Artifacts.read_cache := fun bs _ _ => None; parse_kind := fun _ => None; parse_pe_file := fun _ _ => None |}.
Definition opaque_pdbs : PdbCrate := {| pdb_information := fun _ => None; machine_type := fun _ => OtherMachine |}.

Definition sample_frame (function : option text) : StackFrame.t :=
  {| StackFrame.instruction := 4112; StackFrame.module := Some (txt "C:\game\a.exe", 4096%N);
     StackFrame.trust := txt "context"; StackFrame.function_name := function;
     StackFrame.source_file_name := None; StackFrame.source_line := None; StackFrame.inlines := [] |}.
Definition sample_stack (id : N) : CallStack.t :=
  {| CallStack.thread_id := id; CallStack.thread_name := None; CallStack.info := CallStackInfo.Ok;
     CallStack.frames := [sample_frame None; sample_frame (Some (txt "main"))] |}.

(** A dump of two threads and one module; the second thread faulted. *)
Definition sample_minidumps : MinidumpCrate := {|
  Minidump := ();
  read_minidump := fun bs => if decide (bs = byt "MDMP") then Some () else None;
  system_info := fun _ => Some (Windows, CpuX86_64);
  thread_count := fun _ => Some 2%N;
  module_list := fun _ =>
    Some [{| MinidumpModule.name := txt "C:\game\a.exe"; MinidumpModule.base_address := 4096;
             MinidumpModule.size := 8192; MinidumpModule.code_identifier := Some (txt "5f00aa");
             MinidumpModule.debug_identifier := Some (txt "ab"); MinidumpModule.codeview_info := None |}];
  runtime := true;
  process_minidump := fun _ _ =>
    Some {| ProcessState.threads := [sample_stack 7; sample_stack 9]; ProcessState.requesting_thread := Some 1;
            ProcessState.exception_reason := Some (txt "EXCEPTION"); ProcessState.assertion := None |} |}.

(** Limits small enough to compute with. *)
Definition small_limits : SymbolicationLimits.t :=
  {| SymbolicationLimits.dump_bytes := 16; SymbolicationLimits.artifact_entries := 4;
     SymbolicationLimits.artifact_depth := 2; SymbolicationLimits.artifacts := 4;
     SymbolicationLimits.artifact_bytes := 8; SymbolicationLimits.total_artifact_bytes := 8;
     SymbolicationLimits.threads := 2; SymbolicationLimits.modules := 2;
     SymbolicationLimits.frames_per_thread := 1; SymbolicationLimits.wall_time := 120 |}.

Definition symbolicate_sample (dump : bytes) : result SymbolicationError.t SymbolicationResult.t :=
  symbolicate_minidump_bytes (Obj := opaque_objects) (P := opaque_pdbs) (F := symbol_fs) (M := sample_minidumps)
    small_limits Received dump [byt "root"].

Definition sample_result : SymbolicationResult.t :=
  match symbolicate_sample (byt "MDMP") with
  | Ok r => r
  | Err _ => build_result {| ProcessState.threads := []; ProcessState.requesting_thread := None;
      ProcessState.exception_reason := None; ProcessState.assertion := None |} [] small_limits
  end.

Example sample_threads :
  map SymbolicatedThread.thread_id (SymbolicationResult.threads sample_result) = [9; 7]%N
  /\ map SymbolicatedThread.frames_truncated (SymbolicationResult.threads sample_result) = [true; true]
  /\ map SymbolicatedModule.status (SymbolicationResult.modules sample_result) = [ModuleSymbolStatus.MissingPe]
  /\ symbolicate_sample (byt "PMDM") = Err InvalidDump.
Proof. vm_compute. done. Qed.

Lemma resolved_artifact_is_confined_witness :
  exists names rest,
  components (as_bytes (txt "a.exe")) = map Normal names
  /\ (exists size, symlink_metadata (FileSystem := symbol_fs) ([byt "root"] ++ names) = Some (IsFile, size))
  /\ canonicalize (FileSystem := symbol_fs) ([byt "root"] ++ names) = Some [byt "root"; byt "a.exe"]
  /\ [byt "root"; byt "a.exe"] = [byt "root"] ++ rest.
Proof.
  destruct (resolved_artifact_is_confined (F := symbol_fs) [byt "root"] (txt "a.exe") [byt "root"; byt "a.exe"])
    as (names & rest & H); [vm_compute; reflexivity|].
  exists names, rest. exact H.
Defined.

Lemma addresses_round_trip_witness :
  parse_address (format_address 140737488355327) = Some 140737488355327%N
  /\ parse_address (format_relative_address 140737488355327) = Some 140737488355327%N.
Proof. apply (addresses_round_trip 140737488355327). vm_compute. discriminate. Defined.

Definition sample_module (base : N) (status : ModuleSymbolStatus.t) : SymbolicatedModule.t :=
  {| SymbolicatedModule.module := txt "a.exe"; SymbolicatedModule.base_address := format_address base;
     SymbolicatedModule.size := 8192; SymbolicatedModule.code_id := None; SymbolicatedModule.debug_id := None;
     SymbolicatedModule.status := status; SymbolicatedModule.pe := None; SymbolicatedModule.pdb := None;
     SymbolicatedModule.symcache_format := None |}.

Lemma unresolved_frame_reports_its_module_witness :
  SymbolicatedFrame.symbol_status
    (map_frame (collect_statuses ([sample_module 1 ModuleSymbolStatus.Matched] ++
       sample_module 4096 ModuleSymbolStatus.MissingPdb :: [sample_module 2 ModuleSymbolStatus.MissingPe]))
       (sample_frame None))
  = FrameSymbolStatus.MissingPdb.
Proof.
  apply (unresolved_frame_reports_its_module [sample_module 1 ModuleSymbolStatus.Matched]
    [sample_module 2 ModuleSymbolStatus.MissingPe] (sample_module 4096 ModuleSymbolStatus.MissingPdb) 4096).
  - vm_compute. discriminate.
  - reflexivity.
  - apply Forall_cons_2; [vm_compute; discriminate|apply Forall_cons_2; [vm_compute; discriminate|apply Forall_nil_2]].
  - apply Forall_cons_2; [exists 1%N; split; [vm_compute; discriminate|reflexivity]|].
    apply Forall_cons_2; [exists 2%N; split; [vm_compute; discriminate|reflexivity]|apply Forall_nil_2].
  - reflexivity.
  - reflexivity.
Defined.

Lemma symbolication_is_confined_and_bounded_witness :
  (len (byt "MDMP") <= 16)%N
  /\ (len (SymbolicationResult.modules sample_result) <= 2)%N
  /\ (len (SymbolicationResult.threads sample_result) <= 2)%N.
Proof.
  destruct (symbolication_is_confined_and_bounded (Obj := opaque_objects) (P := opaque_pdbs) (F := symbol_fs)
    (M := sample_minidumps) small_limits Received (byt "MDMP") [byt "root"] sample_result)
    as (Hd & _ & _ & _ & Hm & Ht & _); [vm_compute; reflexivity|].
  split; [exact Hd|]. split; [exact Hm|exact Ht].
Defined.
