(* ===== verification/Symcache.v ===== *)
(** Derived symbol caches ([crates/symbols/src/symcache.rs]): generating a cache from a debug file,
    reading one back, and resolving the frames of a symbolication from the caches whose embedded
    identity is exactly that of a module.  The [symbolic] crates are an interface. *)

From S2P Require Import Prelude Text LogTail Pdb Artifacts Symbolicate.
Import SymbolicationError.

Definition SYMCACHE_PROCESSOR_VERSION : text := txt "symbolic-symcache-13.3.1".
Definition MAX_SYMCACHE_BYTES : N := 64 * 1024 * 1024.

Module SymCacheArtifact.
Record t : Type := Mk { debug_id : text; path : Artifacts.path }.
End SymCacheArtifact.

Module SymCacheMetadata.
Record t : Type := Mk {
  schema_version : N; processor_version : text; format_version : N; debug_id : text;
  architecture : text; byte_size : N }.
End SymCacheMetadata.

Inductive SymCacheGenerationError : Type :=
| InvalidInput | InputTooLarge | InvalidDebugFile | ConversionFailed | OutputTooLarge | WriteFailed.

(** * What the symbolic crates give *)

Module Location.
Record t : Type := Mk { function_name : text; file : option text; line : N }.
End Location.

(** [SymCache::parse] and what is asked of a cache, [DebugId], and the converter.  [convert] is
    [process_object] followed by [serialize]. *)
Class SymbolicCrate : Type := {
  DebugId : Type;
  #[global] DebugId_eq_dec :: EqDecision DebugId;
  debug_id_from_str : text -> option DebugId;
  debug_id_to_string : DebugId -> text;
  SymCache : Type;
  parse_symcache : bytes -> option SymCache;
  cache_debug_id : SymCache -> DebugId;
  cache_arch : SymCache -> text;
  cache_version : SymCache -> N;
  is_latest : SymCache -> bool;
  cache_lookup : SymCache -> N -> list Location.t;
  DebugObject : Type;
  parse_object : bytes -> option DebugObject;
  is_pdb_object : DebugObject -> bool;
  convert : DebugObject -> option bytes;
}.

(** The output of the generation: [create_new] opens a path that does not exist, and writing and
    syncing the bytes may fail. *)
Class OutputFile : Type := {
  create_new : path -> bool;
  write_and_sync : path -> bytes -> bool;
}.

Section symcache.
Context {F : FileSystem} {Sy : SymbolicCrate}.

(** * Generation *)

(** [generate_symcache], with the bytes that it published. *)
Definition generate_symcache {W : OutputFile} (input output : path) (maximum_input_bytes : N) :
    result SymCacheGenerationError (SymCacheMetadata.t * bytes) :=
  '(file_type, size) ← ok_or InvalidInput (symlink_metadata input);
  _ ← fail_if (match file_type with IsFile => false | _ => true end) InvalidInput;
  _ ← fail_if (maximum_input_bytes <? size)%N InputTooLarge;
  view ← ok_or InvalidInput (open_file input);
  object ← ok_or InvalidDebugFile (parse_object view);
  _ ← fail_if (negb (is_pdb_object object)) InvalidDebugFile;
  bs ← ok_or ConversionFailed (convert object);
  _ ← fail_if (MAX_SYMCACHE_BYTES <? len bs)%N OutputTooLarge;
  cache ← ok_or ConversionFailed (parse_symcache bs);
  _ ← fail_if (negb (is_latest cache)) ConversionFailed;
  _ ← fail_if (negb (create_new output)) WriteFailed;
  _ ← fail_if (negb (write_and_sync output bs)) WriteFailed;
  Ok ({| SymCacheMetadata.schema_version := 1;
         SymCacheMetadata.processor_version := SYMCACHE_PROCESSOR_VERSION;
         SymCacheMetadata.format_version := cache_version cache;
         SymCacheMetadata.debug_id := to_ascii_uppercase (debug_id_to_string (cache_debug_id cache));
         SymCacheMetadata.architecture := cache_arch cache;
         SymCacheMetadata.byte_size := len bs |}, bs).

(** * Reading *)

(** [read_cache]. *)
Definition read_cache (p : path) : result SymbolicationError.t bytes :=
  '(file_type, size) ← ok_or InvalidSymCache (symlink_metadata p);
  _ ← fail_if (match file_type with IsFile => false | _ => true end) InvalidSymCache;
  _ ← fail_if (MAX_SYMCACHE_BYTES <? size)%N SymCacheTooLarge;
  file ← ok_or InvalidSymCache (open_file p);
  let bs := take_at_most (MAX_SYMCACHE_BYTES + 1) file in
  _ ← fail_if (MAX_SYMCACHE_BYTES <? len bs)%N SymCacheTooLarge;
  Ok bs.

(** [parse_relative_address]. *)
Definition parse_relative_address (value : text) : option N :=
  strip_prefix value (txt "0x") ≫= from_str_radix_16.

(** * Resolution *)

(** A name that says nothing. *)
Definition anonymous (function : text) : bool :=
  bool_decide (function = []) || bool_decide (function = txt "?").

Definition positive_line (line : N) : option N := if (0 <? line)%N then Some line else None.

(** The inline frames: the anonymous ones are dropped. *)
Definition inline_symbol (inline : Location.t) : option InlineSymbol.t :=
  if anonymous (Location.function_name inline) then None
  else Some {| InlineSymbol.function := Location.function_name inline;
               InlineSymbol.source_file := Location.file inline;
               InlineSymbol.source_line := positive_line (Location.line inline) |}.

(** The body of the loop over frames; [None] where the loop continues. *)
Definition resolve_frame (cache : SymCache) (module_name : text) (frame : SymbolicatedFrame.t) :
    option SymbolicatedFrame.t :=
  m ← SymbolicatedFrame.module frame;
  if negb (eq_ignore_ascii_case m module_name) then None else
  address ← SymbolicatedFrame.module_relative frame ≫= parse_relative_address;
  match cache_lookup cache address with
  | [] => None
  | location :: locations =>
      if anonymous (Location.function_name location) then None
      else Some {| SymbolicatedFrame.instruction := SymbolicatedFrame.instruction frame;
                   SymbolicatedFrame.module := SymbolicatedFrame.module frame;
                   SymbolicatedFrame.module_relative := SymbolicatedFrame.module_relative frame;
                   SymbolicatedFrame.trust := SymbolicatedFrame.trust frame;
                   SymbolicatedFrame.symbol_status := FrameSymbolStatus.Resolved;
                   SymbolicatedFrame.function := Some (Location.function_name location);
                   SymbolicatedFrame.source_file := Location.file location;
                   SymbolicatedFrame.source_line := positive_line (Location.line location);
                   SymbolicatedFrame.inlines := omap inline_symbol locations |}
  end.

(** The frames of one thread, and of all threads. *)
Definition resolve_frames (cache : SymCache) (module_name : text) (frames : list SymbolicatedFrame.t) :
    list SymbolicatedFrame.t :=
  map (fun f => default f (resolve_frame cache module_name f)) frames.
Definition resolve_thread (cache : SymCache) (module_name : text) (t : SymbolicatedThread.t) :
    SymbolicatedThread.t :=
  {| SymbolicatedThread.thread_id := SymbolicatedThread.thread_id t;
     SymbolicatedThread.faulting := SymbolicatedThread.faulting t;
     SymbolicatedThread.name := SymbolicatedThread.name t;
     SymbolicatedThread.unwind_status := SymbolicatedThread.unwind_status t;
     SymbolicatedThread.frames_truncated := SymbolicatedThread.frames_truncated t;
     SymbolicatedThread.frames := resolve_frames cache module_name (SymbolicatedThread.frames t) |}.

(** The flag [resolved] after the loops. *)
Definition resolves_any (cache : SymCache) (module_name : text) (threads : list SymbolicatedThread.t) : bool :=
  existsb (fun t => existsb (fun f => bool_decide (is_Some (resolve_frame cache module_name f)))
                      (SymbolicatedThread.frames t)) threads.

(** What is set on a module when one of its frames was resolved. *)
Definition mark_resolved (cache : SymCache) (m : SymbolicatedModule.t) : SymbolicatedModule.t :=
  {| SymbolicatedModule.module := SymbolicatedModule.module m;
     SymbolicatedModule.base_address := SymbolicatedModule.base_address m;
     SymbolicatedModule.size := SymbolicatedModule.size m;
     SymbolicatedModule.code_id := SymbolicatedModule.code_id m;
     SymbolicatedModule.debug_id := SymbolicatedModule.debug_id m;
     SymbolicatedModule.status := ModuleSymbolStatus.Matched;
     SymbolicatedModule.pe := SymbolicatedModule.pe m;
     SymbolicatedModule.pdb := SymbolicatedModule.pdb m;
     SymbolicatedModule.symcache_format := Some (cache_version cache) |}.

(** The map of the artifacts by identity: a repeated identity is an error. *)
Fixpoint index_artifacts (symcaches : list SymCacheArtifact.t) (artifacts : list (DebugId * SymCacheArtifact.t)) :
    result SymbolicationError.t (list (DebugId * SymCacheArtifact.t)) :=
  match symcaches with
  | [] => Ok artifacts
  | artifact :: symcaches =>
      debug_id ← ok_or InvalidSymCache (debug_id_from_str (SymCacheArtifact.debug_id artifact));
      _ ← fail_if (existsb (fun p => bool_decide (p.1 = debug_id)) artifacts) InvalidSymCache;
      index_artifacts symcaches ((debug_id, artifact) :: artifacts)
  end.
Definition artifact_of (artifacts : list (DebugId * SymCacheArtifact.t)) (debug_id : DebugId) :
    option SymCacheArtifact.t :=
  snd <$> List.find (fun p => bool_decide (p.1 = debug_id)) artifacts.

(** The module part of a result. *)
Definition set_contents (modules : list SymbolicatedModule.t) (threads : list SymbolicatedThread.t)
    (r : SymbolicationResult.t) : SymbolicationResult.t :=
  {| SymbolicationResult.schema_version := SymbolicationResult.schema_version r;
     SymbolicationResult.symbolicator_version := SymbolicationResult.symbolicator_version r;
     SymbolicationResult.minidump_version := SymbolicationResult.minidump_version r;
     SymbolicationResult.minidump_processor_version := SymbolicationResult.minidump_processor_version r;
     SymbolicationResult.minidump_unwind_version := SymbolicationResult.minidump_unwind_version r;
     SymbolicationResult.platform := SymbolicationResult.platform r;
     SymbolicationResult.architecture := SymbolicationResult.architecture r;
     SymbolicationResult.faulting_thread_id := SymbolicationResult.faulting_thread_id r;
     SymbolicationResult.exception_reason := SymbolicationResult.exception_reason r;
     SymbolicationResult.assertion := SymbolicationResult.assertion r;
     SymbolicationResult.modules := modules;
     SymbolicationResult.threads := threads |}.

(** The body of the loop over the module indices. *)
Definition apply_module (artifacts : list (DebugId * SymCacheArtifact.t)) (r : SymbolicationResult.t) (i : nat) :
    result SymbolicationError.t SymbolicationResult.t :=
  match SymbolicationResult.modules r !! i with
  | None => Ok r
  | Some m =>
      match SymbolicatedModule.debug_id m ≫= debug_id_from_str with
      | None => Ok r
      | Some debug_id =>
          match artifact_of artifacts debug_id with
          | None => Ok r
          | Some artifact =>
              bs ← read_cache (SymCacheArtifact.path artifact);
              cache ← ok_or InvalidSymCache (parse_symcache bs);
              _ ← fail_if (negb (bool_decide (cache_debug_id cache = debug_id)) || negb (is_latest cache))
                    SymCacheIdentityMismatch;
              let threads := SymbolicationResult.threads r in
              let name := SymbolicatedModule.module m in
              let m' := if resolves_any cache name threads && bool_decide (is_Some (SymbolicatedModule.pe m))
                        then mark_resolved cache m else m in
              Ok (set_contents (<[i := m']> (SymbolicationResult.modules r))
                    (map (resolve_thread cache name) threads) r)
          end
      end
  end.

Fixpoint apply_modules (artifacts : list (DebugId * SymCacheArtifact.t)) (indices : list nat)
    (r : SymbolicationResult.t) : result SymbolicationError.t SymbolicationResult.t :=
  match indices with
  | [] => Ok r
  | i :: indices => r ← apply_module artifacts r i; apply_modules artifacts indices r
  end.

(** [symbolicate_minidump_bytes_with_symcaches]. *)
Definition symbolicate_minidump_bytes_with_symcaches {Obj : ObjectCrate} {P : PdbCrate} {M : MinidumpCrate}
    (wait : Wait) (dump : bytes) (symbols : path) (symcaches : list SymCacheArtifact.t)
    (limits : SymbolicationLimits.t) : result SymbolicationError.t SymbolicationResult.t :=
  r ← symbolicate_minidump_bytes limits wait dump symbols;
  artifacts ← index_artifacts symcaches [];
  apply_modules artifacts (seq 0 (length (SymbolicationResult.modules r))) r.
End symcache.

(** * What resolution may change *)

Section improvement.
Context {F : FileSystem} {Sy : SymbolicCrate}.
Variable symcaches : list SymCacheArtifact.t.

(** A cache that may speak for an identity: the file of one of the given artifacts, with that identity
    asked for and embedded, in the latest format. *)
Definition trusted (id : DebugId) (cache : SymCache) : Prop :=
  exists a bs, a ∈ symcaches /\ debug_id_from_str (SymCacheArtifact.debug_id a) = Some id
  /\ read_cache (SymCacheArtifact.path a) = Ok bs /\ parse_symcache bs = Some cache
  /\ cache_debug_id cache = id /\ is_latest cache = true.

(** What identifies a module of the result. *)
Definition module_key (m : SymbolicatedModule.t) : text * option text :=
  (SymbolicatedModule.module m, SymbolicatedModule.debug_id m).

(** A frame whose function is the one that a trusted cache with an identity has at its address. *)
Definition resolved_with (debug_id : text) (f : SymbolicatedFrame.t) : Prop :=
  exists id cache address location locations,
  debug_id_from_str debug_id = Some id /\ trusted id cache
  /\ SymbolicatedFrame.module_relative f ≫= parse_relative_address = Some address
  /\ cache_lookup cache address = location :: locations
  /\ anonymous (Location.function_name location) = false
  /\ SymbolicatedFrame.function f = Some (Location.function_name location)
  /\ SymbolicatedFrame.symbol_status f = FrameSymbolStatus.Resolved.

(** A frame knows its module by name only, compared without case: the identity is that of some module of the
    result with the name of the module of the frame. *)
Definition names (name : text) (f : SymbolicatedFrame.t) : Prop :=
  exists module, SymbolicatedFrame.module f = Some module /\ eq_ignore_ascii_case module name = true.
Definition resolved_from (keys : list (text * option text)) (f : SymbolicatedFrame.t) : Prop :=
  exists name debug_id, (name, Some debug_id) ∈ keys /\ names name f /\ resolved_with debug_id f.

Definition frame_site (f : SymbolicatedFrame.t) : text * option text * option text * text :=
  (SymbolicatedFrame.instruction f, SymbolicatedFrame.module f, SymbolicatedFrame.module_relative f,
   SymbolicatedFrame.trust f).

Definition frame_improves (keys : list (text * option text)) (f f' : SymbolicatedFrame.t) : Prop :=
  frame_site f' = frame_site f /\ (f' = f \/ resolved_from keys f').

Definition thread_improves (keys : list (text * option text)) (t t' : SymbolicatedThread.t) : Prop :=
  SymbolicatedThread.thread_id t' = SymbolicatedThread.thread_id t
  /\ SymbolicatedThread.faulting t' = SymbolicatedThread.faulting t
  /\ SymbolicatedThread.name t' = SymbolicatedThread.name t
  /\ SymbolicatedThread.unwind_status t' = SymbolicatedThread.unwind_status t
  /\ SymbolicatedThread.frames_truncated t' = SymbolicatedThread.frames_truncated t
  /\ Forall2 (frame_improves keys) (SymbolicatedThread.frames t) (SymbolicatedThread.frames t').

Definition module_improves (m m' : SymbolicatedModule.t) : Prop :=
  m' = m \/ exists debug_id id cache,
    SymbolicatedModule.debug_id m = Some debug_id /\ debug_id_from_str debug_id = Some id /\ trusted id cache
    /\ SymbolicatedModule.pe m <> None /\ m' = mark_resolved cache m.

(** Only frames and modules that a trusted cache speaks for have changed. *)
Definition improves (r r' : SymbolicationResult.t) : Prop :=
  let keys := map module_key (SymbolicationResult.modules r) in
  r' = set_contents (SymbolicationResult.modules r') (SymbolicationResult.threads r') r
  /\ map module_key (SymbolicationResult.modules r') = keys
  /\ Forall2 module_improves (SymbolicationResult.modules r) (SymbolicationResult.modules r')
  /\ Forall2 (thread_improves keys) (SymbolicationResult.threads r) (SymbolicationResult.threads r').

#[local] Instance frame_preorder keys : PreOrder (frame_improves keys).
Proof.
  split; [intros f; split; auto|]. intros f g h [H1 H2] [H3 H4]. split; [congruence|].
  destruct H4 as [->|]; [done|by right].
Qed.

#[local] Instance thread_preorder keys : PreOrder (thread_improves keys).
Proof.
  split; [intros t; unfold thread_improves; split_and!; done|].
  intros t u v (? & ? & ? & ? & ? & Hf) (? & ? & ? & ? & ? & Hf'). unfold thread_improves. split_and!; try congruence.
  by etransitivity.
Qed.

#[local] Instance module_preorder : PreOrder module_improves.
Proof.
  split; [by left|]. intros a b c [->|(d & id & ca & ? & ? & ? & Hp & ->)] Hc; [done|].
  destruct Hc as [->|(d' & id' & ca' & ? & ? & ? & ? & ->)]; [right; by eexists d, id, ca|].
  right. by exists d', id', ca'.
Qed.

#[local] Instance improves_preorder : PreOrder improves.
Proof.
  split.
  - intros []. unfold improves. split_and!; done.
  - intros a b c (H1 & H2 & H3 & H4) (H5 & H6 & H7 & H8). rewrite H2 in *. unfold improves. split_and!.
    + rewrite H5, H1. done.
    + done.
    + by etransitivity.
    + by etransitivity.
Qed.

Lemma resolve_frame_site cache name f f' : resolve_frame cache name f = Some f' -> frame_site f' = frame_site f.
Proof.
  unfold resolve_frame. destruct (SymbolicatedFrame.module f) eqn:Hm; [|done]. cbn [mbind option_bind].
  destruct (negb _); [done|]. destruct (SymbolicatedFrame.module_relative f ≫= _); [|done]. cbn [mbind option_bind].
  destruct (cache_lookup _ _); [done|]. destruct (anonymous _); [done|]. intros [= <-].
  unfold frame_site. cbn. by rewrite Hm.
Qed.

Lemma resolve_frame_resolved keys cache name debug_id id f f' :
  (name, Some debug_id) ∈ keys -> debug_id_from_str debug_id = Some id -> trusted id cache ->
  resolve_frame cache name f = Some f' -> resolved_from keys f'.
Proof.
  intros Hk Hd Ht H. unfold resolve_frame in H.
  destruct (SymbolicatedFrame.module f) as [m|] eqn:Hm; [|done]. cbn [mbind option_bind] in H.
  destruct (negb _) eqn:Hn in H; [done|]. apply negb_false_iff in Hn.
  destruct (SymbolicatedFrame.module_relative f ≫= _) as [address|] eqn:Ha in H; [|done]. cbn [mbind option_bind] in H.
  destruct (cache_lookup _ _) as [|l ls] eqn:Hl in H; [done|]. destruct (anonymous _) eqn:An in H; [done|].
  injection H as <-. exists name, debug_id. split_and!; [done|by exists m|]. exists id, cache, address, l, ls. by split_and!.
Qed.

(** The artifacts that the map holds are given ones, at their own identity. *)
Definition indexed (artifacts : list (DebugId * SymCacheArtifact.t)) : Prop :=
  forall id a, artifact_of artifacts id = Some a ->
    a ∈ symcaches /\ debug_id_from_str (SymCacheArtifact.debug_id a) = Some id.

(** What the body of the loop does with a module that has an artifact. *)
Inductive module_step (r : SymbolicationResult.t) (i : nat) : SymbolicationResult.t -> Prop :=
| module_skipped : module_step r i r
| module_resolved m debug_id id cache m' :
    SymbolicationResult.modules r !! i = Some m -> SymbolicatedModule.debug_id m = Some debug_id ->
    debug_id_from_str debug_id = Some id -> trusted id cache ->
    m' = m \/ SymbolicatedModule.pe m <> None /\ m' = mark_resolved cache m ->
    module_step r i (set_contents (<[i := m']> (SymbolicationResult.modules r))
      (map (resolve_thread cache (SymbolicatedModule.module m)) (SymbolicationResult.threads r)) r).

Lemma apply_module_step artifacts r i r' :
  indexed artifacts -> apply_module artifacts r i = Ok r' -> module_step r i r'.
Proof.
  intros Hi H. unfold apply_module in H.
  destruct (SymbolicationResult.modules r !! i) as [m|] eqn:Hm; [|injection H as <-; constructor].
  destruct (SymbolicatedModule.debug_id m) as [d|] eqn:Hd; cbn [mbind option_bind] in H;
    [|injection H as <-; constructor].
  destruct (debug_id_from_str d) as [id|] eqn:Hid; [|injection H as <-; constructor].
  destruct (artifact_of artifacts id) as [a|] eqn:Ha; [|injection H as <-; constructor].
  apply Hi in Ha as [Hin Ha]. inv_ok.
  match goal with E : _ || _ = false |- _ => apply orb_false_iff in E as [E1 E2] end.
  apply negb_false_iff in E1, E2. apply bool_decide_eq_true in E1.
  eapply module_resolved; [done..| |].
  - by eexists a, _.
  - destruct (resolves_any _ _ _); [|by left]. destruct (SymbolicatedModule.pe m); [|by left]. by right.
Qed.

Lemma module_step_improves r i r' : module_step r i r' -> improves r r'.
Proof.
  intros [|m d id cache m' Hm Hd Hid Ht Hm']; [reflexivity|].
  assert (Hkey : module_key m' = module_key m) by (destruct Hm' as [->|[_ ->]]; done).
  unfold improves. cbn [SymbolicationResult.modules SymbolicationResult.threads set_contents]. split_and!.
  - done.
  - change (module_key <$> <[i:=m']> (SymbolicationResult.modules r) = module_key <$> SymbolicationResult.modules r).
    rewrite list_fmap_insert, Hkey. apply list_insert_id. by rewrite list_lookup_fmap, Hm.
  - apply Forall2_same_length_lookup. split; [by rewrite length_insert|]. intros k x y Hx Hy.
    destruct (decide (k = i)) as [->|Hk].
    + rewrite list_lookup_insert_eq in Hy by (by eapply lookup_lt_Some). injection Hy as <-.
      rewrite Hm in Hx. injection Hx as <-. destruct Hm' as [->|[Hp ->]]; [by left|right; by exists d, id, cache].
    + rewrite list_lookup_insert_ne in Hy by done. left. congruence.
  - apply Forall2_fmap_r, Forall_Forall2_diag, Forall_forall. intros t _. unfold thread_improves. split_and!; try done.
    cbn [SymbolicatedThread.frames resolve_thread]. unfold resolve_frames.
    apply Forall2_fmap_r, Forall_Forall2_diag, Forall_forall. intros f _. unfold compose.
    destruct (resolve_frame cache (SymbolicatedModule.module m) f) as [f'|] eqn:E; cbn; [|reflexivity].
    split; [by eapply resolve_frame_site|]. right. eapply resolve_frame_resolved; [|done..].
    apply list_elem_of_fmap. exists m. split; [unfold module_key; by rewrite Hd|by eapply list_elem_of_lookup_2].
Qed.

Lemma apply_modules_improves artifacts indices r r' :
  indexed artifacts -> apply_modules artifacts indices r = Ok r' -> improves r r'.
Proof.
  intros Hi. revert r. induction indices as [|i indices IH]; intros r H; cbn [apply_modules] in H; inv_ok; [reflexivity|].
  match goal with E : apply_module _ _ _ = Ok _ |- _ => apply apply_module_step, module_step_improves in E; [|done] end.
  etransitivity; [done|]. by apply IH.
Qed.

Lemma index_artifacts_indexed given artifacts artifacts' :
  given ⊆ symcaches -> indexed artifacts -> index_artifacts given artifacts = Ok artifacts' -> indexed artifacts'.
Proof.
  revert artifacts. induction given as [|a given IH]; intros artifacts Hg Hi H; cbn [index_artifacts] in H; inv_ok; [done|].
  apply IH in H; [done|set_solver|]. intros id b. unfold artifact_of. cbn [List.find].
  destruct (bool_decide _) eqn:E.
  - apply bool_decide_eq_true in E. cbn in E. subst. intros [= <-]. split; [set_solver|done].
  - apply Hi.
Qed.
End improvement.

(** * Lemmas for completeness *)

Section completeness.
Context {F : FileSystem} {Sy : SymbolicCrate}.

(** The frame at a position of a result. *)
Definition frame_at (r : SymbolicationResult.t) (thread frame : nat) : option SymbolicatedFrame.t :=
  t ← SymbolicationResult.threads r !! thread; SymbolicatedThread.frames t !! frame.

Lemma improves_frame symcaches r r' t k f :
  improves symcaches r r' -> frame_at r t k = Some f ->
  exists f', frame_at r' t k = Some f' /\ frame_site f' = frame_site f
  /\ (SymbolicatedFrame.symbol_status f = FrameSymbolStatus.Resolved ->
      SymbolicatedFrame.symbol_status f' = FrameSymbolStatus.Resolved).
Proof.
  intros (_ & _ & _ & Ht) Hf. unfold frame_at in *. apply bind_Some in Hf as (th & Hth & Hf).
  destruct (Forall2_lookup_l _ _ _ _ _ Ht Hth) as (th' & Hth' & Hi). destruct Hi as (_ & _ & _ & _ & _ & Hi).
  destruct (Forall2_lookup_l _ _ _ _ _ Hi Hf) as (f' & Hf' & Hs & Hr). exists f'. rewrite Hth'. split_and!; [done..|].
  destruct Hr as [->|(? & ? & _ & _ & ? & ? & ? & ? & ? & Hr)]; [done|]. naive_solver.
Qed.

(** A frame that changed was resolved, and is still of its module. *)
Lemma improves_changed symcaches r r' t k f f' :
  improves symcaches r r' -> frame_at r t k = Some f -> frame_at r' t k = Some f' -> f' <> f ->
  exists name debug_id, (name, Some debug_id) ∈ map module_key (SymbolicationResult.modules r)
  /\ names name f /\ resolved_with symcaches debug_id f'.
Proof.
  intros (_ & _ & _ & Ht) Hf Hf' Hne. unfold frame_at in *. apply bind_Some in Hf as (th & Hth & Hf). apply bind_Some in Hf' as (th' & Hth' & Hf').
  destruct (Forall2_lookup_lr _ _ _ _ _ _ Ht Hth Hth') as (_ & _ & _ & _ & _ & Hi).
  destruct (Forall2_lookup_lr _ _ _ _ _ _ Hi Hf Hf') as ([= _ Hm _ _] & [->|(name & d & Hk & (m & Hfm & Hn) & Hr)]); [done|].
  exists name, d. split_and!; [done| |done]. exists m. split; [congruence|done].
Qed.

Lemma improves_module symcaches r r' i m :
  improves symcaches r r' -> SymbolicationResult.modules r !! i = Some m ->
  exists m', SymbolicationResult.modules r' !! i = Some m' /\ module_key m' = module_key m.
Proof.
  intros (_ & Hk & _) Hm. assert (H : map module_key (SymbolicationResult.modules r') !! i = Some (module_key m)).
  { rewrite Hk. change (map ?g ?l) with (g <$> l). by rewrite list_lookup_fmap, Hm. }
  change (map ?g ?l) with (g <$> l) in H. rewrite list_lookup_fmap in H. apply fmap_Some in H as (m' & ? & ?). by exists m'.
Qed.

Lemma resolve_frame_at_site cache name f g :
  frame_site f = frame_site g -> is_Some (resolve_frame cache name f) -> is_Some (resolve_frame cache name g).
Proof.
  intros [= _ Hm Hr _] [f' H]. unfold resolve_frame in *. rewrite <-Hm, <-Hr.
  destruct (SymbolicatedFrame.module f); [|done]. cbn [mbind option_bind] in *.
  destruct (negb _); [done|]. destruct (SymbolicatedFrame.module_relative f ≫= _); [|done]. cbn [mbind option_bind] in *.
  destruct (cache_lookup _ _); [done|]. destruct (anonymous _); [done|]. by eexists.
Qed.

Lemma artifact_of_cons id a artifacts id' :
  artifact_of ((id, a) :: artifacts) id' = if bool_decide (id = id') then Some a else artifact_of artifacts id'.
Proof. unfold artifact_of. cbn. by destruct (bool_decide _). Qed.

Lemma index_artifacts_keep given artifacts artifacts' id a :
  index_artifacts given artifacts = Ok artifacts' -> artifact_of artifacts id = Some a ->
  artifact_of artifacts' id = Some a.
Proof.
  revert artifacts. induction given as [|b given IH]; intros artifacts H Ha; cbn [index_artifacts] in H; inv_ok; [done|].
  eapply IH; [done|]. rewrite artifact_of_cons. destruct (bool_decide _) eqn:E; [|done].
  apply bool_decide_eq_true in E. subst. unfold artifact_of in Ha.
  apply fmap_Some in Ha as ([id' x] & Hx & _). apply List.find_some in Hx as [Hx Hid].
  match goal with E : existsb _ _ = false |- _ => rewrite <-not_true_iff_false, existsb_exists in E; destruct E end.
  by exists (id', x).
Qed.

Lemma index_artifacts_complete given artifacts artifacts' id a :
  index_artifacts given artifacts = Ok artifacts' -> a ∈ given ->
  debug_id_from_str (SymCacheArtifact.debug_id a) = Some id -> artifact_of artifacts' id = Some a.
Proof.
  revert artifacts. induction given as [|b given IH]; intros artifacts H Ha Hid; [by apply not_elem_of_nil in Ha|].
  cbn [index_artifacts] in H. inv_ok. apply elem_of_cons in Ha as [->|Ha]; [|by eapply IH].
  eapply index_artifacts_keep; [done|]. rewrite artifact_of_cons, bool_decide_true; [done|congruence].
Qed.

Lemma apply_modules_app artifacts l k r r' :
  apply_modules artifacts (l ++ k) r = Ok r' ->
  exists r1, apply_modules artifacts l r = Ok r1 /\ apply_modules artifacts k r1 = Ok r'.
Proof.
  revert r. induction l as [|i l IH]; intros r H; cbn [apply_modules app] in *; [by exists r|]. inv_ok.
  destruct (IH _ H) as (r1 & ? & ?). exists r1. split; [|done].
  match goal with E : apply_module _ _ _ = Ok _ |- _ => by rewrite E end.
Qed.

(** The body of the loop resolves every frame that the cache of its module names. *)
Lemma apply_module_resolves artifacts r i r' m debug_id id a :
  apply_module artifacts r i = Ok r' -> SymbolicationResult.modules r !! i = Some m ->
  SymbolicatedModule.debug_id m = Some debug_id -> debug_id_from_str debug_id = Some id ->
  artifact_of artifacts id = Some a ->
  exists bs cache, read_cache (SymCacheArtifact.path a) = Ok bs /\ parse_symcache bs = Some cache
  /\ cache_debug_id cache = id /\ is_latest cache = true
  /\ forall t k f, frame_at r t k = Some f -> is_Some (resolve_frame cache (SymbolicatedModule.module m) f) ->
       exists f', frame_at r' t k = Some f' /\ SymbolicatedFrame.symbol_status f' = FrameSymbolStatus.Resolved.
Proof.
  intros H Hm Hd Hid Ha. unfold apply_module in H. rewrite Hm, Hd in H. cbn [mbind option_bind] in H.
  rewrite Hid, Ha in H. inv_ok.
  match goal with E : _ || _ = false |- _ => apply orb_false_iff in E as [E1 E2] end.
  apply negb_false_iff in E1, E2. apply bool_decide_eq_true in E1.
  eexists _, _. split_and!; [done..|]. intros t k f Hf [f' Hr].
  unfold frame_at in *. cbn [SymbolicationResult.threads set_contents]. apply bind_Some in Hf as (th & Hth & Hf).
  change (map ?g ?l) with (g <$> l). rewrite list_lookup_fmap, Hth. cbn [fmap option_fmap option_map mbind option_bind].
  cbn [SymbolicatedThread.frames resolve_thread]. unfold resolve_frames. change (map ?g ?l) with (g <$> l).
  rewrite list_lookup_fmap, Hf. cbn [fmap option_fmap option_map]. rewrite Hr. exists f'. split; [done|].
  unfold resolve_frame in Hr. destruct (SymbolicatedFrame.module f); [|done]. cbn [mbind option_bind] in Hr.
  destruct (negb _); [done|]. destruct (SymbolicatedFrame.module_relative f ≫= _); [|done]. cbn [mbind option_bind] in Hr.
  destruct (cache_lookup _ _); [done|]. destruct (anonymous _); [done|]. by injection Hr as <-.
Qed.
End completeness.

(** * Properties *)

Section properties.
Context {F : FileSystem} {Sy : SymbolicCrate} {Obj : ObjectCrate} {P : PdbCrate} {M : MinidumpCrate}.

(** C34: symbol caches only speak for modules of the name of a frame.  The result with caches is the result
    without them, except that frames may be resolved and modules marked: threads, frame addresses and every
    other field stay; a frame that changed carries the name that a given cache, with the debug identifier of a
    module of the result that has the name of the frame's module (without case), has at its address; and a
    module that changed has an executable and is marked by such a cache of its own identifier.  In particular, when
    all modules of that name have one identifier, the cache has exactly that one. *)
Theorem symcaches_speak_for_their_modules wait dump symbols symcaches limits r' :
  symbolicate_minidump_bytes_with_symcaches wait dump symbols symcaches limits = Ok r' ->
  exists r, symbolicate_minidump_bytes limits wait dump symbols = Ok r /\ improves symcaches r r'
  /\ forall t k f f' debug_id, frame_at r t k = Some f -> frame_at r' t k = Some f' -> f' <> f ->
       (forall m, m ∈ SymbolicationResult.modules r -> names (SymbolicatedModule.module m) f ->
          SymbolicatedModule.debug_id m = debug_id) ->
       exists id, debug_id = Some id /\ resolved_with symcaches id f'.
Proof.
  intros H. unfold symbolicate_minidump_bytes_with_symcaches in H. inv_ok. rename a into r. exists r. split; [done|].
  match goal with E : apply_modules _ _ r = Ok r' |- _ => eapply (apply_modules_improves symcaches) in E;
    [rename E into Himp|eapply index_artifacts_indexed; [| |done]; [done|by intros ? ?]] end.
  split; [done|]. intros t k f f' debug_id Hf Hf' Hne Hsame.
  destruct (improves_changed _ _ _ _ _ _ _ Himp Hf Hf' Hne) as (name & id & Hin & Hname & Hres).
  apply list_elem_of_fmap in Hin as (m & [= -> Hid] & Hm). exists id. split; [|done]. rewrite <-(Hsame m Hm Hname). done.
Qed.

(** C35: no cache of a module is ignored.  When the run succeeds, an artifact given for the debug
    identifier of a module was read, parsed, in the latest format and carried that identifier; and
    every frame of the module that the cache names is resolved in the result. *)
Theorem named_frames_are_resolved wait dump symbols symcaches limits r r' i m debug_id id a :
  symbolicate_minidump_bytes_with_symcaches wait dump symbols symcaches limits = Ok r' ->
  symbolicate_minidump_bytes limits wait dump symbols = Ok r ->
  SymbolicationResult.modules r !! i = Some m -> SymbolicatedModule.debug_id m = Some debug_id ->
  debug_id_from_str debug_id = Some id -> a ∈ symcaches ->
  debug_id_from_str (SymCacheArtifact.debug_id a) = Some id ->
  exists bs cache, read_cache (SymCacheArtifact.path a) = Ok bs /\ parse_symcache bs = Some cache
  /\ cache_debug_id cache = id /\ is_latest cache = true
  /\ forall t k f, frame_at r t k = Some f -> is_Some (resolve_frame cache (SymbolicatedModule.module m) f) ->
       exists f', frame_at r' t k = Some f' /\ SymbolicatedFrame.symbol_status f' = FrameSymbolStatus.Resolved.
Proof.
  intros H Hr Hm Hd Hid Ha Haid. unfold symbolicate_minidump_bytes_with_symcaches in H. rewrite Hr in H.
  cbn [mbind result_bind] in H. apply bind_Ok in H as (artifacts & Hix & H).
  assert (Hindexed : indexed symcaches artifacts)
    by (eapply index_artifacts_indexed; [| |done]; [done|by intros ? ?]).
  assert (Hi : i < length (SymbolicationResult.modules r)) by (by eapply lookup_lt_Some).
  replace (length (SymbolicationResult.modules r)) with (i + S (length (SymbolicationResult.modules r) - i - 1)) in H by lia.
  rewrite seq_app in H. apply apply_modules_app in H as (r1 & H1 & H). cbn [seq apply_modules] in H.
  apply bind_Ok in H as (r2 & H2 & H3). apply (apply_modules_improves _ _ _ _ _ Hindexed) in H1, H3.
  destruct (improves_module _ _ _ _ _ H1 Hm) as (m1 & Hm1 & [= Hname Hdebug]).
  destruct (apply_module_resolves _ _ _ _ m1 debug_id id a H2 Hm1) as (bs & cache & Hbs & Hc & Hcid & Hl & Hf);
    [congruence|done|by eapply index_artifacts_complete|].
  exists bs, cache. split_and!; [done..|]. intros t k f Hat Hres.
  destruct (improves_frame _ _ _ _ _ _ H1 Hat) as (f1 & Hat1 & Hs1 & _).
  destruct (Hf _ _ _ Hat1) as (f2 & Hat2 & Hs2); [rewrite Hname; by eapply resolve_frame_at_site|].
  destruct (improves_frame _ _ _ _ _ _ H3 Hat2) as (f3 & ? & _ & Hs3). exists f3. split; [done|by apply Hs3].
Qed.

(** A generated cache can be used.  When generation succeeds the input was a regular file within
    its limit and a PDB, nothing existing was overwritten, and what was published fits the reader's
    own limit, so reading the output back gives exactly those bytes, which parse as a cache of the
    latest format with the version and identity that the metadata reports. *)
Theorem generated_cache_is_readable {W : OutputFile} input output maximum md bs :
  generate_symcache input output maximum = Ok (md, bs) ->
  symlink_metadata output = Some (IsFile, len bs) -> open_file output = Some bs ->
  create_new output = true /\ (exists size, symlink_metadata input = Some (IsFile, size) /\ (size <= maximum)%N)
  /\ read_cache output = Ok bs
  /\ exists cache, parse_symcache bs = Some cache /\ is_latest cache = true
     /\ SymCacheMetadata.format_version md = cache_version cache
     /\ SymCacheMetadata.debug_id md = to_ascii_uppercase (debug_id_to_string (cache_debug_id cache))
     /\ SymCacheMetadata.byte_size md = len bs.
Proof.
  intros H Hmeta Hopen. unfold generate_symcache in H. inv_pairs.
  repeat match goal with E : negb _ = false |- _ => apply negb_false_iff in E end.
  repeat match goal with E : (_ <? _)%N = false |- _ => apply N.ltb_ge in E end.
  match goal with f : FileType |- _ => destruct f; try done end.
  split_and!; [done|by eexists| |eexists; by split_and!].
  unfold read_cache. rewrite Hmeta, Hopen. cbn [ok_or mbind result_bind fail_if].
  assert (Hle : (len bs <= MAX_SYMCACHE_BYTES)%N) by done.
  rewrite take_at_most_all by (revert Hle; generalize MAX_SYMCACHE_BYTES (len bs); lia).
  rewrite (proj2 (N.ltb_ge MAX_SYMCACHE_BYTES (len bs))) by done. done.
Qed.
End properties.

(** * Samples *)

(** A crate with one cache, for the identity [AB], which names the function at address 16. *)
Definition sample_symbolic : SymbolicCrate := {|
  DebugId := text; debug_id_from_str := fun s => if decide (s = []) then None else Some s;
  debug_id_to_string := fun s => s;
  SymCache := (); parse_symcache := fun bs => if decide (bs = byt "MZ!") then Some () else None;
  cache_debug_id := fun _ => txt "AB"; cache_arch := fun _ => txt "x86_64"; cache_version := fun _ => 8%N;
  is_latest := fun _ => true;
  cache_lookup := fun _ address =>
    if (address =? 16)%N then
      [{| Location.function_name := txt "CrashFixture"; Location.file := Some (txt "main.cpp"); Location.line := 41 |};
       {| Location.function_name := txt "?"; Location.file := None; Location.line := 0 |}]
    else [];
  DebugObject := bytes; parse_object := Some; is_pdb_object := fun _ => true; convert := fun _ => Some (byt "MZ!") |}.

Definition sample_cache : SymCacheArtifact.t :=
  {| SymCacheArtifact.debug_id := txt "AB"; SymCacheArtifact.path := [byt "root"; byt "a.exe"] |}.

Definition with_sample_cache (symcaches : list SymCacheArtifact.t) : result SymbolicationError.t SymbolicationResult.t :=
  symbolicate_minidump_bytes_with_symcaches (F := symbol_fs) (Sy := sample_symbolic) (Obj := opaque_objects)
    (P := opaque_pdbs) (M := sample_minidumps) Received (byt "MDMP") [byt "root"] symcaches small_limits.

Definition cached_result : SymbolicationResult.t :=
  match with_sample_cache [sample_cache] with Ok r => r | Err _ => sample_result end.

Example sample_cache_resolves :
  with_sample_cache [sample_cache] = Ok cached_result
  /\ (fun f => (SymbolicatedFrame.function f, length (SymbolicatedFrame.inlines f))) <$> frame_at cached_result 0 0
     = Some (Some (txt "CrashFixture"), 0)
  /\ with_sample_cache [sample_cache; sample_cache] = Err InvalidSymCache.
Proof. vm_compute. done. Qed.

(** Two modules with one name: frames of the first, which has no cache, get the names of the second. *)
Definition twin (debug_id : text) : SymbolicatedModule.t :=
  {| SymbolicatedModule.module := txt "a.exe"; SymbolicatedModule.base_address := format_address 4096;
     SymbolicatedModule.size := 4096; SymbolicatedModule.code_id := None; SymbolicatedModule.debug_id := Some debug_id;
     SymbolicatedModule.status := ModuleSymbolStatus.MissingPdb; SymbolicatedModule.pe := Some (txt "a.exe"); SymbolicatedModule.pdb := None;
     SymbolicatedModule.symcache_format := None |}.
Definition twins : SymbolicationResult.t := set_contents [twin (txt "CD"); twin (txt "AB")] (SymbolicationResult.threads sample_result) sample_result.
Lemma a_namesake_speaks_for_the_frame :
  match apply_modules (F := symbol_fs) (Sy := sample_symbolic) [(txt "AB", sample_cache)] [0; 1] twins with
  | Ok r => SymbolicatedFrame.function <$> frame_at r 0 0 = Some (Some (txt "CrashFixture"))
            /\ SymbolicatedModule.symcache_format <$> SymbolicationResult.modules r = [None; Some 8%N]
  | Err _ => False
  end.
Proof. vm_compute. done. Qed.

Lemma symcaches_speak_for_their_modules_witness :
  exists r, symbolicate_sample (byt "MDMP") = Ok r
  /\ improves (F := symbol_fs) (Sy := sample_symbolic) [sample_cache] r cached_result.
Proof.
  destruct (symcaches_speak_for_their_modules (F := symbol_fs) (Sy := sample_symbolic) (Obj := opaque_objects)
    (P := opaque_pdbs) (M := sample_minidumps) Received (byt "MDMP") [byt "root"] [sample_cache] small_limits cached_result)
    as (r & Hr & Hi & _); [vm_compute; reflexivity|].
  exists r. split; [exact Hr|exact Hi].
Defined.

Lemma named_frames_are_resolved_witness :
  exists f', frame_at cached_result 0 0 = Some f'
  /\ SymbolicatedFrame.symbol_status f' = FrameSymbolStatus.Resolved.
Proof.
  destruct (named_frames_are_resolved (F := symbol_fs) (Sy := sample_symbolic) (Obj := opaque_objects)
    (P := opaque_pdbs) (M := sample_minidumps) Received (byt "MDMP") [byt "root"] [sample_cache] small_limits
    sample_result cached_result 0 (default (sample_module 0 ModuleSymbolStatus.Matched)
      (SymbolicationResult.modules sample_result !! 0)) (txt "AB") (txt "AB") sample_cache)
    as (bs & cache & _ & _ & _ & _ & H); try (vm_compute; reflexivity).
  - left.
  - destruct (frame_at sample_result 0 0) as [f|] eqn:E; [|vm_compute in E; discriminate].
    apply (H 0 0 f E). vm_compute in E. injection E as <-. destruct cache. vm_compute. eexists. reflexivity.
Defined.

Lemma generated_cache_is_readable_witness :
  read_cache (F := symbol_fs) [byt "root"; byt "a.exe"] = Ok (byt "MZ!").
Proof.
  destruct (generated_cache_is_readable (F := symbol_fs) (Sy := sample_symbolic)
    (W := {| create_new := fun _ => true; write_and_sync := fun _ _ => true |})
    [byt "root"; byt "a.exe"] [byt "root"; byt "a.exe"] 8
    {| SymCacheMetadata.schema_version := 1; SymCacheMetadata.processor_version := SYMCACHE_PROCESSOR_VERSION;
       SymCacheMetadata.format_version := 8; SymCacheMetadata.debug_id := txt "AB";
       SymCacheMetadata.architecture := txt "x86_64"; SymCacheMetadata.byte_size := 3 |} (byt "MZ!"))
    as (_ & _ & H & _); [vm_compute; reflexivity..|exact H].
Defined.
