(* ===== verification/Validation.v ===== *)
(** The shared result contract ([crates/processing/src/lib.rs]): the validator of processing results.
    Each check is a [result]; a failed one is [InvalidPrevious] unless the code says otherwise. *)

From S2P Require Import Prelude Text Json CrashContext.

Definition RESULT_SCHEMA_VERSION : N := 1.
Definition PROCESSING_VERSION : N := 2.
Definition MAX_PROCESSING_HISTORY : nat := 16.

Inductive ProcessingResultError : Type :=
| MissingCrashIdentity | InvalidPrevious | UnsupportedPreviousSchema | UnsupportedPreviousProcessing
| PreviousIdentityMismatch | PreviousHistoryTooLong | Serialize.

#[export] Instance ProcessingResultError_eq_dec : EqDecision ProcessingResultError.
Proof. solve_decision. Defined.

(** [ProcessingResultError::fmt]. *)
Definition processing_result_message (e : ProcessingResultError) : text :=
  match e with
  | MissingCrashIdentity => txt "crash context has no usable crash identity"
  | InvalidPrevious => txt "invalid previous processing result"
  | UnsupportedPreviousSchema => txt "unsupported previous result schema version"
  | UnsupportedPreviousProcessing => txt "unsupported previous processing version"
  | PreviousIdentityMismatch => txt "previous result crash identity does not match"
  | PreviousHistoryTooLong => txt "previous processing history limit exceeded"
  | Serialize => txt "failed to serialize processing result"
  end.

Abbreviation validation := (result ProcessingResultError ()).

(** * Combinators *)

(** [expect c]: the check fails unless [c]. *)
Definition expect (c : bool) : validation := fail_if (negb c) InvalidPrevious.
Definition is_one_of (l : list text) (s : text) : bool := bool_decide (s ∈ l).

(** [only_keys], [nullable_string] and the values of the enumerations. *)
Definition only_keys (object : jmap) (allowed : list text) : bool :=
  forallb (fun k => is_one_of allowed k) (obj_keys object).
Definition nullable_string (v : json) : bool := is_null v || is_string v.
Definition nullable_u64 (v : json) : bool := is_null v || is_u64 v.
Definition valid_crash_type (v : text) : bool :=
  is_one_of [txt "crash"; txt "assert"; txt "ensure"; txt "unknown"] v.
Definition valid_confidence (v : text) : bool := is_one_of [txt "high"; txt "medium"; txt "low"] v.
Definition string_array (v : json) : bool := is_some_and (as_array v) (forallb is_string).

Fixpoint validate_all (validator : json -> validation) (values : list json) : validation :=
  match values with
  | [] => Ok ()
  | v :: values => _ ← validator v; validate_all validator values
  end.

(** [validate_array]. *)
Definition validate_array (object : jmap) (field : text) (validator : json -> validation) : validation :=
  values ← ok_or InvalidPrevious (obj_get field object ≫= as_array);
  validate_all validator values.

(** A field that is present and passes a test. *)
Definition has (object : jmap) (field : text) (p : json -> bool) : bool := is_some_and (obj_get field object) p.

(** * The crash context *)

(** [validate_string_object], [validate_normalized_value] and [validate_property]. *)
Definition validate_string_object (v : json) (fields : list text) : validation :=
  object ← ok_or InvalidPrevious (as_object v);
  expect ((length object =? length fields)%nat && only_keys object fields
          && forallb (fun field => has object field is_string) fields).
Definition validate_normalized_value (v : json) : validation :=
  validate_string_object v [txt "original"; txt "normalized"].
Definition validate_property (v : json) : validation :=
  validate_string_object v [txt "name"; txt "value"].

(** [validate_context_thread]. *)
Definition context_thread_fields : list text :=
  [txt "call_stack"; txt "crash_marker"; txt "registers"; txt "thread_id"; txt "thread_name"].
Definition validate_context_thread (v : json) : validation :=
  thread ← ok_or InvalidPrevious (as_object v);
  expect ((length thread =? length context_thread_fields)%nat && only_keys thread context_thread_fields
          && forallb (fun field => has thread field nullable_string) context_thread_fields).

(** [validate_unknown_fields]. *)
Definition validate_unknown_section (fields : json) : validation :=
  fields ← ok_or InvalidPrevious (as_object fields);
  expect (forallb string_array (obj_values fields)).
Definition validate_unknown_fields (v : json) : validation :=
  sections ← ok_or InvalidPrevious (as_object v);
  validate_all validate_unknown_section (obj_values sections).

Definition crash_context_keys : list text :=
  [txt "parser_version"; txt "crash_guid"; txt "crash_type"; txt "error_message"; txt "build_version";
   txt "engine_version"; txt "platform"; txt "architecture"; txt "build_configuration"; txt "command_line";
   txt "modules"; txt "threads"; txt "system_metadata"; txt "user_comment"; txt "game_data";
   txt "unknown_fields"].
Definition crash_context_texts : list text :=
  [txt "error_message"; txt "build_version"; txt "engine_version"; txt "architecture";
   txt "build_configuration"; txt "user_comment"].

(** [validate_crash_context]. *)
Definition validate_crash_context (context : jmap) : validation :=
  _ ← expect (((length context =? 15)%nat || (length context =? 16)%nat)
        && only_keys context crash_context_keys
        && bool_decide (obj_get (txt "parser_version") context ≫= as_u64 = Some CRASH_CONTEXT_PARSER_VERSION)
        && has context (txt "crash_guid") nullable_string
        && is_some_and (obj_get (txt "crash_type") context ≫= as_str) valid_crash_type
        && forallb (fun field => has context field nullable_string) crash_context_texts
        && is_none_or (obj_get (txt "command_line") context) is_string
        && has context (txt "platform") (fun v => is_null v || is_ok (validate_normalized_value v)));
  _ ← validate_array context (txt "modules") validate_normalized_value;
  _ ← validate_array context (txt "threads") validate_context_thread;
  _ ← validate_array context (txt "system_metadata") validate_property;
  _ ← validate_array context (txt "game_data") validate_property;
  unknown ← ok_or InvalidPrevious (obj_get (txt "unknown_fields") context);
  validate_unknown_fields unknown.

(** * The request, the classification and the log *)

Definition has_str (object : jmap) (field : text) : bool := has object field is_string.
Definition has_u64 (object : jmap) (field : text) : bool := has object field is_u64.
Definition has_one_of (object : jmap) (field : text) (l : list text) : bool :=
  is_some_and (obj_get field object ≫= as_str) (is_one_of l).

(** [validate_request_file] and [validate_request]. *)
Definition validate_request_file (v : json) : validation :=
  file ← ok_or InvalidPrevious (as_object v);
  expect ((length file =? 4)%nat && only_keys file [txt "index"; txt "name"; txt "size"; txt "kind"]
          && has_u64 file (txt "index") && has_str file (txt "name") && has_u64 file (txt "size")
          && has_one_of file (txt "kind") [txt "crash_context"; txt "minidump"; txt "log"; txt "unknown"]).
Definition validate_request (v : json) : validation :=
  request ← ok_or InvalidPrevious (as_object v);
  _ ← expect ((length request =? 7)%nat
        && only_keys request [txt "schema_version"; txt "envelope"; txt "directory_name"; txt "archive_name";
                              txt "compressed_size"; txt "expanded_size"; txt "files"]
        && bool_decide (obj_get (txt "schema_version") request ≫= as_u64 = Some 1%N)
        && bool_decide (obj_get (txt "envelope") request ≫= as_str = Some (txt "cr1"))
        && has_str request (txt "directory_name") && has_str request (txt "archive_name")
        && has_u64 request (txt "compressed_size") && has_u64 request (txt "expanded_size"));
  validate_array request (txt "files") validate_request_file.

(** [validate_signal] and [validate_classification]. *)
Definition validate_signal (v : json) : validation :=
  signal ← ok_or InvalidPrevious (as_object v);
  expect ((length signal =? 3)%nat && only_keys signal [txt "kind"; txt "confidence"; txt "evidence"]
          && has_one_of signal (txt "kind") [txt "gpu_crash"; txt "out_of_memory"]
          && is_some_and (obj_get (txt "confidence") signal ≫= as_str) valid_confidence
          && has signal (txt "evidence") string_array).
Definition validate_classification (v : json) : validation :=
  classification ← ok_or InvalidPrevious (as_object v);
  _ ← expect ((length classification =? 4)%nat
        && only_keys classification [txt "crash_type"; txt "confidence"; txt "evidence"; txt "signals"]
        && is_some_and (obj_get (txt "crash_type") classification ≫= as_str) valid_crash_type
        && is_some_and (obj_get (txt "confidence") classification ≫= as_str) valid_confidence
        && has classification (txt "evidence") string_array);
  validate_array classification (txt "signals") validate_signal.

(** [validate_log]. *)
Definition is_bool (v : json) : bool := match v with JBool _ => true | _ => false end.
Definition validate_log (v : json) : validation :=
  log ← ok_or InvalidPrevious (as_object v);
  _ ← expect ((length log =? 2)%nat && only_keys log [txt "name"; txt "tail"] && has_str log (txt "name"));
  tail ← ok_or InvalidPrevious (obj_get (txt "tail") log ≫= as_object);
  expect ((length tail =? 3)%nat && only_keys tail [txt "text"; txt "truncated"; txt "invalid_utf8"]
          && has_str tail (txt "text") && has tail (txt "truncated") is_bool
          && has tail (txt "invalid_utf8") is_bool).

(** * Symbolication *)

Definition inline_keys : list text := [txt "function"; txt "source_file"; txt "source_line"].
Definition frame_keys : list text :=
  [txt "instruction"; txt "module"; txt "module_relative"; txt "trust"; txt "symbol_status"; txt "function";
   txt "source_file"; txt "source_line"; txt "inlines"].
Definition frame_statuses : list text :=
  [txt "resolved"; txt "unresolved"; txt "missing_pe"; txt "missing_pdb"; txt "mismatched";
   txt "missing_identity"; txt "unknown_module"].
Definition non_empty (s : text) : bool := negb (bool_decide (s = [])).
Definition has_non_empty (object : jmap) (field : text) : bool :=
  is_some_and (obj_get field object ≫= as_str) non_empty.

(** [validate_frame], with the body of its loop over the inline frames. *)
Definition validate_inline (v : json) : validation :=
  inline ← ok_or InvalidPrevious (as_object v);
  expect ((length inline =? 3)%nat && only_keys inline inline_keys && has_str inline (txt "function")
          && has inline (txt "source_file") nullable_string && has inline (txt "source_line") nullable_u64).
Definition validate_frame (v : json) : validation :=
  frame ← ok_or InvalidPrevious (as_object v);
  _ ← expect ((length frame =? 9)%nat && only_keys frame frame_keys && has_str frame (txt "instruction")
        && has_non_empty frame (txt "trust") && has_one_of frame (txt "symbol_status") frame_statuses
        && forallb (fun field => has frame field nullable_string)
             [txt "module"; txt "module_relative"; txt "function"; txt "source_file"]
        && has frame (txt "source_line") nullable_u64 && has frame (txt "inlines") is_array);
  validate_array frame (txt "inlines") validate_inline.

Definition thread_keys : list text :=
  [txt "thread_id"; txt "faulting"; txt "name"; txt "unwind_status"; txt "frames_truncated"; txt "frames"].
Definition unwind_statuses : list text :=
  [txt "ok"; txt "missing_context"; txt "missing_memory"; txt "unsupported_cpu"; txt "dump_thread_skipped"].

(** [validate_thread] and [validate_threads]. *)
Definition validate_thread (v : json) : validation :=
  thread ← ok_or InvalidPrevious (as_object v);
  _ ← expect ((length thread =? 6)%nat && only_keys thread thread_keys && has_u64 thread (txt "thread_id")
        && has thread (txt "faulting") is_bool && has thread (txt "name") nullable_string
        && has_one_of thread (txt "unwind_status") unwind_statuses
        && has thread (txt "frames_truncated") is_bool && has thread (txt "frames") is_array);
  validate_array thread (txt "frames") validate_frame.
Definition validate_threads (threads : list json) : validation := validate_all validate_thread threads.

Definition module_keys : list text :=
  [txt "module"; txt "base_address"; txt "size"; txt "code_id"; txt "debug_id"; txt "status"; txt "pe";
   txt "pdb"; txt "symcache_format"].
Definition module_statuses : list text :=
  [txt "matched"; txt "missing_pe"; txt "missing_pdb"; txt "mismatched"; txt "missing_identity"].

(** [validate_module] and [validate_modules]. *)
Definition validate_module (v : json) : validation :=
  module ← ok_or InvalidPrevious (as_object v);
  expect (only_keys module module_keys && ((length module =? 8)%nat || (length module =? 9)%nat)
          && has_str module (txt "module") && has_str module (txt "base_address") && has_u64 module (txt "size")
          && has_one_of module (txt "status") module_statuses
          && forallb (fun field => has module field nullable_string)
               [txt "code_id"; txt "debug_id"; txt "pe"; txt "pdb"]
          && is_none_or (obj_get (txt "symcache_format") module) is_u64).
Definition validate_modules (modules : list json) : validation := validate_all validate_module modules.

Definition header_keys (processing_version : N) : list text :=
  [txt "schema_version"; txt "symbolicator_version"; txt "minidump_version"; txt "minidump_processor_version";
   txt "minidump_unwind_version"; txt "platform"; txt "architecture"; txt "faulting_thread_id"; txt "modules";
   txt "threads"]
  ++ if (processing_version =? 1)%N then [] else [txt "exception_reason"; txt "assertion"].

(** [validate_symbolication_header]. *)
Definition validate_symbolication_header (symbolication : jmap) (processing_version : N) : validation :=
  let fields := header_keys processing_version in
  let expected_schema := if (processing_version =? 1)%N then 1%N else 2%N in
  _ ← expect ((length symbolication =? length fields)%nat && only_keys symbolication fields
        && bool_decide (obj_get (txt "schema_version") symbolication ≫= as_u64 = Some expected_schema)
        && bool_decide (obj_get (txt "platform") symbolication ≫= as_str = Some (txt "windows"))
        && bool_decide (obj_get (txt "architecture") symbolication ≫= as_str = Some (txt "x86_64"))
        && has symbolication (txt "modules") is_array && has symbolication (txt "threads") is_array);
  _ ← expect (negb (processing_version =? 2)%N
        || forallb (fun field => has symbolication field nullable_string)
             [txt "exception_reason"; txt "assertion"]);
  _ ← expect (forallb (has_non_empty symbolication)
        [txt "symbolicator_version"; txt "minidump_version"; txt "minidump_processor_version";
         txt "minidump_unwind_version"]);
  expect (has symbolication (txt "faulting_thread_id") nullable_u64).

(** [validate_symbolication]. *)
Definition validate_symbolication (v : json) (processing_version : N) : validation :=
  symbolication ← ok_or InvalidPrevious (as_object v);
  _ ← validate_symbolication_header symbolication processing_version;
  modules ← ok_or InvalidPrevious (obj_get (txt "modules") symbolication ≫= as_array);
  _ ← validate_modules modules;
  threads ← ok_or InvalidPrevious (obj_get (txt "threads") symbolication ≫= as_array);
  validate_threads threads.

(** [validate_attempt]. *)
Definition validate_attempt (v : json) : validation :=
  attempt ← ok_or InvalidPrevious (as_object v);
  _ ← expect ((length attempt =? 3)%nat && negb (is_none (obj_get (txt "parser_version") attempt))
        && has attempt (txt "symbolication") is_object);
  version ← ok_or InvalidPrevious (obj_get (txt "processing_version") attempt ≫= as_u64);
  _ ← fail_if (negb ((1 <=? version)%N && (version <=? PROCESSING_VERSION)%N)) UnsupportedPreviousProcessing;
  _ ← expect (has_u64 attempt (txt "parser_version"));
  symbolication ← ok_or InvalidPrevious (obj_get (txt "symbolication") attempt);
  validate_symbolication symbolication version.

(** * The result *)

Definition result_keys : list text :=
  [txt "schema_version"; txt "crash_guid"; txt "crash_context"; txt "request"; txt "classification"; txt "log";
   txt "current"; txt "history"].

(** A validator of an optional field. *)
Definition validate_optional (object : jmap) (field : text) (validator : json -> validation) : validation :=
  match obj_get field object with Some v => validator v | None => Ok () end.

Definition usable_identity (s : text) : bool := negb (bool_decide (trim s = [])).

(** [validate_processing_contract]. *)
Definition validate_processing_contract (v : json) (expected_crash_guid : option text) (require_current : bool) :
    validation :=
  result ← ok_or InvalidPrevious (as_object v);
  _ ← expect (only_keys result result_keys);
  _ ← match obj_get (txt "schema_version") result ≫= as_u64 with
      | Some version => fail_if (negb (version =? RESULT_SCHEMA_VERSION)%N) UnsupportedPreviousSchema
      | None => Err InvalidPrevious
      end;
  crash_guid ← ok_or InvalidPrevious
    (guid ← obj_get (txt "crash_guid") result ≫= as_str; if usable_identity guid then Some guid else None);
  _ ← fail_if (is_some_and expected_crash_guid (fun expected => negb (bool_decide (expected = crash_guid))))
        PreviousIdentityMismatch;
  history ← ok_or InvalidPrevious (obj_get (txt "history") result ≫= as_array);
  _ ← fail_if (MAX_PROCESSING_HISTORY <? length history)%nat PreviousHistoryTooLong;
  current ← ok_or InvalidPrevious (obj_get (txt "current") result);
  _ ← fail_if (require_current
               && negb (bool_decide (get current (txt "processing_version") ≫= as_u64 = Some PROCESSING_VERSION)))
        UnsupportedPreviousProcessing;
  _ ← validate_attempt current;
  _ ← validate_all validate_attempt history;
  context ← ok_or InvalidPrevious (obj_get (txt "crash_context") result ≫= as_object);
  _ ← fail_if (negb (bool_decide (obj_get (txt "crash_guid") context ≫= as_str = Some crash_guid)))
        PreviousIdentityMismatch;
  _ ← validate_crash_context context;
  _ ← expect (bool_decide (get current (txt "parser_version") ≫= as_u64
                           = obj_get (txt "parser_version") context ≫= as_u64));
  _ ← validate_optional result (txt "request") validate_request;
  _ ← validate_optional result (txt "classification") validate_classification;
  validate_optional result (txt "log") validate_log.

(** [validate_processing_result] and [validate_current_processing_result]. *)
Definition validate_processing_result (v : json) (expected_crash_guid : option text) : validation :=
  validate_processing_contract v expected_crash_guid false.
Definition validate_current_processing_result (v : json) (expected_crash_guid : option text) : validation :=
  validate_processing_contract v expected_crash_guid true.

(** * Lemmas *)

Lemma only_keys_spec m allowed : only_keys m allowed = true <-> forall k, k ∈ obj_keys m -> k ∈ allowed.
Proof.
  unfold only_keys, is_one_of. rewrite forallb_forall. setoid_rewrite bool_decide_eq_true.
  setoid_rewrite list_elem_of_In. done.
Qed.

Lemma only_keys_of fields allowed :
  NoDup (map fst fields) -> only_keys (obj_of fields) allowed = forallb (is_one_of allowed) (map fst fields).
Proof.
  intros Hd. apply eq_true_iff_eq. rewrite only_keys_spec, forallb_forall. unfold is_one_of.
  setoid_rewrite bool_decide_eq_true. setoid_rewrite (obj_keys_of _ Hd). setoid_rewrite list_elem_of_In. done.
Qed.

Lemma validate_all_Forall validator l :
  Forall (fun v => validator v = Ok ()) l <-> validate_all validator l = Ok ().
Proof.
  induction l as [|v l IH]; cbn; [done|]. rewrite Forall_cons, IH. destruct (validator v) as [[]|]; cbn; split; try done; [by intros [_ ?]|by intros [? _]].
Qed.
