(* ===== verification/Processing.v ===== *)
(** Processing ([crates/processing/src/lib.rs]): from a crash request to the versioned result, with the
    bounded history of earlier attempts.  The serialized forms of the records the result is built from
    are here too. *)

From S2P Require Import Prelude Text Json Domain CrashContext LogTail CrashRequest Pdb Artifacts Symbolicate Symcache Validation.

Definition MAX_CRASH_CONTEXT_NODES : N := 100000.

Module CrashProcessingError.
Inductive t : Type :=
| Request (e : CrashRequestError.t) | Parse (e : ParseError.t) | Symbolicate (e : SymbolicationError.t)
| MissingCrashContext | MissingMinidump | Result (e : ProcessingResultError).

(** [CrashProcessingError::fmt]. *)
Definition fmt (e : t) : text :=
  match e with
  | Request e => CrashRequestError.fmt e
  | Parse e => ParseError.fmt e
  | Symbolicate e => Symbolicate.message e
  | MissingCrashContext => txt "crash request has no crash context"
  | MissingMinidump => txt "crash request has no minidump"
  | Result e => processing_result_message e
  end.
End CrashProcessingError.

(** * Serialized records *)

Module Serialize.
Definition request_file (f : CrashRequestFile.t) : json :=
  JObject (obj_of
    [(txt "index", jnat (CrashRequestFile.index f)); (txt "name", JString (CrashRequestFile.name f));
     (txt "size", jnat (CrashRequestFile.size f));
     (txt "kind", JString (FileKind.name (CrashRequestFile.kind f)))]).
Definition manifest (m : CrashRequestManifest.t) : json :=
  JObject (obj_of
    [(txt "schema_version", jnat (CrashRequestManifest.schema_version m));
     (txt "envelope", JString (CrashRequestManifest.envelope m));
     (txt "directory_name", JString (CrashRequestManifest.directory_name m));
     (txt "archive_name", JString (CrashRequestManifest.archive_name m));
     (txt "compressed_size", jnat (CrashRequestManifest.compressed_size m));
     (txt "expanded_size", jnat (CrashRequestManifest.expanded_size m));
     (txt "files", jlist request_file (CrashRequestManifest.files m))]).

Definition log (l : CrashRequestLog.t) : json :=
  let tail := CrashRequestLog.tail l in
  JObject (obj_of
    [(txt "name", JString (CrashRequestLog.name l));
     (txt "tail", JObject (obj_of
        [(txt "text", JString (ProjectLogTail.text_ tail)); (txt "truncated", JBool (ProjectLogTail.truncated tail));
         (txt "invalid_utf8", JBool (ProjectLogTail.invalid_utf8 tail))]))]).

Definition module_status (s : ModuleSymbolStatus.t) : json :=
  jstr match s with
       | ModuleSymbolStatus.Matched => "matched" | ModuleSymbolStatus.MissingPe => "missing_pe"
       | ModuleSymbolStatus.MissingPdb => "missing_pdb" | ModuleSymbolStatus.Mismatched => "mismatched"
       | ModuleSymbolStatus.MissingIdentity => "missing_identity"
       end.
Definition frame_status (s : FrameSymbolStatus.t) : json :=
  jstr match s with
       | FrameSymbolStatus.Resolved => "resolved" | FrameSymbolStatus.Unresolved => "unresolved"
       | FrameSymbolStatus.MissingPe => "missing_pe" | FrameSymbolStatus.MissingPdb => "missing_pdb"
       | FrameSymbolStatus.Mismatched => "mismatched"
       | FrameSymbolStatus.MissingIdentity => "missing_identity"
       | FrameSymbolStatus.UnknownModule => "unknown_module"
       end.
Definition unwind_status (s : ThreadUnwindStatus.t) : json :=
  jstr match s with
       | ThreadUnwindStatus.Ok => "ok" | ThreadUnwindStatus.MissingContext => "missing_context"
       | ThreadUnwindStatus.MissingMemory => "missing_memory"
       | ThreadUnwindStatus.UnsupportedCpu => "unsupported_cpu"
       | ThreadUnwindStatus.DumpThreadSkipped => "dump_thread_skipped"
       end.

Definition module (m : SymbolicatedModule.t) : json :=
  JObject (obj_of (
    [(txt "module", JString (SymbolicatedModule.module m));
     (txt "base_address", JString (SymbolicatedModule.base_address m));
     (txt "size", jnat (SymbolicatedModule.size m));
     (txt "code_id", jopt JString (SymbolicatedModule.code_id m));
     (txt "debug_id", jopt JString (SymbolicatedModule.debug_id m));
     (txt "status", module_status (SymbolicatedModule.status m));
     (txt "pe", jopt JString (SymbolicatedModule.pe m));
     (txt "pdb", jopt JString (SymbolicatedModule.pdb m))]
    ++ opt_field "symcache_format" jnat (SymbolicatedModule.symcache_format m))).
Definition inline (i : InlineSymbol.t) : json :=
  JObject (obj_of
    [(txt "function", JString (InlineSymbol.function i));
     (txt "source_file", jopt JString (InlineSymbol.source_file i));
     (txt "source_line", jopt jnat (InlineSymbol.source_line i))]).
Definition frame (f : SymbolicatedFrame.t) : json :=
  JObject (obj_of
    [(txt "instruction", JString (SymbolicatedFrame.instruction f));
     (txt "module", jopt JString (SymbolicatedFrame.module f));
     (txt "module_relative", jopt JString (SymbolicatedFrame.module_relative f));
     (txt "trust", JString (SymbolicatedFrame.trust f));
     (txt "symbol_status", frame_status (SymbolicatedFrame.symbol_status f));
     (txt "function", jopt JString (SymbolicatedFrame.function f));
     (txt "source_file", jopt JString (SymbolicatedFrame.source_file f));
     (txt "source_line", jopt jnat (SymbolicatedFrame.source_line f));
     (txt "inlines", jlist inline (SymbolicatedFrame.inlines f))]).
Definition thread (t : SymbolicatedThread.t) : json :=
  JObject (obj_of
    [(txt "thread_id", jnat (SymbolicatedThread.thread_id t));
     (txt "faulting", JBool (SymbolicatedThread.faulting t));
     (txt "name", jopt JString (SymbolicatedThread.name t));
     (txt "unwind_status", unwind_status (SymbolicatedThread.unwind_status t));
     (txt "frames_truncated", JBool (SymbolicatedThread.frames_truncated t));
     (txt "frames", jlist frame (SymbolicatedThread.frames t))]).
Definition symbolication (r : SymbolicationResult.t) : json :=
  JObject (obj_of
    [(txt "schema_version", jnat (SymbolicationResult.schema_version r));
     (txt "symbolicator_version", JString (SymbolicationResult.symbolicator_version r));
     (txt "minidump_version", JString (SymbolicationResult.minidump_version r));
     (txt "minidump_processor_version", JString (SymbolicationResult.minidump_processor_version r));
     (txt "minidump_unwind_version", JString (SymbolicationResult.minidump_unwind_version r));
     (txt "platform", JString (SymbolicationResult.platform r));
     (txt "architecture", JString (SymbolicationResult.architecture r));
     (txt "faulting_thread_id", jopt jnat (SymbolicationResult.faulting_thread_id r));
     (txt "exception_reason", jopt JString (SymbolicationResult.exception_reason r));
     (txt "assertion", jopt JString (SymbolicationResult.assertion r));
     (txt "modules", jlist module (SymbolicationResult.modules r));
     (txt "threads", jlist thread (SymbolicationResult.threads r))]).
End Serialize.

Module PreviousProcessing.
Record t : Type := Mk { current : json; history : list json }.
End PreviousProcessing.

(** [serde_json::from_slice]. *)
Class SerdeJson : Type := { from_slice : bytes -> option json }.

(** [ProcessingAttempt]. *)
Definition processing_attempt (parser_version : N) (symbolication : SymbolicationResult.t) : json :=
  JObject (obj_of
    [(txt "processing_version", jnat PROCESSING_VERSION); (txt "parser_version", jnat parser_version);
     (txt "symbolication", Serialize.symbolication symbolication)]).

(** [ProcessingResult]. *)
Definition processing_result (crash_guid : text) (crash_context : CrashContextData.t)
    (request : option CrashRequestManifest.t) (classification : option CrashClassification.t)
    (log : option CrashRequestLog.t) (current : json) (history : list json) : json :=
  JObject (obj_of (
    [(txt "schema_version", jnat RESULT_SCHEMA_VERSION); (txt "crash_guid", JString crash_guid);
     (txt "crash_context", Serialized.data crash_context)]
    ++ opt_field "request" Serialize.manifest request
    ++ opt_field "classification" Serialized.classification classification
    ++ opt_field "log" Serialize.log log
    ++ [(txt "current", current); (txt "history", JArray history)])).

(** [crash_guid]. *)
Definition crash_guid (crash_context : CrashContextData.t) : result ProcessingResultError text :=
  ok_or MissingCrashIdentity
    (guid ← CrashContextData.crash_guid crash_context; if usable_identity guid then Some guid else None).

(** [push_bounded_history]. *)
Definition push_bounded_history (history : list json) (attempt : json) : list json :=
  (if (MAX_PROCESSING_HISTORY <=? length history)%nat
   then drop (length history - MAX_PROCESSING_HISTORY + 1) history else history) ++ [attempt].

(** [build_processing_result]. *)
Definition build_processing_result (crash_context : CrashContextData.t) (symbolication : SymbolicationResult.t)
    (previous : option PreviousProcessing.t) (request : option CrashRequestManifest.t)
    (classification : option CrashClassification.t) (log : option CrashRequestLog.t) :
    result ProcessingResultError json :=
  guid ← crash_guid crash_context;
  let current := processing_attempt (CrashContextData.parser_version crash_context) symbolication in
  let history := match previous with Some p => PreviousProcessing.history p | None => [] end in
  let history :=
    match previous with
    | Some p => if decide (PreviousProcessing.current p <> current)
                then push_bounded_history history (PreviousProcessing.current p) else history
    | None => history
    end in
  Ok (processing_result guid crash_context request classification log current history).

Section processing.
Context {J : SerdeJson}.

(** [parse_previous_processing]. *)
Definition parse_previous_processing (bs : bytes) (crash_guid : text) :
    result ProcessingResultError PreviousProcessing.t :=
  v ← ok_or InvalidPrevious (from_slice bs);
  _ ← validate_processing_result v (Some crash_guid);
  object ← ok_or InvalidPrevious (as_object v);
  current ← ok_or InvalidPrevious (obj_get (txt "current") object);
  history ← ok_or InvalidPrevious (obj_get (txt "history") object ≫= as_array);
  Ok {| PreviousProcessing.current := current; PreviousProcessing.history := history |}.

(** [previous.map(..).transpose()]. *)
Definition parse_previous (context : CrashContextData.t) (previous : option bytes) :
    result ProcessingResultError (option PreviousProcessing.t) :=
  match previous with
  | None => Ok None
  | Some bs => guid ← crash_guid context; p ← parse_previous_processing bs guid; Ok (Some p)
  end.

Context {Z : Zlib} {X : Roxmltree} {Obj : ObjectCrate} {P : PdbCrate} {F : FileSystem} {M : MinidumpCrate}
  {Sy : SymbolicCrate}.

(** [process_crash_request]; [wait] is how the wait for the symbolication worker ends. *)
Definition process_crash_request {R : Type} `{Read R} (wait : Wait) (reader : R) (symbols : path)
    (symcaches : list SymCacheArtifact.t) (previous : option bytes) : result CrashProcessingError.t json :=
  contents ← map_err CrashProcessingError.Request (read_crash_request reader CrashRequestLimits.default);
  xml ← ok_or CrashProcessingError.MissingCrashContext (CrashRequestContents.crash_context contents);
  parsed ← map_err CrashProcessingError.Parse (parse MAX_CRASH_CONTEXT_NODES xml);
  let classification := classification parsed in
  let crash_context := extract parsed false in
  previous ← map_err CrashProcessingError.Result (parse_previous crash_context previous);
  minidump ← ok_or CrashProcessingError.MissingMinidump (CrashRequestContents.minidump contents);
  symbolication ← map_err CrashProcessingError.Symbolicate
    (if decide (symcaches = []) then
       symbolicate_minidump_bytes SymbolicationLimits.default wait minidump symbols
     else symbolicate_minidump_bytes_with_symcaches wait minidump symbols symcaches SymbolicationLimits.default);
  map_err CrashProcessingError.Result
    (build_processing_result crash_context symbolication previous (Some (CrashRequestContents.manifest contents))
       (Some classification) (CrashRequestContents.log contents)).
End processing.

(** * Tactics for serialized records *)

(** The value of a field in a list of fields. *)
Ltac field_value k l :=
  match l with
  | (k, ?v) :: _ => v
  | _ :: ?l => field_value k l
  end.

(** Looks up the fields of a serialized record and checks its keys. *)
Ltac lookup_fields :=
  repeat match goal with
  | |- context [obj_of ?l] =>
      let H := fresh in
      assert (H : NoDup (map fst l)) by (apply (bool_decide_unpack _); vm_compute; exact I);
      repeat match goal with
      | |- context [length (obj_of l)] => rewrite (length_of l H)
      | |- context [only_keys (obj_of l) ?ks] => rewrite (only_keys_of l ks H)
      | |- context [obj_get ?k (obj_of l)] => rewrite (obj_get_of l H k)
      end;
      clear H; cbn [map fst length Nat.eqb]
  end;
  repeat match goal with
  | |- context [obj_get ?k ?l] =>
      first [ let v := field_value k l in replace (obj_get k l) with (Some v) by reflexivity
            | replace (obj_get k l) with (@None json) by reflexivity ]
  | |- context [forallb (is_one_of ?ks) ?l] => replace (forallb (is_one_of ks) l) with true by reflexivity
  end.

Create Rewrite HintDb serialized.

Lemma nullable_string_jopt o : nullable_string (jopt JString o) = true.
Proof. by destruct o. Qed.
Lemma nullable_u64_jopt o : nullable_u64 (jopt jnat o) = true.
Proof. by destruct o. Qed.
Lemma string_array_jlist l : string_array (jlist JString l) = true.
Proof. unfold string_array. cbn. induction l; [done|]. by cbn. Qed.
Lemma non_empty_true s : s <> [] -> non_empty s = true.
Proof. intros H. unfold non_empty. by rewrite bool_decide_false. Qed.
Lemma frame_status_known s : is_some_and (as_str (Serialize.frame_status s)) (is_one_of frame_statuses) = true.
Proof. by destruct s. Qed.
Lemma module_status_known s : is_some_and (as_str (Serialize.module_status s)) (is_one_of module_statuses) = true.
Proof. by destruct s. Qed.
Lemma unwind_status_known s : is_some_and (as_str (Serialize.unwind_status s)) (is_one_of unwind_statuses) = true.
Proof. by destruct s. Qed.
Lemma file_kind_known k :
  is_one_of [txt "crash_context"; txt "minidump"; txt "log"; txt "unknown"] (FileKind.name k) = true.
Proof. by destruct k. Qed.
Lemma crash_type_known c : is_some_and (as_str (CrashType.to_json c)) valid_crash_type = true.
Proof. by destruct c. Qed.
Lemma confidence_known c : is_some_and (as_str (Serialized.confidence c)) valid_confidence = true.
Proof. by destruct c. Qed.
Lemma signal_kind_known k :
  is_some_and (as_str (Serialized.signal_kind k)) (is_one_of [txt "gpu_crash"; txt "out_of_memory"]) = true.
Proof. by destruct k. Qed.
Lemma jnat_u64 n : is_u64 (jnat n) = true.
Proof. done. Qed.
Lemma as_u64_jnat n : as_u64 (jnat n) = Some n.
Proof. done. Qed.
Lemma jlist_array {A} (f : A -> json) l : is_array (jlist f l) = true.
Proof. done. Qed.
Lemma as_array_jlist {A} (f : A -> json) l : as_array (jlist f l) = Some (map f l).
Proof. done. Qed.
#[export] Hint Rewrite nullable_string_jopt nullable_u64_jopt string_array_jlist frame_status_known
  module_status_known unwind_status_known file_kind_known crash_type_known confidence_known signal_kind_known
  jnat_u64 as_u64_jnat @jlist_array @as_array_jlist : serialized.

Lemma validate_all_map {A} (validator : json -> validation) (f : A -> json) l :
  Forall (fun x => validator (f x) = Ok ()) l -> validate_all validator (map f l) = Ok ().
Proof. induction 1 as [|x l Hx _ IH]; cbn; [done|]. by rewrite Hx. Qed.

(** Reduces the validation of a serialized record to what its fields must satisfy, and settles what is
    decided. *)
Ltac validate_fields :=
  cbn [as_object ok_or mbind result_bind];
  unfold validate_array, has_str, has_u64, has_non_empty, has_one_of, has; cbn [forallb];
  lookup_fields; cbn [is_some_and is_none_or mbind option_bind as_str is_string]; autorewrite with serialized.
Ltac settle_fields :=
  cbn [andb orb expect negb fail_if mbind result_bind option_bind ok_or is_bool is_string is_some_and].

(** * Serialized records are valid *)

Definition frame_wf (f : SymbolicatedFrame.t) : Prop := SymbolicatedFrame.trust f <> [].
Definition thread_wf (t : SymbolicatedThread.t) : Prop := Forall frame_wf (SymbolicatedThread.frames t).

Lemma inline_valid i : validate_inline (Serialize.inline i) = Ok ().
Proof. unfold validate_inline, Serialize.inline. validate_fields; settle_fields. done. Qed.

Lemma frame_valid f : frame_wf f -> validate_frame (Serialize.frame f) = Ok ().
Proof.
  intros Ht. unfold validate_frame, Serialize.frame. validate_fields; settle_fields. rewrite (non_empty_true _ Ht).
  cbn. apply validate_all_map, Forall_true. intros. apply inline_valid.
Qed.

Lemma thread_valid t : thread_wf t -> validate_thread (Serialize.thread t) = Ok ().
Proof.
  intros Ht. unfold validate_thread, Serialize.thread. validate_fields; settle_fields.
  apply validate_all_map. eapply Forall_impl; [exact Ht|]. apply frame_valid.
Qed.

Lemma module_valid m : validate_module (Serialize.module m) = Ok ().
Proof.
  unfold validate_module, Serialize.module. destruct (SymbolicatedModule.symcache_format m); cbn [app opt_field];
    validate_fields; settle_fields; done.
Qed.

Lemma property_valid p : validate_property (Serialized.property p) = Ok ().
Proof. unfold validate_property, validate_string_object, Serialized.property. validate_fields; settle_fields. done. Qed.

Lemma normalized_valid v : validate_normalized_value (NormalizedValue.to_json v) = Ok ().
Proof. unfold validate_normalized_value, validate_string_object, NormalizedValue.to_json. validate_fields; settle_fields. done. Qed.

Lemma context_thread_valid t : validate_context_thread (Serialized.thread t) = Ok ().
Proof. unfold validate_context_thread, context_thread_fields, Serialized.thread. validate_fields; settle_fields. done. Qed.

Lemma unknown_valid m : validate_unknown_fields (Serialized.btree (Serialized.btree (jlist JString)) m) = Ok ().
Proof.
  unfold validate_unknown_fields, Serialized.btree. cbn [as_object ok_or mbind result_bind].
  unfold obj_values. rewrite map_map. apply validate_all_map, Forall_true. intros [s fields].
  unfold validate_unknown_section. cbn [as_object ok_or mbind result_bind snd]. unfold obj_values. rewrite map_map.
  replace (forallb _ _) with true; [done|]. symmetry. apply forallb_forall. intros v Hv.
  apply in_map_iff in Hv as (x & <- & _). apply string_array_jlist.
Qed.

Lemma platform_valid o :
  (is_null (jopt NormalizedValue.to_json o)
   || is_ok (validate_normalized_value (jopt NormalizedValue.to_json o))) = true.
Proof. destruct o; [|done]. cbn [jopt]. by rewrite normalized_valid. Qed.

Lemma crash_context_valid d :
  CrashContextData.parser_version d = CRASH_CONTEXT_PARSER_VERSION ->
  exists m, Serialized.data d = JObject m /\ validate_crash_context m = Ok ().
Proof.
  intros Hp. eexists. split; [reflexivity|]. unfold validate_crash_context, crash_context_texts.
  destruct (CrashContextData.command_line d); cbn [app opt_field]; validate_fields.
  all: rewrite Hp, platform_valid, bool_decide_true by done; settle_fields.
  all: rewrite (validate_all_map _ _ (CrashContextData.modules d) (Forall_true _ _ normalized_valid)).
  all: rewrite (validate_all_map _ _ (CrashContextData.threads d) (Forall_true _ _ context_thread_valid)).
  all: rewrite (validate_all_map _ _ (CrashContextData.system_metadata d) (Forall_true _ _ property_valid)).
  all: rewrite (validate_all_map _ _ (CrashContextData.game_data d) (Forall_true _ _ property_valid)).
  all: apply unknown_valid.
Qed.

Lemma request_file_valid f : validate_request_file (Serialize.request_file f) = Ok ().
Proof. unfold validate_request_file, Serialize.request_file. validate_fields; settle_fields. done. Qed.

Lemma request_valid m :
  CrashRequestManifest.schema_version m = 1%N -> CrashRequestManifest.envelope m = txt "cr1" ->
  validate_request (Serialize.manifest m) = Ok ().
Proof.
  intros Hs He. unfold validate_request, Serialize.manifest. validate_fields. rewrite Hs, He, !bool_decide_true by done. settle_fields. apply validate_all_map, Forall_true. intros. apply request_file_valid.
Qed.

Lemma signal_valid s : validate_signal (Serialized.signal s) = Ok ().
Proof. unfold validate_signal, Serialized.signal. validate_fields; settle_fields. done. Qed.

Lemma classification_valid c : validate_classification (Serialized.classification c) = Ok ().
Proof.
  unfold validate_classification, Serialized.classification. validate_fields; settle_fields.
  apply validate_all_map, Forall_true. intros. apply signal_valid.
Qed.

Lemma log_valid l : validate_log (Serialize.log l) = Ok ().
Proof. unfold validate_log, Serialize.log. validate_fields; settle_fields. cbn [as_object]. validate_fields; settle_fields. done. Qed.

(** What the serialized symbolication needs: the constants of the contract and frames with a trust. *)
Record symbolication_wf (r : SymbolicationResult.t) : Prop := {
  wf_schema : SymbolicationResult.schema_version r = SYMBOLICATION_SCHEMA_VERSION;
  wf_platform : SymbolicationResult.platform r = txt "windows";
  wf_architecture : SymbolicationResult.architecture r = txt "x86_64";
  wf_versions : Forall (fun v => v <> [])
    [SymbolicationResult.symbolicator_version r; SymbolicationResult.minidump_version r;
     SymbolicationResult.minidump_processor_version r; SymbolicationResult.minidump_unwind_version r];
  wf_threads : Forall thread_wf (SymbolicationResult.threads r);
}.

Lemma symbolication_valid r :
  symbolication_wf r -> validate_symbolication (Serialize.symbolication r) PROCESSING_VERSION = Ok ().
Proof.
  intros [Hs Hp Ha Hv Ht]. unfold validate_symbolication, validate_symbolication_header, Serialize.symbolication.
  change (header_keys PROCESSING_VERSION) with (header_keys 2). unfold header_keys.
  change (PROCESSING_VERSION =? 1)%N with false. change (2 =? 1)%N with false. change (PROCESSING_VERSION =? 2)%N with true.
  cbn [app length]. unfold has_non_empty. validate_fields. rewrite Hs, Hp, Ha, !bool_decide_true by done.
  repeat (apply Forall_cons_1 in Hv as [? Hv]). rewrite !non_empty_true by done. settle_fields.
  unfold validate_modules, validate_threads. rewrite (validate_all_map _ _ _ (Forall_true _ _ module_valid)).
  cbn [mbind result_bind]. apply validate_all_map. eapply Forall_impl; [exact Ht|]. apply thread_valid.
Qed.

Lemma attempt_valid parser_version r :
  symbolication_wf r -> validate_attempt (processing_attempt parser_version r) = Ok ().
Proof.
  intros Hr. unfold validate_attempt, processing_attempt. validate_fields. cbn [is_none is_object]. settle_fields.
  apply (symbolication_valid r Hr).
Qed.

Lemma attempt_version parser_version r :
  get (processing_attempt parser_version r) (txt "processing_version") = Some (jnat PROCESSING_VERSION)
  /\ get (processing_attempt parser_version r) (txt "parser_version") = Some (jnat parser_version).
Proof. split; reflexivity. Qed.

Lemma usable_Some (o : option text) g :
  (guid ← o; if usable_identity guid then Some guid else None) = Some g -> o = Some g /\ usable_identity g = true.
Proof.
  destruct o as [g'|]; [|done]. cbn. destruct (usable_identity g') eqn:E; [|done]. by intros [= <-].
Qed.

Lemma crash_guid_Ok d guid :
  crash_guid d = Ok guid -> CrashContextData.crash_guid d = Some guid /\ usable_identity guid = true.
Proof.
  unfold crash_guid. intros H%ok_or_Ok. by apply usable_Some.
Qed.

Lemma crash_context_guid d m guid :
  Serialized.data d = JObject m -> CrashContextData.crash_guid d = Some guid ->
  obj_get (txt "crash_guid") m ≫= as_str = Some guid.
Proof.
  intros [= <-] Hg. destruct (CrashContextData.command_line d); cbn [app opt_field]; lookup_fields;
    cbn [mbind option_bind]; by rewrite Hg.
Qed.

Lemma crash_context_parser d m :
  Serialized.data d = JObject m ->
  obj_get (txt "parser_version") m ≫= as_u64 = Some (CrashContextData.parser_version d).
Proof.
  intros [= <-]. destruct (CrashContextData.command_line d); cbn [app opt_field]; lookup_fields; done.
Qed.

(** A result is valid when its parts are. *)
Lemma result_valid guid d request classification log parser_version r history require_current :
  CrashContextData.crash_guid d = Some guid -> usable_identity guid = true ->
  CrashContextData.parser_version d = CRASH_CONTEXT_PARSER_VERSION ->
  (forall m, request = Some m ->
     CrashRequestManifest.schema_version m = 1%N /\ CrashRequestManifest.envelope m = txt "cr1") ->
  symbolication_wf r -> parser_version = CrashContextData.parser_version d ->
  (length history <= MAX_PROCESSING_HISTORY)%nat -> Forall (fun v => validate_attempt v = Ok ()) history ->
  validate_processing_contract
    (processing_result guid d request classification log (processing_attempt parser_version r) history)
    (Some guid) require_current = Ok ().
Proof.
  intros Hg Hu Hp Hm Hr -> Hl Hh. destruct (crash_context_valid d Hp) as (m & Em & Hc).
  unfold validate_processing_contract, processing_result, validate_optional.
  destruct request as [request|], classification as [classification|], log as [log|]; cbn [app opt_field]; validate_fields.
  all: settle_fields; rewrite Hu; settle_fields.
  all: rewrite N.eqb_refl, (bool_decide_true (guid = guid)) by done; cbn [negb fail_if mbind result_bind as_array ok_or].
  all: rewrite (proj2 (Nat.ltb_ge _ _) Hl), (proj1 (attempt_version _ _)); cbn [fail_if mbind result_bind option_bind].
  all: rewrite as_u64_jnat, (bool_decide_true (Some PROCESSING_VERSION = _)) by done.
  all: cbn [negb]; rewrite andb_false_r; cbn [fail_if mbind result_bind].
  all: rewrite (attempt_valid (CrashContextData.parser_version d) r Hr).
  all: cbn [mbind result_bind]; rewrite (proj1 (validate_all_Forall _ _) Hh), Em; cbn [as_object ok_or mbind result_bind].
  all: rewrite (crash_context_guid _ _ _ Em Hg), (bool_decide_true (Some guid = _)) by done.
  all: cbn [negb fail_if mbind result_bind]; rewrite Hc, (proj2 (attempt_version _ _)), (crash_context_parser _ _ Em).
  all: cbn [mbind result_bind option_bind]; rewrite as_u64_jnat, bool_decide_true by done; settle_fields.
  all: rewrite ?classification_valid, ?log_valid; settle_fields; try done.
  all: destruct (Hm _ eq_refl) as [Hm1 Hm2]; rewrite (request_valid _ Hm1 Hm2); settle_fields; try done.
  all: rewrite ?classification_valid, ?log_valid; settle_fields; done.
Qed.

(** * History *)

Lemma push_bounded_history_spec history attempt :
  (length history <= MAX_PROCESSING_HISTORY)%nat ->
  push_bounded_history history attempt
  = drop (length history + 1 - MAX_PROCESSING_HISTORY) (history ++ [attempt]).
Proof.
  intros Hl. unfold push_bounded_history, MAX_PROCESSING_HISTORY in *. destruct (Nat.leb_spec 16 (length history)).
  - rewrite drop_app_le by lia. do 2 f_equal. lia.
  - replace (length history + 1 - 16)%nat with 0%nat by lia. done.
Qed.

Lemma push_bounded_history_valid history attempt :
  (length history <= MAX_PROCESSING_HISTORY)%nat -> Forall (fun v => validate_attempt v = Ok ()) history ->
  validate_attempt attempt = Ok () ->
  (length (push_bounded_history history attempt) <= MAX_PROCESSING_HISTORY)%nat
  /\ Forall (fun v => validate_attempt v = Ok ()) (push_bounded_history history attempt).
Proof.
  intros Hl Hh Ha. rewrite push_bounded_history_spec by done. split.
  - rewrite length_drop, length_app. unfold MAX_PROCESSING_HISTORY. cbn [length]. lia.
  - apply Forall_drop, Forall_app. split; [done|]. by apply Forall_singleton.
Qed.

Definition previous_valid (p : PreviousProcessing.t) : Prop :=
  validate_attempt (PreviousProcessing.current p) = Ok ()
  /\ (length (PreviousProcessing.history p) <= MAX_PROCESSING_HISTORY)%nat
  /\ Forall (fun v => validate_attempt v = Ok ()) (PreviousProcessing.history p).

(** What the contract says of a valid result. *)
Lemma contract_inversion v guid require_current :
  validate_processing_contract v guid require_current = Ok () ->
  exists m current history context g,
    v = JObject m /\ obj_get (txt "current") m = Some current /\ obj_get (txt "history") m = Some (JArray history)
    /\ obj_get (txt "crash_context") m = Some (JObject context)
    /\ obj_get (txt "schema_version") m ≫= as_u64 = Some RESULT_SCHEMA_VERSION
    /\ obj_get (txt "crash_guid") m ≫= as_str = Some g /\ usable_identity g = true
    /\ (forall expected, guid = Some expected -> expected = g)
    /\ obj_get (txt "crash_guid") context ≫= as_str = Some g
    /\ (require_current = true -> get current (txt "processing_version") ≫= as_u64 = Some PROCESSING_VERSION)
    /\ previous_valid {| PreviousProcessing.current := current; PreviousProcessing.history := history |}.
Proof.
  intros H. unfold validate_processing_contract in H. destruct v as [| | | | |m]; try done.
  cbn [as_object ok_or mbind result_bind] in H. apply bind_Ok in H as ([] & _ & H).
  destruct (obj_get (txt "schema_version") m ≫= as_u64) as [version|] eqn:Hv; [|done].
  inv_ok.
  repeat match goal with E : negb _ = false |- _ => apply negb_false_iff in E end.
  repeat match goal with E : bool_decide _ = true |- _ => apply bool_decide_eq_true in E end.
  match goal with E : (_ =? _)%N = true |- _ => apply N.eqb_eq in E as -> end.
  match goal with E : (_ <? _)%nat = false |- _ => apply Nat.ltb_ge in E end.
  match goal with E : (_ ≫= fun guid => if usable_identity guid then _ else _) = Some _ |- _ =>
    apply usable_Some in E as [Hg Hu] end.
  match goal with E : obj_get (txt "history") m ≫= as_array = Some _ |- _ => apply bind_Some in E as ([] & Hh & E); try done;
    injection E as -> end.
  match goal with E : obj_get (txt "crash_context") m ≫= as_object = Some _ |- _ =>
    apply bind_Some in E as ([] & Hc & E); try done; injection E as -> end.
  eexists m, _, _, _, _. split_and!; try done.
  - intros expected ->. cbn in *. match goal with E : negb _ = false |- _ => apply negb_false_iff, bool_decide_eq_true in E end. done.
  - intros ->. cbn in *. match goal with E : negb _ = false |- _ => apply negb_false_iff, bool_decide_eq_true in E end. done.
  - unfold previous_valid. cbn. split_and!; [by repeat match goal with x : () |- _ => destruct x end|done|].
    apply validate_all_Forall. by repeat match goal with x : () |- _ => destruct x end.
Qed.

(** * The pipeline gives well-formed parts *)

(** [FrameTrust::as_str] is one of seven fixed names, none of them empty. *)
Class NamedTrust (M : MinidumpCrate) : Prop := {
  trust_named d modules state : process_minidump d modules = Some state ->
    Forall (fun c => Forall (fun f => StackFrame.trust f <> []) (CallStack.frames c)) (ProcessState.threads state) }.

Lemma build_result_wf state modules limits :
  Forall (fun c => Forall (fun f => StackFrame.trust f <> []) (CallStack.frames c)) (ProcessState.threads state) ->
  symbolication_wf (build_result state modules limits).
Proof.
  intros Ht. split; try done; [by repeat (apply Forall_cons_2; [done|])|].
  unfold build_result. cbn [SymbolicationResult.threads]. apply Forall_fmap, Forall_take, Forall_forall.
  intros [i c] Hc. rewrite sort_perm in Hc. apply zip_seq_lookup in Hc as [_ Hc].
  apply list_elem_of_lookup_2 in Hc. rewrite Forall_forall in Ht. specialize (Ht c Hc).
  unfold compose, thread_wf, map_thread. cbn [SymbolicatedThread.frames snd]. apply Forall_fmap, Forall_take.
  eapply Forall_impl; [exact Ht|]. done.
Qed.

Lemma improves_wf {F : FileSystem} {Sy : SymbolicCrate} symcaches r r' :
  improves symcaches r r' -> symbolication_wf r -> symbolication_wf r'.
Proof.
  intros (E & _ & _ & Hi) [Hs Hp Ha Hv Ht]. rewrite E. split; try done. cbn.
  clear E. induction Hi as [|t t' ts ts' Htt _ IH]; [constructor|]. apply Forall_cons in Ht as [Ht Hts].
  apply Forall_cons. split; [|by apply IH]. destruct Htt as (_ & _ & _ & _ & _ & Hf). unfold thread_wf in *. clear -Hf Ht.
  induction Hf as [|f f' fs fs' [[= _ _ _ Hff] _] _ IH]; [constructor|]. apply Forall_cons in Ht as [Hx Hxs].
  apply Forall_cons. split; [|by apply IH]. unfold frame_wf in *. by rewrite Hff.
Qed.

Section pipeline.
Context {Obj : ObjectCrate} {P : PdbCrate} {F : FileSystem} {M : MinidumpCrate} {Tr : NamedTrust M}
  {Sy : SymbolicCrate}.

Lemma symbolicate_wf limits wait dump root r :
  symbolicate_minidump_bytes limits wait dump root = Ok r -> symbolication_wf r.
Proof.
  unfold symbolicate_minidump_bytes, run_symbolicator. intros H.
  destruct (_ <? _)%N; [done|]. destruct (_ =? _)%N; [done|]. destruct wait; try done.
  unfold symbolicate_bytes_inner in H. inv_pairs. apply build_result_wf. by eapply trust_named.
Qed.

Lemma symbolicate_with_symcaches_wf wait dump symbols symcaches limits r :
  symbolicate_minidump_bytes_with_symcaches wait dump symbols symcaches limits = Ok r -> symbolication_wf r.
Proof.
  unfold symbolicate_minidump_bytes_with_symcaches. intros H. inv_ok.
  eapply (improves_wf symcaches); [|by eapply symbolicate_wf]. eapply apply_modules_improves; [|done].
  eapply index_artifacts_indexed; [| |done]; [done|by intros ? ?].
Qed.

Context {J : SerdeJson}.

Lemma parse_previous_processing_Ok bs guid p :
  parse_previous_processing bs guid = Ok p ->
  exists m, from_slice bs = Some (JObject m) /\ validate_processing_result (JObject m) (Some guid) = Ok ()
  /\ obj_get (txt "current") m = Some (PreviousProcessing.current p)
  /\ obj_get (txt "history") m = Some (JArray (PreviousProcessing.history p)) /\ previous_valid p.
Proof.
  unfold parse_previous_processing. intros H. inv_ok.
  repeat match goal with x : () |- _ => destruct x end.
  match goal with E : validate_processing_result _ _ = Ok _ |- _ =>
    destruct (contract_inversion _ _ _ E) as (m & current & history & context & g & -> & Hc & Hh & _ & _ & _ & _ & _ & _ & _ & Hp) end.
  match goal with E : as_object (JObject m) = Some _ |- _ => injection E as <- end.
  match goal with E : obj_get (txt "current") m = Some _ |- _ => rewrite Hc in E; injection E as -> end.
  match goal with E : obj_get (txt "history") m ≫= _ = Some _ |- _ => rewrite Hh in E; injection E as -> end.
  exists m. by split_and!.
Qed.

Lemma parse_previous_valid d previous p :
  parse_previous d previous = Ok (Some p) -> previous_valid p.
Proof.
  unfold parse_previous. destruct previous; [|done]. intros H. inv_ok.
  match goal with E : parse_previous_processing _ _ = Ok _ |- _ => by apply parse_previous_processing_Ok in E as (? & _ & _ & _ & _ & ?) end.
Qed.
End pipeline.

(** The history that building gives. *)
Definition next_history (previous : option PreviousProcessing.t) (current : json) : list json :=
  match previous with
  | Some p => if decide (PreviousProcessing.current p <> current)
              then push_bounded_history (PreviousProcessing.history p) (PreviousProcessing.current p)
              else PreviousProcessing.history p
  | None => []
  end.

Lemma build_Ok d r previous request classification log v :
  build_processing_result d r previous request classification log = Ok v ->
  exists guid, CrashContextData.crash_guid d = Some guid /\ usable_identity guid = true
  /\ let current := processing_attempt (CrashContextData.parser_version d) r in
     v = processing_result guid d request classification log current (next_history previous current).
Proof.
  unfold build_processing_result. intros H. apply bind_Ok in H as (guid & Hg%crash_guid_Ok & H).
  injection H as <-. exists guid. destruct Hg. split_and!; [done..|]. by destruct previous.
Qed.

Lemma next_history_valid previous current :
  (forall p, previous = Some p -> previous_valid p) ->
  (length (next_history previous current) <= MAX_PROCESSING_HISTORY)%nat
  /\ Forall (fun v => validate_attempt v = Ok ()) (next_history previous current).
Proof.
  intros Hp. destruct previous as [p|]; [|split; [cbn; lia|constructor]].
  destruct (Hp p eq_refl) as (Hc & Hl & Hh). cbn [next_history]. case_decide; [|done].
  by apply push_bounded_history_valid.
Qed.

Lemma build_valid d r previous request classification log v require_current :
  build_processing_result d r previous request classification log = Ok v ->
  CrashContextData.parser_version d = CRASH_CONTEXT_PARSER_VERSION ->
  (forall m, request = Some m ->
     CrashRequestManifest.schema_version m = 1%N /\ CrashRequestManifest.envelope m = txt "cr1") ->
  symbolication_wf r -> (forall p, previous = Some p -> previous_valid p) ->
  validate_processing_contract v (CrashContextData.crash_guid d) require_current = Ok ().
Proof.
  intros (guid & Hg & Hu & ->)%build_Ok Hp Hm Hr Hv. rewrite Hg.
  destruct (next_history_valid previous (processing_attempt (CrashContextData.parser_version d) r) Hv) as [H1 H2].
  by apply result_valid.
Qed.

Lemma manifest_constants {Z : Zlib} {X : Roxmltree} {R : Type} `{Read R} (reader : R) limits c :
  read_crash_request reader limits = Ok c ->
  CrashRequestManifest.schema_version (CrashRequestContents.manifest c) = 1%N
  /\ CrashRequestManifest.envelope (CrashRequestContents.manifest c) = txt "cr1".
Proof.
  unfold read_crash_request, decode_crash_request. intros Hc. apply bind_Ok in Hc as ([[[[? ?] ?] ?] ?] & _ & Hc).
  destruct (io_read _ _) as [? ?]. inv_ok. destruct (BufReader.fill_buf _) as [? ?]. inv_ok. done.
Qed.

Lemma result_fields guid d request classification log current history :
  let v := processing_result guid d request classification log current history in
  get v (txt "request") = Serialize.manifest <$> request
  /\ get v (txt "crash_context") = Some (Serialized.data d)
  /\ get v (txt "current") = Some current /\ get v (txt "history") = Some (JArray history).
Proof.
  cbn zeta. unfold processing_result, get. cbn [as_object mbind option_bind].
  destruct request, classification, log; cbn [app opt_field]; lookup_fields; done.
Qed.

Lemma command_line_absent d :
  CrashContextData.command_line d = None -> get (Serialized.data d) (txt "command_line") = None.
Proof.
  intros E. unfold Serialized.data. rewrite E. cbn [app opt_field]. unfold get. cbn [as_object mbind option_bind].
  lookup_fields. done.
Qed.
