(* ===== verification/Contract.v ===== *)
(** The contract of processing ([crates/processing/src/lib.rs]): what an emitted result promises, what a
    later attempt takes from it, and what the validator decides. *)

From S2P Require Import Prelude Text Json Domain CrashContext LogTail CrashRequest Archive Pdb Artifacts Symbolicate Symcache Validation Processing.

(** * The command line *)

Lemma obj_get_map {A B} (g : A -> B) (m : list (text * A)) k : obj_get k (map (fun kv => (kv.1, g kv.2)) m) = g <$> obj_get k m.
Proof. induction m as [|[k' x] m IH]; [done|]. cbn. by case_decide. Qed.

Lemma get_btree {A} (f : A -> json) m k : get (Serialized.btree f m) k = f <$> obj_get k m.
Proof. unfold get, Serialized.btree. cbn [as_object mbind option_bind]. apply obj_get_map. Qed.

(** A field that the parser knows is not among the unknown ones. *)
Lemma known_field_absent {X : Roxmltree} context s f :
  is_known_field s f = true -> obj_get s (extract_unknown_fields context) ≫= obj_get f = None.
Proof.
  intros Hk. unfold extract_unknown_fields. set (m := []).
  assert (Hm : obj_get s m ≫= obj_get f = None) by done. revert Hm. generalize m. clear m. induction (sections context) as [|n l IH]; [done|].
  cbn [foldl]. intros m Hm. apply IH. clear IH. revert m Hm. induction (elements_of n) as [|x fs IH]; [done|]. cbn [foldl]. intros m Hm. apply IH.
  unfold add_unknown. destruct (is_known_field (tag_name n) (tag_name x)) eqn:Kx; [done|]. rewrite obj_get_entry.
  destruct (decide (s = tag_name n)) as [->|]; [|done]. cbn. rewrite obj_get_entry. rewrite decide_False by congruence.
  by destruct (obj_get (tag_name n) m).
Qed.

Lemma unknown_fields_of d : get (Serialized.data d) (txt "unknown_fields") = Some (Serialized.btree (Serialized.btree (jlist JString)) (CrashContextData.unknown_fields d)).
Proof.
  unfold Serialized.data. unfold get. cbn [as_object mbind option_bind]. destruct (CrashContextData.command_line d); cbn [app opt_field]; lookup_fields; done.
Qed.

Lemma unknown_command_line_absent {X : Roxmltree} (context : Document) (include : bool) :
  pointer (Serialized.data (extract context include)) [txt "unknown_fields"; txt "RuntimeProperties"; txt "CommandLine"] = None.
Proof.
  unfold pointer. cbn [foldl mbind option_bind]. rewrite unknown_fields_of. cbn [mbind option_bind]. rewrite get_btree. unfold extract. cbn [CrashContextData.unknown_fields].
  pose proof (known_field_absent context (txt "RuntimeProperties") (txt "CommandLine") ltac:(by vm_compute)) as Hk.
  destruct (obj_get (txt "RuntimeProperties") (extract_unknown_fields context)) as [m|]; [|done]. cbn [fmap option_fmap option_map mbind option_bind].
  rewrite get_btree. cbn [mbind option_bind] in Hk. by rewrite Hk.
Qed.

(** * Properties *)

(** C15: every result that processing emits meets its own contract.  Whatever the crash request, the
    symbols, the caches and the earlier result were, an emitted result passes the strict validator for
    the crash identity of the request, and carries the manifest of the archive it came from.  The [CommandLine] of
    the runtime properties is neither its field [command_line] nor among its unknown fields. *)
Theorem processed_result_is_valid {Z : Zlib} {X : Roxmltree} {Obj : ObjectCrate} {P : PdbCrate} {F : FileSystem}
    {M : MinidumpCrate} {Tr : NamedTrust M} {Sy : SymbolicCrate} {J : SerdeJson} {R : Type} `{Read R}
    wait reader symbols symcaches previous v :
  process_crash_request wait reader symbols symcaches previous = Ok v ->
  exists contents xml document guid,
  read_crash_request reader CrashRequestLimits.default = Ok contents
  /\ CrashRequestContents.crash_context contents = Some xml /\ parse MAX_CRASH_CONTEXT_NODES xml = Ok document
  /\ CrashContextData.crash_guid (extract document false) = Some guid
  /\ validate_current_processing_result v (Some guid) = Ok ()
  /\ get v (txt "request") = Some (Serialize.manifest (CrashRequestContents.manifest contents))
  /\ pointer v [txt "crash_context"; txt "command_line"] = None
  /\ pointer v [txt "crash_context"; txt "unknown_fields"; txt "RuntimeProperties"; txt "CommandLine"] = None.
Proof.
  unfold process_crash_request. intros Hv. inv_ok. rename a into contents.
  match goal with E : CrashRequestContents.crash_context _ = Some _ |- _ => rename E into Hxml end.
  pose proof (parse_previous_valid (extract a1 false)) as Hprev. pose proof (unknown_command_line_absent a1 false) as Hunk.
  set (d := extract a1 false) in *.
  pose proof (build_Ok _ _ _ _ _ _ _ Hv) as (guid & Hg & _ & E).
  destruct (result_fields guid d (Some (CrashRequestContents.manifest contents))
      (Some (classification a1)) (CrashRequestContents.log contents)
      (processing_attempt (CrashContextData.parser_version d) a4)
      (next_history a2 (processing_attempt (CrashContextData.parser_version d) a4))) as (Hreq & Hctx & _).
  eexists contents, _, _, guid. split_and!; [done..| | | |].
  - unfold validate_current_processing_result. rewrite <-Hg. eapply build_valid; [exact Hv|done| | |].
    + intros m [= <-]. by eapply manifest_constants.
    + destruct (decide (symcaches = [])); [by eapply symbolicate_wf|by eapply symbolicate_with_symcaches_wf].
    + intros p ->. by eapply Hprev.
  - by rewrite E, Hreq.
  - rewrite E. unfold pointer. cbn [foldl mbind option_bind]. rewrite Hctx. by apply command_line_absent.
  - rewrite E. unfold pointer. cbn [foldl mbind option_bind]. rewrite Hctx. exact Hunk.
Qed.

(** C36: an emitted result can be processed again.  Whatever bytes [serde_json] reads as an emitted
    result are accepted as the previous result of the same crash, and what is taken from them is
    exactly the attempt and the history that were emitted. *)
Theorem emitted_result_is_a_previous_result {J : SerdeJson} d r previous request classification log v bs guid :
  build_processing_result d r previous request classification log = Ok v ->
  CrashContextData.crash_guid d = Some guid -> CrashContextData.parser_version d = CRASH_CONTEXT_PARSER_VERSION ->
  (forall m, request = Some m ->
     CrashRequestManifest.schema_version m = 1%N /\ CrashRequestManifest.envelope m = txt "cr1") ->
  symbolication_wf r -> (forall p, previous = Some p -> previous_valid p) -> from_slice bs = Some v ->
  let current := processing_attempt (CrashContextData.parser_version d) r in
  parse_previous_processing bs guid
  = Ok {| PreviousProcessing.current := current; PreviousProcessing.history := next_history previous current |}.
Proof.
  intros Hv Hg Hp Hm Hr Hprev Hbs current.
  pose proof (build_valid _ _ _ _ _ _ _ false Hv Hp Hm Hr Hprev) as Hok. rewrite Hg in Hok.
  apply build_Ok in Hv as (guid' & Hg' & _ & ->). assert (guid' = guid) as -> by congruence. fold current in Hok, Hbs |- *.
  destruct (result_fields guid d request classification log current (next_history previous current))
    as (_ & _ & Hc & Hh).
  unfold parse_previous_processing. rewrite Hbs. cbn [ok_or mbind result_bind].
  unfold validate_processing_result. rewrite Hok. cbn [mbind result_bind].
  unfold get, processing_result in Hc, Hh. unfold processing_result.
  cbn [as_object mbind option_bind ok_or result_bind] in *. rewrite Hc, Hh. done.
Qed.

(** C37: the history of a crash is bounded and keeps the newest attempts.  Reprocessing with the same
    outcome changes nothing; a different outcome appends the attempt that was current, and only when
    the history is full the oldest entries go. *)
Theorem reprocessing_keeps_the_newest_attempts d r p request classification log v :
  build_processing_result d r (Some p) request classification log = Ok v -> previous_valid p ->
  let current := processing_attempt (CrashContextData.parser_version d) r in
  exists history, get v (txt "current") = Some current /\ get v (txt "history") = Some (JArray history)
  /\ (length history <= MAX_PROCESSING_HISTORY)%nat
  /\ (PreviousProcessing.current p = current -> history = PreviousProcessing.history p)
  /\ (PreviousProcessing.current p <> current ->
      exists dropped, PreviousProcessing.history p ++ [PreviousProcessing.current p] = dropped ++ history
      /\ ((length (PreviousProcessing.history p) < MAX_PROCESSING_HISTORY)%nat -> dropped = [])
      /\ (length dropped <= 1)%nat).
Proof.
  intros Hv Hp current. destruct (next_history_valid (Some p) current) as [Hl _]; [intros q Hq; assert (q = p) as -> by congruence; done|].
  apply build_Ok in Hv as (guid & _ & _ & ->). fold current.
  destruct (result_fields guid d request classification log current (next_history (Some p) current))
    as (_ & _ & Hc & Hh).
  exists (next_history (Some p) current). split_and!; [done..| |]; cbn [next_history] in *.
  - intros E. by rewrite decide_False by (by intros ?).
  - intros E. rewrite decide_True by done. destruct Hp as (_ & Hl' & _). rewrite push_bounded_history_spec by done.
    eexists. split; [symmetry; apply take_drop|]. unfold MAX_PROCESSING_HISTORY in *. split.
    + intros Hlt. replace (_ - 16)%nat with 0%nat by lia. done.
    + rewrite length_take. lia.
Qed.

(** C40: the validator decides identity and currency exactly.  A result that is valid for some crash is
    valid for an expected identity when that is its own, and is refused as another crash's otherwise;
    and it is a current result exactly when its attempt has the current processing version. *)
Theorem validator_decides_identity_and_currency v g :
  validate_processing_result v None = Ok () -> get v (txt "crash_guid") ≫= as_str = Some g ->
  (forall expected, validate_processing_result v (Some expected)
     = if decide (expected = g) then Ok () else Err PreviousIdentityMismatch)
  /\ validate_current_processing_result v None
     = if decide (pointer v [txt "current"; txt "processing_version"] ≫= as_u64 = Some PROCESSING_VERSION)
       then Ok () else Err UnsupportedPreviousProcessing.
Proof.
  intros H Hg. unfold validate_processing_result, validate_current_processing_result, validate_processing_contract in *.
  destruct v as [| | | | |m]; try done. unfold get, pointer in *. cbn [as_object ok_or mbind result_bind option_bind foldl] in *.
  destruct (expect (only_keys m result_keys)) as [[]|]; [|done]. cbn [mbind result_bind] in *.
  destruct (match obj_get (txt "schema_version") m ≫= as_u64 with Some _ => _ | None => _ end) as [[]|]; [|done].
  cbn [mbind result_bind] in *. rewrite Hg in *. cbn [mbind option_bind] in *.
  destruct (usable_identity g); [|done]. cbn [ok_or mbind result_bind is_some_and fail_if] in *.
  destruct (obj_get (txt "history") m ≫= as_array) as [history|]; [|done]. cbn [ok_or mbind result_bind] in *.
  destruct (fail_if _ PreviousHistoryTooLong) as [[]|]; [|done]. cbn [mbind result_bind] in *.
  destruct (obj_get (txt "current") m) as [current|] eqn:Hcurrent; [|done]. cbn [ok_or mbind result_bind option_bind andb fail_if] in *.
  split.
  - intros expected. destruct (decide (expected = g)) as [->|Hne].
    + by rewrite bool_decide_true.
    + by rewrite bool_decide_false.
  - unfold get. cbn [as_object mbind option_bind] in *. rewrite Hcurrent. cbn [mbind option_bind].
    destruct (decide _) as [E|E]; [by rewrite bool_decide_true|by rewrite bool_decide_false].
Qed.

(** * Samples *)

(** A document tree, and a library that reads any text as one crash context with an identity and a
    command line. *)
Inductive element : Type := Element (name : text) (content : option text) (children : list element).

Definition element_children (e : element) : list element := let 'Element _ _ l := e in l.
Definition leaf (name content : string) : element := Element (txt name) (Some (txt content)) [].
Definition crash_document : element :=
  Element CRASH_CONTEXT_ROOT None
    [Element (txt "RuntimeProperties") None
       [leaf "CrashGUID" "UECC-1"; leaf "CrashType" "Crash"; leaf "CommandLine" "-secret";
        leaf "PlatformName" "Win64"; leaf "Undocumented" "x"]].

Definition one_crash : Roxmltree := {|
  Node := element; Document := element; root_element := id; root_position := fun _ => (1, 1)%N;
  children := element_children; is_element := fun _ => true;
  tag_name := fun e => let 'Element name _ _ := e in name;
  node_text := fun e => let 'Element _ content _ := e in content;
  parse_with_options := fun _ _ xml => Ok crash_document |}.

#[local] Instance sample_trust : NamedTrust sample_minidumps.
Proof.
  split. intros d modules state [= <-].
  repeat first [apply Forall_cons_2|apply Forall_nil_2|progress cbn [CallStack.frames ProcessState.threads sample_stack]];
    vm_compute; discriminate.
Defined.

(** A reader of JSON that reads one value. *)
Definition reads (v : json) : SerdeJson := {| from_slice := fun _ => Some v |}.

Definition process_sample (J : SerdeJson) (symcaches : list SymCacheArtifact.t) (previous : option bytes) :
    result CrashProcessingError.t json :=
  process_crash_request (J := J) (Z := Archive.stored) (X := one_crash) (Obj := opaque_objects) (P := opaque_pdbs)
    (F := symbol_fs) (M := sample_minidumps) (Sy := sample_symbolic) Received (encode sample_archive)
    [byt "root"] symcaches previous.

Definition sample_processed : json :=
  match process_sample (reads JNull) [] None with Ok v => v | Err _ => JNull end.

Example sample_process :
  process_sample (reads JNull) [] None = Ok sample_processed
  /\ get sample_processed (txt "crash_guid") = Some (jstr "UECC-1")
  /\ get sample_processed (txt "history") = Some (JArray [])
  /\ (is_ok (process_sample (reads sample_processed) [sample_cache] (Some [])) = true)
  /\ process_sample (reads JNull) [] (Some []) = Err (CrashProcessingError.Result InvalidPrevious).
Proof. split_and!; vm_compute; reflexivity. Qed.

Lemma processed_result_is_valid_witness :
  exists guid, validate_current_processing_result sample_processed (Some guid) = Ok ()
  /\ pointer sample_processed [txt "crash_context"; txt "command_line"] = None.
Proof.
  destruct (processed_result_is_valid (Z := Archive.stored) (X := one_crash) (Obj := opaque_objects) (P := opaque_pdbs)
    (F := symbol_fs) (M := sample_minidumps) (Sy := sample_symbolic) (J := reads JNull) Received
    (encode sample_archive) [byt "root"] [] None sample_processed)
    as (contents & xml & document & guid & _ & _ & _ & _ & Hv & _ & Hc & _); [vm_compute; reflexivity|].
  exists guid. split; [exact Hv|exact Hc].
Defined.

(** The parts of the sample: its context and its symbolication. *)
Definition sample_context : CrashContextData.t := extract (X := one_crash) crash_document false.
Definition default_result : SymbolicationResult.t :=
  build_result {| ProcessState.threads := [sample_stack 7]; ProcessState.requesting_thread := Some 0;
    ProcessState.exception_reason := None; ProcessState.assertion := None |} [] SymbolicationLimits.default.

Lemma default_result_wf : symbolication_wf default_result.
Proof.
  apply build_result_wf. apply Forall_cons_2; [|apply Forall_nil_2].
  apply Forall_cons_2; [vm_compute; discriminate|apply Forall_cons_2; [vm_compute; discriminate|apply Forall_nil_2]].
Defined.

Definition sample_attempt : json := processing_attempt CRASH_CONTEXT_PARSER_VERSION default_result.
Definition sample_result_json : json :=
  processing_result (txt "UECC-1") sample_context None None None sample_attempt [].

Lemma emitted_result_is_a_previous_result_witness :
  parse_previous_processing (J := reads sample_result_json) [] (txt "UECC-1")
  = Ok {| PreviousProcessing.current := sample_attempt; PreviousProcessing.history := [] |}.
Proof.
  apply (emitted_result_is_a_previous_result (J := reads sample_result_json) sample_context default_result None None
    None None sample_result_json [] (txt "UECC-1")); try reflexivity; try discriminate.
  apply default_result_wf.
Defined.

(** An attempt of the previous processing version. *)
Definition older_attempt : json :=
  alter_key (fun _ => jnat 7) (txt "parser_version") sample_attempt.

Lemma reprocessing_keeps_the_newest_attempts_witness :
  exists history dropped,
    get (processing_result (txt "UECC-1") sample_context None None None sample_attempt [older_attempt])
      (txt "history") = Some (JArray history)
    /\ [] ++ [older_attempt] = dropped ++ history /\ dropped = [].
Proof.
  destruct (reprocessing_keeps_the_newest_attempts sample_context default_result
    {| PreviousProcessing.current := older_attempt; PreviousProcessing.history := [] |} None None None
    (processing_result (txt "UECC-1") sample_context None None None sample_attempt [older_attempt]))
    as (history & _ & Hh & _ & _ & H).
  - vm_compute. reflexivity.
  - split; [vm_compute; reflexivity|]. split; [vm_compute; lia|apply Forall_nil_2].
  - destruct H as (dropped & H1 & H2 & _); [vm_compute; discriminate|]. exists history, dropped.
    split; [exact Hh|]. split; [exact H1|]. apply H2. vm_compute. lia.
Defined.

Lemma validator_decides_identity_and_currency_witness :
  validate_processing_result sample_processed (Some (txt "UECC-2")) = Err PreviousIdentityMismatch
  /\ validate_current_processing_result sample_processed None = Ok ().
Proof.
  destruct (validator_decides_identity_and_currency sample_processed (txt "UECC-1")) as [H1 H2];
    [vm_compute; reflexivity|vm_compute; reflexivity|].
  split; [exact (H1 (txt "UECC-2"))|exact H2].
Defined.
