(* ===== verification/Grouping.v ===== *)
(** Grouping ([crates/grouping/src/lib.rs]): the versioned fingerprints of a processing result.  SHA-256
    and the Unicode alphabetic tables are interfaces; everything else, from the normalisation of texts
    to the framing of the digest, is written out. *)

From S2P Require Import Prelude Text Json Validation.

Definition MAX_COMPONENT_CHARS : nat := 512.
Definition MAX_ERROR_INPUT_CHARS : nat := 4096.
Definition MAX_ERROR_TEMPLATE_CHARS : nat := 1024.
Definition MAX_PROJECT_FRAMES : nat := 8.
Definition MAX_ENGINE_FRAMES : nat := 5.
Definition MAX_UNRESOLVED_FRAMES : nat := 8.
Definition MAX_VARIANT_FRAMES : nat := 32.
Definition MAX_TITLE_CHARS : nat := 160.

Definition ENGINE_MODULES : list text :=
  map txt ["applicationcore"; "audioengine"; "core"; "coreuobject"; "d3d11rhi"; "d3d12rhi"; "engine"; "inputcore";
           "metalrhi"; "openglDrv"; "pakfile"; "projects"; "rendercore"; "rhi"; "slate"; "slatecore"; "vulkanrhi"].
Definition SYSTEM_MODULES : list text :=
  map txt ["amdxx64"; "atidxx64"; "combase"; "d3d11"; "d3d12"; "dxgi"; "gdi32"; "igd10iumd64"; "kernel32";
           "kernelbase"; "msvcp140"; "ntdll"; "nvwgf2umx"; "ucrtbase"; "user32"; "vcruntime140"; "win32u";
           "xaudio2_9"].

Module Fingerprint.
Record t : Type := Mk {
  issue_fingerprint : text; variant_fingerprint : text; title : text; grouping_quality : Z }.
End Fingerprint.

Inductive GroupingOutcome : Type := Grouped (f : Fingerprint.t) | Insufficient.
Inductive GroupingError : Type := InvalidProcessingResult.

(** [GroupingError::fmt]. *)
Definition grouping_error_message (e : GroupingError) : text :=
  let 'InvalidProcessingResult := e in txt "processing result cannot be fingerprinted".

(** * Texts *)

(** [bounded]. *)
Definition bounded (value : text) (maximum : nat) : text := take maximum value.

(** [collapse_whitespace]: the loop, with its output so far. *)
Fixpoint collapse_from (normalized value : text) : text :=
  match value with
  | [] => normalized
  | c :: value =>
      if is_whitespace c then
        collapse_from (if negb (bool_decide (normalized = [])) && negb (ends_with_char normalized 32)
                       then normalized ++ [32%N] else normalized) value
      else if negb (is_control c) then collapse_from (normalized ++ [c]) value
      else collapse_from normalized value
  end.
Definition collapse_whitespace (value : text) : text := trim (collapse_from [] value).

(** [normalize_module]. *)
Definition normalize_module (value : text) : text :=
  let leaf := to_ascii_lowercase (trim (default value (head (filter (fun part => part <> []) (rsplit_slash value))))) in
  let value := match strip_suffix leaf (txt ".dll") with
               | Some v => v
               | None => default leaf (strip_suffix leaf (txt ".exe"))
               end in
  bounded value MAX_COMPONENT_CHARS.

(** [normalize_function], [normalize_path] and [normalize_token]. *)
Definition normalize_function (value : text) : text := bounded (collapse_whitespace value) MAX_COMPONENT_CHARS.
Definition normalize_path (value : text) : text :=
  bounded (to_ascii_lowercase (trim (replace value (txt "\") (txt "/")))) MAX_COMPONENT_CHARS.
Definition normalize_token (value : text) : text :=
  bounded (to_ascii_lowercase (collapse_whitespace value)) MAX_COMPONENT_CHARS.

(** [normalize_relative]. *)
Definition normalize_relative (value : text) : option text :=
  let value := trim value in
  digits ← match strip_prefix value (txt "0x") with
           | Some digits => Some digits
           | None => strip_prefix value (txt "0X")
           end;
  number ← from_str_radix_16 digits;
  Some (txt "0x" ++ fmt_hex false number).

(** * Templates *)

Definition at_is (characters : text) (i : nat) (p : char -> bool) : bool := is_some_and (characters !! i) p.

(** [guid_end]: the groups that are left, each after its separator. *)
Fixpoint hex_group (characters : text) (index length : nat) : option nat :=
  match length with
  | O => Some index
  | S length => if at_is characters index is_ascii_hexdigit then hex_group characters (S index) length else None
  end.
Fixpoint guid_groups (characters : text) (index : nat) (groups : list nat) : option nat :=
  match groups with
  | [] => Some index
  | length :: groups =>
      index ← hex_group characters index length;
      match groups with
      | [] => Some index
      | _ => if at_is characters index (N.eqb 45) then guid_groups characters (S index) groups else None
      end
  end.
Definition guid_end (characters : text) (start : nat) : option nat :=
  guid_groups characters start [8; 4; 4; 4; 12]%nat.

(** The end of the run of characters from [index] that satisfy a test; [fuel] bounds its length. *)
Fixpoint run_end (p : char -> bool) (characters : text) (fuel index : nat) : nat :=
  match fuel with
  | O => index
  | S fuel => if at_is characters index p then run_end p characters fuel (S index) else index
  end.
Definition run_from (p : char -> bool) (characters : text) (index : nat) : nat :=
  run_end p characters (length characters - index) index.

(** [timestamp_end]. *)
Definition is_timestamp_char (c : char) : bool :=
  is_ascii_digit c || bool_decide (c ∈ txt ":.+-Zz").
Definition timestamp_end (characters : text) (start : nat) : option nat :=
  if forallb (fun offset =>
       at_is characters (start + offset)
         (if bool_decide (offset ∈ [4; 7]%nat) then N.eqb 45 else is_ascii_digit)) (seq 0 10)
  then
    let e := (start + 10)%nat in
    Some (if at_is characters e (fun c => bool_decide (c ∈ txt "Tt "))
          then run_from is_timestamp_char characters (S e) else e)
  else None.

(** [address_end]. *)
Definition address_end (characters : text) (start : nat) : option nat :=
  if at_is characters start (N.eqb 48) && at_is characters (start + 1) (fun c => bool_decide (c ∈ txt "xX"))
     && at_is characters (start + 2) is_ascii_hexdigit
  then Some (run_from is_ascii_hexdigit characters (start + 3)) else None.

(** [push_template]. *)
Definition push_template (output placeholder : text) : text :=
  if ends_with output placeholder then output else output ++ placeholder.

(** The body of the loop of [normalize_template] at [index], where the character is [c]. *)
Definition template_step (characters : text) (index : nat) (c : char) (output : text) : nat * text :=
  match guid_end characters index with
  | Some e => (e, push_template output (txt "<guid>"))
  | None =>
  match timestamp_end characters index with
  | Some e => (e, push_template output (txt "<timestamp>"))
  | None =>
  match address_end characters index with
  | Some e => (e, push_template output (txt "<address>"))
  | None =>
      if is_ascii_digit c then
        (run_from is_ascii_digit characters (index + 1), push_template output (txt "<number>"))
      else if is_whitespace c then
        (index + 1,
         if negb (bool_decide (output = [])) && negb (ends_with_char output 32) then output ++ [32%N] else output)
      else if is_control c then (index + 1, output)
      else (index + 1, output ++ [ascii_lower c])
  end end end.

(** The loop; [None] when the fuel runs out. *)
Fixpoint template_loop (fuel : nat) (characters : text) (index : nat) (output : text) : option text :=
  match characters !! index with
  | None => Some output
  | Some c =>
      match fuel with
      | O => None
      | S fuel => let '(index, output) := template_step characters index c output in
                  template_loop fuel characters index output
      end
  end.

(** [normalize_template]: the loop moves forward, so the length of the input is enough fuel. *)
Definition normalize_template (value : text) : text :=
  let input := bounded value MAX_ERROR_INPUT_CHARS in
  bounded (trim (default [] (template_loop (length input) input 0 []))) MAX_ERROR_TEMPLATE_CHARS.

(** Words that say nothing about an error. *)
Definition generic_tokens : list text :=
  map txt ["address"; "allocate"; "allocation"; "assert"; "assertion"; "at"; "being"; "byte"; "bytes"; "check";
           "condition"; "crash"; "crashed"; "d3d"; "device"; "dxgi"; "ensure"; "error"; "failed"; "failure";
           "fatal"; "for"; "gpu"; "guid"; "line"; "lost"; "memory"; "number"; "of"; "oom"; "out"; "removed";
           "timeout"; "timestamp"; "unknown"].

(** [char::is_alphanumeric] beyond ASCII is the Unicode tables. *)
Class Unicode : Type := { unicode_alphanumeric : char -> bool }.
Definition is_alphanumeric {U : Unicode} (c : char) : bool :=
  if (c <? 128)%N then is_ascii_alphanumeric c else unicode_alphanumeric c.

(** [has_specific_template_token]. *)
Definition has_specific_template_token {U : Unicode} (value : text) : bool :=
  existsb (fun token => negb (bool_decide (token ∈ generic_tokens)))
    (filter (fun token => token <> []) (split_on (fun c => negb (is_alphanumeric c)) value)).

(** * Components *)

(** [Components] and [Components::push]; a tag is static ASCII text. *)
Abbreviation components := (list (text * text)).
Definition push (c : components) (tag : string) (value : text) : components :=
  let value := bounded value MAX_COMPONENT_CHARS in
  if decide (value = []) then c else c ++ [(txt tag, value)].
Definition push_all (tag : string) (values : list text) (c : components) : components :=
  foldl (fun c v => push c tag v) c values.
Definition push_option (tag : string) (value : option text) (c : components) : components :=
  match value with Some v => push c tag v | None => c end.

(** * Frames *)

Inductive FrameCategory : Type := Project | Engine | System | Unknown.

#[export] Instance FrameCategory_eq_dec : EqDecision FrameCategory.
Proof. solve_decision. Defined.

Module ResolvedFrame.
Record t : Type := Mk { category : FrameCategory; component : text; module : text; function : text }.
End ResolvedFrame.

Module ModuleIdentity.
Record t : Type := Mk { debug_id : option text; code_id : option text }.

#[global] Instance eq_dec : EqDecision t.
Proof. solve_decision. Defined.

(** The derived order: [None] before [Some], the debug identifier first. *)
Definition option_leb (a b : option text) : bool :=
  match a, b with
  | None, _ => true
  | Some _, None => false
  | Some a, Some b => text_leb a b
  end.
Definition leb (a b : t) : bool :=
  if decide (debug_id a = debug_id b) then option_leb (code_id a) (code_id b)
  else option_leb (debug_id a) (debug_id b).
End ModuleIdentity.

Module UnresolvedFrame.
Record t : Type := Mk { category : FrameCategory; component : text; module : text; relative : text }.
End UnresolvedFrame.

Module FrameEvidence.
Record t : Type := Mk {
  project : list ResolvedFrame.t; engine : list ResolvedFrame.t; unresolved : list UnresolvedFrame.t;
  variant : list text }.
End FrameEvidence.

(** [object_at] and [string_field]. *)
Definition object_at (v : json) (path : list text) : result GroupingError jmap :=
  ok_or InvalidProcessingResult (pointer v path ≫= as_object).
Definition string_field (v : jmap) (field : text) : result GroupingError text :=
  ok_or InvalidProcessingResult (obj_get field v ≫= as_str).

(** [normalized_signals]. *)
Definition known_signals : list text := [txt "gpu_crash"; txt "out_of_memory"].
Definition normalized_signals (signals : list json) : list text :=
  dedup (sort text_leb (map normalize_token
    (filter (fun kind => kind ∈ known_signals) (omap (fun v => get v (txt "kind") ≫= as_str) signals)))).

(** A text field that normalises to something. *)
Definition token_field (v : json) (field : text) : option text :=
  s ← get v field ≫= as_str;
  let s := normalize_token s in if decide (s = []) then None else Some s.

(** [module_identities]: the entries stay sorted and without repetition. *)
Definition add_identity (identities : list (text * list ModuleIdentity.t)) (module : json) :
    result GroupingError (list (text * list ModuleIdentity.t)) :=
  module_name ← ok_or InvalidProcessingResult (get module (txt "module") ≫= as_str);
  let identity := {| ModuleIdentity.debug_id := token_field module (txt "debug_id");
                     ModuleIdentity.code_id := token_field module (txt "code_id") |} in
  Ok (obj_entry [] (fun entry => dedup (sort ModuleIdentity.leb (entry ++ [identity])))
        (normalize_module module_name) identities).
Fixpoint add_identities (identities : list (text * list ModuleIdentity.t)) (modules : list json) :
    result GroupingError (list (text * list ModuleIdentity.t)) :=
  match modules with
  | [] => Ok identities
  | m :: modules => identities ← add_identity identities m; add_identities identities modules
  end.
Definition module_identities (symbolication : jmap) : result GroupingError (list (text * list ModuleIdentity.t)) :=
  modules ← ok_or InvalidProcessingResult (obj_get (txt "modules") symbolication ≫= as_array);
  add_identities [] modules.

(** [faulting_frames]. *)
Definition is_faulting (thread : json) : bool :=
  bool_decide (get thread (txt "faulting") ≫= as_bool = Some true).
Definition faulting_frames (symbolication : jmap) : result GroupingError (list json) :=
  ok_or InvalidProcessingResult
    (threads ← obj_get (txt "threads") symbolication ≫= as_array;
     thread ← List.find is_faulting threads;
     get thread (txt "frames") ≫= as_array).

(** [frame_category]. *)
Definition is_engine_path (p : text) : bool :=
  let p := normalize_path p in
  starts_with p (txt "engine/source/") || contains p (txt "/engine/source/").
Definition frame_category (module : text) (source_paths : list text) : FrameCategory :=
  if existsb is_engine_path source_paths || starts_with module (txt "unrealeditor-")
     || starts_with module (txt "ue4editor-") || existsb (eq_ignore_ascii_case module) ENGINE_MODULES
  then Engine
  else if existsb (eq_ignore_ascii_case module) SYSTEM_MODULES then System
  else if bool_decide (module = []) || bool_decide (module = txt "unknown") then Unknown
  else Project.

Definition is_resolved (frame : json) : bool :=
  bool_decide (get frame (txt "symbol_status") ≫= as_str = Some (txt "resolved")).

(** The texts a field has in the elements of an array. *)
Definition texts_of (values : list json) (field : text) : list text :=
  omap (fun v => get v field ≫= as_str) values.

(** [resolved_frame]. *)
Definition resolved_frame (frame : json) : option ResolvedFrame.t :=
  if negb (is_resolved frame) then None else
  module ← get frame (txt "module") ≫= as_str;
  function ← get frame (txt "function") ≫= as_str;
  let module := normalize_module module in
  let function := normalize_function function in
  if bool_decide (module = []) || bool_decide (function = []) then None else
  inlines ← get frame (txt "inlines") ≫= as_array;
  let functions := filter (fun v => v <> []) (map normalize_function (texts_of inlines (txt "function"))) ++ [function] in
  let source_paths := match get frame (txt "source_file") ≫= as_str with Some p => [p] | None => [] end
                      ++ texts_of inlines (txt "source_file") in
  Some {| ResolvedFrame.category := frame_category module source_paths;
          ResolvedFrame.component := module ++ txt "|" ++ join (txt ">") functions;
          ResolvedFrame.module := module; ResolvedFrame.function := function |}.

(** [unresolved_frame]. *)
Definition unresolved_frame (frame : json) (modules : list (text * list ModuleIdentity.t)) :
    option UnresolvedFrame.t :=
  if is_resolved frame then None else
  module ← get frame (txt "module") ≫= as_str;
  let module := normalize_module module in
  relative ← get frame (txt "module_relative") ≫= as_str;
  relative ← normalize_relative relative;
  identities ← obj_get module modules;
  match identities with
  | [identity] =>
      if decide (ModuleIdentity.debug_id identity = None /\ ModuleIdentity.code_id identity = None) then None
      else Some {| UnresolvedFrame.category := frame_category module [];
                   UnresolvedFrame.component :=
                     module ++ txt "|" ++ default [] (ModuleIdentity.debug_id identity)
                     ++ txt "|" ++ default [] (ModuleIdentity.code_id identity) ++ txt "|" ++ relative;
                   UnresolvedFrame.module := module; UnresolvedFrame.relative := relative |}
  | _ => None
  end.

(** The loop of [frame_evidence]: resolved frames, unresolved frames, variant. *)
Definition evidence_state : Type := list ResolvedFrame.t * list UnresolvedFrame.t * list text.
Definition push_variant (variant : list text) (component : text) : list text :=
  if (length variant <? MAX_VARIANT_FRAMES)%nat then variant ++ [component] else variant.
Definition evidence_step (modules : list (text * list ModuleIdentity.t)) (s : evidence_state) (frame : json) :
    evidence_state :=
  let '(resolved, unresolved, variant) := s in
  match resolved_frame frame with
  | Some f => (resolved ++ [f], unresolved, push_variant variant (txt "resolved|" ++ ResolvedFrame.component f))
  | None =>
      match unresolved_frame frame modules with
      | Some f => (resolved, unresolved ++ [f], push_variant variant (txt "unresolved|" ++ UnresolvedFrame.component f))
      | None => s
      end
  end.

Definition of_category (c : FrameCategory) (frames : list ResolvedFrame.t) : list ResolvedFrame.t :=
  filter (fun f => ResolvedFrame.category f = c) frames.

(** [frame_evidence]. *)
Definition frame_evidence (symbolication : jmap) : result GroupingError FrameEvidence.t :=
  modules ← module_identities symbolication;
  frames ← faulting_frames symbolication;
  let '(resolved, unresolved, variant) := foldl (evidence_step modules) ([], [], []) frames in
  let project := take MAX_PROJECT_FRAMES (of_category Project resolved) in
  let engine := if decide (project = []) then take MAX_ENGINE_FRAMES (of_category Engine resolved) else [] in
  let unresolved := if decide (project = [] /\ engine = []) then take MAX_UNRESOLVED_FRAMES unresolved else [] in
  Ok {| FrameEvidence.project := project; FrameEvidence.engine := engine;
        FrameEvidence.unresolved := unresolved; FrameEvidence.variant := variant |}.

(** [grouping_quality]: the counts are at most their limits, so the [i32] sum cannot overflow. *)
Definition grouping_quality (frames : FrameEvidence.t) (has_assertion stable_error : bool) : Z :=
  let count {A} (l : list A) (m : Z) := Z.min (Z.min (Z.of_nat (length l)) 2147483647) m in
  (count (FrameEvidence.project frames) 8 * 100 + count (FrameEvidence.engine frames) 5 * 10
   + count (FrameEvidence.unresolved frames) 8 * 5 + Z.b2z has_assertion * 3 + Z.b2z stable_error)%Z.

(** [add_classification_variant]. *)
Definition evidence_texts (evidence : list json) : list text :=
  take 8 (dedup (sort text_leb (filter (fun v => v <> []) (map normalize_template (omap as_str evidence))))).
Definition add_classification_variant (classification : option jmap) (variant : components) : components :=
  match classification with
  | None => variant
  | Some classification =>
      let variant := push_option "classification_confidence"
        (normalize_token <$> (obj_get (txt "confidence") classification ≫= as_str)) variant in
      match obj_get (txt "evidence") classification ≫= as_array with
      | Some evidence => push_all "classification_evidence" (evidence_texts evidence) variant
      | None => variant
      end
  end.

(** * Title *)

Definition is_markup (c : char) : bool := bool_decide (c ∈ [60; 62; 38; 39; 34]%N).

(** [sanitize_title]. *)
Definition sanitize_title (value : text) : text :=
  let title := concat (map (fun c => if is_markup c then [95%N] else if negb (is_control c) then [c] else [])
                         (take MAX_TITLE_CHARS (collapse_whitespace value))) in
  if decide (title = []) then txt "Crash" else title.

(** [title]. *)
Definition title (crash_type : text) (signals : list text) (project engine : list ResolvedFrame.t)
    (unresolved : list UnresolvedFrame.t) : text :=
  sanitize_title
    match (match head project with Some f => Some f | None => head engine end) with
    | Some frame => ResolvedFrame.function frame ++ txt " in " ++ ResolvedFrame.module frame
    | None =>
        match head unresolved with
        | Some frame => UnresolvedFrame.module frame ++ txt "+" ++ UnresolvedFrame.relative frame
        | None =>
            if bool_decide (txt "gpu_crash" ∈ signals) then txt "GPU crash"
            else if bool_decide (txt "out_of_memory" ∈ signals) then txt "Out of memory"
            else if decide (crash_type = txt "assert") then txt "Assertion failure"
            else if decide (crash_type = txt "ensure") then txt "Ensure failure"
            else txt "Crash"
        end
    end.

(** * Digest *)

(** [u32::to_be_bytes]. *)
Definition be_bytes (n : N) : bytes :=
  [byte_of (n / 16777216 mod 256); byte_of (n / 65536 mod 256); byte_of (n / 256 mod 256); byte_of (n mod 256)].

(** [append]: what one value adds to the hashed bytes. *)
Definition append (value : bytes) : bytes := be_bytes (N.min (len value) u32_max) ++ value.

(** [lower_hex]. *)
Definition lower_hex (bs : bytes) : text := hex2s false bs.

(** [digest], with the bytes that are hashed. *)
Definition preimage (domain : text) (c : components) : bytes :=
  append (as_bytes domain) ++ concat (map (fun '(tag, value) => append (as_bytes tag) ++ append (as_bytes value)) c).
Definition digest {H : Sha256} (domain : text) (c : components) : text := lower_hex (sha256 (preimage domain c)).

(** * The fingerprint *)

Definition issue_domain : text := txt "faultlane:issue:stack:1".
Definition variant_domain : text := txt "faultlane:variant:stack:1".

(** The signals of the classification. *)
Definition signals_of (classification : option jmap) : list text :=
  match (c ← classification; obj_get (txt "signals") c ≫= as_array) with
  | Some values => normalized_signals values
  | None => []
  end.
Definition exception_of (symbolication : jmap) : option text :=
  v ← obj_get (txt "exception_reason") symbolication ≫= as_str;
  let reason := normalize_template v in if decide (reason = []) then None else Some reason.
Definition platform_of (context : jmap) : option text :=
  p ← obj_get (txt "platform") context; normalize_token <$> (get p (txt "normalized") ≫= as_str).

(** What [fingerprint] reads before it decides: the evidence of a result. *)
Module Evidence.
Record t : Type := Mk {
  crash_type : text; signals : list text; exception : option text; assertion : option text;
  error_template : option text; platform : option text; frames : FrameEvidence.t;
  classification : option jmap }.

Definition specific_error (e : t) : bool :=
  is_one_of [txt "assert"; txt "ensure"] (crash_type e) || negb (bool_decide (signals e = [])).
Definition stable_error (e : t) : bool :=
  negb (is_none (assertion e)) || (specific_error e && negb (is_none (error_template e))).
Definition insufficient (e : t) : bool :=
  bool_decide (FrameEvidence.project (frames e) = []) && bool_decide (FrameEvidence.engine (frames e) = [])
  && bool_decide (FrameEvidence.unresolved (frames e) = []) && negb (stable_error e).
Definition platform_specific (e : t) : bool :=
  bool_decide (txt "gpu_crash" ∈ signals e)
  || is_some_and (head (FrameEvidence.unresolved (frames e)))
       (fun f => bool_decide (UnresolvedFrame.category f = System)).

(** The components, in the order they are pushed. *)
Definition issue (e : t) : components :=
  let c := push [] "crash_type" (crash_type e) in
  let c := push_all "signal" (signals e) c in
  let c := push_option "exception" (exception e) c in
  let c := push_option "assertion" (assertion e) c in
  let c := push_all "project_frame" (map ResolvedFrame.component (FrameEvidence.project (frames e))) c in
  let c := push_all "engine_frame" (map ResolvedFrame.component (FrameEvidence.engine (frames e))) c in
  let c := push_all "unresolved_frame" (map UnresolvedFrame.component (FrameEvidence.unresolved (frames e))) c in
  let c := if specific_error e && is_none (assertion e) then push_option "error_template" (error_template e) c else c in
  if platform_specific e then push_option "platform" (platform e) c else c.
Definition variant (e : t) : components :=
  push_all "variant_frame" (FrameEvidence.variant (frames e))
    (add_classification_variant (classification e) (issue e)).
End Evidence.

Section fingerprint.
Context {U : Unicode} {H : Sha256}.

(** A template that is specific enough. *)
Definition specific_template (value : option json) : option text :=
  v ← value ≫= as_str;
  let t := normalize_template v in if has_specific_template_token t then Some t else None.

(** The reads of [fingerprint]. *)
Definition read_evidence (v : json) : result GroupingError Evidence.t :=
  _ ← fail_if (negb (is_ok (validate_processing_result v None))) InvalidProcessingResult;
  context ← object_at v [txt "crash_context"];
  symbolication ← object_at v [txt "current"; txt "symbolication"];
  crash_type ← string_field context (txt "crash_type");
  frames ← frame_evidence symbolication;
  let classification := mbind (M := option) as_object (get v (txt "classification")) in
  Ok {| Evidence.crash_type := crash_type; Evidence.signals := signals_of classification;
        Evidence.exception := exception_of symbolication;
        Evidence.assertion := specific_template (obj_get (txt "assertion") symbolication);
        Evidence.error_template := specific_template (obj_get (txt "error_message") context);
        Evidence.platform := platform_of context; Evidence.frames := frames;
        Evidence.classification := classification |}.

(** [fingerprint]. *)
Definition fingerprint (v : json) : result GroupingError GroupingOutcome :=
  e ← read_evidence v;
  if Evidence.insufficient e then Ok Insufficient
  else
    let frames := Evidence.frames e in
    Ok (Grouped
      {| Fingerprint.issue_fingerprint := digest issue_domain (Evidence.issue e);
         Fingerprint.variant_fingerprint := digest variant_domain (Evidence.variant e);
         Fingerprint.title := title (Evidence.crash_type e) (Evidence.signals e) (FrameEvidence.project frames)
                                (FrameEvidence.engine frames) (FrameEvidence.unresolved frames);
         Fingerprint.grouping_quality :=
           grouping_quality frames (negb (is_none (Evidence.assertion e))) (Evidence.stable_error e) |}).
End fingerprint.
