(* ===== verification/Fingerprints.v ===== *)
(** Properties of grouping: what a normalised template looks like, what a fingerprint identifies, what
    it does not depend on, and when a result cannot be grouped. *)

From stdpp Require Import sorting.
From S2P Require Import Prelude Text Json Validation Grouping.

(** * Templates *)

(** A character a template may have: no ASCII digit or capital, no control character, and the space as
    the only whitespace. *)
Definition template_char (c : char) : Prop :=
  is_ascii_digit c = false /\ is_ascii_upper c = false /\ is_control c = false
  /\ (is_whitespace c = true -> c = 32%N).

Lemma run_end_ge p characters fuel index : (index <= run_end p characters fuel index)%nat.
Proof.
  revert index. induction fuel as [|fuel IH]; intros index; cbn [run_end]; [lia|].
  destruct (at_is _ _ _); [|lia]. specialize (IH (S index)). lia.
Qed.

Lemma run_from_ge p characters index : (index <= run_from p characters index)%nat.
Proof. apply run_end_ge. Qed.

Lemma hex_group_end characters index n e : hex_group characters index n = Some e -> e = (index + n)%nat.
Proof.
  revert index. induction n as [|n IH]; intros index; cbn [hex_group]; [intros [= <-]; lia|].
  destruct (at_is _ _ _); [|done]. intros ->%IH. lia.
Qed.

Lemma guid_groups_ge characters groups index e :
  guid_groups characters index groups = Some e -> (index + foldr Nat.add 0 groups <= e)%nat.
Proof.
  revert index. induction groups as [|n groups IH]; intros index; [intros [= <-]; cbn; lia|].
  cbn [guid_groups]. intros (i & ->%hex_group_end & H)%bind_Some. destruct groups as [|m groups].
  - injection H as <-. cbn. lia.
  - destruct (at_is _ _ _); [|done]. apply IH in H. cbn [foldr] in *. lia.
Qed.

Lemma guid_end_gt characters start e : guid_end characters start = Some e -> (start < e)%nat.
Proof. intros H%guid_groups_ge. cbn in H. lia. Qed.

Lemma timestamp_end_gt characters start e : timestamp_end characters start = Some e -> (start < e)%nat.
Proof.
  unfold timestamp_end. destruct (forallb _ _); [|done]. cbn zeta. intros [= <-].
  destruct (at_is _ _ _); [|lia]. pose proof (run_from_ge is_timestamp_char characters (S (start + 10))). lia.
Qed.

Lemma address_end_gt characters start e : address_end characters start = Some e -> (start < e)%nat.
Proof.
  unfold address_end. destruct (_ && _); [|done]. intros [= <-].
  pose proof (run_from_ge is_ascii_hexdigit characters (start + 3)). lia.
Qed.

(** The loop moves forward. *)
Lemma template_step_forward characters index c output :
  (index < (template_step characters index c output).1)%nat.
Proof.
  unfold template_step.
  destruct (guid_end _ _) eqn:E1; [by apply guid_end_gt in E1|].
  destruct (timestamp_end _ _) eqn:E2; [by apply timestamp_end_gt in E2|].
  destruct (address_end _ _) eqn:E3; [by apply address_end_gt in E3|].
  destruct (is_ascii_digit c); [cbn; pose proof (run_from_ge is_ascii_digit characters (index + 1)); lia|].
  destruct (is_whitespace c), (is_control c); cbn; lia.
Qed.

Lemma template_loop_returns fuel characters index output :
  (length characters - index <= fuel)%nat -> is_Some (template_loop fuel characters index output).
Proof.
  revert index output. induction fuel as [|fuel IH]; intros index output Hf; cbn [template_loop];
    destruct (characters !! index) as [c|] eqn:E; try by eexists.
  - apply lookup_lt_Some in E. lia.
  - pose proof (template_step_forward characters index c output). destruct (template_step _ _ _ _) as [i o].
    cbn in *. apply IH. lia.
Qed.

Lemma push_template_chars output placeholder :
  Forall template_char placeholder -> Forall template_char output -> Forall template_char (push_template output placeholder).
Proof. intros Hp Ho. unfold push_template. destruct (ends_with _ _); [done|]. by apply Forall_app. Qed.

Ltac placeholder_chars :=
  apply push_template_chars; [|done];
  repeat (apply Forall_cons_2; [unfold template_char; split_and!; try reflexivity; vm_compute; done|]); apply Forall_nil_2.

Lemma template_char_lower c :
  is_ascii_digit c = false -> is_whitespace c = false -> is_control c = false -> template_char (ascii_lower c).
Proof.
  intros Hd Hw Hc. unfold template_char. rewrite is_whitespace_lower, is_control_lower. split_and!; [| |done|congruence].
  - unfold ascii_lower. destruct (is_ascii_upper c) eqn:E; [|done]. apply in_range_true in E.
    apply in_range_false. lia.
  - unfold ascii_lower. destruct (is_ascii_upper c) eqn:E; [|done]. apply in_range_true in E.
    apply in_range_false. lia.
Qed.

Lemma template_step_chars characters index c output :
  Forall template_char output -> Forall template_char (template_step characters index c output).2.
Proof.
  intros Ho. unfold template_step.
  destruct (guid_end _ _); [placeholder_chars|]. destruct (timestamp_end _ _); [placeholder_chars|].
  destruct (address_end _ _); [placeholder_chars|]. destruct (is_ascii_digit c) eqn:Hd; [placeholder_chars|].
  destruct (is_whitespace c) eqn:Hw; cbn [snd].
  - destruct (_ && _); [|done]. apply Forall_app. split; [done|]. apply Forall_singleton.
    unfold template_char. split_and!; try reflexivity.
  - destruct (is_control c) eqn:Hc; [done|]. apply Forall_app. split; [done|]. apply Forall_singleton.
    by apply template_char_lower.
Qed.

Lemma template_loop_chars fuel characters index output r :
  Forall template_char output -> template_loop fuel characters index output = Some r -> Forall template_char r.
Proof.
  revert index output. induction fuel as [|fuel IH]; intros index output Ho; cbn [template_loop];
    (destruct (characters !! index) as [c|]; [|by intros [= <-]]); [done|].
  pose proof (template_step_chars characters index c output Ho). destruct (template_step _ _ _ _) as [i o].
  by apply IH.
Qed.

(** * Framing *)

Lemma utf8_char_length c : (length (utf8_char c) <= 4)%nat.
Proof. unfold utf8_char. repeat case_match; cbn; lia. Qed.

Lemma as_bytes_length s : (length (as_bytes s) <= 4 * length s)%nat.
Proof.
  induction s as [|c s IH]; [done|]. rewrite as_bytes_cons, length_app. pose proof (utf8_char_length c). cbn [length]. lia.
Qed.

Lemma be_bytes_inj a b : (a <= u32_max)%N -> (b <= u32_max)%N -> be_bytes a = be_bytes b -> a = b.
Proof.
  intros Ha Hb H. unfold u32_max in *. unfold be_bytes in H. injection H as H1 H2 H3 H4.
  repeat match goal with E : byte_of _ = byte_of _ |- _ =>
    apply (f_equal Byte.to_N) in E; rewrite !to_N_byte_of in E by (apply N.mod_lt; discriminate) end.
  rewrite (N.div_mod a 256), (N.div_mod b 256) by discriminate. rewrite H4. f_equal. f_equal.
  rewrite (N.div_mod (a / 256) 256), (N.div_mod (b / 256) 256), H3 by discriminate. f_equal. f_equal.
  rewrite !N.Div0.div_div by discriminate. change (256 * 256)%N with 65536%N.
  rewrite (N.div_mod (a / 65536) 256), (N.div_mod (b / 65536) 256), H2 by discriminate. f_equal. f_equal.
  rewrite !N.Div0.div_div by discriminate. change (65536 * 256)%N with 16777216%N.
  rewrite !N.mod_small in H1; [done|..]; apply N.Div0.div_lt_upper_bound; lia.
Qed.

(** A value whose length the frame can carry. *)
Definition frameable (value : bytes) : Prop := (len value <= u32_max)%N.

Lemma append_inj a b k k' :
  frameable a -> frameable b -> append a ++ k = append b ++ k' -> a = b /\ k = k'.
Proof.
  unfold frameable, append. intros Ha Hb H. rewrite !N.min_l in H by done. rewrite <-!(assoc_L (++)) in H.
  apply app_inj_1 in H as [H1 H2]; [|done]. apply be_bytes_inj in H1; [|done..].
  apply app_inj_1 in H2; [done|]. unfold len in H1. lia.
Qed.

Definition component_bytes (c : components) : list (bytes * bytes) :=
  map (fun tv => (as_bytes tv.1, as_bytes tv.2)) c.
Definition component_ok (tv : text * text) : Prop := frameable (as_bytes tv.1) /\ frameable (as_bytes tv.2).

Lemma frames_inj c c' :
  Forall component_ok c -> Forall component_ok c' ->
  concat (map (fun '(tag, value) => append (as_bytes tag) ++ append (as_bytes value)) c)
  = concat (map (fun '(tag, value) => append (as_bytes tag) ++ append (as_bytes value)) c') ->
  component_bytes c = component_bytes c'.
Proof.
  revert c'. induction c as [|[t v] c IH]; intros [|[t' v'] c'] Hc Hc' H; cbn [map concat] in H; try done.
  apply Forall_cons in Hc as [[Ht Hv] Hc]. apply Forall_cons in Hc' as [[Ht' Hv'] Hc']. cbn [fst snd] in *.
  rewrite <-!(assoc_L (++)) in H. apply append_inj in H as [E1 H]; [|done..]. apply append_inj in H as [E2 H]; [|done..].
  unfold component_bytes. cbn [map fst snd]. rewrite E1, E2. f_equal. by apply IH.
Qed.

(** The hashed bytes determine the domain and the components. *)
Lemma preimage_inj d d' c c' :
  frameable (as_bytes d) -> frameable (as_bytes d') -> Forall component_ok c -> Forall component_ok c' ->
  preimage d c = preimage d' c' -> as_bytes d = as_bytes d' /\ component_bytes c = component_bytes c'.
Proof.
  intros Hd Hd' Hc Hc' H. unfold preimage in H. apply append_inj in H as [E H]; [|done..].
  split; [done|]. by apply frames_inj.
Qed.

(** Pushed components fit their frames: a value has at most [MAX_COMPONENT_CHARS] characters, and a tag
    is one of the static tags. *)
Definition static_tags : list string :=
  ["crash_type"; "signal"; "exception"; "assertion"; "project_frame"; "engine_frame"; "unresolved_frame";
   "error_template"; "platform"; "classification_confidence"; "classification_evidence"; "variant_frame"].

Lemma tag_frameable tag : tag ∈ static_tags -> frameable (as_bytes (txt tag)).
Proof.
  intros H. unfold static_tags in H. unfold frameable.
  repeat (apply elem_of_cons in H as [->|H]; [vm_compute; discriminate|]). by apply not_elem_of_nil in H.
Qed.

Lemma push_ok c tag value : tag ∈ static_tags -> Forall component_ok c -> Forall component_ok (push c tag value).
Proof.
  intros Ht Hc. unfold push. case_decide; [done|]. apply Forall_app. split; [done|]. apply Forall_singleton.
  split; cbn [fst snd]; [by apply tag_frameable|]. unfold frameable, len, bounded, u32_max.
  pose proof (as_bytes_length (take MAX_COMPONENT_CHARS value)) as H'. rewrite length_take in H'.
  unfold MAX_COMPONENT_CHARS in *. lia.
Qed.

Lemma push_all_ok tag values c :
  tag ∈ static_tags -> Forall component_ok c -> Forall component_ok (push_all tag values c).
Proof.
  intros Ht. unfold push_all. revert c. induction values as [|v values IH]; intros c Hc; cbn [foldl]; [done|].
  by apply IH, push_ok.
Qed.

Lemma push_option_ok tag value c :
  tag ∈ static_tags -> Forall component_ok c -> Forall component_ok (push_option tag value c).
Proof. intros Ht Hc. destruct value; [by apply push_ok|done]. Qed.

Create HintDb pushed.
#[export] Hint Resolve push_ok push_all_ok push_option_ok Forall_nil_2 : pushed.
#[export] Hint Extern 1 (_ ∈ static_tags) => (apply (bool_decide_unpack _); vm_compute; exact I) : pushed.

Lemma issue_ok e : Forall component_ok (Evidence.issue e).
Proof.
  unfold Evidence.issue. cbn zeta.
  destruct (Evidence.specific_error e && is_none (Evidence.assertion e)), (Evidence.platform_specific e); auto 20 with pushed.
Qed.

Lemma variant_ok e : Forall component_ok (Evidence.variant e).
Proof.
  pose proof (issue_ok e). unfold Evidence.variant, add_classification_variant.
  destruct (Evidence.classification e) as [m|]; [|auto with pushed]. cbn zeta.
  destruct (obj_get (txt "evidence") m ≫= as_array); auto with pushed.
Qed.

Section identity.
Context {U : Unicode} {H : Sha256}.

(** Two inputs on which SHA-256 agrees. *)
Definition collision : Prop := exists x y, x <> y /\ sha256 x = sha256 y.

Lemma digest_inj d d' c c' :
  frameable (as_bytes d) -> frameable (as_bytes d') -> Forall component_ok c -> Forall component_ok c' ->
  digest d c = digest d' c' -> (as_bytes d = as_bytes d' /\ component_bytes c = component_bytes c') \/ collision.
Proof.
  intros Hd Hd' Hc Hc' E%hex2s_inj. destruct (decide (preimage d c = preimage d' c')) as [Ep|Ep].
  - left. by apply preimage_inj.
  - right. by exists (preimage d c), (preimage d' c').
Qed.

Lemma fingerprint_Grouped v f :
  fingerprint v = Ok (Grouped f) ->
  exists e, read_evidence v = Ok e /\ Evidence.insufficient e = false
  /\ Fingerprint.issue_fingerprint f = digest issue_domain (Evidence.issue e)
  /\ Fingerprint.variant_fingerprint f = digest variant_domain (Evidence.variant e)
  /\ Fingerprint.title f = title (Evidence.crash_type e) (Evidence.signals e) (FrameEvidence.project (Evidence.frames e))
       (FrameEvidence.engine (Evidence.frames e)) (FrameEvidence.unresolved (Evidence.frames e))
  /\ Fingerprint.grouping_quality f
     = grouping_quality (Evidence.frames e) (negb (is_none (Evidence.assertion e))) (Evidence.stable_error e).
Proof.
  unfold fingerprint. intros (e & He & Hf)%bind_Ok. exists e. destruct (Evidence.insufficient e); [done|].
  injection Hf as <-. by split_and!.
Qed.

(** C26: fingerprints identify their components.  Two results with the same issue fingerprint have the
    same issue components, byte for byte, or exhibit a SHA-256 collision; the same holds of the variant
    fingerprints, and an issue fingerprint never equals a variant fingerprint without a collision. *)
Theorem fingerprints_identify_components v v' f f' :
  fingerprint v = Ok (Grouped f) -> fingerprint v' = Ok (Grouped f') ->
  exists e e', read_evidence v = Ok e /\ read_evidence v' = Ok e'
  /\ (Fingerprint.issue_fingerprint f = Fingerprint.issue_fingerprint f' ->
      component_bytes (Evidence.issue e) = component_bytes (Evidence.issue e') \/ collision)
  /\ (Fingerprint.variant_fingerprint f = Fingerprint.variant_fingerprint f' ->
      component_bytes (Evidence.variant e) = component_bytes (Evidence.variant e') \/ collision)
  /\ (Fingerprint.issue_fingerprint f = Fingerprint.variant_fingerprint f' -> collision).
Proof.
  intros (e & He & _ & Ei & Ev & _)%fingerprint_Grouped (e' & He' & _ & Ei' & Ev' & _)%fingerprint_Grouped.
  assert (Hi : frameable (as_bytes issue_domain)) by (vm_compute; discriminate).
  assert (Hv : frameable (as_bytes variant_domain)) by (vm_compute; discriminate).
  exists e, e'. rewrite Ei, Ev, Ei', Ev'. split_and!; [done..| | |]; intros E; apply digest_inj in E;
    auto using issue_ok, variant_ok.
  - destruct E as [[_ E]|E]; auto.
  - destruct E as [[_ E]|E]; auto.
  - destruct E as [[E _]|E]; [vm_compute in E; discriminate|done].
Qed.

(** What repeats cannot split a group.  Whatever is outside of the evidence, such as the identity of
    the crash, the release, the request, the log and the earlier attempts, two valid results that agree
    on crash type, error message, platform, classification and current symbolication get the same
    outcome. *)
Theorem grouping_reads_only_the_evidence v v' c c' :
  validate_processing_result v None = Ok () -> validate_processing_result v' None = Ok () ->
  get v (txt "crash_context") = Some (JObject c) -> get v' (txt "crash_context") = Some (JObject c') ->
  obj_get (txt "crash_type") c = obj_get (txt "crash_type") c' ->
  obj_get (txt "error_message") c = obj_get (txt "error_message") c' ->
  obj_get (txt "platform") c = obj_get (txt "platform") c' ->
  get v (txt "classification") = get v' (txt "classification") ->
  pointer v [txt "current"; txt "symbolication"] = pointer v' [txt "current"; txt "symbolication"] ->
  fingerprint v = fingerprint v'.
Proof.
  intros Hv Hv' Hc Hc' E1 E2 E3 E4 E5. unfold fingerprint. f_equal. unfold read_evidence, object_at.
  rewrite Hv, Hv', E4, E5. unfold pointer. cbn [foldl mbind option_bind is_ok negb fail_if result_bind].
  rewrite Hc, Hc'. cbn [mbind option_bind as_object ok_or result_bind]. unfold string_field, platform_of.
  by rewrite E1, E2, E3.
Qed.
End identity.

(** * Order *)

(** What an entry of the identity map holds: the sorted set of the identities of its module. *)
Definition identity_of (module : json) : ModuleIdentity.t :=
  {| ModuleIdentity.debug_id := token_field module (txt "debug_id");
     ModuleIdentity.code_id := token_field module (txt "code_id") |}.
Definition module_key (module : json) : option text := normalize_module <$> (get module (txt "module") ≫= as_str).

Lemma option_leb_total a b : ModuleIdentity.option_leb a b = true \/ ModuleIdentity.option_leb b a = true.
Proof. destruct a, b; cbn; auto. apply text_leb_total. Qed.

Lemma option_leb_antisym a b :
  ModuleIdentity.option_leb a b = true -> ModuleIdentity.option_leb b a = true -> a = b.
Proof. destruct a, b; cbn; try done. intros. f_equal. by apply text_leb_antisym. Qed.

Lemma option_leb_trans a b c :
  ModuleIdentity.option_leb a b = true -> ModuleIdentity.option_leb b c = true -> ModuleIdentity.option_leb a c = true.
Proof. destruct a, b, c; cbn; try done. apply text_leb_trans. Qed.

Lemma identity_total a b : ModuleIdentity.leb a b = true \/ ModuleIdentity.leb b a = true.
Proof.
  destruct a as [a1 a2], b as [b1 b2]. unfold ModuleIdentity.leb. cbn. destruct (decide (a1 = b1)) as [->|Hne].
  - rewrite decide_True by done. apply option_leb_total.
  - rewrite decide_False by congruence. apply option_leb_total.
Qed.

Lemma identity_antisym a b : ModuleIdentity.leb a b = true -> ModuleIdentity.leb b a = true -> a = b.
Proof.
  destruct a as [a1 a2], b as [b1 b2]. unfold ModuleIdentity.leb. cbn. destruct (decide (a1 = b1)) as [->|Hne].
  - rewrite decide_True by done. intros H1 H2. f_equal. by apply option_leb_antisym.
  - rewrite decide_False by congruence. intros H1 H2. destruct Hne. by apply option_leb_antisym.
Qed.

Lemma identity_trans a b c :
  ModuleIdentity.leb a b = true -> ModuleIdentity.leb b c = true -> ModuleIdentity.leb a c = true.
Proof.
  destruct a as [a1 a2], b as [b1 b2], c as [c1 c2]. unfold ModuleIdentity.leb. cbn.
  destruct (decide (a1 = b1)) as [->|Hab]; destruct (decide (b1 = c1)) as [->|Hbc]; [by apply option_leb_trans|by intros|intros; by rewrite decide_False|].
  destruct (decide (a1 = c1)) as [->|]; [|by apply option_leb_trans].
  intros H1 H2. destruct Hab. by apply option_leb_antisym.
Qed.

#[local] Instance identity_order : TotalOrder ModuleIdentity.leb.
Proof. split; [apply identity_total|apply identity_trans|apply identity_antisym]. Qed.

Abbreviation sorted_identities l := (dedup (sort ModuleIdentity.leb l)).

Lemma identities_ext l k : (forall x, x ∈ l <-> x ∈ k) -> sorted_identities l = sorted_identities k.
Proof. apply (dedup_sort_ext ModuleIdentity.leb). Qed.

(** The identities of the modules with a key, in the order of the modules. *)
Definition identities_at (key : text) (modules : list json) : list ModuleIdentity.t :=
  map identity_of (filter (fun m => module_key m = Some key) modules).
Definition entry_of (l : list ModuleIdentity.t) : option (list ModuleIdentity.t) :=
  if decide (l = []) then None else Some (sorted_identities l).

Lemma add_identities_lookup modules identities r before :
  (forall key, obj_get key identities = entry_of (before key)) ->
  add_identities identities modules = Ok r ->
  forall key, obj_get key r = entry_of (before key ++ identities_at key modules).
Proof.
  revert identities before. induction modules as [|m modules IH]; intros identities before Hb H key.
  - injection H as <-. unfold identities_at. cbn. by rewrite app_nil_r.
  - cbn [add_identities] in H. apply bind_Ok in H as (identities' & Hm & H). unfold add_identity in Hm.
    apply bind_Ok in Hm as (name & Hname%ok_or_Ok & Hm). injection Hm as <-.
    assert (Hkey : module_key m = Some (normalize_module name)) by (unfold module_key; by rewrite Hname).
    assert (Hstep : forall k, obj_get k (obj_entry [] (fun entry => sorted_identities (entry ++ [identity_of m]))
        (normalize_module name) identities) = entry_of (before k ++ identities_at k [m])).
    { intros k. rewrite obj_get_entry, Hb. unfold identities_at. rewrite filter_cons, Hkey. cbn [filter].
      destruct (decide (k = normalize_module name)) as [->|Hk].
      - rewrite decide_True by done. cbn [map]. unfold entry_of.
        rewrite (decide_False (P := _ ++ _ = [])) by (by destruct (before _)). f_equal. apply identities_ext.
        intros x. rewrite !elem_of_app. destruct (decide (before (normalize_module name) = [])) as [->|_]; [done|].
        cbn [from_option id]. by rewrite (elem_of_dedup_sort ModuleIdentity.leb).
      - rewrite decide_False by congruence. cbn [map]. by rewrite app_nil_r. }
    rewrite (IH _ (fun k => before k ++ identities_at k [m]) Hstep H). unfold identities_at.
    rewrite <-(assoc_L (++)), <-map_app, <-filter_app. done.
Qed.

(** The order of what is reported does not matter.  Permuting the signals, the evidence or the modules
    of a result changes neither the normalised signals and evidence that enter a fingerprint nor the
    identities that unresolved frames are looked up in. *)
Theorem grouping_ignores_order signals signals' evidence evidence' modules modules' r r' :
  signals ≡ₚ signals' -> evidence ≡ₚ evidence' -> modules ≡ₚ modules' ->
  add_identities [] modules = Ok r -> add_identities [] modules' = Ok r' ->
  normalized_signals signals = normalized_signals signals'
  /\ evidence_texts evidence = evidence_texts evidence'
  /\ (forall key, obj_get key r = obj_get key r')
  /\ (forall frame, unresolved_frame frame r = unresolved_frame frame r').
Proof.
  intros Hs He Hm Hr Hr'.
  assert (Hl : forall key, obj_get key r = obj_get key r').
  { intros key. rewrite (add_identities_lookup modules [] r (fun _ => []) (fun _ => eq_refl) Hr key).
    rewrite (add_identities_lookup modules' [] r' (fun _ => []) (fun _ => eq_refl) Hr' key). cbn [app].
    assert (Hp : identities_at key modules ≡ₚ identities_at key modules') by (unfold identities_at; by rewrite Hm).
    unfold entry_of. destruct (decide (identities_at key modules = [])) as [E|E].
    - rewrite E in Hp. apply Permutation_nil_l in Hp. by rewrite decide_True.
    - rewrite decide_False by (intros E'; rewrite E' in Hp; by apply Permutation_nil_r in Hp).
      f_equal. apply identities_ext. intros x. by rewrite Hp. }
  split_and!; [| |done|].
  - unfold normalized_signals. apply (dedup_sort_ext text_leb). intros x. by rewrite Hs.
  - unfold evidence_texts. f_equal. apply (dedup_sort_ext text_leb). intros x. by rewrite He.
  - intros frame. unfold unresolved_frame. destruct (is_resolved frame); [done|].
    destruct (get frame (txt "module") ≫= as_str); [|done]. cbn [mbind option_bind].
    destruct (get frame (txt "module_relative") ≫= as_str); [|done]. cbn [mbind option_bind].
    destruct (normalize_relative _); [|done]. cbn [mbind option_bind]. by rewrite Hl.
Qed.

(** * Quality, title and errors *)

(** Project frames exclude engine frames, which exclude unresolved ones, and each list is bounded. *)
Lemma frame_evidence_Ok symbolication frames :
  frame_evidence symbolication = Ok frames ->
  (length (FrameEvidence.project frames) <= 8)%nat /\ (length (FrameEvidence.engine frames) <= 5)%nat
  /\ (length (FrameEvidence.unresolved frames) <= 8)%nat
  /\ (FrameEvidence.project frames <> [] -> FrameEvidence.engine frames = [])
  /\ (FrameEvidence.project frames <> [] \/ FrameEvidence.engine frames <> [] -> FrameEvidence.unresolved frames = []).
Proof.
  unfold frame_evidence. intros (modules & _ & H)%bind_Ok. apply bind_Ok in H as (fs & _ & H).
  destruct (foldl _ _ _) as [[resolved unresolved] variant]. injection H as <-.
  cbn [FrameEvidence.project FrameEvidence.engine FrameEvidence.unresolved].
  set (p := take MAX_PROJECT_FRAMES _). set (e := if decide (p = []) then _ else _).
  assert (Hp : (length p <= 8)%nat) by (unfold p, MAX_PROJECT_FRAMES; rewrite length_take; lia).
  assert (He : (length e <= 5)%nat)
    by (unfold e; case_decide; [unfold MAX_ENGINE_FRAMES; rewrite length_take; lia|cbn; lia]).
  split_and!; [done|done| | |].
  - case_decide; [unfold MAX_UNRESOLVED_FRAMES; rewrite length_take; lia|cbn; lia].
  - intros Hne. unfold e. by rewrite decide_False.
  - intros Hne. apply decide_False. tauto.
Qed.

Lemma b2z_range b : (0 <= Z.b2z b <= 1)%Z.
Proof. destruct b; cbn; lia. Qed.

(** What the loop of [sanitize_title] writes. *)
Lemma sanitized_chars l :
  let t := concat (map (fun c => if is_markup c then [95%N] else if negb (is_control c) then [c] else []) l) in
  (length t <= length l)%nat /\ Forall (fun c => c ∉ [60; 62; 38; 39; 34]%N /\ is_control c = false) t.
Proof.
  cbn zeta. induction l as [|c l IH]; [split; [done|constructor]|]. destruct IH as [H1 H2].
  cbn [map concat length]. rewrite length_app, Forall_app. unfold is_markup at 1 3. case_bool_decide as Hm.
  - split; [cbn [length]; lia|]. split; [|done]. apply Forall_singleton. split; [|done].
    apply (bool_decide_unpack _). vm_compute. exact I.
  - destruct (is_control c) eqn:Hc; cbn [negb length]; (split; [lia|]; split; [|done]);
      [constructor|by apply Forall_singleton].
Qed.

(** * What a valid result has *)

Lemma expect_Ok c x : expect c = Ok x -> c = true.
Proof. unfold expect. intros H%fail_if_Ok. by apply negb_false_iff. Qed.

Lemma as_object_Some v m : as_object v = Some m -> v = JObject m.
Proof. destruct v; try done. by intros [= ->]. Qed.

Lemma as_array_Some o l : o ≫= as_array = Some l -> o = Some (JArray l).
Proof. destruct o as [[]|]; try done. by intros [= ->]. Qed.

(** Turns the checks of a validator that passed into their conjuncts. *)
Ltac conjuncts :=
  inv_ok;
  repeat match goal with E : expect _ = Ok _ |- _ => apply expect_Ok in E end;
  repeat match goal with E : _ && _ = true |- _ => apply andb_prop in E as [? ?] end;
  repeat match goal with E : as_object _ = Some _ |- _ => apply as_object_Some in E as -> end;
  repeat match goal with E : _ ≫= as_array = Some _ |- _ => apply as_array_Some in E end.

Definition thread_frames (v : json) : Prop := is_Some (get v (txt "frames") ≫= as_array).
Definition module_named (v : json) : Prop := is_Some (get v (txt "module") ≫= as_str).

Lemma valid_thread_frames v : validate_thread v = Ok () -> thread_frames v.
Proof.
  unfold validate_thread, validate_array, thread_frames, get. intros Hv. conjuncts. cbn [as_object mbind option_bind].
  match goal with E : obj_get _ _ = Some (JArray _) |- _ => rewrite E end. by eexists.
Qed.

Lemma valid_module_named v : validate_module v = Ok () -> module_named v.
Proof.
  unfold validate_module, module_named, get. intros Hv. conjuncts. cbn [as_object mbind option_bind].
  match goal with E : has_str _ (txt "module") = true |- _ => unfold has_str, has in E;
    destruct (obj_get (txt "module") _) as [[]|]; try done end.
Qed.

Lemma valid_symbolication_parts v n :
  validate_symbolication v n = Ok () ->
  exists s modules threads, v = JObject s
    /\ obj_get (txt "modules") s = Some (JArray modules) /\ Forall module_named modules
    /\ obj_get (txt "threads") s = Some (JArray threads) /\ Forall thread_frames threads.
Proof.
  unfold validate_symbolication. intros Hv. conjuncts. repeat match goal with x : () |- _ => destruct x end.
  eexists _, _, _. split_and!; [done..| | |].
  - eapply Forall_impl; [by apply validate_all_Forall|apply valid_module_named].
  - done.
  - eapply Forall_impl; [by apply validate_all_Forall|apply valid_thread_frames].
Qed.

Lemma valid_context_crash_type context :
  validate_crash_context context = Ok () -> is_Some (obj_get (txt "crash_type") context ≫= as_str).
Proof.
  unfold validate_crash_context. intros H. apply bind_Ok in H as (x & H & _). conjuncts.
  by destruct (obj_get (txt "crash_type") context ≫= as_str).
Qed.

Lemma valid_result_parts v :
  validate_processing_result v None = Ok () ->
  exists context s modules threads,
    pointer v [txt "crash_context"] = Some (JObject context) /\ is_Some (obj_get (txt "crash_type") context ≫= as_str)
    /\ pointer v [txt "current"; txt "symbolication"] = Some (JObject s)
    /\ obj_get (txt "modules") s = Some (JArray modules) /\ Forall module_named modules
    /\ obj_get (txt "threads") s = Some (JArray threads) /\ Forall thread_frames threads.
Proof.
  unfold validate_processing_result, validate_processing_contract. intros Hv. inv_ok.
  repeat match goal with x : () |- _ => destruct x end.
  match goal with E : validate_attempt _ = Ok _ |- _ => unfold validate_attempt in E; apply bind_Ok in E as (attempt & Ha & E);
    apply ok_or_Ok, as_object_Some in Ha as -> end.
  conjuncts. repeat match goal with x : () |- _ => destruct x end.
  match goal with E : validate_symbolication _ _ = Ok _ |- _ =>
    destruct (valid_symbolication_parts _ _ E) as (s & modules & threads & -> & Hs) end.
  match goal with E : obj_get (txt "crash_context") _ ≫= as_object = Some _ |- _ =>
    apply bind_Some in E as (? & Ec & ->%as_object_Some) end.
  match goal with E : validate_crash_context _ = Ok _ |- _ => apply valid_context_crash_type in E as Ht end.
  eexists _, s, modules, threads. unfold pointer, get. cbn [foldl as_object mbind option_bind]. 
  split; [exact Ec|]. split; [exact Ht|]. split; [|exact Hs].
  match goal with E : obj_get (txt "current") _ = Some _ |- _ => rewrite E end. cbn [as_object mbind option_bind].
  match goal with E : obj_get (txt "symbolication") _ = Some _ |- _ => by rewrite E end.
Qed.

Lemma add_identities_total identities modules :
  Forall module_named modules -> exists r, add_identities identities modules = Ok r.
Proof.
  intros H. revert identities. induction H as [|m modules [name Hm] _ IH]; intros identities; [by eexists|].
  cbn [add_identities]. unfold add_identity. rewrite Hm. cbn [ok_or mbind result_bind]. apply IH.
Qed.

Section errors.
Context {U : Unicode} {H : Sha256}.

(** Grouping refuses exactly what has no faulting thread.  A valid result always gets an outcome,
    unless none of its current threads is marked as faulting; then, and for an invalid result, grouping
    is an error instead of the outcome for insufficient evidence. *)
Theorem grouping_refuses_what_has_no_faulting_thread v :
  (validate_processing_result v None <> Ok () -> fingerprint v = Err InvalidProcessingResult)
  /\ (validate_processing_result v None = Ok () ->
      exists threads, pointer v [txt "current"; txt "symbolication"; txt "threads"] = Some (JArray threads)
      /\ (fingerprint v = Err InvalidProcessingResult <-> existsb is_faulting threads = false)).
Proof.
  split; intros Hv.
  - unfold fingerprint, read_evidence. destruct (validate_processing_result v None) as [[]|]; done.
  - destruct (valid_result_parts v Hv) as (context & s & modules & threads & Hc & [ct Hct] & Hs & Hm & Hms & Ht & Hts).
    exists threads. unfold pointer in *. cbn [foldl] in *. rewrite Hs. split; [exact Ht|].
    unfold fingerprint, read_evidence, object_at, pointer. cbn [foldl]. rewrite Hv, Hc, Hs.
    cbn [is_ok negb fail_if mbind result_bind option_bind as_object ok_or]. unfold string_field. rewrite Hct.
    unfold frame_evidence, module_identities, faulting_frames. rewrite Hm, Ht. cbn [mbind result_bind option_bind as_array ok_or].
    destruct (add_identities_total [] modules Hms) as [r ->]. cbn [mbind result_bind].
    destruct (List.find is_faulting threads) as [t|] eqn:Hf.
    + apply find_some in Hf as [Hin Hf]. rewrite Forall_forall in Hts. destruct (Hts t) as [frames Hframes];
        [by apply list_elem_of_In|]. cbn [mbind option_bind]. rewrite Hframes. cbn [ok_or mbind result_bind].
      destruct (foldl _ _ _) as [[? ?] ?]. cbn [mbind result_bind].
      match goal with |- context [Evidence.insufficient ?e] => destruct (Evidence.insufficient e) end;
        (split; [done|]); intros E; apply not_true_iff_false in E; destruct E; apply existsb_exists; by exists t.
    + cbn. split; [|done]. intros _. apply not_true_iff_false. intros (t & Hin & Hf')%existsb_exists.
      by rewrite (find_none _ _ Hf t Hin) in Hf'.
Qed.
End errors.

Section outcome.
Context {U : Unicode} {H : Sha256}.

Lemma read_evidence_frames v e :
  read_evidence v = Ok e -> exists s, frame_evidence s = Ok (Evidence.frames e).
Proof.
  unfold read_evidence. intros Hv. inv_ok. eexists. done.
Qed.

(** The quality of a group ranks its evidence.  It lies between 1 and 804, far from overflow, and a
    group with a project frame always ranks above one with only engine frames or unresolved frames,
    and those above a group that rests on an error text alone. *)
Theorem quality_ranks_the_evidence v f :
  fingerprint v = Ok (Grouped f) ->
  exists e, read_evidence v = Ok e
  /\ let frames := Evidence.frames e in
     let q := Fingerprint.grouping_quality f in
     (FrameEvidence.project frames <> [] /\ (100 <= q <= 804)%Z)
     \/ (FrameEvidence.project frames = [] /\ FrameEvidence.engine frames <> [] /\ (10 <= q <= 54)%Z)
     \/ (FrameEvidence.project frames = [] /\ FrameEvidence.engine frames = [] /\ FrameEvidence.unresolved frames <> []
         /\ (5 <= q <= 44)%Z)
     \/ (FrameEvidence.project frames = [] /\ FrameEvidence.engine frames = [] /\ FrameEvidence.unresolved frames = []
         /\ (1 <= q <= 4)%Z).
Proof.
  intros (e & He & Hi & _ & _ & _ & ->)%fingerprint_Grouped. exists e. split; [done|]. cbn zeta.
  destruct (read_evidence_frames _ _ He) as [s Hs]. apply frame_evidence_Ok in Hs as (Hp & Hen & Hu & H1 & H2).
  unfold grouping_quality. cbn zeta.
  pose proof (b2z_range (negb (is_none (Evidence.assertion e)))) as Ha.
  pose proof (b2z_range (Evidence.stable_error e)) as Hse.
  destruct (FrameEvidence.project (Evidence.frames e)) as [|p ps] eqn:Ep.
  2: { assert (Hne : p :: ps <> []) by discriminate.
       rewrite (H1 Hne), (H2 (or_introl Hne)). left. split; [exact Hne|]. cbn [length] in *. lia. }
  destruct (FrameEvidence.engine (Evidence.frames e)) as [|g gs] eqn:Eg.
  2: { assert (Hne : g :: gs <> []) by discriminate. rewrite (H2 (or_intror Hne)). right; left.
       split; [done|]. split; [exact Hne|]. cbn [length] in *. lia. }
  destruct (FrameEvidence.unresolved (Evidence.frames e)) as [|u us] eqn:Eu.
  2: { right; right; left. split; [done|]. split; [done|]. split; [discriminate|]. cbn [length] in *. lia. }
  right; right; right. split; [done|]. split; [done|]. split; [done|]. unfold Evidence.insufficient in Hi. rewrite Ep, Eg, Eu in Hi.
  rewrite !bool_decide_true in Hi by done. cbn in Hi. apply negb_false_iff in Hi. rewrite Hi. cbn. lia.
Qed.

Lemma fingerprint_title v f :
  fingerprint v = Ok (Grouped f) -> exists value, Fingerprint.title f = sanitize_title value.
Proof. intros (e & _ & _ & _ & _ & -> & _)%fingerprint_Grouped. by eexists. Qed.

(** Titles are safe to show.  The title of a group is not empty, has at most 160 characters, and
    contains no markup, quote or control character. *)
Theorem titles_are_safe v f :
  fingerprint v = Ok (Grouped f) ->
  Fingerprint.title f <> [] /\ (length (Fingerprint.title f) <= MAX_TITLE_CHARS)%nat
  /\ Forall (fun c => c ∉ [60; 62; 38; 39; 34]%N /\ is_control c = false) (Fingerprint.title f).
Proof.
  intros (value & ->)%fingerprint_title. unfold sanitize_title. cbn zeta.
  set (t := concat _). destruct (decide (t = [])) as [E|E].
  { split_and!; [done|vm_compute; lia|]. apply (bool_decide_unpack _). vm_compute. exact I. }
  split; [done|]. unfold t. destruct (sanitized_chars (take MAX_TITLE_CHARS (collapse_whitespace value))) as [H1 H2].
  split; [|done]. rewrite length_take in H1. lia.
Qed.
End outcome.

(** Templates abstract volatile values.  The rewriting loop always ends, and its result has no ASCII
    digit or capital letter, no control character, no whitespace but the space, and
    at most [MAX_ERROR_TEMPLATE_CHARS] characters. *)
Theorem templates_are_normal value :
  let input := bounded value MAX_ERROR_INPUT_CHARS in
  is_Some (template_loop (length input) input 0 [])
  /\ Forall template_char (normalize_template value)
  /\ (length (normalize_template value) <= MAX_ERROR_TEMPLATE_CHARS)%nat.
Proof.
  cbn zeta. set (input := bounded value MAX_ERROR_INPUT_CHARS).
  destruct (template_loop_returns (length input) input 0 []) as [r Hr]; [lia|]. split; [by eexists|].
  unfold normalize_template. fold input. rewrite Hr. cbn [from_option id]. unfold bounded. split.
  - apply Forall_take, Forall_forall. intros c Hc%trim_incl.
    pose proof (template_loop_chars _ _ _ _ _ (Forall_nil_2 _) Hr) as Hf. rewrite Forall_forall in Hf. by apply Hf.
  - rewrite length_take. lia.
Qed.

(** * Samples: the fixtures of the grouping tests *)

Definition sample_frame (module function source : string) : json :=
  jobj [("instruction", jstr "0x0000000140001000"); ("module", jstr module); ("module_relative", jstr "0x1000");
        ("trust", jstr "context"); ("symbol_status", jstr "resolved"); ("function", jstr function);
        ("source_file", jstr source); ("source_line", jnat 42); ("inlines", JArray [])].
Definition sample_unresolved (module relative : string) : json :=
  jobj [("instruction", jstr "0x0000000140001000"); ("module", jstr module); ("module_relative", jstr relative);
        ("trust", jstr "context"); ("symbol_status", jstr "missing_pdb"); ("function", JNull);
        ("source_file", JNull); ("source_line", JNull); ("inlines", JArray [])].
Definition sample_module (name debug_id : string) : json :=
  jobj [("module", jstr name); ("base_address", jstr "0x0000000140000000"); ("size", jnat 4096);
        ("code_id", jstr "CODE-A"); ("debug_id", jstr debug_id); ("status", jstr "matched");
        ("pe", jstr "game.exe"); ("pdb", jstr "game.pdb")].
Definition sample_signal (kind : string) : json :=
  jobj [("kind", jstr kind); ("confidence", jstr "high"); ("evidence", JArray [jstr "DXGI device removed"])].

Definition sample_grouping_context (guid crash_type : string) (error_message : json) (build : string) : list (string * json) :=
  [("parser_version", jnat 1); ("crash_guid", jstr guid); ("crash_type", jstr crash_type);
   ("error_message", error_message); ("build_version", jstr build); ("engine_version", jstr "5.8.1");
   ("platform", jobj [("original", jstr "Win64"); ("normalized", jstr "windows")]);
   ("architecture", jstr "x86_64"); ("build_configuration", jstr "Shipping"); ("modules", JArray []);
   ("threads", JArray []); ("system_metadata", JArray []); ("user_comment", JNull); ("game_data", JArray []);
   ("unknown_fields", jobj [])].
Definition sample_symbolication (modules : list json) (faulting : bool) (frames : list json) : json :=
  jobj [("schema_version", jnat 1); ("symbolicator_version", jstr "0.1.0"); ("minidump_version", jstr "0.27.0");
        ("minidump_processor_version", jstr "0.27.0"); ("minidump_unwind_version", jstr "0.27.0");
        ("platform", jstr "windows"); ("architecture", jstr "x86_64"); ("faulting_thread_id", jnat 7);
        ("modules", JArray modules);
        ("threads", JArray [jobj [("thread_id", jnat 7); ("faulting", JBool faulting); ("name", jstr "GameThread");
           ("unwind_status", jstr "ok"); ("frames_truncated", JBool false); ("frames", JArray frames)]])].
Definition sample_classification (crash_type : string) (signals : list json) : json :=
  jobj [("crash_type", jstr crash_type); ("confidence", jstr "high"); ("evidence", JArray []);
        ("signals", JArray signals)].
Definition sample_grouping (guid crash_type build : string) (error_message : json) (signals : list json)
    (symbolication : json) : json :=
  jobj [("schema_version", jnat 1); ("crash_guid", jstr guid);
        ("crash_context", jobj (sample_grouping_context guid crash_type error_message build));
        ("classification", sample_classification crash_type signals);
        ("current", jobj [("processing_version", jnat 1); ("parser_version", jnat 1); ("symbolication", symbolication)]);
        ("history", JArray [])].

(** No alphanumeric beyond ASCII, and a digest that is its input. *)
#[local] Instance ascii_only : Unicode := {| unicode_alphanumeric := fun _ => false |}.
#[local] Instance transparent_digest : Sha256 := {| sha256 := id |}.

Definition tick : json :=
  sample_grouping "UECC-1" "crash" "1.0.0" JNull []
    (sample_symbolication [sample_module "Game.exe" "DEBUG-A"] true
       [sample_frame "Game.exe" "Arena::Tick(int)" "D:\first\Game\Source\Arena.cpp"]).
Definition tick_again : json :=
  sample_grouping "UECC-2" "crash" "2.0.0" JNull []
    (sample_symbolication [sample_module "Game.exe" "DEBUG-A"] true
       [sample_frame "Game.exe" "Arena::Tick(int)" "D:\first\Game\Source\Arena.cpp"]).
Definition load : json :=
  sample_grouping "UECC-1" "crash" "1.0.0" JNull []
    (sample_symbolication [sample_module "Game.exe" "DEBUG-A"] true
       [sample_frame "Game.exe" "Arena::Load()" "D:\first\Game\Source\Arena.cpp"]).
Definition no_frames (crash_type error : string) (signals : list json) : json :=
  sample_grouping "UECC-1" crash_type "1.0.0" (jstr error) signals (sample_symbolication [] true []).

Definition outcome_of (v : json) : option Fingerprint.t :=
  match fingerprint v with Ok (Grouped f) => Some f | _ => None end.
Definition sample_fingerprint (v : json) : Fingerprint.t :=
  default {| Fingerprint.issue_fingerprint := []; Fingerprint.variant_fingerprint := []; Fingerprint.title := [];
             Fingerprint.grouping_quality := 0 |} (outcome_of v).

Example templates_replace_volatile_values :
  normalize_template (txt "Failure 123 at 0xABCDEF, guid 01234567-89ab-cdef-0123-456789abcdef, 2026-08-14T12:30:45Z")
  = txt "failure <number> at <address>, guid <guid>, <timestamp>".
Proof. vm_compute. reflexivity. Qed.

Example sample_groups :
  Fingerprint.title <$> outcome_of tick = Some (txt "Arena::Tick(int) in game")
  /\ Fingerprint.grouping_quality <$> outcome_of tick = Some 100%Z
  /\ outcome_of tick = outcome_of tick_again /\ outcome_of tick <> outcome_of load
  /\ fingerprint (no_frames "crash" "Access violation" []) = Ok Insufficient
  /\ fingerprint (no_frames "crash" "GPU crash at 0xABC" [sample_signal "gpu_crash"]) = Ok Insufficient
  /\ fingerprint (no_frames "assert" "Assertion failed at line 42" []) = Ok Insufficient
  /\ Fingerprint.title <$> outcome_of (no_frames "crash" "ArenaPool allocation failed for 10 bytes" [sample_signal "out_of_memory"])
     = Some (txt "Out of memory").
Proof. split_and!; try (vm_compute; reflexivity). vm_compute. discriminate. Qed.

Lemma fingerprints_identify_components_witness :
  Fingerprint.issue_fingerprint (sample_fingerprint tick) = Fingerprint.issue_fingerprint (sample_fingerprint tick_again)
  /\ exists e e', read_evidence tick = Ok e /\ read_evidence tick_again = Ok e'
     /\ (component_bytes (Evidence.issue e) = component_bytes (Evidence.issue e') \/ collision).
Proof.
  split; [vm_compute; reflexivity|].
  destruct (fingerprints_identify_components tick tick_again (sample_fingerprint tick) (sample_fingerprint tick_again))
    as (e & e' & H1 & H2 & H3 & _); [vm_compute; reflexivity|vm_compute; reflexivity|].
  exists e, e'. split; [exact H1|]. split; [exact H2|]. apply H3. vm_compute. reflexivity.
Defined.

Lemma grouping_reads_only_the_evidence_witness : fingerprint tick = fingerprint tick_again /\ tick <> tick_again.
Proof.
  split; [|vm_compute; discriminate].
  apply (grouping_reads_only_the_evidence tick tick_again
    (obj_of (map (fun kv => (txt kv.1, kv.2)) (sample_grouping_context "UECC-1" "crash" JNull "1.0.0")))
    (obj_of (map (fun kv => (txt kv.1, kv.2)) (sample_grouping_context "UECC-2" "crash" JNull "2.0.0"))));
    vm_compute; reflexivity.
Defined.

Lemma grouping_ignores_order_witness :
  normalized_signals [sample_signal "gpu_crash"; sample_signal "out_of_memory"]
  = normalized_signals [sample_signal "out_of_memory"; sample_signal "gpu_crash"].
Proof.
  destruct (grouping_ignores_order [sample_signal "gpu_crash"; sample_signal "out_of_memory"]
    [sample_signal "out_of_memory"; sample_signal "gpu_crash"] [] []
    [sample_module "Game.exe" "A"; sample_module "Game.exe" "B"] [sample_module "Game.exe" "B"; sample_module "Game.exe" "A"]
    [(txt "game", [{| ModuleIdentity.debug_id := Some (txt "a"); ModuleIdentity.code_id := Some (txt "code-a") |};
                   {| ModuleIdentity.debug_id := Some (txt "b"); ModuleIdentity.code_id := Some (txt "code-a") |}])]
    [(txt "game", [{| ModuleIdentity.debug_id := Some (txt "a"); ModuleIdentity.code_id := Some (txt "code-a") |};
                   {| ModuleIdentity.debug_id := Some (txt "b"); ModuleIdentity.code_id := Some (txt "code-a") |}])])
    as (H & _); [apply Permutation_swap|apply Permutation_refl|apply Permutation_swap|vm_compute; reflexivity
                |vm_compute; reflexivity|exact H].
Defined.

Lemma quality_ranks_the_evidence_witness :
  exists e, read_evidence load = Ok e /\ FrameEvidence.project (Evidence.frames e) <> []
  /\ (100 <= Fingerprint.grouping_quality (sample_fingerprint load) <= 804)%Z.
Proof.
  destruct (quality_ranks_the_evidence load (sample_fingerprint load)) as (e & He & H); [vm_compute; reflexivity|].
  exists e. split; [exact He|].
  destruct H as [H|[(_ & _ & _ & H)|[(_ & _ & _ & _ & H)|(_ & _ & _ & _ & H)]]]; [exact H|..];
    vm_compute in H; exfalso; apply H; reflexivity.
Defined.

Definition marked : json :=
  sample_grouping "UECC-1" "crash" "1.0.0" JNull []
    (sample_symbolication [] true [sample_frame "Game.exe" "<script>alert('x')</script>" "Game/Source/Arena.cpp"]).

Lemma titles_are_safe_witness :
  Fingerprint.title (sample_fingerprint marked) = txt "_script_alert(_x_)_/script_ in game"
  /\ Forall (fun c => c ∉ [60; 62; 38; 39; 34]%N /\ is_control c = false) (Fingerprint.title (sample_fingerprint marked)).
Proof.
  split; [vm_compute; reflexivity|].
  apply (titles_are_safe marked (sample_fingerprint marked)). vm_compute. reflexivity.
Defined.

Definition no_faulting_thread : json :=
  sample_grouping "UECC-1" "crash" "1.0.0" JNull [] (sample_symbolication [] false []).

Lemma grouping_refuses_what_has_no_faulting_thread_witness :
  validate_processing_result no_faulting_thread None = Ok ()
  /\ fingerprint no_faulting_thread = Err InvalidProcessingResult.
Proof.
  assert (Hv : validate_processing_result no_faulting_thread None = Ok ()) by (vm_compute; reflexivity).
  split; [exact Hv|].
  destruct (grouping_refuses_what_has_no_faulting_thread no_faulting_thread) as [_ H].
  destruct (H Hv) as (threads & Ht & Hiff). apply Hiff. vm_compute in Ht. injection Ht as <-. reflexivity.
Defined.
