(* ===== verification/DataRules.v ===== *)
(** Data rules ([apps/server/src/data_rules.rs]): the validation of redaction patterns and indexed keys,
    the redaction of a processing result in place, and the context facets that are indexed. *)

From stdpp Require Import sorting.
From S2P Require Import Prelude Text Json Validation.

Definition MAX_PATTERNS : nat := 32.
Definition MAX_PATTERN_BYTES : N := 256.
Definition MAX_PATTERN_BYTES_TOTAL : N := 4096.
Definition MAX_INDEXED_KEYS : nat := 32.
Definition MAX_KEY_BYTES : N := 128.
Definition MAX_FACET_VALUE_CHARS : nat := 512.
Definition REDACTED : text := txt "[REDACTED]".

Module DataRules.
Record t : Type := Mk { version : Z; patterns : list text; indexed_game_data_keys : list text }.

(** [DataRules::empty]. *)
Definition empty : t := {| version := 0; patterns := []; indexed_game_data_keys := [] |}.
End DataRules.

Module ContextFacet.
Record t : Type := Mk { key : text; value : text; value_truncated : bool }.

#[global] Instance eq_dec : EqDecision t.
Proof. solve_decision. Defined.

(** The derived order: key, then value, then the flag. *)
Definition leb (a b : t) : bool :=
  if decide (key a = key b) then
    if decide (value a = value b) then implb (value_truncated a) (value_truncated b)
    else text_leb (value a) (value b)
  else text_leb (key a) (key b).
End ContextFacet.

Inductive DataRulesError : Type := InvalidRequest | Unauthorized | Forbidden | NotFound | Unavailable | Internal.

#[export] Instance DataRulesError_eq_dec : EqDecision DataRulesError.
Proof. solve_decision. Defined.

(** [DataRulesError::into_response]: status, code and message. *)
Definition data_rules_response (e : DataRulesError) : N * text * text :=
  match e with
  | InvalidRequest => (400%N, txt "invalid_request", txt "request is invalid")
  | Unauthorized => (401%N, txt "unauthorized", txt "authentication is required")
  | Forbidden => (403%N, txt "forbidden", txt "operation is not allowed")
  | NotFound => (404%N, txt "not_found", txt "resource was not found")
  | Unavailable => (503%N, txt "service_unavailable", txt "service is unavailable")
  | Internal => (500%N, txt "internal_error", txt "request could not be completed")
  end.

(** * Validation *)

(** The tests that [validate_rules] makes on a pattern and on a key. *)
Definition bad_pattern (pattern : text) : bool :=
  bool_decide (pattern = []) || bool_decide (trim pattern = []) || contains REDACTED pattern
  || (MAX_PATTERN_BYTES <? str_len pattern)%N || existsb is_control pattern.
Definition key_char (c : char) : bool := is_ascii_alphanumeric c || bool_decide (c ∈ txt "_-.").
Definition bad_key (key : text) : bool :=
  bool_decide (key = []) || (MAX_KEY_BYTES <? str_len key)%N || negb (forallb key_char key).

(** The order of [sort_by]: longer patterns first, then the order of texts. *)
Definition pattern_leb (a b : text) : bool :=
  (str_len b <? str_len a)%N || (str_len a =? str_len b)%N && text_leb a b.

(** [validate_rules]. *)
Definition validate_rules (patterns keys : list text) : result DataRulesError DataRules.t :=
  if (MAX_PATTERNS <? length patterns)%nat || (MAX_INDEXED_KEYS <? length keys)%nat
     || existsb bad_pattern patterns
     || (MAX_PATTERN_BYTES_TOTAL <? foldr N.add 0%N (map str_len patterns))%N
     || existsb bad_key keys
  then Err InvalidRequest
  else Ok {| DataRules.version := 0; DataRules.patterns := dedup (sort pattern_leb patterns);
             DataRules.indexed_game_data_keys := dedup (sort text_leb keys) |}.

(** [rules_from_row], on the nullable columns of the left join. *)
Definition rules_from_row (version : option Z) (patterns keys : option (list text)) : result () DataRules.t :=
  rules ← map_err (fun _ => ()) (validate_rules (default [] patterns) (default [] keys));
  Ok {| DataRules.version := default 0%Z version; DataRules.patterns := DataRules.patterns rules;
        DataRules.indexed_game_data_keys := DataRules.indexed_game_data_keys rules |}.

(** * Redaction *)

(** [redact_text] and [redact_value]. *)
Definition redact_text (patterns : list text) (t : text) : text :=
  foldl (fun t pattern => if contains t pattern then replace t pattern REDACTED else t) t patterns.
Definition redact_value (patterns : list text) (v : json) : json :=
  match v with JString t => JString (redact_text patterns t) | _ => v end.

(** [redact_field], on an object that is reached by [as_object_mut] or [get_mut]. *)
Definition redact_field (patterns : list text) (v : json) (field : text) : json :=
  alter_key (redact_value patterns) field v.

(** [redact_array_fields]. *)
Definition redact_array_fields (fields : list text) (patterns : list text) (v : json) : json :=
  alter_array (fun v => foldl (redact_field patterns) v fields) v.

(** [redact_recursive]. *)
Fixpoint redact_recursive (patterns : list text) (v : json) : json :=
  match v with
  | JString t => JString (redact_text patterns t)
  | JArray l => JArray (map (redact_recursive patterns) l)
  | JObject m => JObject (map (fun kv => (kv.1, redact_recursive patterns kv.2)) m)
  | _ => v
  end.

Definition redacted_context_fields : list text :=
  map txt ["error_message"; "build_version"; "engine_version"; "architecture"; "build_configuration";
           "command_line"; "user_comment"].

(** The platform's two fields. *)
Definition redact_platform (patterns : list text) (v : json) : json :=
  foldl (redact_field patterns) v [txt "original"; txt "normalized"].

(** [redact_crash_context]: nothing happens unless the context is an object. *)
Definition redact_context_value (patterns : list text) (v : json) : json :=
  match v with
  | JObject _ =>
      let v := foldl (redact_field patterns) v redacted_context_fields in
      let v := alter_key (redact_platform patterns) (txt "platform") v in
      let v := alter_key (redact_array_fields [txt "original"] patterns) (txt "modules") v in
      let v := alter_key (redact_array_fields [txt "call_stack"; txt "registers"; txt "thread_name"] patterns)
                 (txt "threads") v in
      let v := alter_key (redact_array_fields [txt "value"] patterns) (txt "system_metadata") v in
      let v := alter_key (redact_array_fields [txt "value"] patterns) (txt "game_data") v in
      alter_key (redact_recursive patterns) (txt "unknown_fields") v
  | _ => v
  end.
Definition redact_crash_context (patterns : list text) (v : json) : json :=
  alter_key (redact_context_value patterns) (txt "crash_context") v.

(** [redact_log]. *)
Definition redact_log (patterns : list text) (v : json) : json :=
  let v := alter_pointer (redact_value patterns) [txt "log"; txt "name"] v in
  alter_pointer (redact_value patterns) [txt "log"; txt "tail"; txt "text"] v.

(** [redact_symbolication], inside out. *)
Definition redact_inline (patterns : list text) (v : json) : json := redact_field patterns v (txt "source_file").
Definition redact_frame (patterns : list text) (v : json) : json :=
  alter_key (alter_array (redact_inline patterns)) (txt "inlines") (redact_field patterns v (txt "source_file")).
Definition redact_thread (patterns : list text) (v : json) : json :=
  alter_key (alter_array (redact_frame patterns)) (txt "frames") v.
Definition redact_symbolication (patterns : list text) (v : json) : json :=
  alter_pointer (alter_array (redact_thread patterns)) [txt "current"; txt "symbolication"; txt "threads"] v.

(** * Facets *)

(** The facet of one element of the game data. *)
Definition facet_of (indexed_keys : list text) (v : json) : option ContextFacet.t :=
  key ← get v (txt "name") ≫= as_str;
  raw ← get v (txt "value") ≫= as_str;
  if negb (bool_decide (key ∈ indexed_keys)) || bool_decide (raw = []) then None
  else
    let value := take MAX_FACET_VALUE_CHARS raw in
    Some {| ContextFacet.key := key; ContextFacet.value := value;
            ContextFacet.value_truncated := (length value <? length raw)%nat |}.

(** [context_facets]. *)
Definition context_facets (v : json) (indexed_keys : list text) : list ContextFacet.t :=
  if decide (indexed_keys = []) then []
  else
    match pointer v [txt "crash_context"; txt "game_data"] ≫= as_array with
    | Some values => dedup (sort ContextFacet.leb (omap (facet_of indexed_keys) values))
    | None => []
    end.

(** [redact_and_index]: the redacted result and its facets. *)
Definition redact (patterns : list text) (v : json) : json :=
  if decide (patterns = []) then v
  else redact_symbolication patterns (redact_log patterns (redact_crash_context patterns v)).
Definition redact_and_index (v : json) (rules : DataRules.t) : json * list ContextFacet.t :=
  let v := redact (DataRules.patterns rules) v in
  (v, context_facets v (DataRules.indexed_game_data_keys rules)).
