(* ===== verification/Redaction.v ===== *)
(** Properties of the data rules: what redaction leaves, what it keeps, and what is indexed. *)

From stdpp Require Import sorting.
From S2P Require Import Prelude Text Json Validation DataRules.

(** * Replacement *)

(** A pattern without brackets cannot overlap the two ends of [REDACTED]. *)
Definition bracket_free (p : text) : Prop := 91%N ∉ p /\ 93%N ∉ p.

#[export] Instance bracket_free_dec p : Decision (bracket_free p).
Proof. unfold bracket_free. apply _. Defined.

(** A pattern that [validate_rules] accepts. *)
Definition good_pattern (p : text) : Prop := p <> [] /\ contains REDACTED p = false.

(** An occurrence does not reach across a character that is not in the pattern. *)
Lemma starts_with_cut x b y p : b ∉ p -> starts_with (x ++ b :: y) p = true -> starts_with x p = true.
Proof.
  revert p. induction x as [|c x IH]; intros p Hb H.
  - destruct p as [|d p]; [done|]. cbn in H. apply andb_prop in H as [->%N.eqb_eq _]. destruct Hb. left.
  - destruct p as [|d p]; [done|]. cbn in *. apply andb_prop in H as [-> H]. apply (IH p); [|done].
    intros ?. apply Hb. by right.
Qed.

Lemma contains_cut x b y p :
  b ∉ p -> contains (x ++ b :: y) p = true -> contains x p = true \/ contains (b :: y) p = true.
Proof.
  intros Hb. induction x as [|c x IH]; [by right|]. cbn [app]. intros H. cbn [contains] in H.
  apply orb_prop in H as [H|H].
  - left. cbn [contains]. change (c :: x ++ b :: y) with ((c :: x) ++ b :: y) in H.
    by rewrite (starts_with_cut _ _ _ _ Hb H).
  - destruct (IH H) as [H'|H']; [left|by right]. cbn [contains]. rewrite H'. apply orb_true_r.
Qed.

(** After a replaced match only what follows it can have an occurrence. *)
Lemma contains_after_redacted k p :
  good_pattern p -> bracket_free p -> contains (REDACTED ++ k) p = true -> contains k p = true.
Proof.
  intros [Hne Hr] [Ho Hc] H. change (REDACTED ++ k) with (take 9 REDACTED ++ 93%N :: k) in H.
  apply contains_cut in H as [H|H]; [|clear Hr|done].
  - change REDACTED with (take 9 REDACTED ++ [93%N]) in Hr. destruct (contains_spec (take 9 REDACTED) p) as [Hs _].
    destruct (Hs H) as (a & b & E). rewrite E in Hr.
    assert (Ht : contains ((a ++ p ++ b) ++ [93%N]) p = true).
    { apply contains_spec. exists a, (b ++ [93%N]). by rewrite <-!(assoc_L (++)). }
    congruence.
  - cbn [contains] in H. apply orb_prop in H as [H|H]; [|done]. destruct p as [|d p]; [done|]. cbn in H.
    apply andb_prop in H as [->%N.eqb_eq _]. destruct Hc. left.
Qed.

(** A bracket-free text at the start of the output was at the start of the input, and nothing was
    replaced there. *)
Lemma starts_with_replace q p s :
  bracket_free p -> starts_with (replace_go q REDACTED 0 s) p = true ->
  starts_with s p = true /\ (p <> [] -> starts_with s q = false).
Proof.
  revert p. induction s as [|c s IH]; intros p Hp H; cbn [replace_go] in H.
  - destruct p; [|done]. split; [done|]. intros. done.
  - destruct (starts_with (c :: s) q) eqn:Eq.
    + destruct p as [|d p]; [by split|]. cbn in H. apply andb_prop in H as [->%N.eqb_eq _]. destruct Hp as [[] _]. left.
    + split; [|done]. destruct p as [|d p]; [done|]. cbn [starts_with] in *. apply andb_prop in H as [-> H].
      apply IH in H as [H _]; [done|]. destruct Hp as [H1 H2]. split; intros ?; [apply H1|apply H2]; by right.
Qed.

(** An occurrence of a good bracket-free pattern in the output was one in the input, outside of the
    replaced matches. *)
Lemma contains_replace q p skip s :
  good_pattern p -> bracket_free p -> contains (replace_go q REDACTED skip s) p = true ->
  contains s p = true /\ p <> q.
Proof.
  intros Hg Hb. revert skip. induction s as [|c s IH]; intros skip H; cbn [replace_go] in H.
  - destruct p; [by destruct Hg|done].
  - destruct skip as [|k].
    + destruct (starts_with (c :: s) q) eqn:Eq.
      * apply contains_after_redacted in H; [|done..]. apply IH in H as [H ?]. split; [|done].
        cbn [contains]. rewrite H. apply orb_true_r.
      * cbn [contains] in H. apply orb_prop in H as [H|H].
        -- assert (H' : starts_with (replace_go q REDACTED 0 (c :: s)) p = true) by (cbn [replace_go]; by rewrite Eq).
           apply starts_with_replace in H' as [Hs Hn]; [|done]. split; [cbn [contains]; by rewrite Hs|].
           intros ->. by rewrite Eq in Hs.
        -- apply IH in H as [H ?]. split; [|done]. cbn [contains]. rewrite H. apply orb_true_r.
    + apply IH in H as [H ?]. split; [|done]. cbn [contains]. rewrite H. apply orb_true_r.
Qed.

Lemma replace_clean q p t :
  q <> [] -> good_pattern p -> bracket_free p -> contains (replace t q REDACTED) p = true -> contains t p = true /\ p <> q.
Proof. intros Hq Hg Hb. unfold replace. destruct q; [done|]. by apply contains_replace. Qed.

(** Redaction never brings a pattern in, and leaves none of its own. *)
Lemma redact_text_keeps_out patterns p t :
  Forall good_pattern patterns -> good_pattern p -> bracket_free p -> contains t p = false ->
  contains (redact_text patterns t) p = false.
Proof.
  intros Hps Hg Hb. unfold redact_text. revert t. induction Hps as [|q patterns [Hq _] _ IH]; intros t Ht; [done|].
  cbn [foldl]. apply IH. destruct (contains t q); [|done]. apply not_true_iff_false.
  intros [H _]%replace_clean; try done. by rewrite Ht in H.
Qed.

Lemma redact_text_clean patterns p t :
  Forall good_pattern patterns -> p ∈ patterns -> bracket_free p -> contains (redact_text patterns t) p = false.
Proof.
  intros Hps Hin Hb. unfold redact_text. revert t. induction Hps as [|q patterns Hq Hps IH]; intros t; [by apply not_elem_of_nil in Hin|].
  cbn [foldl]. apply elem_of_cons in Hin as [->|Hin]; [|by apply IH].
  apply redact_text_keeps_out; try done. destruct (contains t q) eqn:E; [|done].
  apply not_true_iff_false. intros [_ H]%replace_clean; try done. apply Hq.
Qed.

(** A text without occurrences is left as it is. *)
Lemma redact_text_fixed patterns t :
  Forall (fun p => contains t p = false) patterns -> redact_text patterns t = t.
Proof. unfold redact_text. induction 1 as [|p patterns Hp _ IH]; [done|]. cbn [foldl]. by rewrite Hp. Qed.

Lemma redact_text_idemp patterns t :
  Forall good_pattern patterns -> Forall bracket_free patterns ->
  redact_text patterns (redact_text patterns t) = redact_text patterns t.
Proof.
  intros Hg Hb. apply redact_text_fixed, Forall_forall. intros p Hp. apply redact_text_clean; [done..|].
  rewrite Forall_forall in Hb. by apply Hb.
Qed.

(** * Validated rules *)

Lemma existsb_false_Forall {A} (p : A -> bool) l : existsb p l = false <-> Forall (fun x => p x = false) l.
Proof.
  induction l as [|x l IH]; cbn; [done|]. rewrite orb_false_iff, Forall_cons, IH. done.
Qed.

(** The order of [sort_by]. *)
#[local] Instance pattern_order : TotalOrder pattern_leb.
Proof.
  unfold pattern_leb. split.
  - intros a b. destruct (N.lt_trichotomy (str_len a) (str_len b)) as [H|[H|H]].
    + right. apply orb_true_iff. left. by apply N.ltb_lt.
    + rewrite H, N.eqb_refl. destruct (text_leb_total a b) as [->| ->]; [left|right]; apply orb_true_r.
    + left. apply orb_true_iff. left. by apply N.ltb_lt.
  - intros a b c. rewrite !orb_true_iff, !andb_true_iff, !N.ltb_lt, !N.eqb_eq. intros [H1|[H1 H1']] [H2|[H2 H2']].
    + left. lia.
    + left. lia.
    + left. lia.
    + right. split; [lia|]. by eapply text_leb_trans.
  - intros a b. rewrite !orb_true_iff, !andb_true_iff, !N.ltb_lt, !N.eqb_eq. intros [H1|[H1 H1']] [H2|[H2 H2']]; try lia.
    by apply text_leb_antisym.
Qed.

Lemma validate_rules_Ok patterns keys r :
  validate_rules patterns keys = Ok r ->
  r = {| DataRules.version := 0; DataRules.patterns := dedup (sort pattern_leb patterns);
         DataRules.indexed_game_data_keys := dedup (sort text_leb keys) |}
  /\ (length patterns <= MAX_PATTERNS)%nat /\ (length keys <= MAX_INDEXED_KEYS)%nat
  /\ Forall (fun p => bad_pattern p = false) patterns /\ Forall (fun k => bad_key k = false) keys
  /\ (foldr N.add 0%N (map str_len patterns) <= MAX_PATTERN_BYTES_TOTAL)%N.
Proof.
  unfold validate_rules. destruct (_ || _) eqn:E; [done|]. intros [= <-].
  apply orb_false_iff in E as [E E5]. apply orb_false_iff in E as [E E4]. apply orb_false_iff in E as [E E3].
  apply orb_false_iff in E as [E1 E2]. apply Nat.ltb_ge in E1. apply Nat.ltb_ge in E2. apply N.ltb_ge in E4.
  split_and!; try done; by apply existsb_false_Forall.
Qed.

Lemma good_pattern_of p : bad_pattern p = false -> good_pattern p.
Proof.
  unfold bad_pattern, good_pattern. rewrite !orb_false_iff, bool_decide_eq_false. intros [[[[? _] ?] _] _]. done.
Qed.

Lemma validated_patterns_good patterns keys r :
  validate_rules patterns keys = Ok r -> Forall good_pattern (DataRules.patterns r).
Proof.
  intros (-> & _ & _ & H & _)%validate_rules_Ok. cbn. apply Forall_forall. intros p Hp.
  rewrite (elem_of_dedup_sort pattern_leb) in Hp. rewrite Forall_forall in H. by apply good_pattern_of, H.
Qed.

(** * Redaction and the validator *)

(** A test that an update does not change. *)
Definition keeps {B} (f : json -> json) (test : json -> B) : Prop := forall v, test (f v) = test v.

Lemma only_keys_alter f k (m : jmap) allowed : only_keys (obj_alter f k m) allowed = only_keys m allowed.
Proof. unfold only_keys. by rewrite obj_alter_keys. Qed.

Lemma has_alter f k j (m : jmap) p : keeps f p -> has (obj_alter f k m) j p = has m j p.
Proof.
  intros Hf. unfold has. rewrite obj_get_alter. case_decide; [subst|done]. destruct (obj_get k m); [apply Hf|done].
Qed.

Lemma has_alter_ne f k j (m : jmap) p : j <> k -> has (obj_alter f k m) j p = has m j p.
Proof. intros H. unfold has. by rewrite obj_get_alter_ne. Qed.

Lemma forallb_has_alter f k (m : jmap) fields p :
  keeps f p -> forallb (fun field => has (obj_alter f k m) field p) fields = forallb (fun field => has m field p) fields.
Proof. intros Hf. induction fields as [|j fields IH]; [done|]. cbn. by rewrite IH, has_alter. Qed.

Lemma validate_all_keeps f validator l : keeps f validator -> validate_all validator (map f l) = validate_all validator l.
Proof. intros Hf. induction l as [|v l IH]; [done|]. cbn. by rewrite Hf, IH. Qed.

Lemma validate_array_alter f k j (m : jmap) validator :
  keeps f validator -> validate_array (obj_alter (alter_array f) k m) j validator = validate_array m j validator.
Proof.
  intros Hf. unfold validate_array. rewrite obj_get_alter. case_decide; [subst|done].
  destruct (obj_get k m) as [[]|]; try done. cbn. by rewrite validate_all_keeps.
Qed.

Lemma validate_array_alter_ne f k j (m : jmap) validator :
  j <> k -> validate_array (obj_alter f k m) j validator = validate_array m j validator.
Proof. intros H. unfold validate_array. by rewrite obj_get_alter_ne. Qed.

Lemma keeps_foldl {A B} (f : json -> A -> json) (l : list A) (test : json -> B) :
  (forall a, a ∈ l -> keeps (fun v => f v a) test) -> keeps (fun v => foldl f v l) test.
Proof.
  intros H. induction l as [|a l IH]; [by intros ?|]. intros v. cbn [foldl]. rewrite IH.
  - apply (H a). left.
  - intros b Hb. apply H. by right.
Qed.

Section keeps.
Context (patterns : list text).
Abbreviation redact_value := (redact_value patterns).
Abbreviation redact_field := (redact_field patterns).

Lemma redact_value_string : keeps redact_value is_string.
Proof. by intros []. Qed.
Lemma redact_value_nullable : keeps redact_value nullable_string.
Proof. by intros []. Qed.

Lemma redact_string_object k fields : keeps (fun v => redact_field v k) (fun v => validate_string_object v fields).
Proof.
  intros []; try done. unfold validate_string_object, DataRules.redact_field. cbn [alter_key as_object ok_or mbind result_bind].
  by rewrite obj_alter_length, only_keys_alter, forallb_has_alter by apply redact_value_string.
Qed.

Lemma redact_context_thread k : keeps (fun v => redact_field v k) validate_context_thread.
Proof.
  intros []; try done. unfold validate_context_thread, DataRules.redact_field. cbn [alter_key as_object ok_or mbind result_bind].
  by rewrite obj_alter_length, only_keys_alter, forallb_has_alter by apply redact_value_nullable.
Qed.

Lemma redact_recursive_string_array : keeps (redact_recursive patterns) string_array.
Proof.
  intros []; try done. unfold string_array. cbn. induction l as [|v l IH]; [done|]. cbn. rewrite IH. by destruct v.
Qed.

Lemma redact_unknown_fields : keeps (redact_recursive patterns) validate_unknown_fields.
Proof.
  intros []; try done. unfold validate_unknown_fields. cbn [redact_recursive as_object ok_or mbind result_bind].
  unfold obj_values. rewrite map_map. cbn [snd]. rewrite <-(map_map snd (redact_recursive patterns)).
  apply validate_all_keeps. intros []; try done. unfold validate_unknown_section.
  cbn [redact_recursive as_object ok_or mbind result_bind]. unfold obj_values. rewrite map_map. cbn [snd].
  f_equal. induction m0 as [|[k v] m0 IH]; [done|]. cbn. by rewrite redact_recursive_string_array, IH.
Qed.
End keeps.

Ltac txt_ne := let E := fresh in intros E; vm_compute in E; discriminate E.

Lemma keeps_compose {B} f g (test : json -> B) : keeps f test -> keeps g test -> keeps (fun v => g (f v)) test.
Proof. intros Hf Hg v. by rewrite Hg, Hf. Qed.

(** What the contract asks of the crash context. *)
Definition context_test (v : json) : option (option text * option N * validation) :=
  context ← as_object v;
  Some (obj_get (txt "crash_guid") context ≫= as_str, obj_get (txt "parser_version") context ≫= as_u64,
        validate_crash_context context).

Lemma is_none_or_alter f k j (m : jmap) p :
  keeps f p -> is_none_or (obj_get j (obj_alter f k m)) p = is_none_or (obj_get j m) p.
Proof.
  intros Hf. rewrite obj_get_alter. case_decide; [subst|done]. destruct (obj_get k m); [apply Hf|done].
Qed.

(** Rewrites the tests of the fields that an update does not touch. *)
Ltac untouched :=
  rewrite ?obj_alter_length, ?only_keys_alter;
  repeat match goal with
  | |- context [obj_get ?j (obj_alter ?g ?k ?m)] => rewrite (obj_get_alter_ne g k j m) by txt_ne
  | |- context [has (obj_alter ?g ?k ?m) ?j ?p] => rewrite (has_alter_ne g k j m p) by txt_ne
  | |- context [validate_array (obj_alter ?g ?k ?m) ?j ?p] => rewrite (validate_array_alter_ne g k j m p) by txt_ne
  end.

Section contract.
Context (patterns : list text).

Lemma keeps_context_field k :
  k ∈ redacted_context_fields -> keeps (fun v => redact_field patterns v k) context_test.
Proof.
  intros Hk []; try done. unfold context_test, redact_field. cbn [alter_key as_object mbind option_bind].
  do 2 f_equal; [repeat (apply elem_of_cons in Hk as [->|Hk]; [by untouched|]); by apply not_elem_of_nil in Hk|].
  unfold validate_crash_context, crash_context_texts.
  rewrite (forallb_has_alter (redact_value patterns)) by apply redact_value_nullable.
  rewrite (is_none_or_alter (redact_value patterns)) by apply redact_value_string.
  repeat (apply elem_of_cons in Hk as [->|Hk]; [by untouched|]). by apply not_elem_of_nil in Hk.
Qed.

(** The tests that an update of one field can touch: that field's. *)
Lemma keeps_context_at k g :
  k ∈ map txt ["platform"; "modules"; "threads"; "system_metadata"; "game_data"; "unknown_fields"] ->
  (forall m, validate_crash_context (obj_alter g k m) = validate_crash_context m) ->
  keeps (alter_key g k) context_test.
Proof.
  intros Hk Hg []; try done. unfold context_test. cbn [alter_key as_object mbind option_bind].
  rewrite Hg. do 2 f_equal. repeat (apply elem_of_cons in Hk as [->|Hk]; [by untouched|]). by apply not_elem_of_nil in Hk.
Qed.

Lemma redact_platform_test :
  keeps (redact_platform patterns) (fun v => is_null v || is_ok (validate_normalized_value v)).
Proof.
  intros v. assert (E : is_null (redact_platform patterns v) = is_null v) by (by destruct v). rewrite E. do 2 f_equal.
  apply (keeps_foldl (redact_field patterns) [txt "original"; txt "normalized"] validate_normalized_value).
  intros k _. apply redact_string_object.
Qed.

Lemma validate_crash_context_fields g k (m : jmap) :
  k ∉ txt "command_line" :: crash_context_texts ->
  is_none_or (obj_get (txt "command_line") (obj_alter g k m)) is_string = is_none_or (obj_get (txt "command_line") m) is_string
  /\ forallb (fun field => has (obj_alter g k m) field nullable_string) crash_context_texts
     = forallb (fun field => has m field nullable_string) crash_context_texts.
Proof.
  intros [H1 H2]%not_elem_of_cons. split; [by rewrite obj_get_alter_ne|]. revert H2.
  induction crash_context_texts as [|j l IH]; [done|]. intros [Hj Hl]%not_elem_of_cons. cbn.
  rewrite has_alter_ne, IH by done. done.
Qed.

Ltac at_field k :=
  let m := fresh "m" in intros m; unfold validate_crash_context;
  match goal with |- context [obj_alter ?g k m] =>
    let H1 := fresh in let H2 := fresh in
    destruct (validate_crash_context_fields g k m) as [H1 H2];
      [apply (bool_decide_unpack _); vm_compute; exact I|]; rewrite H1, H2; untouched end.

Lemma keeps_array_fields fields (test : json -> validation) :
  (forall k, keeps (fun v => redact_field patterns v k) test) ->
  keeps (fun v => foldl (redact_field patterns) v fields) test.
Proof. intros H. apply keeps_foldl. intros k _. apply H. Qed.

Lemma redact_normalized_value k : keeps (fun v => redact_field patterns v k) validate_normalized_value.
Proof. intros v. apply redact_string_object. Qed.
Lemma redact_property k : keeps (fun v => redact_field patterns v k) validate_property.
Proof. intros v. apply redact_string_object. Qed.

(** The update of one array of the context. *)
Lemma validate_array_fields k fields j (m : jmap) test :
  (forall k, keeps (fun v => redact_field patterns v k) test) ->
  validate_array (obj_alter (redact_array_fields fields patterns) k m) j test = validate_array m j test.
Proof. intros H. unfold redact_array_fields. apply validate_array_alter. by apply keeps_array_fields. Qed.

Lemma context_platform : keeps (alter_key (redact_platform patterns) (txt "platform")) context_test.
Proof.
  apply keeps_context_at; [apply (bool_decide_unpack _); vm_compute; exact I|]. at_field (txt "platform").
  by rewrite (has_alter _ _ _ _ _ redact_platform_test).
Qed.

Ltac context_array k H :=
  apply keeps_context_at; [apply (bool_decide_unpack _); vm_compute; exact I|];
  at_field k; by rewrite (validate_array_fields _ _ _ _ _ H).

Lemma context_modules : keeps (alter_key (redact_array_fields [txt "original"] patterns) (txt "modules")) context_test.
Proof. context_array (txt "modules") redact_normalized_value. Qed.
Lemma context_threads fields : keeps (alter_key (redact_array_fields fields patterns) (txt "threads")) context_test.
Proof. context_array (txt "threads") (redact_context_thread patterns). Qed.
Lemma context_metadata : keeps (alter_key (redact_array_fields [txt "value"] patterns) (txt "system_metadata")) context_test.
Proof. context_array (txt "system_metadata") redact_property. Qed.
Lemma context_game_data : keeps (alter_key (redact_array_fields [txt "value"] patterns) (txt "game_data")) context_test.
Proof. context_array (txt "game_data") redact_property. Qed.
Lemma context_unknown : keeps (alter_key (redact_recursive patterns) (txt "unknown_fields")) context_test.
Proof.
  apply keeps_context_at; [apply (bool_decide_unpack _); vm_compute; exact I|]. at_field (txt "unknown_fields").
  rewrite obj_get_alter_eq. destruct (obj_get (txt "unknown_fields") m); [|done].
  cbn [fmap option_fmap option_map ok_or mbind result_bind]. by rewrite redact_unknown_fields.
Qed.

Lemma keeps_context : keeps (redact_context_value patterns) context_test.
Proof.
  intros v. unfold redact_context_value. destruct v as [| | | | |m]; try done. cbv zeta.
  etransitivity; [apply context_unknown|]. etransitivity; [apply context_game_data|].
  etransitivity; [apply context_metadata|]. etransitivity; [apply context_threads|].
  etransitivity; [apply context_modules|]. etransitivity; [apply context_platform|].
  apply (keeps_foldl (redact_field patterns)). apply keeps_context_field.
Qed.
End contract.

Section result.
Context (patterns : list text).

(** * The log and the symbolication *)

Lemma keeps_log_name : keeps (alter_key (redact_value patterns) (txt "name")) validate_log.
Proof.
  intros []; try done. unfold validate_log. cbn [alter_key as_object ok_or mbind result_bind]. untouched.
  unfold has_str. by rewrite has_alter by apply redact_value_string.
Qed.

Lemma keeps_log_text : keeps (alter_key (alter_key (redact_value patterns) (txt "text")) (txt "tail")) validate_log.
Proof.
  intros []; try done. unfold validate_log. cbn [alter_key as_object ok_or mbind result_bind]. unfold has_str. untouched.
  rewrite obj_get_alter_eq. destruct (obj_get (txt "tail") m) as [[| | | | |tail]|]; try done.
  cbn [fmap option_fmap option_map mbind option_bind as_object alter_key ok_or result_bind]. untouched.
  by rewrite has_alter by apply redact_value_string.
Qed.

Lemma redact_inline_valid : keeps (redact_inline patterns) validate_inline.
Proof.
  intros []; try done. unfold validate_inline, redact_inline, redact_field.
  cbn [alter_key as_object ok_or mbind result_bind]. unfold has_str. untouched.
  by rewrite (has_alter _ _ (txt "source_file")) by apply redact_value_nullable.
Qed.

Lemma alter_array_is_array f : keeps (alter_array f) is_array.
Proof. by intros []. Qed.

Lemma redact_frame_valid : keeps (redact_frame patterns) validate_frame.
Proof.
  intros []; try done. unfold validate_frame, redact_frame, redact_field.
  cbn [alter_key as_object ok_or mbind result_bind]. 
  unfold has_str, has_non_empty, has_one_of. cbn [forallb]. untouched.
  rewrite (has_alter _ _ (txt "inlines")) by apply alter_array_is_array. untouched.
  rewrite (has_alter _ _ (txt "source_file")) by apply redact_value_nullable.
  rewrite validate_array_alter by apply redact_inline_valid. by untouched.
Qed.

Lemma redact_thread_valid : keeps (redact_thread patterns) validate_thread.
Proof.
  intros []; try done. unfold validate_thread, redact_thread. cbn [alter_key as_object ok_or mbind result_bind].
  unfold has_str, has_u64, has_one_of. untouched. rewrite has_alter by apply alter_array_is_array.
  by rewrite validate_array_alter by apply redact_frame_valid.
Qed.

(** What the contract asks of an attempt. *)
Definition attempt_test (v : json) : option N * option N * validation :=
  (get v (txt "processing_version") ≫= as_u64, get v (txt "parser_version") ≫= as_u64, validate_attempt v).

Definition redact_threads : json -> json := alter_key (alter_array (redact_thread patterns)) (txt "threads").

Lemma keeps_header n (m : jmap) :
  validate_symbolication_header (obj_alter (alter_array (redact_thread patterns)) (txt "threads") m) n
  = validate_symbolication_header m n.
Proof.
  unfold validate_symbolication_header, has_non_empty. cbn [forallb]. untouched.
  by rewrite has_alter by apply alter_array_is_array.
Qed.

Lemma keeps_symbolication n : keeps redact_threads (fun v => validate_symbolication v n).
Proof.
  intros []; try done. unfold validate_symbolication, redact_threads. cbn [alter_key as_object ok_or mbind result_bind].
  rewrite keeps_header. untouched. rewrite obj_get_alter_eq.
  destruct (obj_get (txt "threads") m) as [[]|]; try done.
  cbn [fmap option_fmap option_map mbind option_bind as_array alter_array ok_or result_bind].
  unfold validate_threads. by rewrite validate_all_keeps by apply redact_thread_valid.
Qed.

Lemma redact_threads_object : keeps redact_threads is_object.
Proof. by intros []. Qed.

Lemma keeps_attempt : keeps (alter_key redact_threads (txt "symbolication")) attempt_test.
Proof.
  intros []; try done. unfold attempt_test, get, validate_attempt. cbn [alter_key as_object mbind option_bind ok_or result_bind].
  unfold has_u64. untouched. rewrite has_alter by apply redact_threads_object. rewrite obj_get_alter_eq.
  destruct (obj_get (txt "symbolication") m); [|done]. cbn [fmap option_fmap option_map ok_or mbind result_bind].
  f_equal. destruct (expect _) as [[]|]; [|done]. cbn [mbind result_bind].
  destruct (ok_or _ _) as [version|]; [|done]. cbn [mbind result_bind].
  destruct (fail_if _ _) as [[]|]; [|done]. cbn [mbind result_bind].
  destruct (expect _) as [[]|]; [|done]. cbn [mbind result_bind]. apply keeps_symbolication.
Qed.

(** * The contract *)

(** An update of one of the redacted parts of a result that keeps what the contract asks of the part. *)
Lemma contract_context g guid cur :
  keeps g context_test -> keeps (alter_key g (txt "crash_context")) (fun v => validate_processing_contract v guid cur).
Proof.
  intros Hg []; try done. unfold validate_processing_contract, validate_optional.
  cbn [alter_key as_object ok_or mbind result_bind]. untouched. rewrite obj_get_alter_eq.
  destruct (obj_get (txt "crash_context") m) as [c|]; [|done].
  cbn [fmap option_fmap option_map mbind option_bind]. specialize (Hg c). unfold context_test in Hg.
  destruct (as_object (g c)) as [c'|], (as_object c) as [c0|]; try done. cbn [mbind option_bind] in Hg.
  injection Hg as H1 H2 H3. cbn [ok_or mbind result_bind]. by rewrite H1, H2, H3.
Qed.

Lemma contract_current g guid cur :
  keeps g attempt_test -> keeps (alter_key g (txt "current")) (fun v => validate_processing_contract v guid cur).
Proof.
  intros Hg []; try done. unfold validate_processing_contract, validate_optional.
  cbn [alter_key as_object ok_or mbind result_bind]. untouched. rewrite obj_get_alter_eq.
  destruct (obj_get (txt "current") m) as [c|]; [|done].
  cbn [fmap option_fmap option_map]. specialize (Hg c). unfold attempt_test in Hg.
  injection Hg as H1 H2 H3. cbn [ok_or mbind result_bind]. by rewrite H1, H2, H3.
Qed.

Lemma contract_log g guid cur :
  keeps g validate_log -> keeps (alter_key g (txt "log")) (fun v => validate_processing_contract v guid cur).
Proof.
  intros Hg []; try done. unfold validate_processing_contract, validate_optional.
  cbn [alter_key as_object ok_or mbind result_bind]. untouched. rewrite obj_get_alter_eq.
  destruct (obj_get (txt "log") m) as [c|]; [|done]. cbn [fmap option_fmap option_map]. by rewrite Hg.
Qed.

Lemma redact_contract v guid cur :
  validate_processing_contract (redact patterns v) guid cur = validate_processing_contract v guid cur.
Proof.
  unfold redact. case_decide; [done|]. unfold redact_symbolication, redact_log, redact_crash_context.
  cbn [alter_pointer].
  rewrite (contract_current _ guid cur keeps_attempt), (contract_log _ guid cur keeps_log_text),
    (contract_log _ guid cur keeps_log_name). apply (contract_context _ guid cur), keeps_context.
Qed.
End result.

(** * What is protected *)

(** The text of a field, and the elements of an array field. *)
Definition texts_at (v : json) (field : text) : list text :=
  match get v field ≫= as_str with Some t => [t] | None => [] end.
Definition elements_at (v : json) (field : text) : list json := default [] (get v field ≫= as_array).
Definition at_key (v : json) (field : text) (f : json -> list text) : list text :=
  match get v field with Some v => f v | None => [] end.
Definition element_texts (field : text) (fields : list text) (v : json) : list text :=
  concat (map (fun e => concat (map (texts_at e) fields)) (elements_at v field)).

(** All texts of a value, keys aside. *)
Fixpoint all_texts (v : json) : list text :=
  match v with
  | JString t => [t]
  | JArray l => concat (map all_texts l)
  | JObject m => concat (map (fun kv => all_texts kv.2) m)
  | _ => []
  end.

Definition context_texts (c : json) : list text :=
  concat (map (texts_at c) redacted_context_fields)
  ++ at_key c (txt "platform") (fun p => concat (map (texts_at p) [txt "original"; txt "normalized"]))
  ++ element_texts (txt "modules") [txt "original"] c
  ++ element_texts (txt "threads") [txt "call_stack"; txt "registers"; txt "thread_name"] c
  ++ element_texts (txt "system_metadata") [txt "value"] c
  ++ element_texts (txt "game_data") [txt "value"] c
  ++ at_key c (txt "unknown_fields") all_texts.
Definition log_texts (l : json) : list text :=
  texts_at l (txt "name") ++ at_key l (txt "tail") (fun tail => texts_at tail (txt "text")).
Definition frame_texts (f : json) : list text :=
  texts_at f (txt "source_file") ++ element_texts (txt "inlines") [txt "source_file"] f.
Definition thread_texts (t : json) : list text := concat (map frame_texts (elements_at t (txt "frames"))).
Definition attempt_texts (c : json) : list text :=
  at_key c (txt "symbolication") (fun s => concat (map thread_texts (elements_at s (txt "threads")))).

(** The texts that the project's patterns protect: what the crash said, the log, and the source paths of
    the current attempt. *)
Definition protected (v : json) : list text :=
  at_key v (txt "crash_context") context_texts ++ at_key v (txt "log") log_texts
  ++ at_key v (txt "current") attempt_texts.

Lemma get_alter_key g k j v : get (alter_key g k v) j = if decide (j = k) then g <$> get v j else get v j.
Proof.
  destruct v; cbn; try by case_decide. unfold get. cbn [as_object mbind option_bind]. apply obj_get_alter.
Qed.

Lemma get_alter_key_eq g k v : get (alter_key g k v) k = g <$> get v k.
Proof. by rewrite get_alter_key, decide_True. Qed.

Lemma get_alter_key_ne g k j v : j <> k -> get (alter_key g k v) j = get v j.
Proof. intros H. by rewrite get_alter_key, decide_False. Qed.

(** An extraction of texts commutes with an update that rewrites them by [h]. *)
Definition rewrites (h : text -> text) (g : json -> json) (texts : json -> list text) : Prop :=
  forall v, texts (g v) = map h (texts v).

Lemma at_key_ne g k j v f : j <> k -> at_key (alter_key g k v) j f = at_key v j f.
Proof. intros H. unfold at_key. by rewrite get_alter_key_ne. Qed.

Lemma at_key_eq h g k v f : rewrites h g f -> at_key (alter_key g k v) k f = map h (at_key v k f).
Proof. intros H. unfold at_key. rewrite get_alter_key_eq. destruct (get v k); [apply H|done]. Qed.

Lemma texts_at_ne g k j v : j <> k -> texts_at (alter_key g k v) j = texts_at v j.
Proof. intros H. unfold texts_at. by rewrite get_alter_key_ne. Qed.

Lemma element_texts_ne g k j fields v : j <> k -> element_texts j fields (alter_key g k v) = element_texts j fields v.
Proof. intros H. unfold element_texts, elements_at. by rewrite get_alter_key_ne. Qed.

Lemma elements_at_eq g k v : elements_at (alter_key (alter_array g) k v) k = map g (elements_at v k).
Proof. unfold elements_at. rewrite get_alter_key_eq. by destruct (get v k) as [[]|]. Qed.

Lemma concat_map_rewrites h g (texts : json -> list text) l :
  rewrites h g texts -> concat (map texts (map g l)) = map h (concat (map texts l)).
Proof. intros H. induction l as [|v l IH]; [done|]. cbn. by rewrite H, IH, map_app. Qed.

Section protected.
Context (patterns : list text).
Abbreviation h := (redact_text patterns).

Lemma texts_at_field j k v :
  texts_at (redact_field patterns v k) j = if decide (j = k) then map h (texts_at v j) else texts_at v j.
Proof.
  unfold redact_field. case_decide as E; [subst|by apply texts_at_ne].
  unfold texts_at. rewrite get_alter_key_eq. by destruct (get v k) as [[]|].
Qed.

(** Redacting distinct fields rewrites the texts of those fields. *)
Lemma fields_texts fields v :
  NoDup fields ->
  forall j, texts_at (foldl (redact_field patterns) v fields) j
    = if decide (j ∈ fields) then map h (texts_at v j) else texts_at v j.
Proof.
  intros Hd. revert v. induction Hd as [|k fields Hk Hd IH]; intros v j.
  - cbn. by rewrite decide_False by apply not_elem_of_nil.
  - cbn [foldl]. rewrite IH, texts_at_field. destruct (decide (j = k)) as [->|Hj].
    + rewrite decide_False by done. by rewrite decide_True by left.
    + destruct (decide (j ∈ fields)); [by rewrite decide_True by (by right)|].
      by rewrite decide_False by (rewrite not_elem_of_cons; done).
Qed.

Lemma fields_rewrites fields :
  NoDup fields ->
  rewrites h (fun v => foldl (redact_field patterns) v fields) (fun v => concat (map (texts_at v) fields)).
Proof.
  intros Hd v. assert (H : forall l, l ⊆ fields ->
    concat (map (texts_at (foldl (redact_field patterns) v fields)) l) = map h (concat (map (texts_at v) l))).
  { induction l as [|j l IH]; intros Hl; [done|]. cbn. rewrite map_app, fields_texts by done.
    rewrite decide_True by (apply Hl; left). f_equal. apply IH. intros i Hi. apply Hl. by right. }
  by apply H.
Qed.

Lemma element_rewrites k fields :
  NoDup fields -> rewrites h (alter_key (redact_array_fields fields patterns) k) (element_texts k fields).
Proof.
  intros Hd v. unfold element_texts, redact_array_fields. rewrite elements_at_eq.
  apply (concat_map_rewrites h _ (fun e => concat (map (texts_at e) fields))). by apply fields_rewrites.
Qed.

Lemma all_texts_rewrites : rewrites h (redact_recursive patterns) all_texts.
Proof.
  unfold rewrites. fix IH 1. intros [| | | |l|m]; [reflexivity..| |].
  - cbn. induction l as [|v l IHl]; [reflexivity|]. cbn. rewrite map_app, IH, IHl. reflexivity.
  - cbn. induction m as [|[k v] m IHm]; [reflexivity|]. cbn. rewrite map_app, IH, IHm. reflexivity.
Qed.

(** Skips the updates of other fields. *)
Ltac other_fields :=
  repeat match goal with
  | |- context [at_key (alter_key ?g ?k ?v) ?j ?f] => rewrite (at_key_ne g k j v f) by txt_ne
  | |- context [element_texts ?j ?l (alter_key ?g ?k ?v)] => rewrite (element_texts_ne g k j l v) by txt_ne
  end.
Ltac nodup := apply (bool_decide_unpack _); vm_compute; exact I.

Lemma context_fields_ne g k c :
  k ∉ redacted_context_fields ->
  concat (map (texts_at (alter_key g k c)) redacted_context_fields) = concat (map (texts_at c) redacted_context_fields).
Proof.
  induction redacted_context_fields as [|j l IH]; [done|]. intros [Hj Hl]%not_elem_of_cons. cbn.
  by rewrite texts_at_ne, IH.
Qed.

Lemma at_key_fields_ne k v fields f :
  k ∉ fields -> at_key (foldl (redact_field patterns) v fields) k f = at_key v k f.
Proof.
  intros H. unfold at_key. f_equal. revert v H. induction fields as [|j fields IH]; intros v H; [done|].
  apply not_elem_of_cons in H as [Hj Hf]. cbn [foldl]. rewrite IH by done. unfold redact_field. by rewrite get_alter_key_ne.
Qed.

Lemma element_fields_ne k v fields l :
  k ∉ fields -> element_texts k l (foldl (redact_field patterns) v fields) = element_texts k l v.
Proof.
  intros H. revert v H. induction fields as [|j fields IH]; intros v H; [done|].
  apply not_elem_of_cons in H as [Hj Hf]. cbn [foldl]. rewrite IH by done. by apply element_texts_ne.
Qed.

Lemma context_rewrites : rewrites h (redact_context_value patterns) context_texts.
Proof.
  intros c. destruct c as [| | | | |m]; try done. unfold redact_context_value. set (c := JObject m). cbv zeta.
  unfold context_texts. rewrite !map_app. repeat apply (f_equal2 app); other_fields.
  - rewrite !context_fields_ne by nodup. apply (fields_rewrites redacted_context_fields). nodup.
  - rewrite (at_key_eq h) by (apply (fields_rewrites [txt "original"; txt "normalized"]); nodup).
    f_equal. apply at_key_fields_ne. nodup.
  - rewrite element_rewrites by nodup. other_fields. f_equal. apply element_fields_ne. nodup.
  - rewrite element_rewrites by nodup. other_fields. f_equal. apply element_fields_ne. nodup.
  - rewrite element_rewrites by nodup. other_fields. f_equal. apply element_fields_ne. nodup.
  - rewrite element_rewrites by nodup. other_fields. f_equal. apply element_fields_ne. nodup.
  - rewrite (at_key_eq h) by apply all_texts_rewrites. other_fields. f_equal. apply at_key_fields_ne. nodup.
Qed.

Lemma texts_at_rewrites k : rewrites h (alter_key (redact_value patterns) k) (fun v => texts_at v k).
Proof. intros v. pose proof (texts_at_field k k v) as E. by rewrite decide_True in E. Qed.

Lemma log_name_rewrites l :
  log_texts (alter_key (redact_value patterns) (txt "name") l)
  = map h (texts_at l (txt "name")) ++ at_key l (txt "tail") (fun tail => texts_at tail (txt "text")).
Proof. unfold log_texts. rewrite texts_at_rewrites. by other_fields. Qed.

Lemma log_text_rewrites l :
  log_texts (alter_key (alter_key (redact_value patterns) (txt "text")) (txt "tail") l)
  = texts_at l (txt "name") ++ map h (at_key l (txt "tail") (fun tail => texts_at tail (txt "text"))).
Proof.
  unfold log_texts. rewrite texts_at_ne by txt_ne. f_equal. apply at_key_eq. apply texts_at_rewrites.
Qed.

Lemma log_rewrites :
  rewrites h (fun l => alter_key (alter_key (redact_value patterns) (txt "text")) (txt "tail")
                         (alter_key (redact_value patterns) (txt "name") l)) log_texts.
Proof.
  intros l. rewrite log_text_rewrites. other_fields. rewrite texts_at_rewrites. unfold log_texts. by rewrite map_app.
Qed.

Lemma frame_rewrites : rewrites h (redact_frame patterns) frame_texts.
Proof.
  intros f. unfold redact_frame, frame_texts, redact_field. rewrite map_app. f_equal.
  - rewrite texts_at_ne by txt_ne. apply texts_at_rewrites.
  - unfold element_texts. rewrite elements_at_eq.
    rewrite (concat_map_rewrites h (redact_inline patterns) (fun e => concat (map (texts_at e) [txt "source_file"]))).
    + f_equal. unfold elements_at. by rewrite get_alter_key_ne by txt_ne.
    + intros v. cbn. rewrite !app_nil_r. apply texts_at_rewrites.
Qed.

Lemma thread_rewrites : rewrites h (redact_thread patterns) thread_texts.
Proof.
  intros t. unfold redact_thread, thread_texts. rewrite elements_at_eq. apply concat_map_rewrites, frame_rewrites.
Qed.

Lemma attempt_rewrites : rewrites h (alter_key (redact_threads patterns) (txt "symbolication")) attempt_texts.
Proof.
  intros c. unfold attempt_texts. apply at_key_eq. intros s. unfold redact_threads. rewrite elements_at_eq.
  apply concat_map_rewrites, thread_rewrites.
Qed.

(** Redaction rewrites the protected texts one by one. *)
Lemma protected_rewrites v : protected (redact patterns v) = map h (protected v).
Proof.
  unfold redact. case_decide as E.
  { subst. unfold redact_text. cbn [foldl]. by rewrite map_id. }
  unfold protected, redact_symbolication, redact_log, redact_crash_context. cbn [alter_pointer].
  rewrite !map_app. repeat apply (f_equal2 app); other_fields.
  - apply at_key_eq, context_rewrites.
  - unfold at_key. rewrite !get_alter_key_eq. rewrite get_alter_key_ne by txt_ne.
    destruct (get v (txt "log")); [|done]. apply log_rewrites.
  - rewrite (at_key_eq h) by apply attempt_rewrites. by other_fields.
Qed.
End protected.

(** * Redaction leaves clean results alone *)

Lemma alter_key_id g k v : (forall w, get v k = Some w -> g w = w) -> alter_key g k v = v.
Proof.
  destruct v as [| | | | |m]; try done. unfold get. cbn [as_object mbind option_bind alter_key]. intros H. f_equal.
  induction m as [|[k' w] m IH]; [done|]. cbn [obj_get obj_alter] in *. destruct (decide (k = k')) as [->|Hk].
  - by rewrite (H w).
  - f_equal. by apply IH.
Qed.

Lemma alter_array_id g v : (forall w, w ∈ default [] (as_array v) -> g w = w) -> alter_array g v = v.
Proof.
  destruct v as [| | | |l|]; try done. cbn [as_array from_option id alter_array]. intros H. f_equal. induction l as [|w l IH]; [done|].
  cbn. f_equal; [apply H; left|]. apply IH. intros. apply H. by right.
Qed.

Lemma Forall_concat_map {A B} (P : B -> Prop) (f : A -> list B) l x :
  Forall P (concat (map f l)) -> x ∈ l -> Forall P (f x).
Proof.
  intros H Hx. apply Forall_forall. intros y Hy. rewrite Forall_forall in H. apply H.
  apply list_elem_of_In, in_concat. exists (f x). split; [|by apply list_elem_of_In].
  apply in_map_iff. exists x. split; [done|by apply list_elem_of_In].
Qed.

Section clean.
Context (patterns : list text).
Definition clean : text -> Prop := fun t => redact_text patterns t = t.

Lemma redact_field_id v k : Forall clean (texts_at v k) -> redact_field patterns v k = v.
Proof.
  intros H. apply alter_key_id. intros [| | |t| |] Hw; try done. unfold texts_at in H. rewrite Hw in H.
  cbn [mbind option_bind as_str] in H. rewrite Forall_singleton in H. cbn [redact_value]. f_equal. exact H.
Qed.

Lemma redact_fields_id fields v :
  Forall clean (concat (map (texts_at v) fields)) -> foldl (redact_field patterns) v fields = v.
Proof.
  induction fields as [|k fields IH]; [done|]. cbn. intros [H1 H2]%Forall_app. rewrite redact_field_id by done. by apply IH.
Qed.

Lemma alter_elements_id g k v (texts : json -> list text) :
  (forall e, Forall clean (texts e) -> g e = e) ->
  Forall clean (concat (map texts (elements_at v k))) -> alter_key (alter_array g) k v = v.
Proof.
  intros Hg H. apply alter_key_id. intros w Hw. apply alter_array_id. intros e He. apply Hg.
  eapply (Forall_concat_map _ texts); [exact H|]. unfold elements_at. by rewrite Hw.
Qed.

Lemma redact_elements_id k fields v :
  Forall clean (element_texts k fields v) -> alter_key (redact_array_fields fields patterns) k v = v.
Proof.
  unfold redact_array_fields, element_texts. apply alter_elements_id. intros e. apply redact_fields_id.
Qed.

Lemma redact_recursive_id v : Forall clean (all_texts v) -> redact_recursive patterns v = v.
Proof.
  revert v. fix IH 1. intros [| | |t|l|m]; [reflexivity..| | |]; cbn; intros H.
  - rewrite Forall_singleton in H. f_equal. exact H.
  - f_equal. induction l as [|v l IHl]; [reflexivity|]. cbn in *. apply Forall_app in H as [H1 H2].
    rewrite (IH v H1), (IHl H2). reflexivity.
  - f_equal. induction m as [|[k v] m IHm]; [reflexivity|]. cbn in *. apply Forall_app in H as [H1 H2].
    rewrite (IH v H1), (IHm H2). reflexivity.
Qed.

Lemma at_key_clean k v f : Forall clean (at_key v k f) -> forall w, get v k = Some w -> Forall clean (f w).
Proof. unfold at_key. intros H w Hw. by rewrite Hw in H. Qed.

Lemma redact_context_id c : Forall clean (context_texts c) -> redact_context_value patterns c = c.
Proof.
  intros H. unfold redact_context_value. destruct c as [| | | | |m]; try done. set (c := JObject m) in *.
  unfold context_texts in H. rewrite !Forall_app in H. destruct H as (Hf & Hp & Hm & Ht & Hs & Hg & Hu). cbv zeta.
  rewrite redact_fields_id by done.
  rewrite (alter_key_id (redact_platform patterns))
    by (intros w Hw; apply redact_fields_id; exact (at_key_clean _ _ _ Hp w Hw)).
  rewrite (redact_elements_id (txt "modules")), (redact_elements_id (txt "threads")),
    (redact_elements_id (txt "system_metadata")), (redact_elements_id (txt "game_data")) by done.
  apply alter_key_id. intros w Hw. apply redact_recursive_id. exact (at_key_clean _ _ _ Hu w Hw).
Qed.

Lemma redact_frame_id f : Forall clean (frame_texts f) -> redact_frame patterns f = f.
Proof.
  intros [H1 H2]%Forall_app. unfold redact_frame. rewrite redact_field_id by done.
  apply (alter_elements_id _ _ _ (fun e => concat (map (texts_at e) [txt "source_file"]))); [|exact H2].
  intros e. cbn. rewrite app_nil_r. apply redact_field_id.
Qed.

Lemma redact_clean v : Forall clean (protected v) -> redact patterns v = v.
Proof.
  intros H. unfold redact. case_decide; [done|]. unfold protected in H. apply Forall_app in H as [H1 H].
  apply Forall_app in H as [H2 H3]. unfold redact_symbolication, redact_log, redact_crash_context. cbn [alter_pointer].
  rewrite (alter_key_id (redact_context_value patterns)) by (intros w Hw; apply redact_context_id; exact (at_key_clean _ _ _ H1 w Hw)).
  assert (Hl : forall w, get v (txt "log") = Some w ->
    alter_key (redact_value patterns) (txt "name") w = w /\ alter_key (alter_key (redact_value patterns) (txt "text")) (txt "tail") w = w).
  { intros w Hw. apply (at_key_clean _ _ _ H2) in Hw. apply Forall_app in Hw as [Hn Ht]. split; [by apply redact_field_id|].
    apply alter_key_id. intros t Hw. apply redact_field_id. exact (at_key_clean _ _ _ Ht t Hw). }
  rewrite (alter_key_id _ (txt "log") v) by (intros w Hw; by apply Hl).
  rewrite (alter_key_id _ (txt "log") v) by (intros w Hw; by apply Hl).
  apply alter_key_id. intros w Hw. apply alter_key_id. intros s Hs.
  apply (at_key_clean _ _ _ H3) in Hw. apply (alter_elements_id _ _ _ thread_texts).
  - intros t. unfold redact_thread, thread_texts. apply alter_elements_id. apply redact_frame_id.
  - exact (at_key_clean _ _ _ Hw s Hs).
Qed.
End clean.

(** * Facets *)

Lemma contains_take n t p : contains t p = false -> contains (take n t) p = false.
Proof.
  intros H. apply not_true_iff_false. intros (a & b & E)%contains_spec. apply not_true_iff_false in H. destruct H.
  apply contains_spec. exists a, (b ++ drop n t). rewrite <-(take_drop n t) at 1. by rewrite E, <-!(assoc_L (++)).
Qed.

Lemma facet_of_Some keys v f :
  facet_of keys v = Some f ->
  exists raw, get v (txt "name") ≫= as_str = Some (ContextFacet.key f) /\ get v (txt "value") ≫= as_str = Some raw
  /\ ContextFacet.key f ∈ keys /\ raw <> [] /\ ContextFacet.value f = take MAX_FACET_VALUE_CHARS raw
  /\ (ContextFacet.value_truncated f = true <-> (MAX_FACET_VALUE_CHARS < length raw)%nat).
Proof.
  unfold facet_of. intros (key & Hk & H)%bind_Some. apply bind_Some in H as (raw & Hr & H).
  destruct (_ || _) eqn:E; [done|]. injection H as <-. apply orb_false_iff in E as [E1 E2].
  apply negb_false_iff, bool_decide_eq_true in E1. apply bool_decide_eq_false in E2.
  exists raw. cbn [ContextFacet.key ContextFacet.value ContextFacet.value_truncated]. split_and!; try done.
  rewrite Nat.ltb_lt, length_take. lia.
Qed.

Lemma context_facets_elem v keys f :
  f ∈ context_facets v keys ->
  exists l e, pointer v [txt "crash_context"; txt "game_data"] = Some (JArray l) /\ e ∈ l /\ facet_of keys e = Some f.
Proof.
  unfold context_facets. case_decide; [by intros ?%not_elem_of_nil|].
  destruct (pointer _ _) as [[| | | |l|]|]; try (by intros ?%not_elem_of_nil). cbn [mbind option_bind as_array].
  rewrite (elem_of_dedup_sort ContextFacet.leb), list_elem_of_omap. intros (e & He & Hf). by exists l, e.
Qed.

Lemma game_data_protected v l e raw :
  pointer v [txt "crash_context"; txt "game_data"] = Some (JArray l) -> e ∈ l ->
  get e (txt "value") ≫= as_str = Some raw -> raw ∈ protected v.
Proof.
  unfold pointer. cbn [foldl mbind option_bind]. intros Hp He Hr. unfold protected, at_key.
  destruct (get v (txt "crash_context")) as [c|]; [|done]. cbn [mbind option_bind] in Hp.
  unfold context_texts. rewrite !elem_of_app. left. do 5 right. left. unfold element_texts, elements_at. rewrite Hp.
  cbn [mbind option_bind as_array from_option id]. apply list_elem_of_In, in_concat. exists [raw]. split; [|by left].
  apply in_map_iff. exists e. split; [|by apply list_elem_of_In]. cbn [map concat]. unfold texts_at. by rewrite Hr.
Qed.

(** * Properties *)

(** C23: redaction leaves no pattern behind.  Under validated rules no protected text of a redacted result
    contains a pattern, and no facet taken from it does, for every pattern without brackets (one with a
    bracket can be formed by the end of a replacement and the text after it). *)
Theorem redaction_leaves_no_pattern patterns keys rules v p :
  validate_rules patterns keys = Ok rules -> p ∈ patterns -> bracket_free p ->
  Forall (fun t => contains t p = false) (protected (redact_and_index v rules).1)
  /\ Forall (fun f => contains (ContextFacet.value f) p = false) (redact_and_index v rules).2.
Proof.
  intros Hr Hp Hb. pose proof (validated_patterns_good _ _ _ Hr) as Hg. apply validate_rules_Ok in Hr as [Er _].
  assert (Hin : p ∈ DataRules.patterns rules) by (rewrite Er; by apply (elem_of_dedup_sort pattern_leb)).
  assert (Hc : Forall (fun t => contains t p = false) (protected (redact_and_index v rules).1)).
  { unfold redact_and_index. cbn [fst]. rewrite protected_rewrites. apply Forall_fmap, Forall_forall. intros t _.
    cbn. by apply redact_text_clean. }
  split; [exact Hc|]. apply Forall_forall. intros f Hf. unfold redact_and_index in Hf. cbn [snd] in Hf.
  apply context_facets_elem in Hf as (l & e & Hl & He & (raw & _ & Hraw & _ & _ & -> & _)%facet_of_Some).
  apply contains_take. rewrite Forall_forall in Hc. apply Hc. by eapply game_data_protected.
Qed.

(** C30: redaction keeps the contract.  The validator, with any expected identity and in both its modes,
    says of a redacted result what it says of the result itself, and redaction rewrites the protected
    texts one by one. *)
Theorem redaction_keeps_the_contract v rules guid require_current :
  validate_processing_contract (redact_and_index v rules).1 guid require_current
  = validate_processing_contract v guid require_current
  /\ protected (redact_and_index v rules).1 = map (redact_text (DataRules.patterns rules)) (protected v).
Proof. split; [apply redact_contract|apply protected_rewrites]. Qed.

(** Redaction is idempotent.  When no pattern has a bracket, redacting and indexing a redacted result
    again changes nothing: the same result and the same facets. *)
Theorem redaction_is_idempotent patterns keys rules v :
  validate_rules patterns keys = Ok rules -> Forall bracket_free patterns ->
  redact_and_index (redact_and_index v rules).1 rules = redact_and_index v rules.
Proof.
  intros Hr Hb. pose proof (validated_patterns_good _ _ _ Hr) as Hg. apply validate_rules_Ok in Hr as [Er _].
  assert (Hb' : Forall bracket_free (DataRules.patterns rules)).
  { rewrite Forall_forall in *. intros p Hp. apply Hb. rewrite Er in Hp. cbn in Hp.
    by rewrite (elem_of_dedup_sort pattern_leb) in Hp. }
  unfold redact_and_index. cbn [fst]. rewrite redact_clean; [done|]. rewrite protected_rewrites.
  apply Forall_fmap, Forall_forall. intros t _. cbn. unfold clean. by apply redact_text_idemp.
Qed.

(** Without that condition it is not: a valid pattern can survive, and a second pass change the text. *)
Lemma bracketed_pattern_survives :
  validate_rules [txt "D]x"] [] = Ok {| DataRules.version := 0; DataRules.patterns := [txt "D]x"]; DataRules.indexed_game_data_keys := [] |}
  /\ redact_text [txt "D]x"] (txt "D]D]xx") = txt "D][REDACTED]x"
  /\ redact_text [txt "D]x"] (txt "D][REDACTED]x") = txt "D][REDACTE[REDACTED]".
Proof. split_and!; vm_compute; reflexivity. Qed.

(** * Canonical rules *)

Lemma sorted_fixed {A} `{EqDecision A} (leb : A -> A -> bool) `{!TotalOrder leb} (l : list A) :
  dedup (sort leb (dedup (sort leb l))) = dedup (sort leb l).
Proof. apply (dedup_sort_ext leb). intros x. apply (elem_of_dedup_sort leb). Qed.

Lemma dedup_sublist {A} `{EqDecision A} (l : list A) : sublist (dedup l) l.
Proof.
  induction l as [|x l IH]; [constructor|]. cbn. destruct (dedup l) as [|y k]; [by repeat constructor; apply sublist_nil_l|].
  case_decide; by constructor.
Qed.

Lemma sum_sublist (l k : list N) : sublist l k -> (foldr N.add 0 l <= foldr N.add 0 k)%N.
Proof. induction 1; cbn; lia. Qed.

Lemma sum_perm (l k : list N) : l ≡ₚ k -> foldr N.add 0%N l = foldr N.add 0%N k.
Proof. induction 1; cbn; lia. Qed.

Lemma validate_rules_accepts patterns keys :
  (length patterns <= MAX_PATTERNS)%nat -> (length keys <= MAX_INDEXED_KEYS)%nat ->
  Forall (fun p => bad_pattern p = false) patterns -> Forall (fun k => bad_key k = false) keys ->
  (foldr N.add 0%N (map str_len patterns) <= MAX_PATTERN_BYTES_TOTAL)%N ->
  validate_rules patterns keys
  = Ok {| DataRules.version := 0; DataRules.patterns := dedup (sort pattern_leb patterns);
          DataRules.indexed_game_data_keys := dedup (sort text_leb keys) |}.
Proof.
  intros H1 H2 H3%existsb_false_Forall H4%existsb_false_Forall H5. unfold validate_rules. rewrite H3, H4.
  replace (MAX_PATTERNS <? length patterns)%nat with false by (symmetry; by apply Nat.ltb_ge).
  replace (MAX_INDEXED_KEYS <? length keys)%nat with false by (symmetry; by apply Nat.ltb_ge).
  replace (MAX_PATTERN_BYTES_TOTAL <? _)%N with false by (symmetry; by apply N.ltb_ge). done.
Qed.

(** What is stored is at most what was validated. *)
Lemma dedup_sort_le {A} `{EqDecision A} (leb : A -> A -> bool) (l : list A) :
  (length (dedup (sort leb l)) <= length l)%nat.
Proof. pose proof (dedup_length (sort leb l)) as Hl. by rewrite (Permutation_length (sort_perm leb l)) in Hl. Qed.

Lemma dedup_sort_sum (leb : text -> text -> bool) (l : list text) :
  (foldr N.add 0%N (map str_len (dedup (sort leb l))) <= foldr N.add 0%N (map str_len l))%N.
Proof.
  rewrite <-(sum_perm (map str_len (sort leb l)) (map str_len l)) by (apply Permutation_map, sort_perm).
  apply sum_sublist. assert (Hm : forall (l k : list text), sublist l k -> sublist (map str_len l) (map str_len k)).
  { induction 1; cbn; by constructor. } apply Hm, dedup_sublist.
Qed.

Lemma Forall_dedup_sort {A} `{EqDecision A} (leb : A -> A -> bool) `{!TotalOrder leb} (P : A -> Prop) l :
  Forall P l -> Forall P (dedup (sort leb l)).
Proof.
  rewrite !Forall_forall. intros H x Hx. rewrite (elem_of_dedup_sort leb) in Hx. by apply H.
Qed.

(** Validated rules are canonical.  They do not depend on the order or the repetition of what was
    given, have no repetition, and are accepted unchanged when they are read back from the row they are
    stored in, which keeps its version. *)
Theorem validated_rules_are_canonical patterns keys rules version :
  validate_rules patterns keys = Ok rules ->
  NoDup (DataRules.patterns rules) /\ NoDup (DataRules.indexed_game_data_keys rules)
  /\ (forall patterns' keys' rules', (forall p, p ∈ patterns' <-> p ∈ patterns) -> (forall k, k ∈ keys' <-> k ∈ keys) ->
       validate_rules patterns' keys' = Ok rules' -> rules' = rules)
  /\ rules_from_row (Some version) (Some (DataRules.patterns rules)) (Some (DataRules.indexed_game_data_keys rules))
     = Ok {| DataRules.version := version; DataRules.patterns := DataRules.patterns rules;
             DataRules.indexed_game_data_keys := DataRules.indexed_game_data_keys rules |}.
Proof.
  intros (-> & H1 & H2 & H3 & H4 & H5)%validate_rules_Ok. cbn [DataRules.patterns DataRules.indexed_game_data_keys].
  split_and!.
  - apply (dedup_sort_nodup pattern_leb).
  - apply (dedup_sort_nodup text_leb).
  - intros patterns' keys' rules' Hp Hk (-> & _)%validate_rules_Ok.
    by rewrite (dedup_sort_ext pattern_leb patterns' patterns), (dedup_sort_ext text_leb keys' keys).
  - unfold rules_from_row. cbn [from_option id].
    pose proof (dedup_sort_le pattern_leb patterns). pose proof (dedup_sort_le text_leb keys).
    pose proof (dedup_sort_sum pattern_leb patterns).
    rewrite validate_rules_accepts; [|lia|lia|by apply (Forall_dedup_sort pattern_leb)|by apply (Forall_dedup_sort text_leb)|lia].
    cbn [map_err mbind result_bind DataRules.patterns DataRules.indexed_game_data_keys].
    by rewrite (sorted_fixed pattern_leb), (sorted_fixed text_leb).
Qed.

(** * Samples *)

Definition sample_rules : DataRules.t :=
  match validate_rules [txt "secret"; txt "secret-token"; txt "secret"] [txt "MapName"] with Ok r => r | Err _ => DataRules.empty end.

Definition secret_context : json :=
  jobj [("crash_guid", jstr "UECC-secret"); ("error_message", jstr "secret-token and secret");
        ("command_line", jstr "-token=secret");
        ("platform", jobj [("original", jstr "Win64-secret"); ("normalized", jstr "windows-secret")]);
        ("modules", JArray [jobj [("original", jstr "C:/secret/Game.exe"); ("normalized", jstr "game")]]);
        ("game_data", JArray [jobj [("name", jstr "MapName"); ("value", jstr "Arena-secret")];
                              jobj [("name", jstr "Private"); ("value", jstr "secret-token")]]);
        ("unknown_fields", jobj [("Private", jstr "secret")])].
Definition secret_result : json :=
  jobj [("crash_context", secret_context);
        ("log", jobj [("name", jstr "secret.log"); ("tail", jobj [("text", jstr "secret-token")])])].

Example sample_redaction :
  DataRules.patterns sample_rules = [txt "secret-token"; txt "secret"]
  /\ pointer (redact_and_index secret_result sample_rules).1 [txt "crash_context"; txt "error_message"]
     = Some (jstr "[REDACTED] and [REDACTED]")
  /\ pointer (redact_and_index secret_result sample_rules).1 [txt "crash_context"; txt "crash_guid"]
     = Some (jstr "UECC-secret")
  /\ pointer (redact_and_index secret_result sample_rules).1 [txt "log"; txt "name"] = Some (jstr "[REDACTED].log")
  /\ (redact_and_index secret_result sample_rules).2
     = [{| ContextFacet.key := txt "MapName"; ContextFacet.value := txt "Arena-[REDACTED]"; ContextFacet.value_truncated := false |}]
  /\ validate_rules [txt "REDACTED"] [] = Err InvalidRequest /\ validate_rules [] [txt "bad key"] = Err InvalidRequest.
Proof. split_and!; vm_compute; reflexivity. Qed.

Lemma redaction_leaves_no_pattern_witness :
  Forall (fun t => contains t (txt "secret") = false) (protected (redact_and_index secret_result sample_rules).1)
  /\ protected secret_result <> [].
Proof.
  split; [|vm_compute; discriminate].
  refine (proj1 (redaction_leaves_no_pattern [txt "secret"; txt "secret-token"; txt "secret"] [txt "MapName"] sample_rules
    secret_result (txt "secret") _ _ _)); [vm_compute; reflexivity|apply list_elem_of_here|].
  apply (bool_decide_unpack _). vm_compute. exact I.
Defined.

Lemma redaction_is_idempotent_witness :
  redact_and_index (redact_and_index secret_result sample_rules).1 sample_rules = redact_and_index secret_result sample_rules
  /\ redact_and_index secret_result sample_rules <> (secret_result, []).
Proof.
  split; [|vm_compute; discriminate].
  apply (redaction_is_idempotent [txt "secret"; txt "secret-token"; txt "secret"] [txt "MapName"]); [vm_compute; reflexivity|].
  apply (bool_decide_unpack _). vm_compute. exact I.
Defined.

Lemma validated_rules_are_canonical_witness :
  rules_from_row (Some 3%Z) (Some (DataRules.patterns sample_rules)) (Some (DataRules.indexed_game_data_keys sample_rules))
  = Ok {| DataRules.version := 3; DataRules.patterns := [txt "secret-token"; txt "secret"];
          DataRules.indexed_game_data_keys := [txt "MapName"] |}.
Proof.
  apply (validated_rules_are_canonical [txt "secret"; txt "secret-token"; txt "secret"] [txt "MapName"] sample_rules 3).
  vm_compute. reflexivity.
Defined.
