(* ===== verification/Identifiers.v ===== *)
(** What the handlers of the server share: identifiers, secrets and their digests, time and the text
    functions of the database ([apps/server/src/identifiers.rs] and the token functions of
    [apps/server/src/auth.rs]). *)

From S2P Require Import Prelude Text.

(** [valid_uuid]: the shape of a textual UUID, on its bytes. *)
Definition uuid_byte (index : nat) (b : Byte.byte) : bool :=
  if bool_decide (index ∈ [8; 13; 18; 23]%nat) then (Byte.to_N b =? 45)%N else is_ascii_hexdigit (Byte.to_N b).
Fixpoint all_indexed (p : nat -> Byte.byte -> bool) (index : nat) (bs : bytes) : bool :=
  match bs with [] => true | b :: bs => p index b && all_indexed p (S index) bs end.
Definition valid_uuid (value : text) : bool :=
  (str_len value =? 36)%N && all_indexed uuid_byte 0 (as_bytes value).

(** The cast [$1::uuid] of a valid text: the database's own spelling is in lower case. *)
Definition uuid (value : text) : text := to_ascii_lowercase value.

(** [lower(...)] of the database, whose collation decides what it does beyond ASCII. *)
Class SqlLower : Type := { sql_lower : text -> text }.

(** Times are microseconds; [now] is fixed for a request. *)
Definition seconds (n : Z) : Z := (n * 1000000)%Z.
Definition minutes (n : Z) : Z := seconds (n * 60).
Definition days (n : Z) : Z := minutes (n * 1440).

(** [generated_secret]: a prefix and 64 hexadecimal digits of 32 random bytes. *)
Definition LOGIN_TOKEN_BYTES : nat := 32.
Definition generated_secret (prefix : text) (random : bytes) : text := prefix ++ hex2s false random.

(** [valid_secret]. *)
Definition valid_secret (value prefix : text) : bool :=
  (str_len value =? str_len prefix + N.of_nat (LOGIN_TOKEN_BYTES * 2))%N && starts_with value prefix
  && forallb (fun b => is_ascii_hexdigit (Byte.to_N b)) (drop (N.to_nat (str_len prefix)) (as_bytes value)).

(** [hash]. *)
Definition hash {H : Sha256} (value : text) : bytes := sha256 (as_bytes value).

(** * Lemmas *)

Example uuid_shapes :
  valid_uuid (txt "aaaaaaaa-aaaa-4aaa-8aaa-aaaaaaaaaaaa") = true
  /\ valid_uuid (txt "AAAAAAAA-AAAA-4AAA-8AAA-AAAAAAAAAAAA") = true
  /\ valid_uuid (txt "../../outside") = false /\ valid_uuid (txt "aaaaaaaaaaaaaaaaaaaaaaaaaaaaaaaa") = false.
Proof. vm_compute. auto. Qed.

Lemma as_bytes_ascii s : Forall (fun c => (c < 128)%N) s -> as_bytes s = map byte_of s.
Proof.
  induction 1 as [|c s Hc _ IH]; [done|]. rewrite as_bytes_cons, IH. cbn [map]. unfold utf8_char.
  replace (c <? 128)%N with true by (symmetry; by apply N.ltb_lt). done.
Qed.

Lemma hex_digit_ascii up d : (d < 16)%N -> (hex_digit up d < 128)%N /\ is_ascii_hexdigit (hex_digit up d) = true.
Proof.
  intros Hd. assert (d ∈ map N.of_nat (seq 0 16)) as H.
  { apply list_elem_of_fmap. exists (N.to_nat d). split; [lia|]. apply elem_of_seq. lia. }
  revert H. generalize d. destruct up; apply Forall_forall; vm_compute; repeat constructor; done.
Qed.
