(* ===== verification/Store.v ===== *)
(** Database programs: the state-and-error monad in which the handlers of the server are written.  The
    state is a record of tables.  Every statement, and every call to another service, may fail: a
    program takes the list of the outcomes it will meet, so that a theorem about all lists is a theorem
    about every failure at every point.  A transaction that does not reach its commit leaves the
    tables as they were. *)

From S2P Require Import Prelude Text.

Section store.
Context {S E : Type}.

(** [true] in the list is a failure; past its end everything succeeds. *)
Definition outcomes : Type := list bool.
Definition next_outcome (o : outcomes) : bool * outcomes :=
  match o with [] => (false, []) | b :: o => (b, o) end.

Definition tx (A : Type) : Type := outcomes -> S -> result E A * S * outcomes.

#[export] Instance tx_ret : MRet tx := fun A a o s => (Ok a, s, o).
#[export] Instance tx_bind : MBind tx := fun A B f m o s =>
  match m o s with
  | (Ok a, s, o) => f a o s
  | (Err e, s, o) => (Err e, s, o)
  end.

(** A pure step. *)
Definition lift {A} (r : result E A) : tx A := fun o s => (r, s, o).
Definition raise {A} (e : E) : tx A := lift (Err e).

(** A statement: [e] when the database fails, and what the tables say otherwise. *)
Definition statement {A} (e : E) (f : S -> result E (A * S)) : tx A := fun o s =>
  let '(failed, o) := next_outcome o in
  if failed then (Err e, s, o)
  else match f s with Ok (a, s) => (Ok a, s, o) | Err e => (Err e, s, o) end.
Definition select {A} (e : E) (f : S -> A) : tx A := statement e (fun s => Ok (f s, s)).
Definition execute (e : E) (f : S -> S) : tx () := statement e (fun s => Ok (tt, f s)).

(** [let _ = ...]: the outcome is dropped, what was done stays. *)
Definition ignoring {A} (m : tx A) : tx () := fun o s => let '(_, s, o) := m o s in (Ok tt, s, o).

(** A call to another service, which answers whether it succeeded. *)
Definition remote : tx bool := fun o s => let '(failed, o) := next_outcome o in (Ok (negb failed), s, o).

(** [begin], a body and [commit]: without the commit the tables are as before.  A body that returns early
    without error leaves [commit] out for some of its answers. *)
Definition transaction_if {A} (commits : A -> bool) (e : E) (body : tx A) : tx A := fun o s =>
  let '(failed, o) := next_outcome o in
  if failed then (Err e, s, o)
  else match body o s with
       | (Ok a, s', o) =>
           if commits a then
             let '(failed, o) := next_outcome o in if failed then (Err e, s, o) else (Ok a, s', o)
           else (Ok a, s, o)
       | (Err x, _, o) => (Err x, s, o)
       end.
Definition transaction {A} (e : E) (body : tx A) : tx A := transaction_if (fun _ => true) e body.

(** A transaction whose commit may fail after it took effect. *)
Definition transaction_uncertain {A} (commits : A -> bool) (e uncertain : E) (body : tx A) : tx A := fun o s =>
  let '(failed, o) := next_outcome o in
  if failed then (Err e, s, o)
  else match body o s with
       | (Ok a, s', o) =>
           if commits a then
             let '(failed, o) := next_outcome o in
             if failed then let '(applied, o) := next_outcome o in (Err uncertain, (if applied : bool then s' else s), o)
             else (Ok a, s', o)
           else (Ok a, s, o)
       | (Err x, _, o) => (Err x, s, o)
       end.

(** * Reasoning *)

(** From a state in [P] the program ends in [Q] when it succeeds and in [R] when it fails. *)
Definition triple {A} (P : S -> Prop) (m : tx A) (Q : A -> S -> Prop) (R : E -> S -> Prop) : Prop :=
  forall o s, P s -> match m o s with (Ok a, s', _) => Q a s' | (Err e, s', _) => R e s' end.

Lemma triple_conseq {A} (P P' : S -> Prop) (m : tx A) Q Q' R R' :
  triple P' m Q' R' -> (forall s, P s -> P' s) -> (forall a s, Q' a s -> Q a s) -> (forall e s, R' e s -> R e s) ->
  triple P m Q R.
Proof.
  intros H Hp Hq Hr o s Hs. specialize (H o s (Hp s Hs)). destruct (m o s) as [[[a|e] s'] o']; auto.
Qed.

Lemma triple_bind {A B} (P : S -> Prop) (m : tx A) (f : A -> tx B) Q R I :
  triple P m I R -> (forall a, triple (I a) (f a) Q R) -> triple P (m ≫= f) Q R.
Proof.
  intros Hm Hf o s Hs. specialize (Hm o s Hs). unfold mbind, tx_bind. destruct (m o s) as [[[a|e] s'] o']; [|done].
  by apply Hf.
Qed.

Lemma triple_ret {A} (P : S -> Prop) (a : A) Q R : (forall s, P s -> Q a s) -> triple P (mret a) Q R.
Proof. intros H o s Hs. by apply H. Qed.

Lemma triple_lift {A} (P : S -> Prop) (r : result E A) Q R :
  (forall s a, P s -> r = Ok a -> Q a s) -> (forall s e, P s -> r = Err e -> R e s) -> triple P (lift r) Q R.
Proof. intros H1 H2 o s Hs. unfold lift. destruct r; auto. Qed.

Lemma triple_statement {A} (P : S -> Prop) e (f : S -> result E (A * S)) Q R :
  (forall s, P s -> R e s) -> (forall s a s', P s -> f s = Ok (a, s') -> Q a s') ->
  (forall s x, P s -> f s = Err x -> R x s) -> triple P (statement e f) Q R.
Proof.
  intros He Hok Herr o s Hs. unfold statement. destruct (next_outcome o) as [[] o']; [auto|].
  destruct (f s) as [[a s']|x] eqn:Ef; eauto.
Qed.

Lemma triple_select {A} (P : S -> Prop) e (f : S -> A) Q R :
  (forall s, P s -> R e s) -> (forall s, P s -> Q (f s) s) -> triple P (select e f) Q R.
Proof. intros He Hq. apply triple_statement; [done|by intros s a s' Hs [= <- <-]; auto|done]. Qed.

Lemma triple_execute (P : S -> Prop) e (f : S -> S) Q R :
  (forall s, P s -> R e s) -> (forall s, P s -> Q tt (f s)) -> triple P (execute e f) Q R.
Proof. intros He Hq. apply triple_statement; [done|by intros s a s' Hs [= <- <-]; auto|done]. Qed.

Lemma triple_ignoring {A} (P : S -> Prop) (m : tx A) Q R :
  triple P m (fun _ s => Q tt s) (fun _ s => Q tt s) -> triple P (ignoring m) Q R.
Proof. intros H o s Hs. specialize (H o s Hs). unfold ignoring. by destruct (m o s) as [[[a|e] s'] o']. Qed.

Lemma triple_remote (P : S -> Prop) Q R : (forall b s, P s -> Q b s) -> triple P remote Q R.
Proof. intros H o s Hs. unfold remote. destruct (next_outcome o). by apply H. Qed.

Lemma triple_if {A} (P : S -> Prop) (c : bool) (m n : tx A) Q R :
  (c = true -> triple P m Q R) -> (c = false -> triple P n Q R) -> triple P (if c then m else n) Q R.
Proof. destruct c; auto. Qed.

(** A fact that does not depend on the tables. *)
Lemma triple_pure {A} (P : S -> Prop) (phi : Prop) (m : tx A) Q R : (phi -> triple P m Q R) -> triple (fun s => P s /\ phi) m Q R.
Proof. intros Hm o s [Hs Hphi]. by apply Hm. Qed.

(** A transaction that fails or does not commit restores the tables, wherever it failed. *)
Lemma transaction_if_Err {A} c e (body : tx A) o s x s' o' : transaction_if c e body o s = (Err x, s', o') -> s' = s.
Proof.
  unfold transaction_if. destruct (next_outcome o) as [[] o1]; [by intros [= _ <- _]|].
  destruct (body o1 s) as [[[a|y] s1] o2]; [|by intros [= _ <- _]]. destruct (c a); [|done].
  destruct (next_outcome o2) as [[] o3]; [by intros [= _ <- _]|done].
Qed.

Lemma transaction_if_Ok {A} c e (body : tx A) o s a s' o' :
  transaction_if c e body o s = (Ok a, s', o') ->
  exists o1 s1 o2, body o1 s = (Ok a, s1, o2) /\ s' = if c a then s1 else s.
Proof.
  unfold transaction_if. destruct (next_outcome o) as [[] o1]; [done|].
  destruct (body o1 s) as [[[b|y] s1] o2] eqn:Eb; [|done]. destruct (c b) eqn:Ec.
  - destruct (next_outcome o2) as [[] o3]; [done|]. intros [= <- <- _]. exists o1, s1, o2. by rewrite Ec.
  - intros [= <- <- _]. exists o1, s1, o2. by rewrite Ec.
Qed.

Lemma triple_transaction_if {A} (P : S -> Prop) c e (body : tx A) (Q : A -> S -> Prop) (R : E -> S -> Prop) :
  (forall x s, P s -> R x s) -> (forall a s, P s -> c a = false -> Q a s) ->
  triple P body (fun a s => c a = true -> Q a s) (fun _ _ => True) -> triple P (transaction_if c e body) Q R.
Proof.
  intros Hr Hq Hb o s Hs. destruct (transaction_if c e body o s) as [[[a|x] s'] o'] eqn:Et.
  - apply transaction_if_Ok in Et as (o1 & s1 & o2 & Eb & ->). specialize (Hb o1 s Hs). rewrite Eb in Hb.
    destruct (c a) eqn:Ec; auto.
  - apply transaction_if_Err in Et as ->. auto.
Qed.

Lemma triple_transaction {A} (P : S -> Prop) e (body : tx A) Q (R : E -> S -> Prop) :
  (forall x s, P s -> R x s) -> triple P body Q (fun _ _ => True) -> triple P (transaction e body) Q R.
Proof.
  intros Hr Hb. apply triple_transaction_if; [done|done|]. eapply triple_conseq; [exact Hb|done|by intros|done].
Qed.

Lemma triple_transaction_uncertain {A} (P : S -> Prop) c e u (body : tx A) (Q : A -> S -> Prop) (R : E -> S -> Prop) :
  (forall x s, P s -> R x s) ->
  triple P body (fun a s => if c a : bool then Q a s /\ R u s else forall s0, P s0 -> Q a s0) (fun _ _ => True) ->
  triple P (transaction_uncertain c e u body) Q R.
Proof.
  intros Hr Hb o s Hs. unfold transaction_uncertain. destruct (next_outcome o) as [[] o1]; [auto|].
  specialize (Hb o1 s Hs). destruct (body o1 s) as [[[a|x] s'] o2]; [|auto].
  destruct (c a) eqn:Ec; [|auto]. destruct Hb as [HQ HR].
  destruct (next_outcome o2) as [[] o3]; [|done]. destruct (next_outcome o3) as [[] o4]; auto.
Qed.

(** A program that preserves [P] whatever happens; inside of a transaction the failures do not matter. *)
Definition preserves {A} (P : S -> Prop) (m : tx A) : Prop := triple P m (fun _ => P) (fun _ => P).

Lemma preserves_triple {A} (P : S -> Prop) (m : tx A) : preserves P m -> triple P m (fun _ => P) (fun _ _ => True).
Proof. intros H. eapply triple_conseq; [exact H|done..]. Qed.
Lemma preserves_bind {A B} (P : S -> Prop) (m : tx A) (f : A -> tx B) :
  preserves P m -> (forall a, preserves P (f a)) -> preserves P (m ≫= f).
Proof. intros Hm Hf. by eapply triple_bind. Qed.

Lemma preserves_ret {A} (P : S -> Prop) (a : A) : preserves P (mret a).
Proof. by apply triple_ret. Qed.
Lemma preserves_lift {A} (P : S -> Prop) (r : result E A) : preserves P (lift r).
Proof. by apply triple_lift. Qed.
Lemma preserves_select {A} (P : S -> Prop) e (f : S -> A) : preserves P (select e f).
Proof. by apply triple_select. Qed.
Lemma preserves_execute (P : S -> Prop) e f : (forall s, P s -> P (f s)) -> preserves P (execute e f).
Proof. intros. by apply triple_execute. Qed.
Lemma preserves_statement {A} (P : S -> Prop) e (f : S -> result E (A * S)) :
  (forall s a s', P s -> f s = Ok (a, s') -> P s') -> preserves P (statement e f).
Proof. intros. by apply triple_statement. Qed.
Lemma preserves_ignoring {A} (P : S -> Prop) (m : tx A) : preserves P m -> preserves P (ignoring m).
Proof. intros H. by apply triple_ignoring. Qed.
Lemma preserves_remote (P : S -> Prop) : preserves P remote.
Proof. by apply triple_remote. Qed.
Lemma preserves_if {A} (P : S -> Prop) (c : bool) (m n : tx A) : preserves P m -> preserves P n -> preserves P (if c then m else n).
Proof. by destruct c. Qed.
Lemma preserves_transaction {A} (P : S -> Prop) e (body : tx A) :
  triple P body (fun _ => P) (fun _ _ => True) -> preserves P (transaction e body).
Proof. intros. by apply triple_transaction. Qed.

(** A run without failure, from one state to another.  Since failed transactions leave the tables alone,
    this is the view of a program for which only its successful runs matter. *)
Definition yields {A} (m : tx A) (s : S) (a : A) (s' : S) : Prop := exists o o', m o s = (Ok a, s', o').

Lemma yields_bind {A B} (m : tx A) (f : A -> tx B) s b s' :
  yields (m ≫= f) s b s' -> exists a s1, yields m s a s1 /\ yields (f a) s1 b s'.
Proof.
  intros (o & o' & H). unfold mbind, tx_bind in H. destruct (m o s) as [[[a|e] s1] o1] eqn:Em; [|done].
  exists a, s1. split; [by exists o, o1|by exists o1, o'].
Qed.
Lemma yields_ret {A} (a b : A) s s' : yields (mret a) s b s' -> b = a /\ s' = s.
Proof. by intros (o & o' & [= -> -> _]). Qed.
Lemma yields_lift {A} (r : result E A) s a s' : yields (lift r) s a s' -> r = Ok a /\ s' = s.
Proof. intros (o & o' & H). unfold lift in H. by simplify_eq. Qed.
Lemma yields_statement {A} e (f : S -> result E (A * S)) s a s' : yields (statement e f) s a s' -> f s = Ok (a, s').
Proof.
  intros (o & o' & H). unfold statement in H. destruct (next_outcome o) as [[] o1]; [done|].
  destruct (f s) as [[b s1]|x]; [|done]. by simplify_eq.
Qed.
Lemma yields_select {A} e (f : S -> A) s a s' : yields (select e f) s a s' -> a = f s /\ s' = s.
Proof. intros H%yields_statement. by simplify_eq. Qed.
Lemma yields_execute e (f : S -> S) s u s' : yields (execute e f) s u s' -> s' = f s.
Proof. intros H%yields_statement. by simplify_eq. Qed.
Lemma yields_transaction {A} e (body : tx A) s a s' : yields (transaction e body) s a s' -> yields body s a s'.
Proof. intros (o & o' & H). apply transaction_if_Ok in H as (o1 & s1 & o2 & H & ->). by exists o1, o2. Qed.

Lemma triple_yields {A} (P : S -> Prop) (m : tx A) (Q : A -> S -> Prop) :
  (forall s a s', P s -> yields m s a s' -> Q a s') -> triple P m Q (fun _ _ => True).
Proof. intros H o s Hs. destruct (m o s) as [[[a|e] s'] o'] eqn:Em; [|done]. eapply H; [done|]. by exists o, o'. Qed.
Lemma yields_transaction_if {A} c e (body : tx A) s a s' :
  yields (transaction_if c e body) s a s' -> exists s1, yields body s a s1 /\ s' = if c a then s1 else s.
Proof. intros (o & o' & H). apply transaction_if_Ok in H as (o1 & s1 & o2 & H & ->). exists s1. split; [by exists o1, o2|done]. Qed.

(** A program whose failures change nothing. *)
Definition atomic {A} (m : tx A) : Prop := forall o s e s' o', m o s = (Err e, s', o') -> s' = s.

Lemma atomic_transaction {A} e (body : tx A) : atomic (transaction e body).
Proof. intros o s x s' o' H. by eapply transaction_if_Err. Qed.
Lemma atomic_lift {A B} (r : result E A) (f : A -> tx B) : (forall a, atomic (f a)) -> atomic (lift r ≫= f).
Proof. intros Hf o s e s' o' H. unfold mbind, tx_bind, lift in H. destruct r as [a|x]; [by eapply Hf|by simplify_eq]. Qed.
Lemma atomic_run {A} (m : tx A) o s r s' o' :
  atomic m -> m o s = (r, s', o') -> s' = s \/ exists a, r = Ok a /\ yields m s a s'.
Proof. intros Hm H. destruct r as [a|e]; [right; exists a; split; [done|by exists o, o']|left; by eapply Hm]. Qed.
End store.

Arguments tx : clear implicits.

(** [map_err] on a program. *)
Definition map_error {S E F A} (f : E -> F) (m : tx S E A) : tx S F A := fun o s =>
  let '(r, s, o) := m o s in (map_err f r, s, o).

Lemma triple_map_error {S E F A} (f : E -> F) (P : S -> Prop) (m : tx S E A) Q (R : F -> S -> Prop) :
  triple P m Q (fun e => R (f e)) -> triple P (map_error f m) Q R.
Proof. intros H o s Hs. specialize (H o s Hs). unfold map_error. by destruct (m o s) as [[[a|e] s'] o']. Qed.

Lemma preserves_map_error {S E F A} (f : E -> F) (P : S -> Prop) (m : tx S E A) :
  preserves P m -> preserves P (map_error f m).
Proof. intros Hm. unfold preserves. by apply triple_map_error. Qed.

Lemma yields_map_error {S E F A} (f : E -> F) (m : tx S E A) s a s' : yields (map_error f m) s a s' -> yields m s a s'.
Proof.
  intros (o & o' & H). unfold map_error in H. destruct (m o s) as [[[b|e] s1] o1] eqn:Em; [|done]. exists o, o1.
  cbn in H. by simplify_eq.
Qed.

(** Reads a successful run backwards through the steps of its program. *)
Ltac run_step :=
  match goal with
  | H : yields (_ ≫= _) _ _ _ |- _ => apply yields_bind in H as (? & ? & ? & ?)
  | H : yields (mret _) _ _ _ |- _ => apply yields_ret in H as [? ?]
  | H : yields (lift _) _ _ _ |- _ => apply yields_lift in H as [? ?]
  | H : yields (raise _) _ _ _ |- _ => by apply yields_lift in H as [? ?]
  | H : yields (select _ _) _ _ _ |- _ => apply yields_select in H as [? ?]
  | H : yields (execute _ _) _ _ _ |- _ => apply yields_execute in H
  | H : yields (statement _ _) _ _ _ |- _ => apply yields_statement in H
  | H : yields (transaction _ _) _ _ _ |- _ => apply yields_transaction in H
  | H : yields (map_error _ _) _ _ _ |- _ => apply yields_map_error in H
  | H : ok_or _ _ = Ok _ |- _ => apply ok_or_Ok in H
  | H : fail_if _ _ = Ok _ |- _ => apply fail_if_Ok in H
  end; simplify_eq.
Ltac runs := repeat run_step.

(** Steps through a program that preserves an assertion. *)
Ltac preserve_step :=
  first
    [ apply preserves_bind; [|intros ?]
    | apply preserves_lift | apply preserves_ret | apply preserves_select | apply preserves_remote
    | apply preserves_map_error | apply preserves_ignoring | apply preserves_if
    | apply preserves_execute; intros ? ?
    | apply preserves_statement; intros ? ? ? ? ?
    | match goal with |- preserves _ (match ?x with _ => _ end) => destruct x end
    | progress cbn beta iota zeta ].

Create HintDb store.
#[export] Hint Resolve preserves_bind preserves_ret preserves_lift preserves_select preserves_ignoring preserves_remote
  preserves_if preserves_map_error : store.
Ltac preserve := repeat preserve_step.

(** The rows of a query: some rows of a table in some order. *)
Lemma nodup_filter {K V} (P : K * V -> Prop) `{!forall x, Decision (P x)} (l : list (K * V)) : NoDup l.*1 -> NoDup (filter P l).*1.
Proof.
  induction l as [|x l IH]; [done|]. rewrite fmap_cons, NoDup_cons. intros [Hx Hl]. rewrite filter_cons.
  destruct (decide (P x)); [|by apply IH]. rewrite fmap_cons, NoDup_cons. split; [|by apply IH].
  intros (y & E & [_ Hy]%list_elem_of_filter)%list_elem_of_fmap. apply Hx. rewrite E. by apply list_elem_of_fmap_2.
Qed.
Lemma nodup_rows {K V} `{Countable K} (P : K * V -> Prop) `{!forall x, Decision (P x)} leb n (m : gmap K V) :
  NoDup (take n (sort leb (filter P (map_to_list m)))).*1.
Proof.
  rewrite fmap_take. assert (NoDup (sort leb (filter P (map_to_list m))).*1) as Hn.
  { rewrite sort_perm. apply nodup_filter, NoDup_fst_map_to_list. }
  rewrite <- (take_drop n) in Hn. by apply NoDup_app in Hn as [Hn _].
Qed.
