(* ===== verification/Auth.v ===== *)
(** Authentication and membership ([apps/server/src/auth.rs]): roles and permissions, login attempts,
    identities, sessions, members and invitations, over the tables of
    [migrations/20260815100000_hosted_authentication.sql].  Ids, random bytes, the time and the answers
    of the identity providers are arguments of a request. *)

From S2P Require Import Prelude Text Json Identifiers Store.

Definition SESSION_PREFIX : text := txt "fls_".
Definition GITHUB_STATE_PREFIX : text := txt "flg_".
Definition EMAIL_TOKEN_PREFIX : text := txt "fle_".
Definition INVITATION_TOKEN_PREFIX : text := txt "fli_".
Definition MAX_EMAIL_BYTES : N := 254.
Definition MAX_PROVIDER_SUBJECT_BYTES : N := MAX_EMAIL_BYTES.
Definition MAX_GITHUB_CODE_BYTES : N := 512.
Definition MAX_AUDIT_RESULTS : nat := 100.
Definition MAX_EMAIL_ATTEMPTS : nat := 5.

(** * Roles *)

Inductive Role : Type := Owner | Admin | Developer | Viewer.
Inductive Permission : Type :=
| ReadProject | ManageIssue | ManageProject | ManageDataRules | ManageUsage | ManageMembers | ReadRaw | ReadAudit.

#[export] Instance Role_eq_dec : EqDecision Role.
Proof. solve_decision. Defined.
#[export] Instance Permission_eq_dec : EqDecision Permission.
Proof. solve_decision. Defined.

Module Role.
(** [Role::parse], [Role::as_str] and [Role::allows]. *)
Definition parse (value : text) : option Role :=
  if decide (value = txt "owner") then Some Owner
  else if decide (value = txt "admin") then Some Admin
  else if decide (value = txt "developer") then Some Developer
  else if decide (value = txt "viewer") then Some Viewer
  else None.
Definition as_str (r : Role) : text :=
  match r with Owner => txt "owner" | Admin => txt "admin" | Developer => txt "developer" | Viewer => txt "viewer" end.
Definition allows (r : Role) (p : Permission) : bool :=
  match p with
  | ReadProject => true
  | ManageIssue | ReadRaw => negb (bool_decide (r = Viewer))
  | ManageProject | ManageMembers | ReadAudit => bool_decide (r = Owner) || bool_decide (r = Admin)
  | ManageDataRules | ManageUsage => bool_decide (r = Owner)
  end.
End Role.

Inductive AuthorizationError : Type := AuthUnauthorized | AuthForbidden | AuthNotFound | AuthUnavailable.
Inductive ApiError : Type :=
| InvalidRequest | Unauthorized | Forbidden | NotFound | Conflict | Unavailable | Internal.

(** [impl From<AuthorizationError> for ApiError]. *)
Definition api_error (e : AuthorizationError) : ApiError :=
  match e with
  | AuthUnauthorized => Unauthorized | AuthForbidden => Forbidden | AuthNotFound => NotFound
  | AuthUnavailable => Unavailable
  end.

(** [ApiError::into_response]: status, code and message. *)
Definition api_response (e : ApiError) : N * text * text :=
  match e with
  | InvalidRequest => (400%N, txt "invalid_request", txt "request is invalid")
  | Unauthorized => (401%N, txt "unauthorized", txt "authorization is required")
  | Forbidden => (403%N, txt "forbidden", txt "operation is not allowed")
  | NotFound => (404%N, txt "not_found", txt "resource was not found")
  | Conflict => (409%N, txt "conflict", txt "request conflicts with current state")
  | Unavailable => (503%N, txt "service_unavailable", txt "service is unavailable")
  | Internal => (500%N, txt "internal_error", txt "request could not be completed")
  end.

Module ControlActor.
Record t : Type := Mk { user_id : text; session_id : option text }.
End ControlActor.
Module ProjectActor.
Record t : Type := Mk { actor : ControlActor.t; organization_id : text; project_id : text; role : Role }.
(** [ProjectActor::allows]. *)
Definition allows (a : t) (p : Permission) : bool := Role.allows (role a) p.
End ProjectActor.
Module OrganizationActor.
Record t : Type := Mk { actor : ControlActor.t; role : Role }.
End OrganizationActor.

(** * Tables *)

Module User.
Record t : Type := Mk { id : text; bootstrap_subject : text; email : text }.
End User.
Module Attempt.
Record t : Type := Mk {
  id : text; kind : text; secret_hash : bytes; email : option text; expires_at : Z; consumed_at : option Z;
  created_at : Z }.
End Attempt.
Module Session.
Record t : Type := Mk {
  id : text; user_id : text; secret_hash : bytes; expires_at : Z; revoked_at : option Z; created_at : Z;
  last_seen_at : Z }.
End Session.
Module Invitation.
Record t : Type := Mk {
  id : text; organization_id : text; email : text; role : text; secret_hash : bytes; invited_by : text;
  expires_at : Z; accepted_at : option Z; revoked_at : option Z; created_at : Z }.
End Invitation.
Module Audit.
Record t : Type := Mk {
  organization_id : text; actor : option text; action : text; target_type : text; target_id : text;
  outcome : text }.
End Audit.

Module Db.
Record t : Type := Mk {
  users : list User.t;
  identities : gmap (text * text) text;
  attempts : list Attempt.t;
  sessions : list Session.t;
  projects : gmap text text;
  memberships : gmap (text * text) text;
  invitations : list Invitation.t;
  audit_log : list Audit.t }.

Definition set_users f (s : t) : t := Mk (f (users s)) (identities s) (attempts s) (sessions s) (projects s) (memberships s) (invitations s) (audit_log s).
Definition set_identities f (s : t) : t := Mk (users s) (f (identities s)) (attempts s) (sessions s) (projects s) (memberships s) (invitations s) (audit_log s).
Definition set_attempts f (s : t) : t := Mk (users s) (identities s) (f (attempts s)) (sessions s) (projects s) (memberships s) (invitations s) (audit_log s).
Definition set_sessions f (s : t) : t := Mk (users s) (identities s) (attempts s) (f (sessions s)) (projects s) (memberships s) (invitations s) (audit_log s).
Definition set_projects f (s : t) : t := Mk (users s) (identities s) (attempts s) (sessions s) (f (projects s)) (memberships s) (invitations s) (audit_log s).
Definition set_memberships f (s : t) : t := Mk (users s) (identities s) (attempts s) (sessions s) (projects s) (f (memberships s)) (invitations s) (audit_log s).
Definition set_invitations f (s : t) : t := Mk (users s) (identities s) (attempts s) (sessions s) (projects s) (memberships s) (f (invitations s)) (audit_log s).
Definition set_audit_log f (s : t) : t := Mk (users s) (identities s) (attempts s) (sessions s) (projects s) (memberships s) (invitations s) (f (audit_log s)).
End Db.

(** [UPDATE ... WHERE ...]: the rows that match are replaced. *)
Definition update_where {A} (p : A -> bool) (f : A -> A) (l : list A) : list A := map (fun r => if p r then f r else r) l.
Definition delete_where {A} (p : A -> bool) (l : list A) : list A := filter (fun r => p r = false) l.

Abbreviation atx := (tx Db.t ApiError).
Abbreviation ztx := (tx Db.t AuthorizationError).

(** What a request brings along: the time, the ids the database would generate, and random bytes. *)
Module Request.
Record t : Type := Mk {
  now : Z; new_user : text; new_session : text; new_attempt : text; new_invitation : text;
  random : option bytes; random2 : option bytes }.
End Request.

(** * Texts *)

Definition ends_with_dot (s : text) : bool := ends_with_char s 46.

(** [str::split_once] at a character. *)
Fixpoint split_once (c : char) (s : text) : option (text * text) :=
  match s with
  | [] => None
  | d :: s => if (d =? c)%N then Some ([], s) else '(a, b) ← split_once c s; Some (d :: a, b)
  end.

(** [valid_email] and [normalize_email]. *)
Definition valid_email (value : text) : bool :=
  (str_len value <=? MAX_EMAIL_BYTES)%N && negb (existsb is_whitespace value)
  && match split_once 64 value with
     | Some (local, domain) => negb (bool_decide (local = [])) && existsb (N.eqb 46) domain && negb (ends_with_dot domain)
     | None => false
     end.
Definition normalize_email (value : text) : result ApiError text :=
  let value := to_ascii_lowercase (trim value) in
  if valid_email value then Ok value else Err InvalidRequest.

(** What GitHub answers to the three calls of a sign-in; an error is a refusal or a failed call. *)
Module Github.
Record email : Type := Email { address : text; primary : bool; verified : bool }.
Record t : Type := Mk {
  access_token : result ApiError (option text); user_id : result ApiError N; emails : result ApiError (list email) }.
End Github.

(** What a sign-in answers: the token is told once, here; the tables only have its digest. *)
Module SessionCreated.
Record t : Type := Mk { token : text; session : Session.t; user : User.t; memberships : list (text * Role) }.
End SessionCreated.

Section auth.
Context {H : Sha256} {L : SqlLower}.

(** [generated_secret]: [getrandom] may fail. *)
Definition new_secret (prefix : text) (random : option bytes) : result ApiError text :=
  ok_or Internal (generated_secret prefix <$> random).

(** * Audit *)

Definition audit_row (organization_id : text) (actor : option text) (action target_type target_id outcome : text) : Audit.t :=
  {| Audit.organization_id := organization_id; Audit.actor := actor; Audit.action := action;
     Audit.target_type := target_type; Audit.target_id := target_id; Audit.outcome := outcome |}.

(** [insert_audit] and [audit], which drops its outcome. *)
Definition insert_audit (organization_id : text) (actor : option text) (action target_type target_id outcome : text) : atx () :=
  execute Unavailable
    (Db.set_audit_log (fun l => l ++ [audit_row (uuid organization_id) actor action target_type target_id outcome])).
Definition audit (organization_id : text) (actor : option text) (action target_type target_id outcome : text) : atx () :=
  ignoring (insert_audit organization_id actor action target_type target_id outcome).

(** [audit_all_organizations]. *)
Definition organizations_of (user_id : text) (s : Db.t) : list text :=
  map (fun kv => kv.1.1) (filter (fun kv => kv.1.2 = user_id) (map_to_list (Db.memberships s))).
Definition audit_all_organizations (user_id action target_type target_id outcome : text) : atx () :=
  ignoring (execute (E := ApiError) Unavailable (fun s =>
    Db.set_audit_log (fun l => l ++ map (fun o => audit_row o (Some user_id) action target_type target_id outcome)
                                      (organizations_of user_id s)) s)).

(** * Sessions and authorization *)

Definition session_live (now : Z) (s : Session.t) : bool :=
  is_none (Session.revoked_at s) && (now <? Session.expires_at s)%Z.
Definition user_exists (id : text) (s : Db.t) : bool := existsb (fun u => bool_decide (User.id u = id)) (Db.users s).

(** [Auth::session_actor], on the authorization header. *)
Definition touch (now : Z) (s : Session.t) : Session.t :=
  Session.Mk (Session.id s) (Session.user_id s) (Session.secret_hash s) (Session.expires_at s) (Session.revoked_at s)
    (Session.created_at s) now.
Definition session_actor (now : Z) (authorization : option text) : ztx ControlActor.t :=
  token ← lift (ok_or AuthUnauthorized
    (value ← authorization; token ← strip_prefix value (txt "Session ");
     if valid_secret token SESSION_PREFIX then Some token else None));
  let matches (db : Db.t) (s : Session.t) :=
    user_exists (Session.user_id s) db && bool_decide (Session.secret_hash s = hash token) && session_live now s in
  row ← statement AuthUnavailable (fun db =>
    Ok (List.find (matches db) (Db.sessions db), Db.set_sessions (update_where (matches db) (touch now)) db));
  s ← lift (ok_or AuthUnauthorized row);
  mret {| ControlActor.user_id := Session.user_id s; ControlActor.session_id := Some (Session.id s) |}.

(** [authenticate]: the bootstrap header, when it is configured and matches, names the bootstrap user. *)
Definition authenticate (now : Z) (bootstrap : bool) (authorization : option text) : ztx ControlActor.t :=
  if bootstrap then
    user ← select AuthUnavailable (fun db =>
      List.find (fun u => bool_decide (User.bootstrap_subject u = txt "local-bootstrap")) (Db.users db));
    user ← lift (ok_or AuthUnauthorized user);
    mret {| ControlActor.user_id := User.id user; ControlActor.session_id := None |}
  else session_actor now authorization.

(** [authorize_project] and [authorize_organization], after [authenticate]. *)
Definition authorize_project (actor : ControlActor.t) (project_id : text) (permission : Permission) : ztx ProjectActor.t :=
  _ ← lift (fail_if (negb (valid_uuid project_id)) AuthNotFound);
  row ← select AuthUnavailable (fun db =>
    organization_id ← Db.projects db !! uuid project_id;
    role ← Db.memberships db !! (organization_id, ControlActor.user_id actor);
    Some (organization_id, role));
  row ← lift (ok_or AuthNotFound row);
  let '(organization_id, role) := row : text * text in
  role ← lift (ok_or AuthUnavailable (Role.parse role));
  _ ← lift (fail_if (negb (Role.allows role permission)) AuthForbidden);
  mret {| ProjectActor.actor := actor; ProjectActor.organization_id := organization_id;
          ProjectActor.project_id := project_id; ProjectActor.role := role |}.
Definition authorize_organization (actor : ControlActor.t) (organization_id : text) (permission : Permission) :
    ztx OrganizationActor.t :=
  _ ← lift (fail_if (negb (valid_uuid organization_id)) AuthNotFound);
  role ← select AuthUnavailable (fun db => Db.memberships db !! (uuid organization_id, ControlActor.user_id actor));
  role ← lift (ok_or AuthNotFound role);
  role ← lift (ok_or AuthUnavailable (Role.parse role));
  _ ← lift (fail_if (negb (Role.allows role permission)) AuthForbidden);
  mret {| OrganizationActor.actor := actor; OrganizationActor.role := role |}.

(** [...await.map_err(ApiError::from)]. *)
Definition as_api {A} (m : ztx A) : atx A := map_error api_error m.
Definition authorized (req : Request.t) (bootstrap : bool) (authorization : option text) (organization_id : text)
    (permission : Permission) : atx OrganizationActor.t :=
  as_api (actor ← authenticate (Request.now req) bootstrap authorization;
          authorize_organization actor organization_id permission).

(** * Login attempts *)

(** [prune_login_attempts]. *)
Definition prunable (now : Z) (a : Attempt.t) : bool :=
  (Attempt.expires_at a <=? now)%Z
  || match Attempt.consumed_at a with Some c => (c <? now - minutes 15)%Z | None => false end.
Definition prune_login_attempts (now : Z) : atx () :=
  ignoring (execute (E := ApiError) Unavailable (Db.set_attempts (delete_where (prunable now)))).

(** The key and the unique digest of [auth_login_attempts]. *)
Definition insert_attempt (a : Attempt.t) (db : Db.t) : result ApiError (() * Db.t) :=
  if existsb (fun b => bool_decide (Attempt.id b = Attempt.id a) || bool_decide (Attempt.secret_hash b = Attempt.secret_hash a))
       (Db.attempts db)
  then Err Unavailable else Ok (tt, Db.set_attempts (fun l => l ++ [a]) db).

(** [start_github], when the provider is configured: the attempt and its state token. *)
Definition start_github (req : Request.t) : atx text :=
  let now := Request.now req in
  _ ← prune_login_attempts now;
  state_token ← lift (new_secret GITHUB_STATE_PREFIX (Request.random req));
  _ ← statement Unavailable (insert_attempt
        {| Attempt.id := Request.new_attempt req; Attempt.kind := txt "github"; Attempt.secret_hash := hash state_token;
           Attempt.email := None; Attempt.expires_at := (now + minutes 10)%Z; Attempt.consumed_at := None;
           Attempt.created_at := now |});
  mret state_token.

(** [consume_login]. *)
Definition consumable (now : Z) (kind token : text) (a : Attempt.t) : bool :=
  bool_decide (Attempt.kind a = kind) && bool_decide (Attempt.secret_hash a = hash token)
  && is_none (Attempt.consumed_at a) && (now <? Attempt.expires_at a)%Z.
Definition consume (now : Z) (a : Attempt.t) : Attempt.t :=
  Attempt.Mk (Attempt.id a) (Attempt.kind a) (Attempt.secret_hash a) (Attempt.email a) (Attempt.expires_at a) (Some now)
    (Attempt.created_at a).
Definition consume_login (now : Z) (kind token : text) : atx (option text) :=
  row ← statement Unavailable (fun db =>
    Ok (List.find (consumable now kind token) (Db.attempts db),
        Db.set_attempts (update_where (consumable now kind token) (consume now)) db));
  a ← lift (ok_or Unauthorized row);
  mret (Attempt.email a).

(** [start_email]: the limit, the attempt in its transaction, and the delivery, whose failure removes
    the attempt.  The link carries the token to the address, not to the caller. *)
Definition recent (now : Z) (email : text) (a : Attempt.t) : bool :=
  bool_decide (Attempt.kind a = txt "email") && bool_decide (Attempt.email a = Some email)
  && (now - minutes 15 <? Attempt.created_at a)%Z.
Definition start_email (req : Request.t) (requested : text) : atx () :=
  let now := Request.now req in
  email ← lift (normalize_email requested);
  _ ← prune_login_attempts now;
  token ← lift (new_secret EMAIL_TOKEN_PREFIX (Request.random req));
  attempt_id ← transaction_if (fun id => negb (is_none id)) Unavailable
    (_ ← execute Unavailable id;
     count ← select Unavailable (fun db => length (filter (fun a => recent now email a = true) (Db.attempts db)));
     if (MAX_EMAIL_ATTEMPTS <=? count)%nat then mret None
     else
       _ ← statement Unavailable (insert_attempt
             {| Attempt.id := Request.new_attempt req; Attempt.kind := txt "email"; Attempt.secret_hash := hash token;
                Attempt.email := Some email; Attempt.expires_at := (now + minutes 15)%Z; Attempt.consumed_at := None;
                Attempt.created_at := now |});
       mret (Some (Request.new_attempt req)));
  match attempt_id with
  | None => mret ()
  | Some attempt_id =>
      delivered ← remote;
      if delivered : bool then mret ()
      else
        _ ← ignoring (execute (E := ApiError) Unavailable
              (Db.set_attempts (delete_where (fun a => bool_decide (Attempt.id a = attempt_id)))));
        raise Unavailable
  end.

(** * Identities *)

(** The key and the unique constraints of [users] and [user_identities]. *)
Definition user_with_email (email : text) (db : Db.t) : option User.t :=
  List.find (fun u => bool_decide (sql_lower (User.email u) = email)) (Db.users db).
Definition provider_taken (provider user_id : text) (db : Db.t) : bool :=
  existsb (fun kv => bool_decide (kv.1.1 = provider) && bool_decide (kv.2 = user_id)) (map_to_list (Db.identities db)).
Definition insert_user (id subject email : text) (db : Db.t) : result ApiError (text * Db.t) :=
  if existsb (fun u => bool_decide (User.bootstrap_subject u = subject)
                       || bool_decide (sql_lower (User.email u) = sql_lower email)) (Db.users db) || user_exists id db
  then Err Unavailable
  else Ok (id, Db.set_users (fun l => l ++ [{| User.id := id; User.bootstrap_subject := subject; User.email := email |}]) db).
Definition insert_identity (provider subject user_id : text) (db : Db.t) : result ApiError (() * Db.t) :=
  if negb (is_none (Db.identities db !! (provider, subject))) || provider_taken provider user_id db then Err Unavailable
  else Ok (tt, Db.set_identities <[(provider, subject) := user_id]> db).

(** The key and the unique digest of [auth_sessions]. *)
Definition insert_session (s : Session.t) (db : Db.t) : result ApiError (() * Db.t) :=
  if existsb (fun r => bool_decide (Session.id r = Session.id s) || bool_decide (Session.secret_hash r = Session.secret_hash s))
       (Db.sessions db)
  then Err Unavailable else Ok (tt, Db.set_sessions (fun l => l ++ [s]) db).

(** [insert_identity_session], inside of a transaction. *)
Definition new_session_row (req : Request.t) (user_id : text) (token : text) : Session.t :=
  {| Session.id := Request.new_session req; Session.user_id := user_id; Session.secret_hash := hash token;
     Session.expires_at := (Request.now req + days 30)%Z; Session.revoked_at := None;
     Session.created_at := Request.now req; Session.last_seen_at := Request.now req |}.
Definition insert_identity_session (req : Request.t) (provider subject email token : text) : atx (text * Session.t) :=
  _ ← lift (fail_if (bool_decide (subject = []) || (MAX_PROVIDER_SUBJECT_BYTES <? str_len subject)%N) Unauthorized);
  _ ← execute Unavailable id;
  identity ← select Unavailable (fun db => Db.identities db !! (provider, subject));
  user_id ← match identity with
    | Some user_id => mret user_id
    | None =>
        found ← select Unavailable (user_with_email email);
        user_id ← match found with
          | Some u => mret (User.id u)
          | None => statement Unavailable (insert_user (Request.new_user req) (provider ++ txt ":" ++ subject) email)
          end;
        _ ← statement Unavailable (insert_identity provider subject user_id);
        mret user_id
    end;
  let row := new_session_row req user_id token in
  _ ← statement Unavailable (insert_session row);
  mret (user_id, row).

(** [user_view] and [memberships]: the names and slugs of the organizations, which order the answer, are
    left out. *)
Definition lowered (u : User.t) : User.t := User.Mk (User.id u) (User.bootstrap_subject u) (sql_lower (User.email u)).
Definition user_view (user_id : text) : atx User.t :=
  user ← select Unavailable (fun db => lowered <$> List.find (fun u => bool_decide (User.id u = user_id)) (Db.users db));
  lift (ok_or NotFound user).
Definition memberships (user_id : text) : atx (list (text * Role)) :=
  rows ← select Unavailable (fun db => filter (fun kv => kv.1.2 = user_id) (map_to_list (Db.memberships db)));
  lift (mapM (fun kv : text * text * text => role ← ok_or Unavailable (Role.parse kv.2); Ok (kv.1.1, role)) rows).

(** [create_identity_session]. *)
Definition create_identity_session (req : Request.t) (provider subject email : text) : atx SessionCreated.t :=
  token ← lift (new_secret SESSION_PREFIX (Request.random req));
  row ← transaction Unavailable (insert_identity_session req provider subject email token);
  let '(user_id, session) := row : text * Session.t in
  user ← user_view user_id;
  memberships ← memberships user_id;
  mret {| SessionCreated.token := token; SessionCreated.session := session; SessionCreated.user := user;
          SessionCreated.memberships := memberships |}.

Definition github_email (emails : list Github.email) : option text :=
  Github.address <$> List.find (fun e => Github.primary e && Github.verified e && valid_email (Github.address e)) emails.
(** [complete_github]. *)
Definition complete_github (req : Request.t) (code state : text) (github : Github.t) : atx SessionCreated.t :=
  _ ← lift (fail_if (negb (valid_secret state GITHUB_STATE_PREFIX) || bool_decide (code = [])
                     || (MAX_GITHUB_CODE_BYTES <? str_len code)%N) InvalidRequest);
  _ ← consume_login (Request.now req) (txt "github") state;
  token ← lift (Github.access_token github);
  _ ← lift (ok_or Unauthorized
        (t ← token; if negb (bool_decide (t = [])) && (str_len t <=? 2048)%N then Some t else None));
  user_id ← lift (Github.user_id github);
  emails ← lift (Github.emails github);
  email ← lift (from_option normalize_email (Err Unauthorized) (github_email emails));
  session ← create_identity_session req (txt "github") (fmt_dec user_id) email;
  _ ← audit_all_organizations (User.id (SessionCreated.user session)) (txt "session.created") (txt "session")
        (Session.id (SessionCreated.session session)) (txt "succeeded");
  mret session.

(** [verify_email]. *)
Definition verify_email (req : Request.t) (token : text) : atx SessionCreated.t :=
  _ ← lift (fail_if (negb (valid_secret token EMAIL_TOKEN_PREFIX)) InvalidRequest);
  email ← consume_login (Request.now req) (txt "email") token;
  email ← lift (ok_or InvalidRequest email);
  session ← create_identity_session req (txt "email") email email;
  _ ← audit_all_organizations (User.id (SessionCreated.user session)) (txt "session.created") (txt "session")
        (Session.id (SessionCreated.session session)) (txt "succeeded");
  mret session.

(** [revoke_session]. *)
Definition revoke (now : Z) (s : Session.t) : Session.t :=
  Session.Mk (Session.id s) (Session.user_id s) (Session.secret_hash s) (Session.expires_at s) (Some now)
    (Session.created_at s) (Session.last_seen_at s).
Definition revocable (actor session_id : text) (s : Session.t) : bool :=
  bool_decide (Session.id s = session_id) && bool_decide (Session.user_id s = actor) && is_none (Session.revoked_at s).
Definition revoke_session (now : Z) (bootstrap : bool) (authorization : option text) (session_id : text) : atx () :=
  actor ← as_api (authenticate now bootstrap authorization);
  _ ← lift (fail_if (negb (valid_uuid session_id)) NotFound);
  let p := revocable (ControlActor.user_id actor) (uuid session_id) in
  affected ← statement Unavailable (fun db =>
    Ok (length (filter (fun s => p s = true) (Db.sessions db)), Db.set_sessions (update_where p (revoke now)) db));
  _ ← lift (fail_if (negb (affected =? 1)%nat) NotFound);
  audit_all_organizations (ControlActor.user_id actor) (txt "session.revoked") (txt "session") session_id (txt "succeeded").

(** [get_session] and [list_sessions]. *)
Definition own_live (now : Z) (user_id : text) (s : Session.t) : bool :=
  bool_decide (Session.user_id s = user_id) && session_live now s.
Definition get_session (now : Z) (bootstrap : bool) (authorization : option text) : atx (Session.t * User.t * list (text * Role)) :=
  actor ← as_api (authenticate now bootstrap authorization);
  session_id ← lift (ok_or NotFound (ControlActor.session_id actor));
  session ← select Unavailable (fun db =>
    List.find (fun s => bool_decide (Session.id s = session_id) && own_live now (ControlActor.user_id actor) s) (Db.sessions db));
  session ← lift (ok_or NotFound session);
  user ← user_view (ControlActor.user_id actor);
  memberships ← memberships (ControlActor.user_id actor);
  mret (session, user, memberships).
Definition list_sessions (now : Z) (bootstrap : bool) (authorization : option text) : atx (list Session.t) :=
  actor ← as_api (authenticate now bootstrap authorization);
  _ ← lift (ok_or NotFound (ControlActor.session_id actor));
  select Unavailable (fun db =>
    take 100 (reverse (sort (fun a b => (Session.created_at a <? Session.created_at b)%Z
       || (Session.created_at a =? Session.created_at b)%Z && text_leb (Session.id a) (Session.id b))
      (filter (fun s => own_live now (ControlActor.user_id actor) s = true) (Db.sessions db))))).

(** * Invitations *)

Definition invitation_open (i : Invitation.t) : bool :=
  is_none (Invitation.accepted_at i) && is_none (Invitation.revoked_at i).

(** The insertion of [create_invitation]: nothing when a member has the address already, and a conflict
    by the unique index on the open invitations of an organization. *)
Definition member_with_email (organization_id email : text) (db : Db.t) : bool :=
  existsb (fun u => bool_decide (sql_lower (User.email u) = email)
                    && negb (is_none (Db.memberships db !! (organization_id, User.id u)))) (Db.users db).
Definition same_open (i j : Invitation.t) : bool :=
  bool_decide (Invitation.id i = Invitation.id j) || bool_decide (Invitation.secret_hash i = Invitation.secret_hash j)
  || bool_decide (Invitation.organization_id i = Invitation.organization_id j)
     && bool_decide (sql_lower (Invitation.email i) = sql_lower (Invitation.email j)) && invitation_open j.
Definition insert_invitation (i : Invitation.t) (db : Db.t) : result ApiError (option Invitation.t * Db.t) :=
  if member_with_email (Invitation.organization_id i) (Invitation.email i) db then Ok (None, db)
  else if existsb (same_open i) (Db.invitations db) then Err Conflict
  else Ok (Some i, Db.set_invitations (fun l => l ++ [i]) db).

Definition set_invitation_revoked (now : Z) (i : Invitation.t) : Invitation.t :=
  Invitation.Mk (Invitation.id i) (Invitation.organization_id i) (Invitation.email i) (Invitation.role i)
    (Invitation.secret_hash i) (Invitation.invited_by i) (Invitation.expires_at i) (Invitation.accepted_at i)
    (Some now) (Invitation.created_at i).
Definition set_invitation_accepted (now : Z) (i : Invitation.t) : Invitation.t :=
  Invitation.Mk (Invitation.id i) (Invitation.organization_id i) (Invitation.email i) (Invitation.role i)
    (Invitation.secret_hash i) (Invitation.invited_by i) (Invitation.expires_at i) (Some now)
    (Invitation.revoked_at i) (Invitation.created_at i).
Definition has_id (id : text) (i : Invitation.t) : bool := bool_decide (Invitation.id i = id).

(** [create_invitation], when the delivery of email is configured. *)
Definition privileged (r : Role) : bool := bool_decide (r = Owner) || bool_decide (r = Admin).
Definition create_invitation (req : Request.t) (bootstrap : bool) (authorization : option text)
    (organization_id requested : text) (role : Role) : atx Invitation.t :=
  caller ← authorized req bootstrap authorization organization_id ManageMembers;
  _ ← lift (fail_if (bool_decide (OrganizationActor.role caller = Admin) && privileged role) Forbidden);
  email ← lift (normalize_email requested);
  token ← lift (new_secret INVITATION_TOKEN_PREFIX (Request.random req));
  let actor := ControlActor.user_id (OrganizationActor.actor caller) in
  let now := Request.now req in
  row ← statement Unavailable (insert_invitation
    {| Invitation.id := Request.new_invitation req; Invitation.organization_id := uuid organization_id;
       Invitation.email := email; Invitation.role := Role.as_str role; Invitation.secret_hash := hash token;
       Invitation.invited_by := actor; Invitation.expires_at := (now + days 7)%Z; Invitation.accepted_at := None;
       Invitation.revoked_at := None; Invitation.created_at := now |});
  invitation ← lift (ok_or Conflict row);
  delivered ← remote;
  if delivered : bool then
    _ ← audit organization_id (Some actor) (txt "invitation.created") (txt "invitation") (Invitation.id invitation) (txt "succeeded");
    mret invitation
  else
    _ ← ignoring (execute (E := ApiError) Unavailable
          (Db.set_invitations (update_where (has_id (Invitation.id invitation)) (set_invitation_revoked now))));
    _ ← audit organization_id (Some actor) (txt "invitation.created") (txt "invitation") (Invitation.id invitation) (txt "failed");
    raise Unavailable.

(** [revoke_invitation]: an invitation that was revoked keeps its time. *)
Definition coalesce_revoked (now : Z) (i : Invitation.t) : Invitation.t :=
  match Invitation.revoked_at i with Some _ => i | None => set_invitation_revoked now i end.
Definition revocable_invitation (organization_id id : text) (i : Invitation.t) : bool :=
  bool_decide (Invitation.organization_id i = organization_id) && has_id id i && is_none (Invitation.accepted_at i).
Definition revoke_invitation (req : Request.t) (bootstrap : bool) (authorization : option text)
    (organization_id invitation_id : text) : atx () :=
  caller ← authorized req bootstrap authorization organization_id ManageMembers;
  _ ← lift (fail_if (negb (valid_uuid invitation_id)) NotFound);
  let p := revocable_invitation (uuid organization_id) (uuid invitation_id) in
  affected ← statement Unavailable (fun db =>
    Ok (length (filter (fun i => p i = true) (Db.invitations db)),
        Db.set_invitations (update_where p (coalesce_revoked (Request.now req))) db));
  _ ← lift (fail_if (negb (affected =? 1)%nat) NotFound);
  audit organization_id (Some (ControlActor.user_id (OrganizationActor.actor caller))) (txt "invitation.revoked")
    (txt "invitation") invitation_id (txt "succeeded").

(** [accept_invitation]. *)
Definition acceptable (now : Z) (token : text) (i : Invitation.t) : bool :=
  bool_decide (Invitation.secret_hash i = hash token) && invitation_open i && (now <? Invitation.expires_at i)%Z.
Definition accept_invitation (req : Request.t) (token : text) : atx SessionCreated.t :=
  _ ← lift (fail_if (negb (valid_secret token INVITATION_TOKEN_PREFIX)) InvalidRequest);
  session_token ← lift (new_secret SESSION_PREFIX (Request.random req));
  row ← transaction Unavailable
    (row ← select Unavailable (fun db => List.find (acceptable (Request.now req) token) (Db.invitations db));
     i ← lift (ok_or NotFound row);
     let email := sql_lower (Invitation.email i) in
     row ← insert_identity_session req (txt "email") email email session_token;
     let '(user_id, session) := row : text * Session.t in
     _ ← execute Unavailable (Db.set_memberships <[(Invitation.organization_id i, user_id) := Invitation.role i]>);
     _ ← execute Unavailable (Db.set_invitations (update_where (has_id (Invitation.id i)) (set_invitation_accepted (Request.now req))));
     _ ← insert_audit (Invitation.organization_id i) (Some user_id) (txt "invitation.accepted") (txt "invitation")
           (Invitation.id i) (txt "succeeded");
     mret (user_id, session));
  let '(user_id, session) := row : text * Session.t in
  user ← user_view user_id;
  memberships ← memberships user_id;
  mret {| SessionCreated.token := session_token; SessionCreated.session := session; SessionCreated.user := user;
          SessionCreated.memberships := memberships |}.

(** * Members *)

(** [lock_organization], [member_role] and [require_another_owner]. *)
Definition lock_organization : atx () := execute Unavailable id.
Definition member_role (organization_id user_id : text) : atx Role :=
  role ← select Unavailable (fun db => Db.memberships db !! (uuid organization_id, uuid user_id));
  role ← lift (ok_or NotFound role);
  lift (ok_or Unavailable (Role.parse role)).
Definition other_owners (organization_id user_id : text) (db : Db.t) : nat :=
  length (filter (fun kv => kv.1.1 = uuid organization_id /\ kv.1.2 <> uuid user_id /\ kv.2 = txt "owner")
    (map_to_list (Db.memberships db))).
Definition require_another_owner (organization_id user_id : text) : atx () :=
  count ← select Unavailable (other_owners organization_id user_id);
  lift (fail_if (count =? 0)%nat Conflict).

(** [member_view]. *)
Definition member_view (organization_id user_id : text) : atx (User.t * Role) :=
  row ← select Unavailable (fun db =>
    role ← Db.memberships db !! (uuid organization_id, uuid user_id);
    user ← List.find (fun u => bool_decide (User.id u = uuid user_id)) (Db.users db);
    Some (lowered user, role));
  row ← lift (ok_or NotFound row);
  let '(user, role) := row : User.t * text in
  role ← lift (ok_or Unavailable (Role.parse role));
  mret (user, role).

(** [update_member]. *)
Definition update_member (req : Request.t) (bootstrap : bool) (authorization : option text)
    (organization_id user_id : text) (role : Role) : atx (User.t * Role) :=
  caller ← authorized req bootstrap authorization organization_id ManageMembers;
  _ ← lift (fail_if (negb (valid_uuid user_id)) NotFound);
  let actor := ControlActor.user_id (OrganizationActor.actor caller) in
  _ ← transaction Unavailable
    (_ ← lock_organization;
     caller_role ← member_role organization_id actor;
     _ ← lift (fail_if (negb (Role.allows caller_role ManageMembers)) Forbidden);
     target ← member_role organization_id user_id;
     _ ← lift (fail_if (bool_decide (caller_role = Admin) && (privileged target || privileged role)) Forbidden);
     _ ← (if bool_decide (target = Owner) && negb (bool_decide (role = Owner))
          then require_another_owner organization_id user_id else mret ());
     let key := (uuid organization_id, uuid user_id) in
     affected ← statement Unavailable (fun db =>
       Ok (Db.memberships db !! key, Db.set_memberships (alter (fun _ => Role.as_str role) key) db));
     _ ← lift (fail_if (is_none affected) NotFound);
     insert_audit organization_id (Some actor) (txt "membership.role_changed") (txt "user") user_id (txt "succeeded"));
  member_view organization_id user_id.

(** [remove_member]. *)
Definition remove_member (req : Request.t) (bootstrap : bool) (authorization : option text)
    (organization_id user_id : text) : atx () :=
  caller ← authorized req bootstrap authorization organization_id ManageMembers;
  _ ← lift (fail_if (negb (valid_uuid user_id)) NotFound);
  let actor := ControlActor.user_id (OrganizationActor.actor caller) in
  transaction Unavailable
    (_ ← lock_organization;
     caller_role ← member_role organization_id actor;
     _ ← lift (fail_if (negb (Role.allows caller_role ManageMembers)) Forbidden);
     target ← member_role organization_id user_id;
     _ ← lift (fail_if (bool_decide (caller_role = Admin) && privileged target) Forbidden);
     _ ← (if bool_decide (target = Owner) then require_another_owner organization_id user_id else mret ());
     let key := (uuid organization_id, uuid user_id) in
     affected ← statement Unavailable (fun db =>
       Ok (Db.memberships db !! key, Db.set_memberships (delete key) db));
     _ ← lift (fail_if (is_none affected) NotFound);
     insert_audit organization_id (Some actor) (txt "membership.removed") (txt "user") user_id (txt "succeeded")).

(** [list_members]: only those who manage the members see the open invitations. *)
Definition invitation_listed (now : Z) (organization_id : text) (i : Invitation.t) : bool :=
  bool_decide (Invitation.organization_id i = organization_id) && invitation_open i && (now <? Invitation.expires_at i)%Z.
Definition lowered_invitation (i : Invitation.t) : Invitation.t :=
  Invitation.Mk (Invitation.id i) (Invitation.organization_id i) (sql_lower (Invitation.email i)) (Invitation.role i)
    (Invitation.secret_hash i) (Invitation.invited_by i) (Invitation.expires_at i) (Invitation.accepted_at i)
    (Invitation.revoked_at i) (Invitation.created_at i).
Definition members_of (organization_id : text) (db : Db.t) : list (User.t * text) :=
  sort (fun a b => if decide (User.email a.1 = User.email b.1) then text_leb (User.id a.1) (User.id b.1)
                   else text_leb (User.email a.1) (User.email b.1))
    (omap (fun u => r ← Db.memberships db !! (organization_id, User.id u); Some (lowered u, r)) (Db.users db)).
Definition list_members (req : Request.t) (bootstrap : bool) (authorization : option text) (organization_id : text) :
    atx (list (User.t * Role) * list (Invitation.t * Role)) :=
  caller ← authorized req bootstrap authorization organization_id ReadProject;
  rows ← select Unavailable (members_of (uuid organization_id));
  members ← lift (mapM (fun ur : User.t * text => role ← ok_or Unavailable (Role.parse ur.2); Ok (ur.1, role)) rows);
  invitations ← (if Role.allows (OrganizationActor.role caller) ManageMembers then
      rows ← select Unavailable (fun db => map lowered_invitation (
        sort (fun a b => (Invitation.created_at a <? Invitation.created_at b)%Z
                         || (Invitation.created_at a =? Invitation.created_at b)%Z && text_leb (Invitation.id a) (Invitation.id b))
          (filter (fun i => invitation_listed (Request.now req) (uuid organization_id) i = true) (Db.invitations db))));
      lift (mapM (fun i : Invitation.t => role ← ok_or Unavailable (Role.parse (Invitation.role i)); Ok (i, role)) rows)
    else mret []);
  mret (members, invitations).

(** [list_audit]: the newest rows first, at most a hundred. *)
Definition list_audit (req : Request.t) (bootstrap : bool) (authorization : option text) (organization_id : text) :
    atx (list Audit.t) :=
  _ ← authorized req bootstrap authorization organization_id ReadAudit;
  select Unavailable (fun db =>
    take MAX_AUDIT_RESULTS (reverse (filter (fun a => Audit.organization_id a = uuid organization_id) (Db.audit_log db)))).
End auth.
