(* ===== verification/Membership.v ===== *)
(** Properties of authentication: every organization keeps an owner while the addresses of requests are lowered
    by the database as by the server, memberships change only by callers who are entitled to it and by invitations, and tokens
    and sessions work as long and as often as they should. *)

From S2P Require Import Prelude Text Json Identifiers Store Auth.

(** * The invariant *)

Definition owner : text := txt "owner".
Definition owned (organization_id : text) (db : Db.t) : Prop :=
  exists user_id, Db.memberships db !! (organization_id, user_id) = Some owner.

Section invariant.
Context {H : Sha256} {L : SqlLower}.

(** The address of a user as the database compares it. *)
Definition address (u : User.t) : text := sql_lower (User.email u).
Definition invited (i : Invitation.t) : text := sql_lower (Invitation.email i).

(** The tables are consistent: members are users, the addresses of attempts and invitations are lowered, an address
    has one open invitation per organization and no member of the organization has it, and an email identity belongs
    to the user of its address. *)
Record consistent (db : Db.t) : Prop := {
  ids_unique : NoDup (map User.id (Db.users db));
  members_are_users : forall o u, is_Some (Db.memberships db !! (o, u)) -> u ∈ map User.id (Db.users db);
  identity_addresses : forall e id, Db.identities db !! (txt "email", e) = Some id ->
    exists u, u ∈ Db.users db /\ User.id u = id /\ address u = e;
  addresses_lower : (forall a e, a ∈ Db.attempts db -> Attempt.email a = Some e -> sql_lower e = e)
    /\ (forall i, i ∈ Db.invitations db -> sql_lower (Invitation.email i) = Invitation.email i);
  one_open_invitation : forall i j, i ∈ Db.invitations db -> j ∈ Db.invitations db ->
    invitation_open i = true -> invitation_open j = true ->
    Invitation.organization_id i = Invitation.organization_id j -> invited i = invited j ->
    Invitation.id i = Invitation.id j;
  invited_are_no_members : forall i u, i ∈ Db.invitations db -> invitation_open i = true ->
    u ∈ Db.users db -> address u = invited i -> Db.memberships db !! (Invitation.organization_id i, User.id u) = None }.

(** An address that the database lowers as the server does: under the C collation every one, and an ASCII one unless
    the collation is Turkish. *)
Definition lowered_alike (s : text) : Prop := sql_lower (to_ascii_lowercase (trim s)) = to_ascii_lowercase (trim s).

Lemma normalized_lower s e : lowered_alike s -> normalize_email s = Ok e -> sql_lower e = e.
Proof. intros Hl. unfold normalize_email. destruct (valid_email _); [|done]. by intros [= <-]. Qed.

Definition Inv (o : text) (db : Db.t) : Prop := consistent db /\ owned o db.

(** * What the statements preserve *)

Lemma user_exists_elem id db : user_exists id db = true <-> id ∈ map User.id (Db.users db).
Proof.
  unfold user_exists. rewrite existsb_exists, list_elem_of_fmap. split.
  - intros (u & Hu & E%bool_decide_eq_true). exists u. split; [done|]. by apply list_elem_of_In.
  - intros (u & -> & Hu). exists u. split; [by apply list_elem_of_In|]. by apply bool_decide_eq_true.
Qed.

Lemma same_id db u v : NoDup (map User.id (Db.users db)) -> u ∈ Db.users db -> v ∈ Db.users db -> User.id u = User.id v -> u = v.
Proof.
  generalize (Db.users db). induction l as [|w l IH]; intros Hd Hu Hv E; [by apply not_elem_of_nil in Hu|].
  cbn in Hd. apply NoDup_cons in Hd as [Hw Hd]. apply elem_of_cons in Hu as [->|Hu]; apply elem_of_cons in Hv as [->|Hv]; auto.
  - destruct Hw. apply list_elem_of_fmap. by exists v.
  - destruct Hw. apply list_elem_of_fmap. by exists u.
Qed.

(** Tables that the invariant does not mention. *)
Lemma Inv_sessions o f db : Inv o db -> Inv o (Db.set_sessions f db).
Proof. intros [[] Ho]. split; [by split|done]. Qed.
Lemma Inv_audit o f db : Inv o db -> Inv o (Db.set_audit_log f db).
Proof. intros [[] Ho]. split; [by split|done]. Qed.

(** Attempts keep lowered addresses. *)
Lemma Inv_attempts o f db :
  (forall a e, a ∈ f (Db.attempts db) -> Attempt.email a = Some e -> sql_lower e = e) ->
  Inv o db -> Inv o (Db.set_attempts f db).
Proof. intros Hf [[? ? ? [? ?] ? ?] Ho]. split; [by split|done]. Qed.

Lemma elem_of_update_where {A} (p : A -> bool) f (l : list A) x :
  x ∈ update_where p f l -> exists y, y ∈ l /\ x = if p y then f y else y.
Proof. intros (y & -> & Hy)%list_elem_of_fmap. by exists y. Qed.

Lemma elem_of_delete_where {A} (p : A -> bool) (l : list A) x : x ∈ delete_where p l -> x ∈ l.
Proof. unfold delete_where. rewrite list_elem_of_filter. by intros [_ ?]. Qed.

Lemma Inv_consume o p now db : Inv o db -> Inv o (Db.set_attempts (update_where p (consume now)) db).
Proof.
  intros HI. apply Inv_attempts; [|done]. intros a e (b & Hb & ->)%elem_of_update_where Ha. destruct HI as [[] _].
  destruct (p b); by eapply addresses_lower0.
Qed.

Lemma Inv_delete_attempts o p db : Inv o db -> Inv o (Db.set_attempts (delete_where p) db).
Proof.
  intros HI. apply Inv_attempts; [|done]. intros a e Ha%elem_of_delete_where Hae. destruct HI as [[] _]. by eapply addresses_lower0.
Qed.

Lemma Inv_new_attempt o a db :
  (forall e, Attempt.email a = Some e -> sql_lower e = e) -> Inv o db -> Inv o (Db.set_attempts (fun l => l ++ [a]) db).
Proof.
  intros Ha HI. apply Inv_attempts; [|done]. intros b e [Hb| ->%list_elem_of_singleton]%elem_of_app Hbe; [|by apply Ha].
  destruct HI as [[] _]. by eapply addresses_lower0.
Qed.

Lemma Inv_insert_attempt o a r db db' :
  insert_attempt a db = Ok (r, db') -> (forall e, Attempt.email a = Some e -> sql_lower e = e) -> Inv o db -> Inv o db'.
Proof. unfold insert_attempt. destruct (existsb _ _); [done|]. intros [= _ <-] Ha HI. by apply Inv_new_attempt. Qed.

(** A new user has an id that no member has. *)
Lemma Inv_insert_user o id subject email db id' db' :
  insert_user id subject email db = Ok (id', db') -> Inv o db ->
  Inv o db' /\ id' = id /\ exists u, u ∈ Db.users db' /\ User.id u = id /\ User.email u = email.
Proof.
  unfold insert_user. destruct (_ || _) eqn:E; [done|]. intros [= <- <-] [[Hids Hmem Hid Hat Hone Hinv] Ho].
  apply orb_false_iff in E as [_ E]. assert (Hn : id ∉ map User.id (Db.users db)) by (rewrite <-user_exists_elem; by rewrite E).
  split; [|split; [done|]].
  - split; [|done]. split; cbn; try done.
    + rewrite map_app. apply NoDup_app. split_and!; [done| |by apply NoDup_singleton].
      intros x Hx ->%list_elem_of_singleton. done.
    + intros o' u Hu. rewrite map_app, elem_of_app. left. by eapply Hmem.
    + intros e i He. destruct (Hid e i He) as (u & Hu & H1 & H2). exists u. split_and!; [|done..]. apply elem_of_app. by left.
    + intros i u Hi Hopen [Hu| ->%list_elem_of_singleton]%elem_of_app Hadr; [by eapply Hinv|]. cbn.
      destruct (Db.memberships db !! _) eqn:Em; [|done]. destruct Hn. eapply Hmem. by rewrite Em.
  - eexists. split; [apply elem_of_app; right; by left|done].
Qed.

Lemma Inv_insert_identity o provider subject user_id db db' :
  insert_identity provider subject user_id db = Ok (tt, db') ->
  (provider = txt "email" -> exists u, u ∈ Db.users db /\ User.id u = user_id /\ address u = subject) ->
  Inv o db -> Inv o db'.
Proof.
  unfold insert_identity. destruct (_ || _); [done|]. intros [= <-] Hu [[Hids Hmem Hid Hat Hone Hinv] Ho].
  split; [|done]. split; cbn; try done. intros e i. rewrite lookup_insert_Some. intros [[[= -> ->] ->]|[_ He]]; [by apply Hu|by apply Hid].
Qed.

(** Fewer members are as consistent. *)
Lemma consistent_memberships f db :
  (forall k, is_Some (f (Db.memberships db) !! k) -> is_Some (Db.memberships db !! k)) ->
  consistent db -> consistent (Db.set_memberships f db).
Proof.
  intros Hf [Hids Hmem Hid Hat Hone Hinv]. split; cbn; try done.
  - intros o u Hu. eapply Hmem. by apply Hf.
  - intros i u Hi Hopen Hu Ha. specialize (Hinv i u Hi Hopen Hu Ha).
    destruct (f (Db.memberships db) !! _) eqn:E; [|done].
    destruct (Hf (Invitation.organization_id i, User.id u)) as [? E']; [by eexists|congruence].
Qed.

(** An update that closes invitations or leaves them as they are. *)
Definition closes (f : Invitation.t -> Invitation.t) : Prop := forall i,
  Invitation.id (f i) = Invitation.id i /\ Invitation.organization_id (f i) = Invitation.organization_id i
  /\ Invitation.email (f i) = Invitation.email i /\ (invitation_open (f i) = true -> invitation_open i = true).

Lemma consistent_close p f db : closes f -> consistent db -> consistent (Db.set_invitations (update_where p f) db).
Proof.
  intros Hf [Hids Hmem Hid [Hat Hin] Hone Hinv]. split; cbn; try done.
  - split; [done|]. intros i (i0 & Hi & ->)%elem_of_update_where. destruct (Hf i0) as (_ & _ & E3 & _).
    destruct (p i0); rewrite ?E3; by apply Hin.
  - intros i j (i0 & Hi & ->)%elem_of_update_where (j0 & Hj & ->)%elem_of_update_where.
    destruct (Hf i0) as (E1 & E2 & E3 & E4), (Hf j0) as (F1 & F2 & F3 & F4). unfold invited.
    destruct (p i0), (p j0); rewrite ?E1, ?E2, ?E3, ?F1, ?F2, ?F3; intros ? ?; eapply Hone; auto.
  - intros i u (i0 & Hi & ->)%elem_of_update_where. destruct (Hf i0) as (E1 & E2 & E3 & E4). unfold invited.
    destruct (p i0); rewrite ?E2, ?E3; intros ?; eapply Hinv; auto.
Qed.

Lemma Inv_close o p f db : closes f -> Inv o db -> Inv o (Db.set_invitations (update_where p f) db).
Proof. intros Hf [Hc Ho]. split; [by apply consistent_close|done]. Qed.

Lemma closes_revoked now : closes (set_invitation_revoked now).
Proof. intros i. split_and!; try done. unfold invitation_open. cbn. by rewrite andb_false_r. Qed.
Lemma closes_coalesce now : closes (coalesce_revoked now).
Proof. intros i. unfold coalesce_revoked. destruct (Invitation.revoked_at i); [done|apply closes_revoked]. Qed.
Lemma closes_accepted now : closes (set_invitation_accepted now).
Proof. intros i. by split_and!. Qed.

(** An accepted invitation makes the user of its address a member, who was none before. *)
Lemma Inv_accept o i uid now db :
  Inv o db -> i ∈ Db.invitations db -> invitation_open i = true ->
  (exists u, u ∈ Db.users db /\ User.id u = uid /\ address u = invited i) ->
  Inv o (Db.set_invitations (update_where (has_id (Invitation.id i)) (set_invitation_accepted now))
           (Db.set_memberships <[(Invitation.organization_id i, uid) := Invitation.role i]> db)).
Proof.
  intros [[Hids Hmem Hid [Hat Hin] Hone Hinv] [w Hw]] Hi Hopen (u & Hu & Huid & Ha).
  assert (Hnone : Db.memberships db !! (Invitation.organization_id i, uid) = None) by (rewrite <-Huid; by apply Hinv).
  assert (Hopened : forall j0, invitation_open (if has_id (Invitation.id i) j0 then set_invitation_accepted now j0 else j0) = true ->
    invitation_open j0 = true /\ Invitation.id j0 <> Invitation.id i).
  { intros j0. destruct (has_id (Invitation.id i) j0) eqn:E; [done|]. unfold has_id in E. by apply bool_decide_eq_false in E. }
  assert (Hsame : forall j0 : Invitation.t, let j := if has_id (Invitation.id i) j0 then set_invitation_accepted now j0 else j0 in
    Invitation.id j = Invitation.id j0 /\ Invitation.organization_id j = Invitation.organization_id j0 /\ invited j = invited j0).
  { intros j0. cbn zeta. by destruct (has_id _ j0). }
  split.
  - split; cbn; try done.
    + intros o' v. rewrite lookup_insert_is_Some. intros [[= _ <-]|[_ Hv]]; [|by eapply Hmem].
      apply list_elem_of_fmap. by exists u.
    + split; [done|]. intros j (j0 & Hj & ->)%elem_of_update_where. destruct (has_id _ j0); exact (Hin j0 Hj).
    + intros j k (j0 & Hj & ->)%elem_of_update_where (k0 & Hk & ->)%elem_of_update_where.
      intros [Oj _]%Hopened [Ok' _]%Hopened. destruct (Hsame j0) as (-> & -> & ->), (Hsame k0) as (-> & -> & ->). by apply Hone.
    + intros j v (j0 & Hj & ->)%elem_of_update_where [Oj Hne]%Hopened Hv.
      destruct (Hsame j0) as (_ & -> & ->). intros Hav. rewrite lookup_insert_ne; [by apply Hinv|].
      intros [= Eo Ev]. apply Hne. apply Hone; try done. rewrite <-Hav. rewrite <-Ha.
      f_equal. f_equal. apply (same_id db); [done..|congruence].
  - exists w. cbn. rewrite lookup_insert_ne; [done|]. intros E. rewrite <-E in Hw. congruence.
Qed.

(** A new invitation is for an address that no member has. *)
Lemma Inv_insert_invitation o i db r db' :
  invited i = Invitation.email i -> insert_invitation i db = Ok (r, db') -> Inv o db -> Inv o db'.
Proof.
  intros Hi. unfold insert_invitation. destruct (member_with_email _ _ _) eqn:Em; [by intros [= <- <-]|].
  destruct (existsb _ _) eqn:Es; [done|]. intros [= <- <-] [[Hids Hmem Hid [Hat Hin] Hone Hinv] Ho].
  assert (Hs : forall j, j ∈ Db.invitations db -> invitation_open j = true ->
    Invitation.organization_id i = Invitation.organization_id j -> invited i = invited j -> False).
  { intros j Hj Oj E1 E2. apply not_true_iff_false in Es. apply Es, existsb_exists. exists j.
    split; [by apply list_elem_of_In|]. unfold same_open. rewrite Oj, E1. unfold invited in E2. rewrite E2.
    apply orb_true_iff. right. by rewrite !bool_decide_true by done. }
  split; [|done]. split; cbn; try done.
  - split; [done|]. intros j [Hj| ->%list_elem_of_singleton]%elem_of_app; [by apply Hin|exact Hi].
  - intros j k [Hj| ->%list_elem_of_singleton]%elem_of_app [Hk| ->%list_elem_of_singleton]%elem_of_app Oj Ok' E1 E2; auto.
    + destruct (Hs j); auto.
    + destruct (Hs k); auto.
  - intros j u [Hj| ->%list_elem_of_singleton]%elem_of_app Oj Hu Ha; [by apply Hinv|].
    unfold member_with_email in Em. apply not_true_iff_false in Em. destruct (Db.memberships db !! _) eqn:E; [|done].
    destruct Em. apply existsb_exists. exists u. split; [by apply list_elem_of_In|].
    rewrite E. unfold address in Ha. rewrite Ha, Hi. by rewrite bool_decide_true.
Qed.

(** * What the programs preserve *)

(** [db] is consistent, keeps the owner, and has these invitations. *)
Definition InvL (o : text) (l : list Invitation.t) (db : Db.t) : Prop := Inv o db /\ Db.invitations db = l.

Lemma insert_identity_session_triple o l req provider subject email token :
  sql_lower email = email -> (provider = txt "email" -> subject = email) ->
  triple (InvL o l) (insert_identity_session req provider subject email token)
    (fun r db => InvL o l db /\ (provider = txt "email" -> exists u, u ∈ Db.users db /\ User.id u = r.1 /\ address u = email))
    (fun _ => InvL o l).
Proof.
  intros Hlow Hsub. unfold insert_identity_session.
  eapply triple_bind; [by apply preserves_lift|]. intros ?. cbn beta.
  eapply triple_bind; [by apply preserves_execute|]. intros ?. cbn beta.
  eapply (triple_bind _ _ _ _ _ (fun i db => InvL o l db /\ Db.identities db !! (provider, subject) = i));
    [by apply triple_select|]. intros identity.
  eapply (triple_bind _ _ _ _ _ (fun uid db => InvL o l db
    /\ (provider = txt "email" -> exists u, u ∈ Db.users db /\ User.id u = uid /\ address u = email))).
  - destruct identity as [uid|].
    + apply triple_ret. intros db [[HI Hl] Hid]. split; [done|]. intros ->. destruct HI as [[] _].
      apply identity_addresses0 in Hid as (u & Hu & Hi & Ha). exists u. by rewrite Ha, Hsub.
    + eapply (triple_bind _ _ _ _ _ (fun found db => InvL o l db
        /\ forall u, found = Some u -> u ∈ Db.users db /\ address u = email)).
      { apply triple_select; [by intros db []|]. intros db [HI _]. split; [done|]. intros u Hu. unfold user_with_email in Hu.
        apply find_some in Hu as [Hin Hu]. split; [by apply list_elem_of_In|]. by apply bool_decide_eq_true in Hu. }
      intros found. eapply (triple_bind _ _ _ _ _ (fun uid db => InvL o l db
        /\ exists u, u ∈ Db.users db /\ User.id u = uid /\ address u = email)).
      * destruct found as [u|].
        -- apply triple_ret. intros db [HI Hu]. split; [done|]. exists u. destruct (Hu u eq_refl). done.
        -- apply triple_statement; [by intros db []| |by intros db e []]. intros db uid db' [[HI Hl] _] Hins.
           pose proof Hins as Hl'. destruct (Inv_insert_user _ _ _ _ _ _ _ Hins HI) as (HI' & -> & u & Hu & Hi & He).
           unfold insert_user in Hl'. destruct (_ || _); [done|]. injection Hl' as <-.
           split; [done|]. exists u. split_and!; [done|done|]. unfold address. by rewrite He.
      * intros uid. eapply (triple_bind _ _ _ _ _ (fun _ db => InvL o l db
          /\ exists u, u ∈ Db.users db /\ User.id u = uid /\ address u = email)).
        { apply triple_statement; [by intros db []| |by intros db e []]. intros db [] db' [[HI Hl] Hu] Hins.
          assert (HI' : Inv o db') by (eapply Inv_insert_identity; [exact Hins| |done]; intros Hp; by rewrite Hsub).
          unfold insert_identity in Hins. destruct (_ || _); [done|]. injection Hins as <-. split; [done|exact Hu]. }
        intros _. apply triple_ret. intros db [HI Hu]. split; [done|]. by intros _.
  - intros uid. cbn beta zeta. eapply (triple_bind _ _ _ _ _ (fun _ db => InvL o l db
      /\ (provider = txt "email" -> exists u, u ∈ Db.users db /\ User.id u = uid /\ address u = email))).
    + apply triple_statement; [by intros db []| |by intros db e []]. intros db x db' [[HI Hl] Hu] Hins.
      unfold insert_session in Hins. destruct (existsb _ _); [done|]. injection Hins as _ <-.
      split; [|done]. split; [by apply Inv_sessions|done].
    + intros _. apply triple_ret. done.
Qed.

Lemma session_actor_preserves o now authorization : preserves (Inv o) (session_actor now authorization).
Proof. unfold session_actor. preserve. simplify_eq. by apply Inv_sessions. Qed.

Lemma authenticate_preserves o now bootstrap authorization : preserves (Inv o) (authenticate now bootstrap authorization).
Proof. unfold authenticate. destruct bootstrap; [preserve|apply session_actor_preserves]. Qed.

Lemma authorized_preserves o req bootstrap authorization organization_id permission :
  preserves (Inv o) (authorized req bootstrap authorization organization_id permission).
Proof.
  unfold authorized, as_api. apply preserves_map_error, preserves_bind; [apply authenticate_preserves|]. intros actor.
  unfold authorize_organization. preserve.
Qed.

Lemma audit_preserves o organization_id actor action target_type target_id outcome :
  preserves (Inv o) (audit organization_id actor action target_type target_id outcome).
Proof. unfold audit, insert_audit. preserve. by apply Inv_audit. Qed.

Lemma audit_all_preserves o user_id action target_type target_id outcome :
  preserves (Inv o) (audit_all_organizations user_id action target_type target_id outcome).
Proof. unfold audit_all_organizations. preserve. by apply Inv_audit. Qed.

Lemma prune_preserves o now : preserves (Inv o) (prune_login_attempts now).
Proof. unfold prune_login_attempts. preserve. by apply Inv_delete_attempts. Qed.

Lemma create_identity_session_preserves o req provider subject email :
  sql_lower email = email -> (provider = txt "email" -> subject = email) ->
  preserves (Inv o) (create_identity_session req provider subject email).
Proof.
  intros Hlow Hsub. unfold create_identity_session. apply preserves_bind; [apply preserves_lift|]. intros token.
  apply preserves_bind; [|intros [user_id session]; unfold user_view, memberships; preserve].
  apply preserves_transaction. intros os db HI.
  pose proof (insert_identity_session_triple o (Db.invitations db) req provider subject email token Hlow Hsub os db) as Ht.
  destruct (insert_identity_session _ _ _ _ _ os db) as [[[r|e] db'] os']; [|done]. by destruct Ht as [[? _] _].
Qed.

Lemma consume_login_triple o now kind token :
  triple (Inv o) (consume_login now kind token)
    (fun e db => Inv o db /\ forall x, e = Some x -> sql_lower x = x) (fun _ => Inv o).
Proof.
  unfold consume_login. eapply (triple_bind _ _ _ _ _ (fun a db => Inv o db /\ forall r x, a = Some r -> Attempt.email r = Some x -> sql_lower x = x)).
  - apply triple_statement; [done| |done]. intros db a db' HI [= <- <-]. split; [by apply Inv_consume|].
    intros r x [Hr _]%find_some. destruct HI as [[] _]. apply addresses_lower0. by apply list_elem_of_In.
  - intros a. eapply (triple_bind _ _ _ _ _ (fun r db => Inv o db /\ forall x, Attempt.email r = Some x -> sql_lower x = x)).
    + apply triple_lift; [|by intros db e []]. intros db r [HI Hr] ->%ok_or_Ok. split; [done|]. intros x. by apply Hr.
    + intros r. by apply triple_ret.
Qed.

Lemma github_email_given emails a : github_email emails = Some a -> exists e, e ∈ emails /\ Github.address e = a.
Proof.
  unfold github_email. destruct (List.find _ emails) as [e|] eqn:Ee; [|done]. intros [= <-]. exists e. split; [|done].
  apply find_some in Ee as [He _]. by apply list_elem_of_In.
Qed.

Lemma complete_github_preserves o req code state github :
  (forall emails e, Github.emails github = Ok emails -> e ∈ emails -> lowered_alike (Github.address e)) -> preserves (Inv o) (complete_github req code state github).
Proof.
  intros Hl. unfold complete_github. apply preserves_bind; [apply preserves_lift|]. intros _.
  apply preserves_bind; [eapply triple_conseq; [apply consume_login_triple|done|by intros ? ? []|done]|]. intros _.
  apply preserves_bind; [apply preserves_lift|]. intros token. apply preserves_bind; [apply preserves_lift|]. intros _.
  apply preserves_bind; [apply preserves_lift|]. intros user_id.
  apply (triple_bind _ _ _ _ _ (fun emails db => Inv o db /\ Github.emails github = Ok emails)); [by apply triple_lift|]. intros emails.
  apply triple_pure. intros Hemails.
  eapply (triple_bind _ _ _ _ _ (fun e db => Inv o db /\ sql_lower e = e)).
  - apply triple_lift; [|done]. intros db e HI He. split; [done|]. destruct (github_email emails) as [a|] eqn:Ea; [|done].
    cbn in He. destruct (github_email_given _ _ Ea) as (g & Hg & <-). eapply normalized_lower; [by eapply (Hl emails)|done].
  - intros email os db [HI Hlow].
    assert (Hp : preserves (Inv o) (session ← create_identity_session req (txt "github") (fmt_dec user_id) email;
      _ ← audit_all_organizations (User.id (SessionCreated.user session)) (txt "session.created") (txt "session")
            (Session.id (SessionCreated.session session)) (txt "succeeded"); mret session)).
    { apply preserves_bind; [by apply create_identity_session_preserves|]. intros session.
      apply preserves_bind; [apply audit_all_preserves|]. intros _. apply preserves_ret. }
    by apply Hp.
Qed.

Lemma verify_email_preserves o req token : preserves (Inv o) (verify_email req token).
Proof.
  unfold verify_email. apply preserves_bind; [apply preserves_lift|]. intros _.
  eapply triple_bind; [apply consume_login_triple|]. intros e. cbn beta.
  eapply (triple_bind _ _ _ _ _ (fun e db => Inv o db /\ sql_lower e = e)).
  - apply triple_lift; [|by intros db x []]. intros db x [HI Hx] ->%ok_or_Ok. split; [done|]. by apply Hx.
  - intros email os db [HI Hlow].
    assert (Hp : preserves (Inv o) (session ← create_identity_session req (txt "email") email email;
      _ ← audit_all_organizations (User.id (SessionCreated.user session)) (txt "session.created") (txt "session")
            (Session.id (SessionCreated.session session)) (txt "succeeded"); mret session)).
    { apply preserves_bind; [by apply create_identity_session_preserves|]. intros session.
      apply preserves_bind; [apply audit_all_preserves|]. intros _. apply preserves_ret. }
    by apply Hp.
Qed.

Lemma start_github_preserves o req : preserves (Inv o) (start_github req).
Proof.
  unfold start_github. apply preserves_bind; [apply prune_preserves|]. intros _. preserve. by eapply Inv_insert_attempt.
Qed.

Lemma start_email_preserves o req requested : lowered_alike requested -> preserves (Inv o) (start_email req requested).
Proof.
  intros Hl. unfold start_email.
  eapply (triple_bind _ _ _ _ _ (fun e db => Inv o db /\ sql_lower e = e)).
  { apply triple_lift; [|done]. intros db e HI He. split; [done|]. by eapply normalized_lower. }
  intros email os db [HI Hlow]. revert os db HI.
  change (preserves (Inv o) (_ ← prune_login_attempts (Request.now req);
    token ← lift (new_secret EMAIL_TOKEN_PREFIX (Request.random req));
    attempt_id ← transaction_if (fun id => negb (is_none id)) Unavailable
      (_ ← execute Unavailable id;
       count ← select Unavailable (fun db => length (filter (fun a => recent (Request.now req) email a = true) (Db.attempts db)));
       if (MAX_EMAIL_ATTEMPTS <=? count)%nat then mret None
       else
         _ ← statement Unavailable (insert_attempt
               {| Attempt.id := Request.new_attempt req; Attempt.kind := txt "email"; Attempt.secret_hash := hash token;
                  Attempt.email := Some email; Attempt.expires_at := (Request.now req + minutes 15)%Z; Attempt.consumed_at := None;
                  Attempt.created_at := Request.now req |});
         mret (Some (Request.new_attempt req)));
    match attempt_id with
    | None => mret ()
    | Some attempt_id =>
        delivered ← remote;
        if delivered : bool then mret ()
        else
          _ ← ignoring (execute (E := ApiError) Unavailable
                (Db.set_attempts (delete_where (fun a => bool_decide (Attempt.id a = attempt_id)))));
          raise Unavailable
    end)).
  apply preserves_bind; [apply prune_preserves|]. intros _. apply preserves_bind; [apply preserves_lift|]. intros token.
  apply preserves_bind.
  - apply triple_transaction_if; [done|done|]. apply (triple_conseq _ (Inv o) _ _ (fun _ => Inv o) _ (fun _ => Inv o)); [|done..].
    preserve. eapply Inv_insert_attempt; [done| |done]. cbn. by intros e [= <-].
  - intros [attempt_id|]; preserve. by apply Inv_delete_attempts.
Qed.

Lemma revoke_session_preserves o now bootstrap authorization session_id :
  preserves (Inv o) (revoke_session now bootstrap authorization session_id).
Proof.
  unfold revoke_session, as_api. apply preserves_bind; [apply preserves_map_error, authenticate_preserves|]. intros actor.
  apply preserves_bind; [apply preserves_lift|]. intros _. cbv zeta. apply preserves_bind.
  - apply preserves_statement. intros db a db' HI [= <- <-]. by apply Inv_sessions.
  - intros n. apply preserves_bind; [apply preserves_lift|]. intros _. apply audit_all_preserves.
Qed.

Lemma create_invitation_preserves o req bootstrap authorization organization_id requested role :
  lowered_alike requested -> preserves (Inv o) (create_invitation req bootstrap authorization organization_id requested role).
Proof.
  intros Hl. unfold create_invitation. apply preserves_bind; [apply authorized_preserves|]. intros caller.
  apply preserves_bind; [apply preserves_lift|]. intros _.
  eapply (triple_bind _ _ _ _ _ (fun e db => Inv o db /\ sql_lower e = e)).
  { apply triple_lift; [|done]. intros db e HI He. split; [done|]. by eapply normalized_lower. }
  intros email. cbv zeta.
  eapply (triple_bind _ _ _ _ _ (fun _ db => Inv o db /\ sql_lower email = email)).
  { apply triple_lift; [done|by intros ? ? []]. }
  intros token. eapply (triple_bind _ _ _ _ _ (fun _ => Inv o)).
  { apply triple_statement; [by intros ? []| |by intros ? ? []]. intros db a db' [HI Hlow] Hins.
    eapply Inv_insert_invitation; [|exact Hins|done]. done. }
  intros row. apply preserves_bind; [apply preserves_lift|]. intros i. apply preserves_bind; [apply preserves_remote|].
  intros [].
  - apply preserves_bind; [apply audit_preserves|]. intros _. apply preserves_ret.
  - apply preserves_bind; [preserve; by apply Inv_close; [apply closes_revoked|]|]. intros _.
    apply preserves_bind; [apply audit_preserves|]. intros _. apply preserves_lift.
Qed.

Lemma revoke_invitation_preserves o req bootstrap authorization organization_id invitation_id :
  preserves (Inv o) (revoke_invitation req bootstrap authorization organization_id invitation_id).
Proof.
  unfold revoke_invitation. apply preserves_bind; [apply authorized_preserves|]. intros caller.
  apply preserves_bind; [apply preserves_lift|]. intros _. cbv zeta. apply preserves_bind.
  - apply preserves_statement. intros db a db' HI [= <- <-]. apply Inv_close; [apply closes_coalesce|done].
  - intros n. apply preserves_bind; [apply preserves_lift|]. intros _. apply audit_preserves.
Qed.

Lemma accept_invitation_preserves o req token : preserves (Inv o) (accept_invitation req token).
Proof.
  unfold accept_invitation. apply preserves_bind; [apply preserves_lift|]. intros _.
  apply preserves_bind; [apply preserves_lift|]. intros session_token.
  apply preserves_bind; [|intros [user_id session]; unfold user_view, memberships; preserve].
  apply preserves_transaction. intros os db HI.
  enough (Ht : triple (InvL o (Db.invitations db))
    (row ← select Unavailable (fun db => List.find (acceptable (Request.now req) token) (Db.invitations db));
     i ← lift (ok_or NotFound row);
     let email := sql_lower (Invitation.email i) in
     row ← insert_identity_session req (txt "email") email email session_token;
     let '(user_id, session) := row : text * Session.t in
     _ ← execute Unavailable (Db.set_memberships <[(Invitation.organization_id i, user_id) := Invitation.role i]>);
     _ ← execute Unavailable (Db.set_invitations (update_where (has_id (Invitation.id i)) (set_invitation_accepted (Request.now req))));
     _ ← insert_audit (Invitation.organization_id i) (Some user_id) (txt "invitation.accepted") (txt "invitation")
           (Invitation.id i) (txt "succeeded");
     mret (user_id, session)) (fun _ => Inv o) (fun _ _ => True)) by (apply (Ht os db); done).
  set (l := Db.invitations db). destruct HI as [[_ _ _ [_ Hlow] _ _] _].
  eapply (triple_bind _ _ _ _ _ (fun row db => InvL o l db /\ forall i, row = Some i -> i ∈ l /\ invitation_open i = true)).
  { apply triple_select; [done|]. intros db' [HI' Hl']. split; [done|]. intros i [Hi Ha]%find_some. rewrite Hl' in Hi.
    split; [by apply list_elem_of_In|]. unfold acceptable in Ha. by apply andb_prop in Ha as [[_ ?]%andb_prop _]. }
  intros row. eapply (triple_bind _ _ _ _ _ (fun i db => InvL o l db /\ i ∈ l /\ invitation_open i = true)).
  { apply triple_lift; [|done]. intros db' i [HI' Hr] ->%ok_or_Ok. split; [done|]. by apply Hr. }
  intros i os' db' [HI' [Hi Hopen]]. cbv zeta. revert os' db' HI'.
  apply (triple_bind _ _ _ _ _ (fun r db => InvL o l db
    /\ (txt "email" = txt "email" -> exists u, u ∈ Db.users db /\ User.id u = r.1 /\ address u = invited i))).
  { eapply triple_conseq; [apply (insert_identity_session_triple o l)|done|done|done]; [|done]. by rewrite !(Hlow i Hi). }
  intros [uid session]. cbn [fst].
  eapply (triple_bind _ _ _ _ _ (fun _ db1 => exists db0, Inv o db0 /\ Db.invitations db0 = l
    /\ (exists u, u ∈ Db.users db0 /\ User.id u = uid /\ address u = invited i)
    /\ db1 = Db.set_memberships <[(Invitation.organization_id i, uid) := Invitation.role i]> db0)).
  { apply triple_execute; [done|]. intros db1 [[HI1 Hl1] Hu]. exists db1. split_and!; auto. }
  intros _. eapply (triple_bind _ _ _ _ _ (fun _ => Inv o)).
  { apply triple_execute; [done|]. intros db1 (db0 & HI0 & Hl0 & Hu & ->). apply Inv_accept; try done. by rewrite Hl0. }
  intros _. eapply (triple_bind _ _ _ _ _ (fun _ => Inv o)).
  { apply triple_execute; [done|]. intros db1 HI1. by apply Inv_audit. }
  intros _. by apply triple_ret.
Qed.

(** * Members *)

(** The role that a member has in the tables. *)
Definition member (organization_id user_id : text) (r : Role) (db : Db.t) : Prop :=
  exists t, Db.memberships db !! (uuid organization_id, uuid user_id) = Some t /\ Role.parse t = Some r.

Lemma member_role_triple (P : Db.t -> Prop) organization_id user_id :
  triple P (member_role organization_id user_id)
    (fun r db => P db /\ member organization_id user_id r db) (fun _ => P).
Proof.
  unfold member_role. eapply (triple_bind _ _ _ _ _ (fun t db => P db /\ Db.memberships db !! (uuid organization_id, uuid user_id) = t)).
  { by apply triple_select. }
  intros t. eapply (triple_bind _ _ _ _ _ (fun t db => P db /\ Db.memberships db !! (uuid organization_id, uuid user_id) = Some t)).
  { apply triple_lift; [|by intros ? ? []]. by intros db t' [HP Ht] ->%ok_or_Ok. }
  intros t'. apply triple_lift; [|by intros ? ? []]. intros db r [HP Ht] Hr%ok_or_Ok. split; [done|]. by exists t'.
Qed.

Lemma require_another_owner_triple (P : Db.t -> Prop) organization_id user_id :
  triple P (require_another_owner organization_id user_id)
    (fun _ db => P db /\ exists w, w <> uuid user_id /\ Db.memberships db !! (uuid organization_id, w) = Some owner) (fun _ => P).
Proof.
  unfold require_another_owner.
  eapply (triple_bind _ _ _ _ _ (fun n db => P db /\ other_owners organization_id user_id db = n)); [by apply triple_select|].
  intros n. apply triple_lift; [|by intros ? ? []]. intros db [] [HP Hn] Hf%fail_if_Ok. split; [done|].
  apply Nat.eqb_neq in Hf. unfold other_owners in Hn. destruct (filter _ _) as [|[[o' w] t] l] eqn:E; [by cbn in Hn|].
  assert (Hin : (o', w, t) ∈ (o', w, t) :: l) by left. rewrite <-E in Hin. apply list_elem_of_filter in Hin as [(Ho & Hw & Ht) Hin].
  cbn in *. subst. exists w. split; [done|]. by apply elem_of_map_to_list in Hin.
Qed.

Lemma parse_owner t : Role.parse t = Some Owner <-> t = owner.
Proof. unfold Role.parse. repeat case_decide; subst; split; done || (intros ?; congruence). Qed.

(** A change of one member keeps an owner, when another is there whenever that member was one. *)
Lemma owned_change o (key : text * text) f db :
  owned o db ->
  (fst key = o -> Db.memberships db !! key = Some owner -> f (Db.memberships db) !! key <> Some owner ->
   exists w, w <> snd key /\ Db.memberships db !! (o, w) = Some owner) ->
  (forall k, k <> key -> f (Db.memberships db) !! k = Db.memberships db !! k) ->
  owned o (Db.set_memberships f db).
Proof.
  intros [w Hw] Hkey Hf. unfold owned. cbn. destruct (decide ((o, w) = key)) as [<-|Hne].
  - destruct (decide (f (Db.memberships db) !! (o, w) = Some owner)) as [E|E]; [by exists w|].
    destruct (Hkey eq_refl Hw E) as (w' & Hne & Hw'). exists w'. rewrite Hf; [done|]. cbn in Hne. congruence.
  - exists w. by rewrite Hf.
Qed.

Lemma parse_as_str r : Role.parse (Role.as_str r) = Some r.
Proof. by destruct r. Qed.

Lemma update_member_preserves o req bootstrap authorization organization_id user_id role :
  preserves (Inv o) (update_member req bootstrap authorization organization_id user_id role).
Proof.
  unfold update_member. apply preserves_bind; [apply authorized_preserves|]. intros caller.
  apply preserves_bind; [apply preserves_lift|]. intros _. cbv zeta.
  apply preserves_bind; [|intros _; unfold member_view; preserve].
  apply preserves_transaction.
  eapply (triple_bind _ _ _ _ _ (fun _ => Inv o)); [by apply triple_execute|]. intros _.
  eapply triple_bind; [eapply triple_conseq; [apply (member_role_triple (Inv o))|done|done|done]|]. intros caller_role.
  cbn beta. eapply (triple_bind _ _ _ _ _ (fun _ => Inv o)); [by apply triple_lift; [by intros ? ? []|]|]. intros _.
  eapply triple_bind; [eapply triple_conseq; [apply (member_role_triple (Inv o))|done|done|done]|]. intros target.
  cbn beta. eapply (triple_bind _ _ _ _ _ (fun _ db => Inv o db /\ member organization_id user_id target db));
    [by apply triple_lift|]. intros _.
  eapply (triple_bind _ _ _ _ _ (fun _ db => (Inv o db /\ member organization_id user_id target db)
    /\ (target = Owner -> role <> Owner -> exists w, w <> uuid user_id /\ Db.memberships db !! (uuid organization_id, w) = Some owner))).
  { apply triple_if.
    - intros _. eapply triple_conseq; [apply (require_another_owner_triple (fun db => Inv o db /\ member organization_id user_id target db))|done| |done].
      intros _ db [HP Hw]. split; [done|]. by intros _ _.
    - intros Hc. apply triple_ret. intros db HP. split; [done|]. intros -> Hne. apply andb_false_iff in Hc as [Hc|Hc].
      + by apply bool_decide_eq_false in Hc.
      + by apply negb_false_iff, bool_decide_eq_true in Hc. }
  intros _. eapply (triple_bind _ _ _ _ _ (fun _ => Inv o)).
  { apply triple_statement; [done| |done]. intros db a db' [[[Hc Ho] (t & Ht & Hp)] Hw] [= <- <-]. split.
    - apply consistent_memberships; [|done]. intros k. rewrite lookup_alter_is_Some. done.
    - apply (owned_change o (uuid organization_id, uuid user_id)); [done| |].
      + cbn [fst snd]. intros <- Hk Hnew. rewrite lookup_alter_eq, Hk in Hnew. assert (E : t = owner) by congruence.
        apply parse_owner in E. apply Hw; [congruence|]. intros ->. by destruct Hnew.
      + intros k Hk. by rewrite lookup_alter_ne. }
  intros affected. eapply (triple_bind _ _ _ _ _ (fun _ => Inv o)); [by apply triple_lift|]. intros _.
  unfold insert_audit. apply triple_execute; [done|]. intros db HI. by apply Inv_audit.
Qed.

Lemma remove_member_preserves o req bootstrap authorization organization_id user_id :
  preserves (Inv o) (remove_member req bootstrap authorization organization_id user_id).
Proof.
  unfold remove_member. apply preserves_bind; [apply authorized_preserves|]. intros caller.
  apply preserves_bind; [apply preserves_lift|]. intros _. cbv zeta. apply preserves_transaction.
  eapply (triple_bind _ _ _ _ _ (fun _ => Inv o)); [by apply triple_execute|]. intros _.
  eapply triple_bind; [eapply triple_conseq; [apply (member_role_triple (Inv o))|done|done|done]|]. intros caller_role.
  cbn beta. eapply (triple_bind _ _ _ _ _ (fun _ => Inv o)); [by apply triple_lift; [by intros ? ? []|]|]. intros _.
  eapply triple_bind; [eapply triple_conseq; [apply (member_role_triple (Inv o))|done|done|done]|]. intros target.
  cbn beta. eapply (triple_bind _ _ _ _ _ (fun _ db => Inv o db /\ member organization_id user_id target db));
    [by apply triple_lift|]. intros _.
  eapply (triple_bind _ _ _ _ _ (fun _ db => (Inv o db /\ member organization_id user_id target db)
    /\ (target = Owner -> exists w, w <> uuid user_id /\ Db.memberships db !! (uuid organization_id, w) = Some owner))).
  { apply triple_if.
    - intros _. eapply triple_conseq; [apply (require_another_owner_triple (fun db => Inv o db /\ member organization_id user_id target db))|done| |done].
      intros _ db [HP Hw]. by split.
    - intros Hc. apply triple_ret. intros db HP. split; [done|]. intros ->. by apply bool_decide_eq_false in Hc. }
  intros _. eapply (triple_bind _ _ _ _ _ (fun _ => Inv o)).
  { apply triple_statement; [done| |done]. intros db a db' [[[Hc Ho] (t & Ht & Hp)] Hw] [= <- <-]. split.
    - apply consistent_memberships; [|done]. intros k. rewrite lookup_delete_is_Some. by intros [_ ?].
    - apply (owned_change o (uuid organization_id, uuid user_id)); [done| |].
      + cbn [fst snd]. intros <- Hk _. assert (E : t = owner) by congruence. apply parse_owner in E. apply Hw. congruence.
      + intros k Hk. by rewrite lookup_delete_ne. }
  intros affected. eapply (triple_bind _ _ _ _ _ (fun _ => Inv o)); [by apply triple_lift|]. intros _.
  unfold insert_audit. apply triple_execute; [done|]. intros db HI. by apply Inv_audit.
Qed.

(** * The service *)

(** The requests that change the tables, with what they bring. *)
Inductive Operation : Type :=
| StartGithub (req : Request.t)
| CompleteGithub (req : Request.t) (code state : text) (github : Github.t)
| StartEmail (req : Request.t) (email : text)
| VerifyEmail (req : Request.t) (token : text)
| GetSession (req : Request.t) (bootstrap : bool) (authorization : option text)
| RevokeSession (req : Request.t) (bootstrap : bool) (authorization : option text) (session_id : text)
| CreateInvitation (req : Request.t) (bootstrap : bool) (authorization : option text) (organization_id email : text) (role : Role)
| RevokeInvitation (req : Request.t) (bootstrap : bool) (authorization : option text) (organization_id invitation_id : text)
| AcceptInvitation (req : Request.t) (token : text)
| UpdateMember (req : Request.t) (bootstrap : bool) (authorization : option text) (organization_id user_id : text) (role : Role)
| RemoveMember (req : Request.t) (bootstrap : bool) (authorization : option text) (organization_id user_id : text).

Definition forget {A} (m : atx A) : atx () := _ ← m; mret ().
Definition handle (op : Operation) : atx () :=
  match op with
  | StartGithub req => forget (start_github req)
  | CompleteGithub req code state github => forget (complete_github req code state github)
  | StartEmail req email => start_email req email
  | VerifyEmail req token => forget (verify_email req token)
  | GetSession req bootstrap authorization => forget (get_session (Request.now req) bootstrap authorization)
  | RevokeSession req bootstrap authorization session_id => revoke_session (Request.now req) bootstrap authorization session_id
  | CreateInvitation req bootstrap authorization organization_id email role =>
      forget (create_invitation req bootstrap authorization organization_id email role)
  | RevokeInvitation req bootstrap authorization organization_id invitation_id =>
      revoke_invitation req bootstrap authorization organization_id invitation_id
  | AcceptInvitation req token => forget (accept_invitation req token)
  | UpdateMember req bootstrap authorization organization_id user_id role =>
      forget (update_member req bootstrap authorization organization_id user_id role)
  | RemoveMember req bootstrap authorization organization_id user_id =>
      remove_member req bootstrap authorization organization_id user_id
  end.

(** A request is served, with some outcomes of its statements; requests are served in any order. *)
Inductive served : Db.t -> Db.t -> Prop :=
| Served op outcomes db r db' rest : handle op outcomes db = (r, db', rest) -> served db db'.
Inductive reachable (db : Db.t) : Db.t -> Prop :=
| Start : reachable db db
| Then db1 db2 : reachable db db1 -> served db1 db2 -> reachable db db2.

(** The addresses that a request names are lowered by the database as by the server, and requests of that kind. *)
Definition names_alike (op : Operation) : Prop :=
  match op with
  | StartEmail _ email | CreateInvitation _ _ _ _ email _ => lowered_alike email
  | CompleteGithub _ _ _ github => forall emails e, Github.emails github = Ok emails -> e ∈ emails -> lowered_alike (Github.address e)
  | _ => True
  end.
Inductive reachable_alike (db : Db.t) : Db.t -> Prop :=
| StartAlike : reachable_alike db db
| ThenAlike db1 op outcomes r db2 rest :
    reachable_alike db db1 -> names_alike op -> handle op outcomes db1 = (r, db2, rest) -> reachable_alike db db2.

Lemma forget_preserves {A} (P : Db.t -> Prop) (m : atx A) : preserves P m -> preserves P (forget m).
Proof. intros Hm. unfold forget. apply preserves_bind; [done|]. intros _. apply preserves_ret. Qed.

Lemma handle_preserves o op : names_alike op -> preserves (Inv o) (handle op).
Proof.
  intros Hl. destruct op; cbn [handle]; try apply forget_preserves.
  - apply start_github_preserves.
  - by apply complete_github_preserves.
  - by apply start_email_preserves.
  - apply verify_email_preserves.
  - unfold get_session, as_api. apply preserves_bind; [apply preserves_map_error, authenticate_preserves|]. intros actor.
    unfold user_view, memberships. preserve.
  - apply revoke_session_preserves.
  - by apply create_invitation_preserves.
  - apply revoke_invitation_preserves.
  - by apply accept_invitation_preserves.
  - apply update_member_preserves.
  - apply remove_member_preserves.
Qed.

(** C18: every organization keeps an owner, as long as the addresses that requests bring (typed in, or told by the
    provider) are lowered by the database as by the server.  From consistent tables, whatever such requests are
    served, in whatever order and with whatever failures of the database and of the deliveries, an organization
    that has an owner still has one, and the tables stay consistent. *)
Theorem organizations_keep_an_owner db db' organization_id :
  consistent db -> owned organization_id db -> reachable_alike db db' ->
  consistent db' /\ owned organization_id db'.
Proof.
  intros Hc Ho. induction 1 as [|db1 op outcomes r db2 rest _ IH Hop Hh]; [done|].
  pose proof (handle_preserves organization_id op Hop outcomes db1 IH) as HI. rewrite Hh in HI. by destruct r.
Qed.

(** * Who may change what *)

Definition roles_are (M : gmap (text * text) text) (db : Db.t) : Prop := Db.memberships db = M.

Lemma authorized_keeps_roles M req bootstrap authorization organization_id permission :
  preserves (roles_are M) (authorized req bootstrap authorization organization_id permission).
Proof.
  unfold authorized, as_api. apply preserves_map_error, preserves_bind.
  - unfold authenticate, session_actor. destruct bootstrap; preserve. by simplify_eq.
  - intros actor. unfold authorize_organization. preserve.
Qed.

(** The user who makes a request, of whom the tables know: the bootstrap user, or the user of a live session whose
    token the request presents. *)
Definition caller_of (req : Request.t) (bootstrap : bool) (authorization : option text) (db : Db.t) (user_id : text) : Prop :=
  if bootstrap then exists u, u ∈ Db.users db /\ User.bootstrap_subject u = txt "local-bootstrap" /\ User.id u = user_id
  else exists token s, authorization = Some (txt "Session " ++ token) /\ s ∈ Db.sessions db
    /\ Session.secret_hash s = hash token /\ session_live (Request.now req) s = true /\ Session.user_id s = user_id.

Lemma authenticate_caller db req bootstrap authorization :
  triple (eq db) (authenticate (Request.now req) bootstrap authorization)
    (fun a d => roles_are (Db.memberships db) d /\ caller_of req bootstrap authorization db (ControlActor.user_id a))
    (fun _ => roles_are (Db.memberships db)).
Proof.
  unfold authenticate, caller_of. destruct bootstrap.
  - eapply (triple_bind _ _ _ _ _ (fun u d => d = db /\ forall x, u = Some x -> x ∈ Db.users db /\ User.bootstrap_subject x = txt "local-bootstrap")).
    { apply triple_select; [by intros d <-|]. intros d <-. split; [done|]. intros x [Hx Hb%bool_decide_eq_true]%find_some.
      split; [by apply list_elem_of_In|done]. }
    intros u. apply triple_pure. intros Hu. eapply (triple_bind _ _ _ _ _ (fun x d => d = db /\ u = Some x)).
    { apply triple_lift; [|by intros d e ->]. by intros d x -> ->%ok_or_Ok. }
    intros x. apply triple_pure. intros ->. apply triple_ret. intros d ->. split; [done|]. destruct (Hu x eq_refl). by exists x.
  - unfold session_actor. eapply (triple_bind _ _ _ _ _ (fun token d => d = db /\ authorization = Some (txt "Session " ++ token))).
    { apply triple_lift; [|by intros d e <-]. intros d token <- Ht%ok_or_Ok. split; [done|].
      apply bind_Some in Ht as (value & -> & Ht). apply bind_Some in Ht as (t & Hp & Ht). destruct (valid_secret t _); [|done].
      injection Ht as <-. by apply strip_prefix_Some in Hp as ->. }
    intros token. apply triple_pure. intros Hauth. cbv zeta.
    eapply (triple_bind _ _ _ _ _ (fun row d => roles_are (Db.memberships db) d /\ forall s, row = Some s ->
      s ∈ Db.sessions db /\ Session.secret_hash s = hash token /\ session_live (Request.now req) s = true)).
    { apply triple_statement; [by intros d ->| |by intros d e ->]. intros d row d' -> [= <- <-]. split; [done|].
      intros s [Hs Hm]%find_some. rewrite !andb_true_iff, bool_decide_eq_true in Hm. split; [by apply list_elem_of_In|]. tauto. }
    intros row. apply triple_pure. intros Hrow. eapply (triple_bind _ _ _ _ _ (fun s d => roles_are (Db.memberships db) d /\ row = Some s)).
    { apply triple_lift; [|done]. by intros d x HM ->%ok_or_Ok. }
    intros s. apply triple_pure. intros ->. apply triple_ret. intros d HM. split; [done|]. destruct (Hrow s eq_refl) as (H1 & H2 & H3).
    exists token, s. by split_and!.
Qed.

(** An authorized request is that of a member whose role allows it. *)
Lemma authorized_caller db req bootstrap authorization organization_id permission :
  triple (eq db) (authorized req bootstrap authorization organization_id permission)
    (fun a d => roles_are (Db.memberships db) d
       /\ caller_of req bootstrap authorization db (ControlActor.user_id (OrganizationActor.actor a))
       /\ exists t, Db.memberships db !! (uuid organization_id, ControlActor.user_id (OrganizationActor.actor a)) = Some t
          /\ Role.parse t = Some (OrganizationActor.role a) /\ Role.allows (OrganizationActor.role a) permission = true)
    (fun _ => roles_are (Db.memberships db)).
Proof.
  unfold authorized, as_api. apply triple_map_error. eapply triple_bind; [apply authenticate_caller|]. intros actor. cbn beta.
  apply triple_pure. intros Hcaller. unfold authorize_organization. set (M := Db.memberships db).
  eapply (triple_bind _ _ _ _ _ (fun _ => roles_are M)); [by apply triple_lift|]. intros _.
  eapply (triple_bind _ _ _ _ _ (fun r d => roles_are M d /\ M !! (uuid organization_id, ControlActor.user_id actor) = r)).
  { apply triple_select; [done|]. intros d HM. split; [done|]. by rewrite HM. }
  intros r. apply triple_pure. intros Hr. eapply (triple_bind _ _ _ _ _ (fun t d => roles_are M d /\ r = Some t)).
  { apply triple_lift; [|done]. by intros d t HM ->%ok_or_Ok. }
  intros t. apply triple_pure. intros ->. eapply (triple_bind _ _ _ _ _ (fun role d => roles_are M d /\ Role.parse t = Some role)).
  { apply triple_lift; [|done]. by intros d role HM ?%ok_or_Ok. }
  intros role. apply triple_pure. intros Hrole. eapply (triple_bind _ _ _ _ _ (fun _ d => roles_are M d /\ Role.allows role permission = true)).
  { apply triple_lift; [|done]. intros d [] HM Hf%fail_if_Ok. split; [done|]. by apply negb_false_iff. }
  intros _. apply triple_pure. intros Ha. apply triple_ret. intros d HM. split_and!; [done|done|]. by exists t.
Qed.

(** What a change of a member was entitled to: the request of somebody, [who], whose role manages members and who,
    unless an owner, neither touches nor grants a privileged role. *)
Definition entitled (M : gmap (text * text) text) (who : text -> Prop) (organization_id user_id : text) (granted : option Role) : Prop :=
  exists actor caller target ct tt,
    who actor /\ M !! (uuid organization_id, uuid actor) = Some ct /\ Role.parse ct = Some caller
    /\ M !! (uuid organization_id, uuid user_id) = Some tt /\ Role.parse tt = Some target
    /\ (caller = Owner \/ caller = Admin /\ privileged target = false /\ (forall r, granted = Some r -> privileged r = false)).

Lemma manages_members r : Role.allows r ManageMembers = true -> r = Owner \/ r = Admin.
Proof. destruct r; intros E; [by left|by right|discriminate E..]. Qed.

Lemma update_member_entitled db0 req bootstrap authorization organization_id user_id role :
  let M := Db.memberships db0 in let who := caller_of req bootstrap authorization db0 in
  let changed db := roles_are M db \/ entitled M who organization_id user_id (Some role)
    /\ Db.memberships db = alter (fun _ => Role.as_str role) (uuid organization_id, uuid user_id) M in
  triple (eq db0) (update_member req bootstrap authorization organization_id user_id role)
    (fun _ => changed) (fun _ => changed).
Proof.
  intros M who changed. unfold changed. clear changed. unfold update_member.
  eapply triple_bind; [eapply triple_conseq; [apply (authorized_caller db0)|done|done|by intros; left]|].
  intros caller. cbn beta. apply triple_pure. intros [Hwho _]. fold M. fold who in Hwho. eapply (triple_bind _ _ _ _ _ (fun _ => roles_are M)); [by apply triple_lift; [|by left]|]. intros _.
  cbv zeta. eapply (triple_bind _ _ _ _ _ (fun _ db => entitled M who organization_id user_id (Some role)
    /\ Db.memberships db = alter (fun _ => Role.as_str role) (uuid organization_id, uuid user_id) M)).
  2: { intros _. unfold member_view.
       apply (triple_conseq _ (fun db => entitled M who organization_id user_id (Some role)
         /\ Db.memberships db = alter (fun _ => Role.as_str role) (uuid organization_id, uuid user_id) M) _ _
         (fun _ db => entitled M who organization_id user_id (Some role)
         /\ Db.memberships db = alter (fun _ => Role.as_str role) (uuid organization_id, uuid user_id) M) _
         (fun _ db => entitled M who organization_id user_id (Some role)
         /\ Db.memberships db = alter (fun _ => Role.as_str role) (uuid organization_id, uuid user_id) M));
         [preserve|done|by intros; right|by intros; right]. }
  apply triple_transaction; [by intros; left|].
  eapply (triple_bind _ _ _ _ _ (fun _ => roles_are M)); [by apply triple_execute|]. intros _.
  set (actor := ControlActor.user_id (OrganizationActor.actor caller)).
  eapply triple_bind; [eapply triple_conseq; [apply (member_role_triple (roles_are M))|done|done|done]|]. intros caller_role.
  cbn beta. eapply (triple_bind _ _ _ _ _ (fun _ db => (roles_are M db /\ member organization_id actor caller_role db)
    /\ Role.allows caller_role ManageMembers = true)).
  { apply triple_lift; [|done]. intros db [] HP Hf%fail_if_Ok. split; [done|]. by apply negb_false_iff. }
  intros _. eapply triple_bind; [eapply triple_conseq; [apply (member_role_triple (fun db => (roles_are M db /\ member organization_id actor caller_role db)
    /\ Role.allows caller_role ManageMembers = true) organization_id user_id)|done|done|done]|]. intros target.
  cbn beta. eapply (triple_bind _ _ _ _ _ (fun _ db => roles_are M db /\ entitled M who organization_id user_id (Some role))).
  { apply triple_lift; [|done]. intros db [] (((HM & ct & Hct & Hcp) & Ha) & tt' & Htt & Htp) Hf%fail_if_Ok. split; [done|].
    unfold roles_are in HM. rewrite HM in *. exists actor, caller_role, target, ct, tt'. split_and!; try done.
    apply manages_members in Ha as [->| ->]; [by left|right]. split; [done|].
    rewrite bool_decide_true in Hf by done. cbn in Hf. apply orb_false_iff in Hf as [Ht Hr]. split; [done|]. by intros r [= <-]. }
  intros _. eapply (triple_bind _ _ _ _ _ (fun _ db => roles_are M db /\ entitled M who organization_id user_id (Some role))).
  { apply triple_if; intros _; [|by apply triple_ret].
    eapply triple_conseq; [apply (require_another_owner_triple (fun db => roles_are M db /\ entitled M who organization_id user_id (Some role)))|done| |done].
    by intros _ db [? _]. }
  intros _. eapply (triple_bind _ _ _ _ _ (fun _ db => entitled M who organization_id user_id (Some role)
    /\ Db.memberships db = alter (fun _ => Role.as_str role) (uuid organization_id, uuid user_id) M)).
  { apply triple_statement; [done| |done]. intros db a db' [HM He] [= <- <-]. split; [done|]. cbn. by rewrite HM. }
  intros affected. eapply (triple_bind _ _ _ _ _ (fun _ db => entitled M who organization_id user_id (Some role)
    /\ Db.memberships db = alter (fun _ => Role.as_str role) (uuid organization_id, uuid user_id) M)); [by apply triple_lift|].
  intros _. unfold insert_audit. by apply triple_execute.
Qed.

Lemma remove_member_entitled db0 req bootstrap authorization organization_id user_id :
  let M := Db.memberships db0 in let who := caller_of req bootstrap authorization db0 in
  let changed db := roles_are M db \/ entitled M who organization_id user_id None
    /\ Db.memberships db = delete (uuid organization_id, uuid user_id) M in
  triple (eq db0) (remove_member req bootstrap authorization organization_id user_id)
    (fun _ => changed) (fun _ => changed).
Proof.
  intros M who changed. unfold changed. clear changed. unfold remove_member.
  eapply triple_bind; [eapply triple_conseq; [apply (authorized_caller db0)|done|done|by intros; left]|].
  intros caller. cbn beta. apply triple_pure. intros [Hwho _]. fold M. fold who in Hwho. eapply (triple_bind _ _ _ _ _ (fun _ => roles_are M)); [by apply triple_lift; [|by left]|]. intros _.
  cbv zeta. apply triple_transaction; [by intros; left|].
  eapply (triple_bind _ _ _ _ _ (fun _ => roles_are M)); [by apply triple_execute|]. intros _.
  set (actor := ControlActor.user_id (OrganizationActor.actor caller)).
  eapply triple_bind; [eapply triple_conseq; [apply (member_role_triple (roles_are M))|done|done|done]|]. intros caller_role.
  cbn beta. eapply (triple_bind _ _ _ _ _ (fun _ db => (roles_are M db /\ member organization_id actor caller_role db)
    /\ Role.allows caller_role ManageMembers = true)).
  { apply triple_lift; [|done]. intros db [] HP Hf%fail_if_Ok. split; [done|]. by apply negb_false_iff. }
  intros _. eapply triple_bind; [eapply triple_conseq; [apply (member_role_triple (fun db => (roles_are M db /\ member organization_id actor caller_role db)
    /\ Role.allows caller_role ManageMembers = true) organization_id user_id)|done|done|done]|]. intros target.
  cbn beta. eapply (triple_bind _ _ _ _ _ (fun _ db => roles_are M db /\ entitled M who organization_id user_id None)).
  { apply triple_lift; [|done]. intros db [] (((HM & ct & Hct & Hcp) & Ha) & tt' & Htt & Htp) Hf%fail_if_Ok. split; [done|].
    unfold roles_are in HM. rewrite HM in *. exists actor, caller_role, target, ct, tt'. split_and!; try done.
    apply manages_members in Ha as [->| ->]; [by left|right]. by rewrite bool_decide_true in Hf by done. }
  intros _. eapply (triple_bind _ _ _ _ _ (fun _ db => roles_are M db /\ entitled M who organization_id user_id None)).
  { apply triple_if; intros _; [|by apply triple_ret].
    eapply triple_conseq; [apply (require_another_owner_triple (fun db => roles_are M db /\ entitled M who organization_id user_id None))|done| |done].
    by intros _ db [? _]. }
  intros _. eapply (triple_bind _ _ _ _ _ (fun _ db => entitled M who organization_id user_id None
    /\ Db.memberships db = delete (uuid organization_id, uuid user_id) M)).
  { apply triple_statement; [done| |done]. intros db a db' [HM He] [= <- <-]. split; [done|]. cbn. by rewrite HM. }
  intros affected. eapply (triple_bind _ _ _ _ _ (fun _ db => entitled M who organization_id user_id None
    /\ Db.memberships db = delete (uuid organization_id, uuid user_id) M)); [by apply triple_lift|].
  intros _. unfold insert_audit. apply triple_execute; [done|]. intros. by right.
Qed.

(** An invitation grants what its maker may grant. *)
Lemma create_invitation_entitled db0 req bootstrap authorization organization_id requested role :
  let M := Db.memberships db0 in let who := caller_of req bootstrap authorization db0 in
  triple (eq db0) (create_invitation req bootstrap authorization organization_id requested role)
    (fun _ db => roles_are M db /\ exists actor ct caller, who actor /\ M !! (uuid organization_id, actor) = Some ct
       /\ Role.parse ct = Some caller /\ (caller = Owner \/ caller = Admin /\ privileged role = false))
    (fun _ => roles_are M).
Proof.
  intros M who. unfold create_invitation. eapply triple_bind; [apply (authorized_caller db0)|]. intros caller. cbn beta.
  apply triple_pure. fold M who. intros (Hwho & ct & Hct & Hp & Ha).
  eapply (triple_bind _ _ _ _ _ (fun _ db => roles_are M db /\ exists actor ct caller, who actor /\ M !! (uuid organization_id, actor) = Some ct
       /\ Role.parse ct = Some caller /\ (caller = Owner \/ caller = Admin /\ privileged role = false))).
  { apply triple_lift; [|done]. intros d [] HM Hf%fail_if_Ok. split; [done|].
    eexists _, ct, (OrganizationActor.role caller). split_and!; [done..|].
    apply manages_members in Ha as [E|E]; [by left|right]. split; [done|]. by rewrite bool_decide_true in Hf by done. }
  intros _. set (Q' := fun db => roles_are M db /\ exists actor ct caller, who actor /\ M !! (uuid organization_id, actor) = Some ct
       /\ Role.parse ct = Some caller /\ (caller = Owner \/ caller = Admin /\ privileged role = false)).
      apply (triple_conseq _ Q' _ _ (fun _ => Q') _ (fun _ => Q')); [|done|done|by intros ? ? []].
      change (preserves Q' (email ← lift (normalize_email requested);
        token ← lift (new_secret INVITATION_TOKEN_PREFIX (Request.random req));
        row ← statement Unavailable (insert_invitation
          {| Invitation.id := Request.new_invitation req; Invitation.organization_id := uuid organization_id;
             Invitation.email := email; Invitation.role := Role.as_str role; Invitation.secret_hash := hash token;
             Invitation.invited_by := ControlActor.user_id (OrganizationActor.actor caller);
             Invitation.expires_at := (Request.now req + days 7)%Z; Invitation.accepted_at := None;
             Invitation.revoked_at := None; Invitation.created_at := Request.now req |});
        invitation ← lift (ok_or Conflict row);
        delivered ← remote;
        if delivered : bool then
          _ ← audit organization_id (Some (ControlActor.user_id (OrganizationActor.actor caller))) (txt "invitation.created") (txt "invitation") (Invitation.id invitation) (txt "succeeded");
          mret invitation
        else
          _ ← ignoring (execute (E := ApiError) Unavailable
                (Db.set_invitations (update_where (has_id (Invitation.id invitation)) (set_invitation_revoked (Request.now req)))));
          _ ← audit organization_id (Some (ControlActor.user_id (OrganizationActor.actor caller))) (txt "invitation.created") (txt "invitation") (Invitation.id invitation) (txt "failed");
          raise Unavailable)).
      unfold audit, insert_audit. preserve; try done. unfold insert_invitation in *. repeat case_match; simplify_eq; done.
Qed.
(** The other statements leave the memberships alone. *)
Lemma insert_identity_session_keeps_roles M req provider subject email token :
  preserves (roles_are M) (insert_identity_session req provider subject email token).
Proof.
  unfold insert_identity_session. preserve; try done; unfold insert_user, insert_identity, insert_session in *; repeat case_match; by simplify_eq.
Qed.

Lemma identity_transaction_keeps_roles M req provider subject email token :
  preserves (roles_are M) (transaction Unavailable (insert_identity_session req provider subject email token)).
Proof.
  apply preserves_transaction. eapply triple_conseq; [apply (insert_identity_session_keeps_roles M)|done..].
Qed.

Lemma authenticate_keeps_roles M now bootstrap authorization : preserves (roles_are M) (as_api (authenticate now bootstrap authorization)).
Proof. unfold as_api, authenticate, session_actor. destruct bootstrap; preserve. by simplify_eq. Qed.

(** What an operation may do to the memberships of the tables [db]. *)
Definition permitted (db : Db.t) (op : Operation) (M' : gmap (text * text) text) : Prop :=
  let M := Db.memberships db in
  match op with
  | UpdateMember req bootstrap authorization organization_id user_id role =>
      entitled M (caller_of req bootstrap authorization db) organization_id user_id (Some role)
      /\ M' = alter (fun _ => Role.as_str role) (uuid organization_id, uuid user_id) M
  | RemoveMember req bootstrap authorization organization_id user_id =>
      entitled M (caller_of req bootstrap authorization db) organization_id user_id None
      /\ M' = delete (uuid organization_id, uuid user_id) M
  | AcceptInvitation req token => exists i user_id, i ∈ Db.invitations db /\ acceptable (Request.now req) token i = true
      /\ M' = <[(Invitation.organization_id i, user_id) := Invitation.role i]> M
  | _ => False
  end.

Lemma accept_invitation_permitted db0 req token :
  let Q db := roles_are (Db.memberships db0) db \/ permitted db0 (AcceptInvitation req token) (Db.memberships db) in
  triple (eq db0) (accept_invitation req token) (fun _ => Q) (fun _ => Q).
Proof.
  intros Q. set (M := Db.memberships db0). set (I := Db.invitations db0). set (P := fun db => roles_are M db /\ Db.invitations db = I).
  apply (triple_conseq (eq db0) P _ (fun _ => Q) (fun _ => Q) (fun _ => Q) (fun _ => Q)); [|by intros d <-|done|done].
  assert (HPQ : forall (e : ApiError) db, P db -> Q db) by (intros e db [? _]; by left).
  unfold accept_invitation. eapply (triple_bind _ _ _ _ _ (fun _ => P)); [apply triple_lift; eauto|]. intros _.
  eapply (triple_bind _ _ _ _ _ (fun _ => P)); [apply triple_lift; eauto|]. intros session_token.
  eapply (triple_bind _ _ _ _ _ (fun _ => Q)).
  2: { intros [user_id session]. change (preserves Q (user ← user_view user_id; memberships ← memberships user_id;
         mret {| SessionCreated.token := session_token; SessionCreated.session := session; SessionCreated.user := user;
                 SessionCreated.memberships := memberships |})). unfold user_view, memberships. preserve. }
  apply triple_transaction; [eauto|].
  eapply (triple_bind _ _ _ _ _ (fun row db => P db /\ forall i, row = Some i -> i ∈ I /\ acceptable (Request.now req) token i = true)).
  { apply triple_select; [done|]. intros db [HM HI]. split; [done|]. intros i [Hi Ha]%find_some. rewrite HI in Hi.
    split; [by apply list_elem_of_In|done]. }
  intros row. eapply (triple_bind _ _ _ _ _ (fun i db => P db /\ i ∈ I /\ acceptable (Request.now req) token i = true)).
  { apply triple_lift; [|done]. intros db i [HP Hi] ->%ok_or_Ok. split; [done|]. by apply Hi. }
  intros i. cbv zeta. eapply (triple_bind _ _ _ _ _ (fun _ db => roles_are M db /\ i ∈ I /\ acceptable (Request.now req) token i = true)).
  { change (triple (fun db => P db /\ i ∈ I /\ acceptable (Request.now req) token i = true)
      (insert_identity_session req (txt "email") (sql_lower (Invitation.email i)) (sql_lower (Invitation.email i)) session_token)
      (fun _ db => roles_are M db /\ i ∈ I /\ acceptable (Request.now req) token i = true) (fun _ _ => True)).
    intros os db [[HM _] Hi].
    pose proof (insert_identity_session_keeps_roles M req (txt "email") (sql_lower (Invitation.email i)) (sql_lower (Invitation.email i)) session_token os db HM) as Ht.
    by destruct (insert_identity_session _ _ _ _ _ os db) as [[[r|e] db'] os']. }
  intros [user_id session]. eapply (triple_bind _ _ _ _ _ (fun _ => Q)).
  { apply triple_execute; [done|]. intros db (HM & Hi & Ha). right. exists i, user_id. split_and!; [done..|]. cbn. by rewrite HM. }
  intros _. eapply (triple_bind _ _ _ _ _ (fun _ => Q)); [by apply triple_execute|]. intros _.
  eapply (triple_bind _ _ _ _ _ (fun _ => Q)); [unfold insert_audit; by apply triple_execute|]. intros _. by apply triple_ret.
Qed.

Ltac keep := preserve;
  try first [done | by simplify_eq | solve [unfold insert_attempt in *; case_match; by simplify_eq] | apply authenticate_keeps_roles | apply authorized_keeps_roles | apply identity_transaction_keeps_roles].

Lemma keeps_roles M op :
  match op with CreateInvitation _ _ _ _ _ _ | AcceptInvitation _ _ | UpdateMember _ _ _ _ _ _ | RemoveMember _ _ _ _ _ => False | _ => True end ->
  preserves (roles_are M) (handle op).
Proof.
  destruct op; intros Hop; try destruct Hop; cbn [handle]; try apply forget_preserves.
  - unfold start_github, prune_login_attempts. keep.
  - unfold complete_github, audit_all_organizations. keep.
  - unfold start_email, prune_login_attempts. keep. apply triple_transaction_if; [done|done|].
    apply (triple_conseq _ (roles_are M) _ _ (fun _ => roles_are M) _ (fun _ => roles_are M)); [keep|done..].
  - unfold verify_email, audit_all_organizations. keep.
  - unfold get_session, user_view, memberships. keep.
  - unfold revoke_session, audit_all_organizations. keep.
  - unfold revoke_invitation, audit, insert_audit. keep.
Qed.

(** C21: roles change only where the caller is entitled to it.  A request leaves the memberships as they
    were, or it is an update or a removal of one member, and the user whom the request authenticates (the bootstrap
    user, or the user of a live session with the presented token) has a current role that manages members
    and, unless it is the owner's, neither touches an owner or an administrator nor grants such a role; or it
    is the acceptance of an open invitation, unexpired and with the digest of the token presented, which
    sets the invitation's role for one user.  An invitation is made by an authenticated caller who may grant its role. *)
Theorem roles_change_by_entitlement op outcomes db r db' rest :
  handle op outcomes db = (r, db', rest) ->
  (Db.memberships db' = Db.memberships db \/ permitted db op (Db.memberships db'))
  /\ (forall req bootstrap authorization organization_id email role,
       op = CreateInvitation req bootstrap authorization organization_id email role -> r = Ok tt ->
       exists actor t caller, caller_of req bootstrap authorization db actor
         /\ Db.memberships db !! (uuid organization_id, actor) = Some t /\ Role.parse t = Some caller
         /\ (caller = Owner \/ caller = Admin /\ privileged role = false)).
Proof.
  intros Hh. split.
  - assert (triple (eq db) (handle op)
      (fun _ d => roles_are (Db.memberships db) d \/ permitted db op (Db.memberships d))
      (fun _ d => roles_are (Db.memberships db) d \/ permitted db op (Db.memberships d))) as Ht.
    { destruct op; try (eapply triple_conseq; [by apply (keeps_roles (Db.memberships db))|by intros ? <-|by left..]); cbn [handle].
      - eapply triple_bind; [eapply triple_conseq; [apply create_invitation_entitled|done|done|by left]|].
        intros ?. apply triple_ret. intros ? []. by left.
      - eapply triple_bind; [apply accept_invitation_permitted|]. intros ?. by apply triple_ret.
      - eapply triple_bind; [apply update_member_entitled|]. intros ?. by apply triple_ret.
      - apply remove_member_entitled. }
    specialize (Ht outcomes db eq_refl). rewrite Hh in Ht. by destruct r.
  - intros req bootstrap authorization organization_id email role -> ->. cbn [handle] in Hh.
    pose proof (create_invitation_entitled db req bootstrap authorization organization_id email role outcomes db eq_refl) as Ht.
    unfold forget, mbind, tx_bind in Hh. destruct (create_invitation _ _ _ _ _ _ outcomes db) as [[[i|e] d] o]; [|done]. by destruct Ht.
Qed.
End invariant.

(** * A small service *)

Section sample.
#[local] Instance plain_sha : Sha256 := {| sha256 := fun bs => bs |}.
#[local] Instance ascii_lower : SqlLower := {| sql_lower := to_ascii_lowercase |}.

Definition an_org : text := txt "00000000-0000-4000-8000-00000000000a".
Definition alice : text := txt "00000000-0000-4000-8000-000000000001".
Definition bob : text := txt "00000000-0000-4000-8000-000000000002".
Definition a_service : Db.t := {|
  Db.users := [User.Mk alice (txt "local-bootstrap") (txt "alice@example.com"); User.Mk bob (txt "identity:bob") (txt "bob@example.com")];
  Db.identities := ∅; Db.attempts := []; Db.sessions := []; Db.projects := ∅;
  Db.memberships := <[(an_org, alice) := txt "owner"]> (<[(an_org, bob) := txt "viewer"]> ∅);
  Db.invitations := []; Db.audit_log := [] |}.
Definition a_request : Request.t :=
  Request.Mk 1000 (txt "u") (txt "s") (txt "l") (txt "i") (Some (repeat (Byte.x0a) 32)) (Some []).

Lemma a_service_consistent : consistent a_service.
Proof.
  split.
  - by apply (bool_decide_unpack _); vm_compute.
  - intros o u. cbn. rewrite !lookup_insert_is_Some. intros [[= _ <-]|[_ [[= _ <-]|[_ []%is_Some_None]]]]; set_solver.
  - done.
  - split; [intros a e []%not_elem_of_nil|intros i []%not_elem_of_nil].
  - intros i j []%not_elem_of_nil.
  - intros i u []%not_elem_of_nil.
Qed.

(** The only owner can neither step down nor leave; after the promotion of the other member she can. *)
Definition promote : Operation := UpdateMember a_request true None an_org bob Owner.
Definition step_down : Operation := UpdateMember a_request true None an_org alice Viewer.
Example the_only_owner_stays :
  (handle step_down [] a_service).1.1 = Err Conflict
  /\ (handle (RemoveMember a_request true None an_org alice) [] a_service).1.1 = Err Conflict
  /\ (handle promote [] a_service).1.1 = Ok tt
  /\ (handle step_down [] (handle promote [] a_service).1.2).1.1 = Ok tt.
Proof. vm_compute. auto. Qed.

Lemma served_run op outcomes db : served db (handle op outcomes db).1.2.
Proof. destruct (handle op outcomes db) as [[r db'] rest] eqn:E. by eapply Served. Qed.
Lemma run_eq op outcomes db : handle op outcomes db = ((handle op outcomes db).1.1, (handle op outcomes db).1.2, (handle op outcomes db).2).
Proof. by destruct (handle op outcomes db) as [[r db'] rest]. Qed.

Lemma organizations_keep_an_owner_witness :
  consistent (handle step_down [] (handle promote [] a_service).1.2).1.2
  /\ owned an_org (handle step_down [] (handle promote [] a_service).1.2).1.2.
Proof.
  refine (organizations_keep_an_owner a_service _ an_org a_service_consistent _ _).
  - exists alice. vm_compute. reflexivity.
  - eapply (ThenAlike _ _ step_down); [eapply (ThenAlike _ _ promote); [apply StartAlike|exact I|apply run_eq]|exact I|apply run_eq].
Defined.

Lemma roles_change_by_entitlement_witness :
  (Db.memberships (handle promote [] a_service).1.2 = Db.memberships a_service
   \/ permitted a_service promote (Db.memberships (handle promote [] a_service).1.2))
  /\ Db.memberships (handle promote [] a_service).1.2 <> Db.memberships a_service.
Proof.
  split.
  - apply (proj1 (roles_change_by_entitlement promote [] a_service _ _ _ (run_eq promote [] a_service))).
  - intros E. assert (Hb : Db.memberships (handle promote [] a_service).1.2 !! (an_org, bob) = Some (txt "owner")) by (vm_compute; reflexivity).
    rewrite E in Hb. revert Hb. vm_compute. discriminate.
Defined.
End sample.

(** * A collation that folds more than ASCII

    [create_invitation] compares [lower(u.email)] with an address that only has its ASCII letters
    lowered, and [accept_invitation] looks the user up by [lower(invitation.email)].  When the database's
    [lower] also folds U+00C9 to U+00E9, as under the default collation of its image, the two disagree:
    an administrator invites the owner's address in capitals as a viewer, and the acceptance overwrites
    the role of the only owner. *)
Section collation.
#[local] Instance plain_sha' : Sha256 := {| sha256 := fun bs => bs |}.
#[local] Instance unicode_lower : SqlLower :=
  {| sql_lower := fun s => map (fun c => if (c =? 201)%N then 233%N else c) (to_ascii_lowercase s) |}.

Definition the_owner : text := 233%N :: txt "@x.io".
Definition in_capitals : text := 201%N :: txt "@x.io".
Definition accented : Db.t := {|
  Db.users := [User.Mk alice (txt "identity:alice") the_owner; User.Mk bob (txt "local-bootstrap") (txt "bob@x.io")];
  Db.identities := ∅; Db.attempts := []; Db.sessions := []; Db.projects := ∅;
  Db.memberships := <[(an_org, alice) := txt "owner"]> (<[(an_org, bob) := txt "admin"]> ∅);
  Db.invitations := []; Db.audit_log := [] |}.
Definition invite : Operation := CreateInvitation a_request true None an_org in_capitals Viewer.
Definition accept : Operation :=
  AcceptInvitation a_request (generated_secret INVITATION_TOKEN_PREFIX (repeat (Byte.x0a) 32)).

Lemma not_owned o db :
  forallb (fun kv => negb (bool_decide (kv.2 = owner))) (map_to_list (Db.memberships db)) = true -> ~ owned o db.
Proof.
  intros Hf [u Hu]. rewrite forallb_forall in Hf. specialize (Hf (o, u, owner)).
  rewrite bool_decide_true in Hf by done. discriminate Hf. by apply list_elem_of_In, elem_of_map_to_list.
Qed.

Lemma unicode_collation_loses_the_owner :
  Db.memberships accented !! (an_org, alice) = Some owner
  /\ (handle invite [] accented).1.1 = Ok tt
  /\ (handle accept [] (handle invite [] accented).1.2).1.1 = Ok tt
  /\ ~ owned an_org (handle accept [] (handle invite [] accented).1.2).1.2.
Proof.
  split_and!; [vm_compute; reflexivity..|]. apply not_owned. vm_compute. reflexivity.
Qed.
End collation.
