(* ===== verification/Sessions.v ===== *)
(** Properties of tokens: a revoked session never authenticates again, and a login token is accepted
    once, whatever the service does in between. *)

From S2P Require Import Prelude Text Json Identifiers Store Auth Membership.

Section sessions.
Context {H : Sha256} {L : SqlLower}.

(** * Revoked sessions *)

(** The session is there and every row with its key is revoked. *)
Definition ended (id : text) (db : Db.t) : Prop :=
  id ∈ map Session.id (Db.sessions db)
  /\ forall s, s ∈ Db.sessions db -> Session.id s = id -> is_none (Session.revoked_at s) = false.

(** An update that keeps the keys and never takes a revocation back. *)
Definition keeps_ended (f : Session.t -> Session.t) : Prop := forall s,
  Session.id (f s) = Session.id s /\ (is_none (Session.revoked_at s) = false -> is_none (Session.revoked_at (f s)) = false).

Lemma update_ids p f (l : list Session.t) : keeps_ended f -> map Session.id (update_where p f l) = map Session.id l.
Proof.
  intros Hf. unfold update_where. rewrite map_map. apply map_ext. intros s. destruct (p s); [apply Hf|done].
Qed.

Lemma ended_update id p f db : keeps_ended f -> ended id db -> ended id (Db.set_sessions (update_where p f) db).
Proof.
  intros Hf [Hin He]. split; cbn; [by rewrite update_ids|]. intros s (r & Hr & ->)%elem_of_update_where.
  destruct (Hf r) as [E1 E2]. destruct (p r); rewrite ?E1; intros Hid; [apply E2|]; by apply He.
Qed.

Lemma touch_keeps now : keeps_ended (touch now).
Proof. intros s. by split. Qed.
Lemma revoke_keeps now : keeps_ended (revoke now).
Proof. intros s. by split. Qed.

Lemma insert_session_ended id s r db db' : insert_session s db = Ok (r, db') -> ended id db -> ended id db'.
Proof.
  unfold insert_session. destruct (existsb _ _) eqn:E; [done|]. intros [= _ <-] [Hin He]. split; cbn.
  - rewrite map_app, elem_of_app. by left.
  - intros t [Ht| ->%list_elem_of_singleton]%elem_of_app Hid; [by apply He|]. subst id. exfalso.
    apply list_elem_of_fmap in Hin as (u & Hu & Hin). apply not_true_iff_false in E. apply E, existsb_exists.
    exists u. split; [by apply list_elem_of_In|]. by rewrite bool_decide_true.
Qed.

Ltac same_sessions := repeat case_match; simplify_eq; done.

Lemma insert_identity_session_ended id req provider subject email token :
  preserves (ended id) (insert_identity_session req provider subject email token).
Proof.
  unfold insert_identity_session. preserve; try done; try (unfold insert_user, insert_identity in *; same_sessions).
  all: by eapply insert_session_ended.
Qed.

Lemma identity_transaction_ended id req provider subject email token :
  preserves (ended id) (transaction Unavailable (insert_identity_session req provider subject email token)).
Proof. apply preserves_transaction. eapply triple_conseq; [apply (insert_identity_session_ended id)|done..]. Qed.

Lemma authenticate_ended id now bootstrap authorization : preserves (ended id) (as_api (authenticate now bootstrap authorization)).
Proof.
  unfold as_api, authenticate, session_actor. destruct bootstrap; preserve. simplify_eq. apply ended_update; [apply touch_keeps|done].
Qed.

Lemma authorized_ended id req bootstrap authorization organization_id permission :
  preserves (ended id) (authorized req bootstrap authorization organization_id permission).
Proof.
  unfold authorized, as_api. apply preserves_map_error, preserves_bind.
  - unfold authenticate, session_actor. destruct bootstrap; preserve. simplify_eq. apply ended_update; [apply touch_keeps|done].
  - intros actor. unfold authorize_organization. preserve.
Qed.

Ltac stay_ended := preserve;
  try first [done | by simplify_eq | apply authenticate_ended | apply authorized_ended | apply identity_transaction_ended
            | solve [simplify_eq; apply ended_update; [first [apply touch_keeps|apply revoke_keeps]|done]]
            | solve [unfold insert_attempt, insert_invitation in *; same_sessions]].

Lemma member_change_ended id (m : atx ()) : preserves (ended id) m -> preserves (ended id) (transaction Unavailable m).
Proof. intros Hm. apply preserves_transaction. eapply triple_conseq; [exact Hm|done..]. Qed.

Lemma handle_ended id op : preserves (ended id) (handle op).
Proof.
  destruct op; cbn [handle]; try apply forget_preserves.
  - unfold start_github, prune_login_attempts. stay_ended.
  - unfold complete_github, audit_all_organizations. stay_ended.
  - unfold start_email, prune_login_attempts. stay_ended. apply triple_transaction_if; [done|done|].
    apply (triple_conseq _ (ended id) _ _ (fun _ => ended id) _ (fun _ => ended id)); [stay_ended|done..].
  - unfold verify_email, audit_all_organizations. stay_ended.
  - unfold get_session, user_view, memberships. stay_ended.
  - unfold revoke_session, audit_all_organizations. stay_ended.
  - unfold create_invitation, audit, insert_audit. stay_ended.
  - unfold revoke_invitation, audit, insert_audit. stay_ended.
  - unfold accept_invitation, user_view, memberships. apply preserves_bind; [stay_ended|]. intros _.
    apply preserves_bind; [stay_ended|]. intros session_token. apply preserves_bind; [|intros []; stay_ended].
    apply preserves_transaction.
    apply (triple_conseq _ (ended id) _ _ (fun _ => ended id) _ (fun _ => ended id)); [|done..].
    apply preserves_bind; [stay_ended|]. intros row. apply preserves_bind; [stay_ended|]. intros i. cbv zeta.
    apply preserves_bind; [apply insert_identity_session_ended|]. intros []. unfold insert_audit. stay_ended.
  - unfold update_member. apply preserves_bind; [apply authorized_ended|]. intros caller.
    apply preserves_bind; [stay_ended|]. intros _. cbv zeta. apply preserves_bind; [|intros _; unfold member_view; stay_ended].
    apply member_change_ended. unfold lock_organization, member_role, require_another_owner, insert_audit. stay_ended.
  - unfold remove_member. apply preserves_bind; [apply authorized_ended|]. intros caller.
    apply preserves_bind; [stay_ended|]. intros _. cbv zeta.
    apply member_change_ended. unfold lock_organization, member_role, require_another_owner, insert_audit. stay_ended.
Qed.
Lemma one_row {A} (p : A -> bool) (key : A -> text) (l : list A) k :
  NoDup (map key l) -> (forall x, p x = true -> key x = k) -> length (filter (fun x => p x = true) l) = 1%nat ->
  k ∈ map key l /\ forall x, x ∈ l -> key x = k -> p x = true.
Proof.
  intros Hd Hk Hl. destruct (filter _ l) as [|x [|]] eqn:E; [done| |done].
  assert (Hx : x ∈ filter (fun x => p x = true) l) by (rewrite E; by left).
  apply list_elem_of_filter in Hx as [Hp Hx]. pose proof (Hk x Hp) as Ekx. split; [apply list_elem_of_fmap; by exists x|].
  intros y Hy Ey. enough (x = y) by by subst y. clear E Hl.
  induction l as [|z l IH]; [by apply not_elem_of_nil in Hx|]. cbn in Hd. apply NoDup_cons in Hd as [Hz Hd].
  apply elem_of_cons in Hx as [->|Hx]; apply elem_of_cons in Hy as [->|Hy]; auto; destruct Hz;
    apply list_elem_of_fmap; eexists; split; [|done| |done]; congruence.
Qed.

Lemma revoke_session_ends now bootstrap authorization session_id :
  triple (fun db => NoDup (map Session.id (Db.sessions db))) (revoke_session now bootstrap authorization session_id)
    (fun _ => ended (uuid session_id)) (fun _ _ => True).
Proof.
  unfold revoke_session. eapply (triple_bind _ _ _ _ _ (fun _ db => NoDup (map Session.id (Db.sessions db)))).
  { change (triple (fun db => NoDup (map Session.id (Db.sessions db))) (as_api (authenticate now bootstrap authorization))
      (fun _ db => NoDup (map Session.id (Db.sessions db))) (fun _ _ => True)).
    apply (triple_conseq _ (fun db => NoDup (map Session.id (Db.sessions db))) _ _ (fun _ db => NoDup (map Session.id (Db.sessions db))) _
      (fun _ db => NoDup (map Session.id (Db.sessions db)))); [|done..].
    unfold as_api. apply preserves_map_error. unfold authenticate, session_actor. destruct bootstrap; preserve. simplify_eq. cbn.
    by rewrite (update_ids _ _ _ (touch_keeps _)). }
  intros actor. eapply (triple_bind _ _ _ _ _ (fun _ db => NoDup (map Session.id (Db.sessions db)))); [by apply triple_lift|]. intros _.
  cbv zeta. eapply (triple_bind _ _ _ _ _ (fun n db => n = 1%nat -> ended (uuid session_id) db)).
  - apply triple_statement; [done| |done]. intros db n db' Hd [= <- <-] Hn.
    apply (one_row _ Session.id _ (uuid session_id)) in Hn as [Hin Hall]; [|done|].
    + split; cbn; [by rewrite (update_ids _ _ _ (revoke_keeps _))|]. intros s (r & Hr & ->)%elem_of_update_where Hid.
      assert (E : Session.id r = uuid session_id) by (by destruct (revocable _ _ r)). by rewrite (Hall r Hr E).
    + intros s. unfold revocable. by intros [[?%bool_decide_eq_true _]%andb_true_iff _]%andb_true_iff.
  - intros n. eapply (triple_bind _ _ _ _ _ (fun _ => ended (uuid session_id))).
    + apply triple_lift; [|done]. intros db [] Hn Hf%fail_if_Ok. apply Hn, Nat.eqb_eq. by apply negb_false_iff.
    + intros _. unfold audit_all_organizations.
      apply (triple_conseq _ (ended (uuid session_id)) _ _ (fun _ => ended (uuid session_id)) _ (fun _ => ended (uuid session_id))); [|done..].
      preserve. done.
Qed.

Lemma ended_actor id now os db actor authorization db' os' :
  ended id db -> authenticate now false authorization os db = (Ok actor, db', os') -> ControlActor.session_id actor <> Some id.
Proof.
  intros [_ He] Ha. enough (triple (fun d => d = db) (authenticate now false authorization)
    (fun a _ => ControlActor.session_id a <> Some id) (fun _ _ => True)) as Ht.
  { specialize (Ht os db eq_refl). by rewrite Ha in Ht. }
  unfold authenticate, session_actor. eapply triple_bind; [by apply triple_lift; [intros ? ? Hd _; exact Hd|]|]. intros token. cbn beta zeta.
  eapply (triple_bind _ _ _ _ _ (fun row _ => forall s, row = Some s -> Session.id s <> id)).
  - apply triple_statement; [done| |done]. intros d row d' -> [= <- <-] s [Hs Hm]%find_some Hid.
    apply list_elem_of_In in Hs. apply andb_true_iff in Hm as [_ Hl]. unfold session_live in Hl.
    by rewrite (He s Hs Hid) in Hl.
  - intros row. eapply (triple_bind _ _ _ _ _ (fun s _ => Session.id s <> id)).
    + apply triple_lift; [|done]. intros d s Hr ->%ok_or_Ok. by apply Hr.
    + intros s. apply triple_ret. cbn. congruence.
Qed.

(** C31: a revoked session is over.  Once the revocation of a session was answered with success, whatever
    requests are served afterwards, in whatever order and with whatever failures, no session header
    authenticates as that session at any time. *)
Theorem revoked_sessions_stay_revoked now bootstrap authorization session_id os db db1 rest db2 :
  NoDup (map Session.id (Db.sessions db)) ->
  revoke_session now bootstrap authorization session_id os db = (Ok tt, db1, rest) ->
  reachable db1 db2 ->
  forall now' authorization' os' actor db3 rest',
    authenticate now' false authorization' os' db2 = (Ok actor, db3, rest') ->
    ControlActor.session_id actor <> Some (uuid session_id).
Proof.
  intros Hd Hr Hreach now' authorization' os' actor db3 rest'. apply ended_actor.
  induction Hreach as [|d1 d2 _ IH Hs].
  - pose proof (revoke_session_ends now bootstrap authorization session_id os db Hd) as Ht. by rewrite Hr in Ht.
  - revert IH. destruct Hs as [op outcomes d1 r d2 rest2 Hh]. intros IH.
    pose proof (handle_ended (uuid session_id) op outcomes d1 IH) as HI. rewrite Hh in HI. by destruct r.
Qed.
(** * Login tokens *)

(** Every attempt with the digest of the token is consumed, or had expired by then. *)
Definition spent (now : Z) (token : text) (db : Db.t) : Prop := forall a, a ∈ Db.attempts db ->
  Attempt.secret_hash a = hash token -> is_none (Attempt.consumed_at a) = false \/ (Attempt.expires_at a <= now)%Z.

(** The operation does not issue a token with the same digest. *)
Definition issues_other (token : text) (op : Operation) : Prop :=
  match op with
  | StartGithub req => forall r, Request.random req = Some r -> hash (generated_secret GITHUB_STATE_PREFIX r) <> hash token
  | StartEmail req _ => forall r, Request.random req = Some r -> hash (generated_secret EMAIL_TOKEN_PREFIX r) <> hash token
  | _ => True
  end.
Inductive later (token : text) (db : Db.t) : Db.t -> Prop :=
| Now : later token db db
| Later op outcomes db1 r db2 rest :
    later token db db1 -> issues_other token op -> handle op outcomes db1 = (r, db2, rest) -> later token db db2.

Lemma spent_consume now token p now' db : spent now token db -> spent now token (Db.set_attempts (update_where p (consume now')) db).
Proof.
  intros Hs a (b & Hb & ->)%elem_of_update_where Hh. destruct (p b); [by left|]. by apply Hs.
Qed.
Lemma spent_delete now token p db : spent now token db -> spent now token (Db.set_attempts (delete_where p) db).
Proof. intros Hs a Ha%elem_of_delete_where. by apply Hs. Qed.
Lemma spent_insert now token a r db db' :
  insert_attempt a db = Ok (r, db') -> Attempt.secret_hash a <> hash token -> spent now token db -> spent now token db'.
Proof.
  unfold insert_attempt. destruct (existsb _ _); [done|]. intros [= _ <-] Hne Hs b [Hb| ->%list_elem_of_singleton]%elem_of_app Hh;
    [by apply Hs|done].
Qed.

Lemma new_secret_Ok prefix random token : new_secret prefix random = Ok token -> exists r, random = Some r /\ token = generated_secret prefix r.
Proof. destruct random as [r|]; [intros [= <-]; by exists r|done]. Qed.

Ltac same_attempts := repeat case_match; simplify_eq; done.
Ltac stay_spent := preserve;
  try first [done | solve [simplify_eq; first [apply spent_consume | idtac]; done] | apply spent_delete; done
            | solve [unfold insert_user, insert_identity, insert_session, insert_invitation in *; same_attempts]].

Lemma spent_transaction {A} now token (m : atx A) :
  preserves (spent now token) m -> preserves (spent now token) (transaction Unavailable m).
Proof. intros Hm. apply preserves_transaction. eapply triple_conseq; [exact Hm|done..]. Qed.

Lemma identity_transaction_spent now token req provider subject email secret :
  preserves (spent now token) (transaction Unavailable (insert_identity_session req provider subject email secret)).
Proof. apply spent_transaction. unfold insert_identity_session. stay_spent. Qed.

Lemma authorized_spent now token req bootstrap authorization organization_id permission :
  preserves (spent now token) (authorized req bootstrap authorization organization_id permission).
Proof.
  unfold authorized, as_api, authenticate, session_actor, authorize_organization. destruct bootstrap; stay_spent.
Qed.

(** A program that issues a new token, whose digest is another one. *)
Lemma issue_spent {B} now token prefix random (f : text -> atx B) :
  (forall r, random = Some r -> hash (generated_secret prefix r) <> hash token) ->
  (forall t, hash t <> hash token -> preserves (spent now token) (f t)) ->
  preserves (spent now token) (lift (new_secret prefix random) ≫= f).
Proof.
  intros Hr Hf os db Hs. unfold mbind, tx_bind, lift. destruct (new_secret prefix random) as [t|] eqn:E; [|done].
  apply new_secret_Ok in E as (r & Er & ->). by apply Hf; [apply Hr|].
Qed.

Lemma handle_spent now token op : issues_other token op -> preserves (spent now token) (handle op).
Proof.
  destruct op; intros Hop; cbn [handle issues_other] in *; try apply forget_preserves.
  - unfold start_github, prune_login_attempts. apply preserves_bind; [stay_spent|]. intros _.
    apply issue_spent; [done|]. intros t Ht. stay_spent. by eapply spent_insert.
  - unfold complete_github, audit_all_organizations, consume_login. stay_spent; apply identity_transaction_spent.
  - unfold start_email, prune_login_attempts. apply preserves_bind; [stay_spent|]. intros address.
    apply preserves_bind; [stay_spent|]. intros _. apply issue_spent; [done|]. intros t Ht.
    apply preserves_bind; [|intros []; stay_spent]. apply triple_transaction_if; [done|done|].
    apply (triple_conseq _ (spent now token) _ _ (fun _ => spent now token) _ (fun _ => spent now token)); [|done..].
    stay_spent. by eapply spent_insert.
  - unfold verify_email, audit_all_organizations, consume_login. stay_spent; apply identity_transaction_spent.
  - unfold get_session, user_view, memberships, as_api, authenticate, session_actor. stay_spent.
  - unfold revoke_session, audit_all_organizations, as_api, authenticate, session_actor. stay_spent.
  - unfold create_invitation, audit, insert_audit. apply preserves_bind; [apply authorized_spent|]. intros caller. stay_spent.
  - unfold revoke_invitation, audit, insert_audit. apply preserves_bind; [apply authorized_spent|]. intros caller. stay_spent.
  - unfold accept_invitation, user_view, memberships. do 2 (apply preserves_bind; [stay_spent|intros ?]).
    apply preserves_bind; [|intros []; stay_spent]. apply spent_transaction. unfold insert_identity_session, insert_audit. stay_spent.
  - unfold update_member. apply preserves_bind; [apply authorized_spent|]. intros caller.
    apply preserves_bind; [stay_spent|]. intros _. cbv zeta. apply preserves_bind; [|intros _; unfold member_view; stay_spent].
    apply spent_transaction. unfold lock_organization, member_role, require_another_owner, insert_audit. stay_spent.
  - unfold remove_member. apply preserves_bind; [apply authorized_spent|]. intros caller.
    apply preserves_bind; [stay_spent|]. intros _. cbv zeta.
    apply spent_transaction. unfold lock_organization, member_role, require_another_owner, insert_audit. stay_spent.
Qed.
(** C32: a login token is accepted once.  Once an attempt was consumed, whatever requests are served
    afterwards, as long as none issues a token with the same digest, the token is refused at every later
    time, by either kind of sign-in that the attempt was made for. *)
Theorem login_tokens_are_single_use now kind token os db email db1 rest db2 :
  (forall a b, a ∈ Db.attempts db -> b ∈ Db.attempts db -> Attempt.secret_hash a = Attempt.secret_hash b -> a = b) ->
  consume_login now kind token os db = (Ok email, db1, rest) -> later token db1 db2 ->
  forall now' kind' os', (now <= now')%Z ->
    exists e, (consume_login now' kind' token os' db2).1.1 = Err e /\ (e = Unauthorized \/ e = Unavailable).
Proof.
  intros Hd Hc Hlater now' kind' os' Hnow.
  assert (Hs : spent now token db2).
  { induction Hlater as [|op outcomes d1 r d2 rest2 _ IH Hop Hh].
    - unfold consume_login, mbind, tx_bind, statement in Hc. destruct (next_outcome os) as [[] os1]; [done|]. cbn [fst snd] in Hc.
      destruct (List.find _ _) as [b|] eqn:Ef; [|done]. cbn in Hc. injection Hc as <- <- <-.
      apply find_some in Ef as [Hb Hcb]. apply list_elem_of_In in Hb. pose proof Hcb as Hh.
      unfold consumable in Hh. apply andb_true_iff in Hh as [[[_ Hh%bool_decide_eq_true]%andb_true_iff _]%andb_true_iff _].
      intros a (a0 & Ha & ->)%elem_of_update_where Hah. left. destruct (consumable now kind token a0) eqn:Ec; [done|].
      rewrite (Hd a0 b Ha Hb) in Ec by congruence. congruence.
    - pose proof (handle_spent now token op Hop outcomes d1 IH) as HI. rewrite Hh in HI. by destruct r. }
  unfold consume_login, mbind, tx_bind, statement. destruct (next_outcome os') as [[] os1]; [by exists Unavailable; auto|].
  cbn [fst snd]. destruct (List.find _ _) as [a|] eqn:Ef; [|by exists Unauthorized; auto].
  apply find_some in Ef as [Ha%list_elem_of_In Hca]. unfold consumable in Hca.
  apply andb_true_iff in Hca as [[[_ Hh%bool_decide_eq_true]%andb_true_iff Hn]%andb_true_iff He%Z.ltb_lt].
  destruct (Hs a Ha Hh) as [E|E]; [by rewrite Hn in E|lia].
Qed.
End sessions.

(** * A sign-in *)

Section sample.
#[local] Instance plain_digest : Sha256 := {| sha256 := fun bs => bs |}.
#[local] Instance plain_lower : SqlLower := {| sql_lower := to_ascii_lowercase |}.

Definition a_session : text := txt "00000000-0000-4000-8000-0000000000aa".
Definition sign_in_request : Request.t :=
  Request.Mk 5000 (txt "u") a_session (txt "l") (txt "i") (Some (repeat (Byte.x0b) 32)) (Some []).
Definition a_login : text := generated_secret EMAIL_TOKEN_PREFIX (repeat (Byte.x0a) 32).
Definition asked : Db.t := (handle (StartEmail a_request (txt "Bob@Example.com")) [] a_service).1.2.
Definition signed_in : Db.t := (handle (VerifyEmail sign_in_request a_login) [] asked).1.2.
Definition header : option text := Some (txt "Session " ++ generated_secret SESSION_PREFIX (repeat (Byte.x0b) 32)).
Definition revoked : Db.t := (handle (RevokeSession sign_in_request false header a_session) [] signed_in).1.2.

Lemma run_tx_eq {E A} (m : tx Db.t E A) os db r : (m os db).1.1 = r -> m os db = (r, (m os db).1.2, (m os db).2).
Proof. by destruct (m os db) as [[r' db'] rest]; intros <-. Qed.

Example sign_in :
  (handle (VerifyEmail sign_in_request a_login) [] asked).1.1 = Ok tt
  /\ (authenticate 6000 false header [] signed_in).1.1 = Ok (ControlActor.Mk bob (Some a_session))
  /\ (authenticate 6000 false header [] revoked).1.1 = Err AuthUnauthorized
  /\ (handle (VerifyEmail sign_in_request a_login) [] revoked).1.1 = Err Unauthorized.
Proof. vm_compute. auto. Qed.

(** The user signs in again, and has another session. *)
Definition again_request : Request.t :=
  Request.Mk 6000 (txt "u") (txt "00000000-0000-4000-8000-0000000000bb") (txt "m") (txt "i") (Some (repeat (Byte.x0c) 32)) (Some []).
Definition again : list Operation :=
  [StartEmail again_request (txt "bob@example.com");
   VerifyEmail again_request (generated_secret EMAIL_TOKEN_PREFIX (repeat (Byte.x0c) 32))].
Definition signed_in_again : Db.t := foldl (fun db op => (handle op [] db).1.2) revoked again.
Definition other_header : option text := Some (txt "Session " ++ generated_secret SESSION_PREFIX (repeat (Byte.x0c) 32)).

Lemma revoked_sessions_stay_revoked_witness :
  (authenticate 7000 false other_header [] signed_in_again).1.1
    = Ok (ControlActor.Mk bob (Some (txt "00000000-0000-4000-8000-0000000000bb")))
  /\ Some (txt "00000000-0000-4000-8000-0000000000bb") <> Some (uuid a_session).
Proof.
  assert (Ha : (authenticate 7000 false other_header [] signed_in_again).1.1
    = Ok (ControlActor.Mk bob (Some (txt "00000000-0000-4000-8000-0000000000bb")))) by (vm_compute; reflexivity).
  split; [exact Ha|].
  eapply (revoked_sessions_stay_revoked 5000 false header a_session [] signed_in
    (revoke_session 5000 false header a_session [] signed_in).1.2 (revoke_session 5000 false header a_session [] signed_in).2
    signed_in_again _ _ _ 7000 other_header [] _ _ _ (run_tx_eq _ _ _ _ Ha)).
Unshelve.
  - apply (bool_decide_unpack _). vm_compute. exact I.
  - apply run_tx_eq. vm_compute. reflexivity.
  - eapply Then; [eapply Then; [apply Start|]|]; apply served_run.
Defined.

Lemma login_tokens_are_single_use_witness :
  exists e, (consume_login 7000 (txt "email") a_login [] (consume_login 5000 (txt "email") a_login [] asked).1.2).1.1 = Err e
    /\ (e = Unauthorized \/ e = Unavailable).
Proof.
  eapply (login_tokens_are_single_use 5000 (txt "email") a_login [] asked).
  - intros a b Ha Hb _. revert a Ha b Hb.
    assert (Hl : length (Db.attempts asked) = 1%nat) by (vm_compute; reflexivity). revert Hl. generalize (Db.attempts asked).
    intros [|x [|]] Hl; try discriminate Hl. intros a ->%list_elem_of_singleton b ->%list_elem_of_singleton. done.
  - apply run_tx_eq. vm_compute. reflexivity.
  - apply Now.
  - lia.
Defined.
End sample.
