(* ===== verification/Jobs.v ===== *)
(** The job queue of the worker ([apps/server/src/worker.rs]): claiming with leases, heartbeats, release
    and retry with backoff, failure, completion, and the generations by which a crash is processed again.
    Every statement is one atomic step on the tables; the time, the lease tokens and the outcome of every
    statement are arguments.  Columns that only the dashboard shows are left out. *)

From S2P Require Import Prelude Text Identifiers Store.

Definition LEASE_SECONDS : Z := 300.

(** * Tables *)

(** A row of a project: the organization, the project and the id that a statement binds. *)
Definition key : Type := text * text * text.

Module Lease.
Record t : Type := Mk { owner : text; token : text; expires_at : Z; heartbeat_at : Z }.
End Lease.

(** The columns of the lease are set exactly in the state [leased]. *)
Inductive JobState : Type := Pending | Leased (l : Lease.t) | Completed | Failed | Dead.

Module JobRow.
Record t : Type := Mk {
  organization_id : text; project_id : text; event_id : option text; artifact_upload_id : option text;
  derived_cache_id : option text; kind : text; state : JobState; priority : Z; attempt : Z; max_attempt : Z;
  resource_failures : Z; available_at : Z; created_at : Z; failure_code : option text }.
Definition set_state s r := Mk (organization_id r) (project_id r) (event_id r) (artifact_upload_id r) (derived_cache_id r) (kind r) s (priority r) (attempt r) (max_attempt r) (resource_failures r) (available_at r) (created_at r) (failure_code r).
Definition set_priority p r := Mk (organization_id r) (project_id r) (event_id r) (artifact_upload_id r) (derived_cache_id r) (kind r) (state r) p (attempt r) (max_attempt r) (resource_failures r) (available_at r) (created_at r) (failure_code r).
Definition set_attempt a r := Mk (organization_id r) (project_id r) (event_id r) (artifact_upload_id r) (derived_cache_id r) (kind r) (state r) (priority r) a (max_attempt r) (resource_failures r) (available_at r) (created_at r) (failure_code r).
Definition set_resource_failures n r := Mk (organization_id r) (project_id r) (event_id r) (artifact_upload_id r) (derived_cache_id r) (kind r) (state r) (priority r) (attempt r) (max_attempt r) n (available_at r) (created_at r) (failure_code r).
Definition set_available_at z r := Mk (organization_id r) (project_id r) (event_id r) (artifact_upload_id r) (derived_cache_id r) (kind r) (state r) (priority r) (attempt r) (max_attempt r) (resource_failures r) z (created_at r) (failure_code r).
Definition set_failure_code c r := Mk (organization_id r) (project_id r) (event_id r) (artifact_upload_id r) (derived_cache_id r) (kind r) (state r) (priority r) (attempt r) (max_attempt r) (resource_failures r) (available_at r) (created_at r) c.
End JobRow.

Module EventRow.
Record t : Type := Mk {
  processing_state : text; state_reason : option text; retryable : bool; retry_at : option Z;
  current_result_id : option text; requested_generation : Z; completed_generation : Z }.
End EventRow.

(** The result or the code is set exactly in the state it belongs to. *)
Inductive RequestEventState : Type := EQueued | ERunning | ECompleted (result_id : text) | EFailed (code : text).
Module RequestEvent.
Record t : Type := Mk { generation : Z; previous_result_id : option text; state : RequestEventState; created_at : Z }.
Definition set_state s x := Mk (generation x) (previous_result_id x) s (created_at x).
End RequestEvent.

Inductive RequestState : Type := RPending | RScheduling (l : Lease.t) | RRunning | RCompleted | RPartial | RFailed.
Module Counts.
Record t : Type := Mk { selected : Z; queued : Z; running : Z; completed : Z; failed : Z }.
End Counts.
Module RequestRow.
Record t : Type := Mk {
  organization_id : text; project_id : text; state : RequestState; selection_complete : bool; counts : Counts.t;
  failure_code : option text }.
Definition refreshed s c r := Mk (organization_id r) (project_id r) s (selection_complete r) c (failure_code r).
End RequestRow.

(** What the other jobs are about: the state of an upload and of the artifact it is for, and of a cache.  The
    contents of a cache and its failure are set exactly in the states they belong to. *)
Module Upload.
Record t : Type := Mk { state : text; manifest_artifact_id : text; failure_code : option text }.
End Upload.
Module Stateful.
Record t : Type := Mk { state : text; failure_code : option text }.
End Stateful.
Inductive CacheRowState : Type :=
| CachePending | CacheProcessing | CacheAvailable (checksum : bytes) (byte_size : Z)
| CacheFailed (code : text) | CacheQuarantined (code : text).
Module Cache.
Record t : Type := Mk { source_object_id : text; object_key : text; state : CacheRowState }.
Definition set_state s c := Mk (source_object_id c) (object_key c) s.
End Cache.

Module Queue.
Record t : Type := Mk {
  jobs : gmap text JobRow.t;
  events : gmap key EventRow.t;
  requests : gmap text RequestRow.t;
  request_events : gmap (text * key) RequestEvent.t;
  uploads : gmap key Upload.t;
  artifacts : gmap key Stateful.t;
  caches : gmap key Cache.t }.
Definition set_jobs f (s : t) : t := Mk (f (jobs s)) (events s) (requests s) (request_events s) (uploads s) (artifacts s) (caches s).
Definition set_events f (s : t) : t := Mk (jobs s) (f (events s)) (requests s) (request_events s) (uploads s) (artifacts s) (caches s).
Definition set_requests f (s : t) : t := Mk (jobs s) (events s) (f (requests s)) (request_events s) (uploads s) (artifacts s) (caches s).
Definition set_request_events f (s : t) : t := Mk (jobs s) (events s) (requests s) (f (request_events s)) (uploads s) (artifacts s) (caches s).
Definition set_uploads f (s : t) : t := Mk (jobs s) (events s) (requests s) (request_events s) (f (uploads s)) (artifacts s) (caches s).
Definition set_artifacts f (s : t) : t := Mk (jobs s) (events s) (requests s) (request_events s) (uploads s) (f (artifacts s)) (caches s).
Definition set_caches f (s : t) : t := Mk (jobs s) (events s) (requests s) (request_events s) (uploads s) (artifacts s) (f (caches s)).
End Queue.

(** * Jobs and their errors *)

Module Job.
Record t : Type := Mk {
  id : text; organization_id : text; project_id : text; event_id : option text; artifact_upload_id : option text;
  derived_cache_id : option text; kind : text; attempt : Z; max_attempt : Z; resource_failures : Z;
  lease_token : text; target_generation : Z; project_active_jobs : Z; queue_age_seconds : Z }.
End Job.

Inductive JobError : Type :=
| LostLease | Dependency | Deterministic (code : text) | Resource (code : text) | Transient (code : text).
Definition database_unavailable : JobError := Transient (txt "database_unavailable").

Abbreviation jtx := (tx Queue.t JobError).

(** The rows of the scope of a job.  A missing id is bound as the empty text, which is no UUID. *)
Definition scoped (job : Job.t) (id : text) : key := (Job.organization_id job, Job.project_id job, id).
Definition bound (id : option text) : jtx text := lift (ok_or database_unavailable id).

(** [UPDATE ... WHERE id = $1 AND ...] of one row: whether a row was updated. *)
Definition update_row {K V} `{Countable K} (get : Queue.t -> gmap K V) (set : (gmap K V -> gmap K V) -> Queue.t -> Queue.t)
    (k : K) (p : V -> bool) (f : V -> V) : jtx bool :=
  statement database_unavailable (fun db =>
    match get db !! k with
    | Some r => if p r then Ok (true, set <[k := f r]> db) else Ok (false, db)
    | None => Ok (false, db)
    end).
Definition update_job := update_row Queue.jobs Queue.set_jobs.
Definition updated_or (e : JobError) (b : bool) : jtx () := lift (fail_if (negb b) e).

(** * Requests to process again *)

(** [refresh_reprocessing_request]: the counts of a request and the state they give. *)
Definition counts_of (request_id : text) (db : Queue.t) : Counts.t :=
  let xs := map snd (filter (fun kv => kv.1.1 = request_id) (map_to_list (Queue.request_events db))) in
  let count (p : RequestEvent.t -> bool) := Z.of_nat (length (filter (fun x => p x = true) xs)) in
  {| Counts.selected := Z.of_nat (length xs);
     Counts.queued := count (fun x => match RequestEvent.state x with EQueued => true | _ => false end);
     Counts.running := count (fun x => match RequestEvent.state x with ERunning => true | _ => false end);
     Counts.completed := count (fun x => match RequestEvent.state x with ECompleted _ => true | _ => false end);
     Counts.failed := count (fun x => match RequestEvent.state x with EFailed _ => true | _ => false end) |}.
Definition next_request_state (r : RequestRow.t) (c : Counts.t) : RequestState :=
  if negb (RequestRow.selection_complete r) then RequestRow.state r
  else match RequestRow.failure_code r with
       | Some _ => if (0 <? Counts.completed c)%Z then RPartial else RFailed
       | None =>
           if (Counts.selected c =? 0)%Z then RCompleted
           else if (0 <? Counts.queued c + Counts.running c)%Z then RRunning
           else if (0 <? Counts.completed c)%Z && (0 <? Counts.failed c)%Z then RPartial
           else if (0 <? Counts.failed c)%Z then RFailed
           else RCompleted
       end.
Definition refresh_reprocessing_request (request_id : text) : jtx () :=
  updated ← statement database_unavailable (fun db =>
    match Queue.requests db !! request_id with
    | Some r =>
        let c := counts_of request_id db in
        Ok (true, Queue.set_requests <[request_id := RequestRow.refreshed (next_request_state r c) c r]> db)
    | None => Ok (false, db)
    end);
  updated_or (Deterministic (txt "reprocessing_request_missing")) updated.

(** The updates of the request events of a crash: the requests of the rows that changed, each once and in
    order ([BTreeSet]), are refreshed. *)
Fixpoint for_each (f : text -> jtx ()) (l : list text) : jtx () :=
  match l with [] => mret () | x :: l => _ ← f x; for_each f l end.
Definition concerns (event : key) (target : Z) (p : RequestEventState -> bool) (kv : (text * key) * RequestEvent.t) : bool :=
  bool_decide (kv.1.2 = event) && (RequestEvent.generation kv.2 <=? target)%Z && p (RequestEvent.state kv.2).
Definition update_request_events (event : key) (target : Z) (p : RequestEventState -> bool) (s : RequestEventState) : jtx () :=
  request_ids ← statement database_unavailable (fun db =>
    Ok (map (fun kv => kv.1.1) (filter (fun kv => concerns event target p kv = true) (map_to_list (Queue.request_events db))),
        Queue.set_request_events (map_imap (fun k x =>
          Some (if concerns event target p (k, x) then RequestEvent.set_state s x else x))) db));
  for_each refresh_reprocessing_request (dedup (sort text_leb request_ids)).

Definition is_queued (s : RequestEventState) : bool := match s with EQueued => true | _ => false end.
Definition is_running (s : RequestEventState) : bool := match s with ERunning => true | _ => false end.
Definition is_active (s : RequestEventState) : bool := is_queued s || is_running s.

(** [mark_reprocessing_events_running]. *)
Definition mark_reprocessing_events_running (job : Job.t) : jtx () :=
  if (Job.target_generation job =? 0)%Z then mret ()
  else match Job.event_id job with
       | None => mret ()
       | Some event_id => update_request_events (scoped job event_id) (Job.target_generation job) is_queued ERunning
       end.

(** [complete_reprocessing_request_events]. *)
Definition complete_reprocessing_request_events (job : Job.t) (event_id result_id : text) : jtx () :=
  if (Job.target_generation job =? 0)%Z then mret ()
  else update_request_events (scoped job event_id) (Job.target_generation job) is_active (ECompleted result_id).

(** * Claiming *)

Definition expired (now : Z) (s : JobState) : bool :=
  match s with Leased l => (Lease.expires_at l <=? now)%Z | _ => false end.
Definition active (now : Z) (s : JobState) : bool :=
  match s with Leased l => (now <? Lease.expires_at l)%Z | _ => false end.
Definition claimable (now : Z) (r : JobRow.t) : bool :=
  match JobRow.state r with
  | Pending => (JobRow.available_at r <=? now)%Z
      && ((JobRow.attempt r <? JobRow.max_attempt r)%Z
          || (JobRow.attempt r =? JobRow.max_attempt r)%Z && (JobRow.resource_failures r =? 1)%Z)
  | s => expired now s
  end.
Definition same_project (a b : JobRow.t) : bool :=
  bool_decide (JobRow.organization_id a = JobRow.organization_id b) && bool_decide (JobRow.project_id a = JobRow.project_id b).
Definition project_active_jobs (now : Z) (r : JobRow.t) (db : Queue.t) : Z :=
  Z.of_nat (length (filter (fun kv => same_project kv.2 r = true /\ active now (JobRow.state kv.2) = true) (map_to_list (Queue.jobs db)))).

(** [ORDER BY priority, available_at, created_at, id]. *)
Definition job_leb (a b : text * JobRow.t) : bool :=
  if (JobRow.priority a.2 =? JobRow.priority b.2)%Z then
    if (JobRow.available_at a.2 =? JobRow.available_at b.2)%Z then
      if (JobRow.created_at a.2 =? JobRow.created_at b.2)%Z then text_leb a.1 b.1
      else (JobRow.created_at a.2 <? JobRow.created_at b.2)%Z
    else (JobRow.available_at a.2 <? JobRow.available_at b.2)%Z
  else (JobRow.priority a.2 <? JobRow.priority b.2)%Z.
Definition first_job (p : JobRow.t -> bool) (db : Queue.t) : option (text * JobRow.t) :=
  head (sort job_leb (filter (fun kv => p kv.2 = true) (map_to_list (Queue.jobs db)))).

(** [claim_job_with_project_limit]: the project of the first claimable job whose project is below its
    limit, and the first claimable job of that project. *)
Definition leased_by (worker token : text) (now : Z) (r : JobRow.t) : JobRow.t :=
  JobRow.set_state (Leased {| Lease.owner := worker; Lease.token := token; Lease.expires_at := (now + seconds LEASE_SECONDS)%Z; Lease.heartbeat_at := now |})
    (JobRow.set_attempt (JobRow.attempt r + 1) r).
Definition candidate (now limit : Z) (db : Queue.t) : option (text * JobRow.t * Z) :=
  '(_, seed) ← first_job (fun r => claimable now r && (project_active_jobs now r db <? limit)%Z) db;
  '(id, r) ← first_job (fun r => claimable now r && same_project r seed) db;
  Some (id, r, project_active_jobs now seed db).
Definition job_of (id token : text) (now prior : Z) (r : JobRow.t) (db : Queue.t) : Job.t :=
  {| Job.id := id; Job.organization_id := JobRow.organization_id r; Job.project_id := JobRow.project_id r;
     Job.event_id := JobRow.event_id r; Job.artifact_upload_id := JobRow.artifact_upload_id r;
     Job.derived_cache_id := JobRow.derived_cache_id r; Job.kind := JobRow.kind r; Job.attempt := JobRow.attempt r + 1;
     Job.max_attempt := JobRow.max_attempt r; Job.resource_failures := JobRow.resource_failures r; Job.lease_token := token;
     Job.target_generation := from_option EventRow.requested_generation 0%Z
       (event_id ← JobRow.event_id r; Queue.events db !! (JobRow.organization_id r, JobRow.project_id r, event_id));
     Job.project_active_jobs := prior + 1;
     Job.queue_age_seconds := Z.max 0 ((now - JobRow.created_at r + 500000) `div` seconds 1) |}%Z.
Definition claim_job_with_project_limit (now : Z) (worker : text) (random : option text) (limit : Z) : jtx (option Job.t) :=
  lease_token ← lift (ok_or (Transient (txt "random_unavailable")) random);
  transaction database_unavailable
    (row ← statement database_unavailable (fun db =>
       match candidate now limit db with
       | Some (id, r, prior) =>
           Ok (Some (job_of id lease_token now prior r db), Queue.set_jobs <[id := leased_by worker lease_token now r]> db)
       | None => Ok (None, db)
       end);
     match row with
     | Some job => _ ← mark_reprocessing_events_running job; mret (Some job)
     | None => mret None
     end).

(** * Holding a lease *)

(** The row is leased to the worker under the token of the job. *)
Definition owned_by (job : Job.t) (worker : text) (r : JobRow.t) : bool :=
  bool_decide (JobRow.organization_id r = Job.organization_id job) && bool_decide (JobRow.project_id r = Job.project_id job)
  && match JobRow.state r with
     | Leased l => bool_decide (Lease.owner l = worker) && bool_decide (Lease.token l = Job.lease_token job)
     | _ => false
     end.
Definition unexpired (now : Z) (r : JobRow.t) : bool := active now (JobRow.state r).
Definition extended (now : Z) (r : JobRow.t) : JobRow.t :=
  match JobRow.state r with
  | Leased l => JobRow.set_state (Leased {| Lease.owner := Lease.owner l; Lease.token := Lease.token l;
      Lease.expires_at := (now + seconds LEASE_SECONDS)%Z; Lease.heartbeat_at := now |}) r
  | _ => r
  end.

(** [lease_is_active]. *)
Definition lease_is_active (now : Z) (job_id lease_token : text) (db : Queue.t) : bool :=
  match Queue.jobs db !! job_id with
  | Some r => match JobRow.state r with
              | Leased l => bool_decide (Lease.token l = lease_token) && (now <? Lease.expires_at l)%Z
              | _ => false
              end
  | None => false
  end.

(** One beat of [start_heartbeat]: whether the loop goes on. *)
Definition heartbeat (now : Z) (worker : text) (job : Job.t) : jtx bool :=
  update_job (Job.id job) (owned_by job worker) (extended now).

(** [lock_lease], [complete_job], [requeue_job_for_new_generation] and [terminal_job]. *)
Definition lock_lease (now : Z) (worker : text) (job : Job.t) : jtx () :=
  found ← update_job (Job.id job) (fun r => owned_by job worker r && unexpired now r) (extended now);
  updated_or LostLease found.
Definition complete_job (worker : text) (job : Job.t) (failure_code : option text) : jtx () :=
  updated ← update_job (Job.id job) (owned_by job worker) (fun r => JobRow.set_state Completed (JobRow.set_failure_code failure_code r));
  updated_or LostLease updated.
Definition requeued (now : Z) (r : JobRow.t) : JobRow.t :=
  JobRow.set_state Pending (JobRow.set_priority 200 (JobRow.set_attempt 0 (JobRow.set_resource_failures 0
    (JobRow.set_available_at now (JobRow.set_failure_code None r))))).
Definition requeue_job_for_new_generation (now : Z) (worker : text) (job : Job.t) : jtx () :=
  updated ← update_job (Job.id job) (owned_by job worker) (requeued now);
  updated_or LostLease updated.
Definition terminal_job (worker : text) (job : Job.t) (state : JobState) (code : text) (resource_failure : bool) : jtx () :=
  updated ← update_job (Job.id job) (owned_by job worker)
    (fun r => JobRow.set_state state (JobRow.set_failure_code (Some code)
       (JobRow.set_resource_failures (JobRow.resource_failures r + (if resource_failure then 1 else 0)) r)));
  updated_or LostLease updated.

(** [release_job]: back to the queue after a delay; waiting for a dependency takes the attempt back. *)
Definition released (now delay : Z) (code : text) (resource dependency : bool) (r : JobRow.t) : JobRow.t :=
  JobRow.set_state Pending (JobRow.set_available_at (now + seconds delay) (JobRow.set_failure_code (Some code)
    (JobRow.set_resource_failures (JobRow.resource_failures r + (if resource then 1 else 0))
      (JobRow.set_attempt (JobRow.attempt r - (if dependency then 1 else 0)) r)))).
Definition release_job (now : Z) (worker : text) (job : Job.t) (code : text) (delay : Z) (resource dependency : bool) : jtx () :=
  transaction database_unavailable
    (updated ← update_job (Job.id job) (owned_by job worker) (released now delay code resource dependency);
     _ ← updated_or LostLease updated;
     match Job.event_id job with
     | Some event_id =>
         if (0 <? Job.target_generation job)%Z
         then update_request_events (scoped job event_id) (Job.target_generation job) is_running EQueued
         else mret ()
     | None => mret ()
     end).
Definition wait_for_dependency (now : Z) (worker : text) (job : Job.t) : jtx () :=
  release_job now worker job (txt "dependency_pending") 1 false true.
Definition cancel_job (now : Z) (worker : text) (job : Job.t) : jtx () :=
  release_job now worker job (txt "processing_cancelled") 0 false true.

(** [retry]: the delay doubles with every attempt, up to a minute. *)
Definition saturating_pred_i32 (n : Z) : Z := Z.max (-2147483648) (n - 1).
Definition retry_seconds (attempt : Z) : Z :=
  let n := saturating_pred_i32 attempt in
  let exponent := Z.min (if (0 <=? n)%Z then n else 10) 6 in
  Z.min (Z.shiftl 1 exponent) 60.
Definition retry (now : Z) (worker : text) (job : Job.t) (code : text) (resource : bool) : jtx () :=
  release_job now worker job code (retry_seconds (Job.attempt job)) resource false.

(** * Failure *)

(** The crash of a failed job: one that is processed again keeps the result it has. *)
Definition event_failed (quarantine : bool) (code : text) (target : Z) (e : EventRow.t) : EventRow.t :=
  let keep := (0 <? target)%Z && negb (is_none (EventRow.current_result_id e)) in
  {| EventRow.processing_state := if keep then EventRow.processing_state e else if quarantine then txt "quarantined" else txt "failed";
     EventRow.state_reason := if keep then EventRow.state_reason e else Some code;
     EventRow.retryable := if keep then EventRow.retryable e else false;
     EventRow.retry_at := if keep then EventRow.retry_at e else None;
     EventRow.current_result_id := EventRow.current_result_id e;
     EventRow.requested_generation := EventRow.requested_generation e;
     EventRow.completed_generation := Z.max (EventRow.completed_generation e) target |}.
Definition update_event (k : key) (f : EventRow.t -> EventRow.t) : jtx EventRow.t :=
  row ← statement database_unavailable (fun db =>
    match Queue.events db !! k with
    | Some e => Ok (Some (f e), Queue.set_events <[k := f e]> db)
    | None => Ok (None, db)
    end);
  lift (ok_or LostLease row).

(** [finish_failure], by the kind of the job. *)
Definition fail_crash (job : Job.t) (code : text) (quarantine : bool) : jtx bool :=
  event_id ← bound (Job.event_id job);
  e ← update_event (scoped job event_id) (event_failed quarantine code (Job.target_generation job));
  _ ← (if (0 <? Job.target_generation job)%Z
       then update_request_events (scoped job event_id) (Job.target_generation job) is_active (EFailed code)
       else mret ());
  mret (Job.target_generation job <? EventRow.requested_generation e)%Z.
Definition is_processing (s : text) : bool := bool_decide (s = txt "processing").
Definition fail_upload (job : Job.t) (code : text) : jtx bool :=
  upload_id ← bound (Job.artifact_upload_id job);
  session ← update_row Queue.uploads Queue.set_uploads (scoped job upload_id) (fun u => is_processing (Upload.state u))
    (fun u => Upload.Mk (txt "failed") (Upload.manifest_artifact_id u) (Some code));
  _ ← updated_or LostLease session;
  manifest ← select database_unavailable (fun db => Upload.manifest_artifact_id <$> (Queue.uploads db !! scoped job upload_id));
  manifest_id ← lift (ok_or LostLease manifest);
  updated ← update_row Queue.artifacts Queue.set_artifacts (scoped job manifest_id) (fun a => is_processing (Stateful.state a))
    (fun _ => Stateful.Mk (txt "quarantined") (Some code));
  _ ← updated_or LostLease updated;
  mret false.
Definition is_open_cache (s : CacheRowState) : bool := match s with CachePending | CacheProcessing => true | _ => false end.
Definition fail_cache (job : Job.t) (code : text) (quarantine : bool) : jtx bool :=
  cache_id ← bound (Job.derived_cache_id job);
  updated ← update_row Queue.caches Queue.set_caches (scoped job cache_id)
    (fun c => is_open_cache (Cache.state c))
    (Cache.set_state (if quarantine then CacheQuarantined code else CacheFailed code));
  _ ← updated_or LostLease updated;
  mret false.
Definition finish_failure (now : Z) (worker : text) (job : Job.t) (code : text) (quarantine resource_failure : bool) : jtx () :=
  transaction database_unavailable
    (_ ← lock_lease now worker job;
     requeue_newer_generation ←
       (if decide (Job.kind job = txt "process_crash") then fail_crash job code quarantine
        else if decide (Job.kind job = txt "index_artifact") then fail_upload job code
        else if decide (Job.kind job = txt "generate_symcache") then fail_cache job code quarantine
        else if decide (Job.kind job = txt "delete_raw") then mret false
        else raise (Deterministic (txt "unknown_job_type")));
     if requeue_newer_generation : bool then requeue_job_for_new_generation now worker job
     else terminal_job worker job (if quarantine then Failed else Dead) code resource_failure).
Definition quarantine (now : Z) (worker : text) (job : Job.t) (code : text) : jtx () := finish_failure now worker job code true false.
Definition quarantine_resource (now : Z) (worker : text) (job : Job.t) (code : text) : jtx () := finish_failure now worker job code true true.
Definition fail (now : Z) (worker : text) (job : Job.t) (code : text) : jtx () := finish_failure now worker job code false false.

(** [run_job] and [finish_result]: which work is done, and what becomes of the job by its outcome. *)
Definition resource_retry (job : Job.t) : bool :=
  (Job.resource_failures job =? 1)%Z && (Job.attempt job =? Z.min 2147483647 (Job.max_attempt job + 1))%Z.
Definition exhausted (job : Job.t) : bool := (Job.max_attempt job <? Job.attempt job)%Z && negb (resource_retry job).
Definition finish_result (now : Z) (worker : text) (job : Job.t) (r : result JobError ()) : jtx () :=
  match r with
  | Ok _ | Err LostLease => mret ()
  | Err Dependency => ignoring (wait_for_dependency now worker job)
  | Err (Deterministic code) => ignoring (quarantine now worker job code)
  | Err (Resource code) =>
      if (Job.resource_failures job =? 0)%Z then ignoring (retry now worker job code true)
      else ignoring (quarantine_resource now worker job code)
  | Err (Transient code) =>
      if (Job.attempt job <? Job.max_attempt job)%Z then ignoring (retry now worker job code false)
      else ignoring (fail now worker job code)
  end.
Definition run_job (now : Z) (worker : text) (job : Job.t) (work : Job.t -> jtx ()) : jtx () := fun o db =>
  let '(r, db, o) := (if exhausted job then raise (Transient (txt "retry_exhausted")) else work job) o db in
  finish_result now worker job r o db.

(** * Publication and reprocessing *)

(** The end of [publish_crash_result]: the crash has a new current result and what it answers to, and its
    job is done unless it was requested again in the meantime. *)
Definition event_published (result_id state reason : text) (target : Z) (e : EventRow.t) : EventRow.t :=
  {| EventRow.processing_state := state;
     EventRow.state_reason := if decide (state = txt "processed") then None else Some reason;
     EventRow.retryable := false; EventRow.retry_at := None; EventRow.current_result_id := Some result_id;
     EventRow.requested_generation := EventRow.requested_generation e;
     EventRow.completed_generation := Z.max (EventRow.completed_generation e) target |}.
Definition conclude_publication (now : Z) (worker : text) (job : Job.t) (event_id result_id state reason : text) : jtx () :=
  e ← update_event (scoped job event_id) (event_published result_id state reason (Job.target_generation job));
  _ ← complete_reprocessing_request_events job event_id result_id;
  if (Job.target_generation job <? EventRow.requested_generation e)%Z
  then requeue_job_for_new_generation now worker job
  else complete_job worker job None.

(** The job that processes a crash. *)
Definition processes (k : key) (r : JobRow.t) : bool :=
  bool_decide (JobRow.kind r = txt "process_crash") && bool_decide (JobRow.organization_id r = k.1.1)
  && bool_decide (JobRow.project_id r = k.1.2) && bool_decide (JobRow.event_id r = Some k.2).
Definition crash_jobs (k : key) (db : Queue.t) : list (text * JobRow.t) :=
  filter (fun kv => processes k kv.2 = true) (map_to_list (Queue.jobs db)).
Definition is_leased (s : JobState) : bool := match s with Leased _ => true | _ => false end.
Definition is_terminal (s : JobState) : bool := match s with Completed | Failed | Dead => true | _ => false end.

(** [schedule_reprocessing_events]: a crash that is being processed is asked for a newer generation unless
    one is waiting already; one that is idle joins the generation that waits, or starts the next. *)
Definition running_generation (k : key) (db : Queue.t) : Z :=
  foldr Z.max 0%Z (map (fun kv => RequestEvent.generation kv.2)
    (filter (fun kv => kv.1.2 = k /\ is_running (RequestEvent.state kv.2) = true) (map_to_list (Queue.request_events db)))).
Definition next_generation (k : key) (e : EventRow.t) (r : JobRow.t) (db : Queue.t) : Z :=
  let requested := EventRow.requested_generation e in
  (if is_leased (JobRow.state r) then
     if requested <=? running_generation k db then requested + 1 else requested
   else if EventRow.completed_generation e <? requested then requested else requested + 1)%Z.
Definition reactivated (now : Z) (r : JobRow.t) : JobRow.t :=
  if is_leased (JobRow.state r) then r
  else JobRow.set_state Pending
    (JobRow.set_priority (if is_terminal (JobRow.state r) then 200 else JobRow.priority r)
      (JobRow.set_attempt 0 (JobRow.set_resource_failures 0 (JobRow.set_available_at now (JobRow.set_failure_code None r))))).
Definition requested_again (g : Z) (e : EventRow.t) : EventRow.t :=
  {| EventRow.processing_state := EventRow.processing_state e; EventRow.state_reason := EventRow.state_reason e;
     EventRow.retryable := EventRow.retryable e; EventRow.retry_at := EventRow.retry_at e;
     EventRow.current_result_id := EventRow.current_result_id e; EventRow.requested_generation := g;
     EventRow.completed_generation := EventRow.completed_generation e |}.
Definition schedule_event (now : Z) (request_id : text) (db : Queue.t) (k : key) : Queue.t :=
  match Queue.events db !! k, head (crash_jobs k db), Queue.request_events db !! (request_id, k) with
  | Some e, Some (id, r), None =>
      let g := next_generation k e r db in
      Queue.set_jobs <[id := reactivated now r]>
        (Queue.set_request_events <[(request_id, k) :=
            {| RequestEvent.generation := g; RequestEvent.previous_result_id := EventRow.current_result_id e;
               RequestEvent.state := EQueued; RequestEvent.created_at := now |}]>
          (Queue.set_events <[k := requested_again g e]> db))
  | _, _, _ => db
  end.
Definition schedule_reprocessing_events (now : Z) (request_id organization_id project_id : text) (event_ids : list text) : jtx () :=
  let keys := map (fun id => (organization_id, project_id, id)) event_ids in
  locked_jobs ← select database_unavailable (fun db => length (flat_map (fun k => crash_jobs k db) keys));
  _ ← lift (fail_if (negb (locked_jobs =? length event_ids)%nat) (Deterministic (txt "event_job_missing")));
  execute database_unavailable (fun db => foldl (schedule_event now request_id) db keys).

(** [reconcile_reprocessing_event_jobs]: a waiting request whose crash has a finished job is queued
    again, with its job, at most a hundred at once. *)
Definition settled_request (s : RequestState) : bool := match s with RRunning | RPartial | RFailed => true | _ => false end.
Definition stranded (db : Queue.t) (kv : (text * key) * RequestEvent.t) : bool :=
  is_active (RequestEvent.state kv.2)
  && match Queue.requests db !! kv.1.1 with Some r => settled_request (RequestRow.state r) | None => false end
  && match Queue.events db !! kv.1.2 with Some e => (EventRow.completed_generation e <? RequestEvent.generation kv.2)%Z | None => false end
  && existsb (fun jr => is_terminal (JobRow.state jr.2)) (crash_jobs kv.1.2 db).
Definition by_created (a b : (text * key) * RequestEvent.t) : bool := (RequestEvent.created_at a.2 <=? RequestEvent.created_at b.2)%Z.
Definition stranded_events (db : Queue.t) : list ((text * key) * RequestEvent.t) :=
  take 100 (sort by_created (filter (fun kv => stranded db kv = true) (map_to_list (Queue.request_events db)))).
Definition reconcile_reprocessing_event_jobs (now : Z) : jtx bool :=
  transaction database_unavailable
    (rows ← statement database_unavailable (fun db =>
       let xs := stranded_events db in
       let reset (r : JobRow.t) := is_terminal (JobRow.state r) && existsb (fun kv : (text * key) * RequestEvent.t => processes kv.1.2 r) xs in
       Ok ((map (fun kv => kv.1.1) xs, length (filter (fun jr => reset jr.2 = true) (map_to_list (Queue.jobs db)))),
           Queue.set_jobs (fmap (fun r => if reset r then requeued now r else r))
             (Queue.set_request_events (map_imap (fun k x =>
                Some (if bool_decide (k ∈ map fst xs) then RequestEvent.set_state EQueued x else x))) db)));
     let '(request_ids, reset_count) := rows : list text * nat in
     _ ← for_each refresh_reprocessing_request (dedup (sort text_leb request_ids));
     mret (negb (bool_decide (request_ids = [])) && (0 <? reset_count)%nat)).

(** * Symbol caches *)

(** [ensure_cache]: the cache of a source object, which is inserted when there is none, and the job that
    generates it, unless there is one.  The statements run without the lease, each on its own.  [version]
    is the part of the key that the versions of the processor and of the format make up; the rows are those of
    the current versions, of which there is one per source object (a unique key). *)
Inductive CacheState : Type := Pending_cache | Unavailable_cache | Available_cache (key : text) (checksum : bytes) (size : Z).
Definition cache_object_key (organization_id : text) (checksum : bytes) (version : text) : text :=
  txt "org/" ++ organization_id ++ txt "/derived/" ++ hex2s false checksum ++ txt "/" ++ version ++ txt "/symcache".
Definition cache_of (organization_id object_id : text) (db : Queue.t) : option (key * Cache.t) :=
  head (filter (fun kv => kv.1.1.1 = organization_id /\ Cache.source_object_id kv.2 = object_id) (map_to_list (Queue.caches db))).
Definition cache_clash (id object_key : text) (db : Queue.t) : bool :=
  existsb (fun kv => bool_decide (kv.1.2 = id) || bool_decide (Cache.object_key kv.2 = object_key)) (map_to_list (Queue.caches db)).
Definition generates (cache_id : text) (r : JobRow.t) : bool :=
  bool_decide (JobRow.kind r = txt "generate_symcache") && bool_decide (JobRow.derived_cache_id r = Some cache_id).
Definition cache_job (now : Z) (organization_id project_id cache_id : text) : JobRow.t := {|
  JobRow.organization_id := organization_id; JobRow.project_id := project_id; JobRow.event_id := None;
  JobRow.artifact_upload_id := None; JobRow.derived_cache_id := Some cache_id; JobRow.kind := txt "generate_symcache";
  JobRow.state := Pending; JobRow.priority := 50; JobRow.attempt := 0; JobRow.max_attempt := 5;
  JobRow.resource_failures := 0; JobRow.available_at := now; JobRow.created_at := now; JobRow.failure_code := None |}.
Definition ensure_cache (now : Z) (job : Job.t) (object_id : text) (checksum : bytes) (version : text)
    (random job_random : option text) : jtx CacheState :=
  id ← lift (ok_or (Transient (txt "random_unavailable")) random);
  let object_key := cache_object_key (Job.organization_id job) checksum version in
  '(k, c) ← statement database_unavailable (fun db =>
    match cache_of (Job.organization_id job) object_id db with
    | Some row => Ok (row, db)
    | None =>
        if cache_clash id object_key db then Err database_unavailable
        else let c := Cache.Mk object_id object_key CachePending in
             Ok ((scoped job id, c), Queue.set_caches <[scoped job id := c]> db)
    end);
  match Cache.state c with
  | CacheAvailable sum size =>
      _ ← lift (fail_if (negb (len sum =? 32)%N) (Deterministic (txt "cache_checksum_invalid")));
      _ ← lift (fail_if (size <? 0)%Z (Deterministic (txt "cache_size_invalid")));
      mret (Available_cache (Cache.object_key c) sum size)
  | CacheFailed _ | CacheQuarantined _ => mret Unavailable_cache
  | CachePending | CacheProcessing =>
      job_id ← lift (ok_or (Transient (txt "random_unavailable")) job_random);
      _ ← statement database_unavailable (fun db =>
        if existsb (fun kv => generates k.2 kv.2) (map_to_list (Queue.jobs db)) then Ok (tt, db)
        else if is_none (Queue.jobs db !! job_id)
             then Ok (tt, Queue.set_jobs <[job_id := cache_job now (Job.organization_id job) k.1.2 k.2]> db)
             else Err database_unavailable);
      mret Pending_cache
  end.

(** [mark_cache_processing]: a cache that is neither pending nor being processed fails a check of its
    table, since what it holds belongs to its state. *)
Definition mark_cache_processing (now : Z) (worker : text) (job : Job.t) : jtx () :=
  updated ← statement database_unavailable (fun db =>
    match Queue.jobs db !! Job.id job with
    | Some r =>
        match JobRow.derived_cache_id r with
        | Some cache_id =>
            let k := (JobRow.organization_id r, JobRow.project_id r, cache_id) in
            match Queue.caches db !! k with
            | Some c =>
                if owned_by job worker r && unexpired now r then
                  if is_open_cache (Cache.state c) then Ok (true, Queue.set_caches <[k := Cache.set_state CacheProcessing c]> db)
                  else Err database_unavailable
                else Ok (false, db)
            | None => Ok (false, db)
            end
        | None => Ok (false, db)
        end
    | None => Ok (false, db)
    end);
  updated_or LostLease updated.

(** [publish_cache]. *)
Definition publish_cache (now : Z) (worker : text) (job : Job.t) (cache_id cache_key : text) (checksum : bytes) (size : Z) : jtx () :=
  transaction database_unavailable
    (_ ← lock_lease now worker job;
     put ← remote;
     _ ← lift (fail_if (negb put) (Transient (txt "object_store_unavailable")));
     _ ← lift (fail_if (i64_max <? size)%Z (Deterministic (txt "cache_size_invalid")));
     updated ← update_row Queue.caches Queue.set_caches (scoped job cache_id)
       (fun c => match Cache.state c with CacheProcessing => bool_decide (Cache.object_key c = cache_key) | _ => false end)
       (Cache.set_state (CacheAvailable checksum size));
     _ ← updated_or LostLease updated;
     complete_job worker job None).

(** * The service *)

(** What a worker does with a job it was given: its heartbeats, its cancellation, what becomes of its
    outcome, the publication of a crash and of a symbol cache, the caches it asks for without holding the
    lease, and the completion of the other kinds of job; a publication starts with the lease, as every one
    does.  What a deletion does to the tables of its project and to the store is [delete_raw] (file Retention). *)
Inductive Action : Type :=
| Heartbeat | WaitForDependency | Cancel | Finish (outcome : result JobError ())
| Publish (result_id state reason : text)
| EnsureCache (object_id : text) (checksum : bytes) (version : text) (random job_random : option text)
| MarkCacheProcessing | PublishCache (cache_id cache_key : text) (checksum : bytes) (size : Z)
| Complete (failure_code : option text).
Definition unless_kind (kinds : list text) (job : Job.t) : jtx () :=
  lift (fail_if (bool_decide (Job.kind job ∈ kinds)) (Deterministic (txt "unknown_job_type"))).
Definition only_kind (kind : text) (job : Job.t) : jtx () :=
  lift (fail_if (negb (bool_decide (Job.kind job = kind))) (Deterministic (txt "unknown_job_type"))).
Definition act (now : Z) (worker : text) (job : Job.t) (a : Action) : jtx () :=
  match a with
  | Heartbeat => _ ← heartbeat now worker job; mret ()
  | WaitForDependency => wait_for_dependency now worker job
  | Cancel => cancel_job now worker job
  | Finish outcome => finish_result now worker job outcome
  | Publish result_id state reason =>
      _ ← only_kind (txt "process_crash") job;
      event_id ← lift (ok_or (Deterministic (txt "missing_event")) (Job.event_id job));
      transaction database_unavailable
        (_ ← lock_lease now worker job; conclude_publication now worker job event_id result_id state reason)
  | EnsureCache object_id checksum version random job_random =>
      _ ← only_kind (txt "process_crash") job;
      _ ← ensure_cache now job object_id checksum version random job_random; mret ()
  | MarkCacheProcessing => _ ← only_kind (txt "generate_symcache") job; mark_cache_processing now worker job
  | PublishCache cache_id cache_key checksum size =>
      _ ← only_kind (txt "generate_symcache") job; publish_cache now worker job cache_id cache_key checksum size
  | Complete failure_code =>
      _ ← unless_kind [txt "process_crash"; txt "generate_symcache"] job;
      transaction database_unavailable (_ ← lock_lease now worker job; complete_job worker job failure_code)
  end.

(** The queue with the jobs that were handed out, each to a worker; a step carries the lease token it
    draws, when it draws one. *)
Inductive step : option text -> Queue.t * list (text * Job.t) -> Queue.t * list (text * Job.t) -> Prop :=
| Claim now worker random limit o db hs r db' o' :
    claim_job_with_project_limit now worker random limit o db = (r, db', o') ->
    step random (db, hs) (db', match r with Ok (Some job) => (worker, job) :: hs | _ => hs end)
| Act now worker job a o db hs r db' o' :
    (worker, job) ∈ hs -> act now worker job a o db = (r, db', o') -> step None (db, hs) (db', hs)
| Schedule now request_id organization_id project_id event_ids o db hs r db' o' :
    NoDup event_ids ->
    transaction database_unavailable (schedule_reprocessing_events now request_id organization_id project_id event_ids) o db = (r, db', o') ->
    step None (db, hs) (db', hs)
| Reconcile now o db hs r db' o' :
    reconcile_reprocessing_event_jobs now o db = (r, db', o') -> step None (db, hs) (db', hs).

(** Steps in any order, none of which draws the token. *)
Inductive steps (avoiding : option text) (s : Queue.t * list (text * Job.t)) : Queue.t * list (text * Job.t) -> Prop :=
| Stay : steps avoiding s s
| Go token s1 s2 : steps avoiding s s1 -> step token s1 s2 -> (token = None \/ token <> avoiding) -> steps avoiding s s2.
