(* ===== verification/Leases.v ===== *)
(** Properties of the job queue: a claim takes a claimable job within the limit of its project, and the
    statements of a worker that lost its lease leave the queue as it is, but for a cache that it asks for ([Stale] is about all its work). *)

From S2P Require Import Prelude Text Identifiers Store Jobs.

(** * Rows *)

Lemma update_row_skips {K V} `{Countable K} (get : Queue.t -> gmap K V) set (k : K) p f o db :
  (forall r, get db !! k = Some r -> p r = false) ->
  exists b o', update_row get set k p f o db = (b, db, o') /\ b <> Ok true.
Proof.
  intros Hp. unfold update_row, statement. destruct (next_outcome o) as [[] o']; [by eexists _, _|].
  destruct (get db !! k) as [r|] eqn:E; [rewrite (Hp r eq_refl)|]; by eexists _, _.
Qed.

(** The worker does not hold the lease it was given. *)
Definition lost (worker : text) (job : Job.t) (db : Queue.t) : Prop :=
  forall r, Queue.jobs db !! Job.id job = Some r -> owned_by job worker r = false.

Lemma update_job_lost worker job p f o db :
  lost worker job db -> (forall r, owned_by job worker r = false -> p r = false) ->
  exists b o', update_job (Job.id job) p f o db = (b, db, o') /\ b <> Ok true.
Proof. intros Hl Hp. apply update_row_skips. intros r Hr. by apply Hp, Hl. Qed.

(** A program that starts with an update of the lost row stops there. *)
Lemma update_job_or_lost {B} worker job p f (m : () -> jtx B) o db :
  lost worker job db -> (forall r, owned_by job worker r = false -> p r = false) ->
  exists e o', ((updated ← update_job (Job.id job) p f; _ ← updated_or LostLease updated; m ()) : jtx B) o db = (Err e, db, o').
Proof.
  intros Hl Hp. destruct (update_job_lost worker job p f o db Hl Hp) as (b & o' & E & Hb).
  unfold mbind, tx_bind. rewrite E. destruct b as [[]|e]; [done|by eexists _, _..].
Qed.

Lemma lock_lease_lost now worker job o db :
  lost worker job db -> exists e o', lock_lease now worker job o db = (Err e, db, o').
Proof.
  intros Hl. unfold lock_lease. destruct (update_job_lost worker job (fun r => owned_by job worker r && unexpired now r) (extended now) o db Hl)
    as (b & o' & E & Hb); [by intros r ->|].
  unfold mbind, tx_bind. rewrite E. destruct b as [[]|e]; [done|by eexists _, _..].
Qed.

Lemma transaction_Err {S E A} (e : E) (m : tx S E A) o s :
  (forall o, exists x s' o', m o s = (Err x, s', o')) -> exists x o', transaction e m o s = (Err x, s, o').
Proof.
  intros Hm. unfold transaction, transaction_if. destruct (next_outcome o) as [[] o1]; [by eexists _, _|].
  destruct (Hm o1) as (x & s' & o' & ->). by eexists _, _.
Qed.

Lemma locked_transaction_lost {B} now worker job (m : () -> jtx B) o db :
  lost worker job db -> exists e o', transaction database_unavailable (lock_lease now worker job ≫= m) o db = (Err e, db, o').
Proof.
  intros Hl. apply transaction_Err. intros o1. destruct (lock_lease_lost now worker job o1 db Hl) as (e & o2 & E).
  unfold mbind, tx_bind. rewrite E. by eexists _, _, _.
Qed.

Lemma release_job_lost now worker job code delay resource dependency o db :
  lost worker job db -> exists e o', release_job now worker job code delay resource dependency o db = (Err e, db, o').
Proof.
  intros Hl. apply transaction_Err. intros o1.
  destruct (update_job_or_lost worker job (owned_by job worker) (released now delay code resource dependency)
    (fun _ => match Job.event_id job with
     | Some event_id =>
         if (0 <? Job.target_generation job)%Z
         then update_request_events (scoped job event_id) (Job.target_generation job) is_running EQueued
         else mret ()
     | None => mret ()
     end) o1 db Hl) as (e & o2 & E); [done|]. rewrite E. by eexists _, _, _.
Qed.

Lemma ignoring_Err {S E A} (m : tx S E A) o s e o' :
  m o s = (Err e, s, o') -> (ignoring m : tx S E ()) o s = (Ok tt, s, o').
Proof. unfold ignoring. by intros ->. Qed.

Lemma finish_failure_lost now worker job code q rf o db :
  lost worker job db -> exists e o', finish_failure now worker job code q rf o db = (Err e, db, o').
Proof. intros Hl. by apply locked_transaction_lost. Qed.

Lemma finish_result_lost now worker job outcome o db :
  lost worker job db -> exists o', finish_result now worker job outcome o db = (Ok tt, db, o').
Proof.
  intros Hl. assert (Hr : forall code delay resource dependency, exists o',
    (ignoring (release_job now worker job code delay resource dependency) : jtx ()) o db = (Ok tt, db, o')).
  { intros code delay resource dependency. destruct (release_job_lost now worker job code delay resource dependency o db Hl) as (e & o' & E).
    exists o'. by eapply ignoring_Err. }
  assert (Hf : forall code q rf, exists o', (ignoring (finish_failure now worker job code q rf) : jtx ()) o db = (Ok tt, db, o')).
  { intros code q rf. destruct (finish_failure_lost now worker job code q rf o db Hl) as (e & o' & E). exists o'. by eapply ignoring_Err. }
  unfold finish_result. destruct outcome as [?|[]]; try by eexists.
  - apply Hr.
  - apply Hf.
  - destruct (_ =? _)%Z; [apply Hr|apply Hf].
  - destruct (_ <? _)%Z; [apply Hr|apply Hf].
Qed.

(** ** Caches that are asked for *)

(** A new cache and the job that generates it are added, and nothing else is touched. *)
Record adds_cache (db db' : Queue.t) : Prop := {
  adds_rows : exists f g, db' = Queue.set_jobs f (Queue.set_caches g db);
  adds_jobs : Queue.jobs db ⊆ Queue.jobs db';
  adds_caches : Queue.caches db ⊆ Queue.caches db';
  added_job id r : Queue.jobs db' !! id = Some r -> Queue.jobs db !! id = None ->
    JobRow.kind r = txt "generate_symcache" /\ JobRow.state r = Pending;
  added_cache k c : Queue.caches db' !! k = Some c -> Queue.caches db !! k = None -> Cache.state c = CachePending }.

Lemma adds_cache_refl db : adds_cache db db.
Proof. split; [exists (fun x => x), (fun x => x); by destruct db|done..| |]; congruence. Qed.

Lemma adds_cache_caches db0 db k c :
  adds_cache db0 db -> Queue.caches db !! k = None -> Cache.state c = CachePending -> adds_cache db0 (Queue.set_caches <[k := c]> db).
Proof.
  intros [(f & g & ->) J C AJ AC] Hk Hc. split; cbn in *; try done.
  - by exists f, (fun m => <[k := c]> (g m)).
  - etrans; [exact C|]. by apply insert_subseteq.
  - intros k' c'. rewrite lookup_insert_Some. intros [[<- <-]|[_ E]]; [done|by apply AC].
Qed.
Lemma adds_cache_jobs db0 db id r :
  adds_cache db0 db -> Queue.jobs db !! id = None -> JobRow.kind r = txt "generate_symcache" -> JobRow.state r = Pending ->
  adds_cache db0 (Queue.set_jobs <[id := r]> db).
Proof.
  intros [(f & g & ->) J C AJ AC] Hid Hk Hr. split; cbn in *; try done.
  - by exists (fun m => <[id := r]> (f m)), g.
  - etrans; [exact J|]. by apply insert_subseteq.
  - intros id' r'. rewrite lookup_insert_Some. intros [[<- <-]|[_ E]]; [done|by apply AJ].
Qed.

Lemma no_clash id object_key db k : cache_clash id object_key db = false -> k.2 = id -> Queue.caches db !! k = None.
Proof.
  intros Hc Hk. destruct (Queue.caches db !! k) as [c|] eqn:E; [|done]. exfalso. revert Hc. apply not_false_iff_true, existsb_exists.
  exists (k, c). split; [by apply list_elem_of_In, elem_of_map_to_list|]. cbn. by rewrite bool_decide_true.
Qed.

(** Whatever holds with such additions holds after [ensure_cache]. *)
Lemma ensure_cache_preserves (P : Queue.t -> Prop) now job object_id checksum version random job_random :
  (forall db k c, P db -> Queue.caches db !! k = None -> Cache.state c = CachePending -> P (Queue.set_caches <[k := c]> db)) ->
  (forall db id org proj cache_id, P db -> Queue.jobs db !! id = None -> P (Queue.set_jobs <[id := cache_job now org proj cache_id]> db)) ->
  preserves P (ensure_cache now job object_id checksum version random job_random).
Proof.
  intros HC HJ. unfold ensure_cache. apply preserves_bind; [apply preserves_lift|intros id]. cbv zeta. apply preserves_bind.
  - apply preserves_statement. intros db a db' HP E. destruct (cache_of _ _ db); [by simplify_eq|].
    destruct (cache_clash _ _ db) eqn:Ec; [done|]. injection E as _ <-. apply HC; [done| |done]. by eapply no_clash.
  - intros [k c].
    assert (preserves P (job_id ← lift (ok_or (Transient (txt "random_unavailable")) job_random);
      _ ← statement database_unavailable (fun db =>
        if existsb (fun kv => generates k.2 kv.2) (map_to_list (Queue.jobs db)) then Ok (tt, db)
        else if is_none (Queue.jobs db !! job_id)
             then Ok (tt, Queue.set_jobs <[job_id := cache_job now (Job.organization_id job) k.1.2 k.2]> db)
             else Err database_unavailable);
      mret Pending_cache)) as Hjob.
    { apply preserves_bind; [apply preserves_lift|intros job_id]. apply preserves_bind; [|intros _; apply preserves_ret].
      apply preserves_statement. intros db a db' HP E. destruct (existsb _ _); [by simplify_eq|].
      destruct (Queue.jobs db !! job_id) eqn:Ej; [done|]. injection E as _ <-. by apply HJ. }
    destruct (Cache.state c); try exact Hjob; [|apply preserves_ret..].
    apply preserves_bind; [apply preserves_lift|intros _]. apply preserves_bind; [apply preserves_lift|intros _; apply preserves_ret].
Qed.

Lemma ensure_cache_adds now job object_id checksum version random job_random db0 :
  preserves (adds_cache db0) (ensure_cache now job object_id checksum version random job_random).
Proof. apply ensure_cache_preserves; intros; [by apply adds_cache_caches|by apply adds_cache_jobs]. Qed.

Lemma lift_bind {A B} (x : result JobError A) (f : A -> jtx B) o db r db' o' :
  (lift x ≫= f) o db = (r, db', o') -> db' = db \/ exists a, f a o db = (r, db', o').
Proof. unfold mbind, tx_bind, lift. destruct x as [a|e]; [intros H; right; by exists a|]. intros [= _ <- _]. by left. Qed.

(** What a worker without the lease still does: it may ask for a cache. *)
Lemma act_stale now worker job a o db r db' o' :
  lost worker job db -> act now worker job a o db = (r, db', o') ->
  db' = db \/ (exists object_id checksum version random job_random, a = EnsureCache object_id checksum version random job_random) /\ adds_cache db db'.
Proof.
  intros Hl. destruct a; cbn [act]; intros Hrun.
  - left. unfold heartbeat in Hrun. destruct (update_job_lost worker job (owned_by job worker) (extended now) o db Hl) as (b & o1 & E & _); [done|].
    unfold mbind, tx_bind in Hrun. rewrite E in Hrun. destruct b; by injection Hrun as _ <- _.
  - left. destruct (release_job_lost now worker job (txt "dependency_pending") 1 false true o db Hl) as (e & o1 & E).
    unfold wait_for_dependency in Hrun. rewrite E in Hrun. by injection Hrun as _ <- _.
  - left. destruct (release_job_lost now worker job (txt "processing_cancelled") 0 false true o db Hl) as (e & o1 & E).
    unfold cancel_job in Hrun. rewrite E in Hrun. by injection Hrun as _ <- _.
  - left. destruct (finish_result_lost now worker job outcome o db Hl) as (o1 & E). rewrite E in Hrun. by injection Hrun as _ <- _.
  - left. apply lift_bind in Hrun as [?|[_ Hrun]]; [done|]. apply lift_bind in Hrun as [?|[event_id Hrun]]; [done|].
    destruct (locked_transaction_lost now worker job (fun _ => conclude_publication now worker job event_id result_id state reason) o db Hl) as (e & o1 & E).
    rewrite E in Hrun. by injection Hrun as _ <- _.
  - right. split; [by eexists _, _, _, _, _|]. apply lift_bind in Hrun as [->|[_ Hrun]]; [apply adds_cache_refl|].
    pose proof (ensure_cache_adds now job object_id checksum version random job_random db o db (adds_cache_refl db)) as Ha.
    unfold mbind, tx_bind in Hrun. destruct (ensure_cache _ _ _ _ _ _ _ o db) as [[[st|e] db1] o1]; by injection Hrun as _ <- _.
  - left. apply lift_bind in Hrun as [?|[_ Hrun]]; [done|]. unfold mark_cache_processing, mbind, tx_bind, statement in Hrun.
    destruct (next_outcome o) as [[] o1]; [by injection Hrun as _ <- _|].
    destruct (Queue.jobs db !! Job.id job) as [row|] eqn:Ej; [|by injection Hrun as _ <- _].
    destruct (JobRow.derived_cache_id row); [|by injection Hrun as _ <- _].
    destruct (Queue.caches db !! _); [|by injection Hrun as _ <- _]. rewrite (Hl row Ej) in Hrun. by injection Hrun as _ <- _.
  - left. apply lift_bind in Hrun as [?|[_ Hrun]]; [done|].
    match type of Hrun with publish_cache _ _ _ ?c ?k ?s ?z _ _ = _ =>
      destruct (locked_transaction_lost now worker job (fun _ =>
        put ← remote; _ ← lift (fail_if (negb put) (Transient (txt "object_store_unavailable")));
        _ ← lift (fail_if (i64_max <? z)%Z (Deterministic (txt "cache_size_invalid")));
        updated ← update_row Queue.caches Queue.set_caches (scoped job c)
          (fun x => match Cache.state x with CacheProcessing => bool_decide (Cache.object_key x = k) | _ => false end)
          (Cache.set_state (CacheAvailable s z));
        _ ← updated_or LostLease updated; complete_job worker job None) o db Hl) as (e & o1 & E) end.
    unfold publish_cache in Hrun. rewrite E in Hrun. by injection Hrun as _ <- _.
  - left. apply lift_bind in Hrun as [?|[_ Hrun]]; [done|].
    destruct (locked_transaction_lost now worker job (fun _ => complete_job worker job failure_code) o db Hl) as (e & o1 & E).
    rewrite E in Hrun. by injection Hrun as _ <- _.
Qed.

(** * A lost lease stays lost *)

(** An update of a row that never gives a lease to someone. *)
Definition never_leases (f : JobRow.t -> JobRow.t) : Prop :=
  forall job worker r, owned_by job worker (f r) = true -> owned_by job worker r = true.

Lemma never_leases_state s f : (forall r, JobRow.state (f r) = s) -> is_leased s = false -> never_leases f.
Proof. intros Hs Hl job worker r. unfold owned_by. rewrite Hs. destruct s; cbn in *; rewrite ?andb_false_r; done. Qed.
Lemma never_leases_extended now : never_leases (extended now).
Proof. intros job worker r. unfold extended, owned_by. by destruct (JobRow.state r) eqn:E; cbn; rewrite ?E. Qed.
Lemma never_leases_reactivated now : never_leases (reactivated now).
Proof.
  intros job worker r. unfold reactivated. destruct (is_leased (JobRow.state r)) eqn:E; [done|].
  unfold owned_by. cbn. by rewrite andb_false_r.
Qed.
Lemma never_leases_requeued now : never_leases (requeued now).
Proof. by apply (never_leases_state Pending). Qed.

Definition lost_rows (worker : text) (job : Job.t) (jobs : gmap text JobRow.t) : Prop :=
  forall r, jobs !! Job.id job = Some r -> owned_by job worker r = false.

Lemma lost_insert worker job jobs id r :
  lost_rows worker job jobs -> (id = Job.id job -> owned_by job worker r = false) -> lost_rows worker job (<[id := r]> jobs).
Proof. intros Hl Hr r'. rewrite lookup_insert_Some. intros [[E <-]|[_ E]]; [by apply Hr|by apply Hl]. Qed.

Lemma lost_update worker job jobs id r f :
  never_leases f -> lost_rows worker job jobs -> jobs !! id = Some r -> lost_rows worker job (<[id := f r]> jobs).
Proof.
  intros Hf Hl Hr. apply lost_insert; [done|]. intros ->. apply not_true_iff_false. intros E%Hf. by rewrite (Hl r Hr) in E.
Qed.

(** What only touches other tables. *)
Lemma refresh_jobs (P : Queue.t -> Prop) request_id :
  (forall f db, P db -> P (Queue.set_requests f db)) -> preserves P (refresh_reprocessing_request request_id).
Proof. intros HP. unfold refresh_reprocessing_request, updated_or. preserve. case_match; simplify_eq; auto. Qed.
Lemma for_each_preserves (P : Queue.t -> Prop) f l : (forall x, preserves P (f x)) -> preserves P (for_each f l).
Proof. intros Hf. induction l as [|x l IH]; cbn [for_each]; [apply preserves_ret|]. apply preserves_bind; [apply Hf|by intros _]. Qed.
Lemma update_request_events_frame (P : Queue.t -> Prop) event target p s :
  (forall f db, P db -> P (Queue.set_requests f db)) -> (forall f db, P db -> P (Queue.set_request_events f db)) ->
  preserves P (update_request_events event target p s).
Proof.
  intros H1 H2. unfold update_request_events. apply preserves_bind; [|intros ids; apply for_each_preserves; intros; by apply refresh_jobs].
  apply preserves_statement. intros db a db' HP [= _ <-]. by apply H2.
Qed.

Lemma update_job_preserves (P : Queue.t -> Prop) id p f :
  (forall db r, P db -> Queue.jobs db !! id = Some r -> p r = true -> P (Queue.set_jobs <[id := f r]> db)) ->
  preserves P (update_job id p f).
Proof.
  intros Hf. unfold update_job, update_row. apply preserves_statement. intros db a db' HP E.
  repeat case_match; simplify_eq; auto.
Qed.

Create HintDb leases.
Section lost.
Context (worker : text) (job : Job.t).
Definition still_lost (db : Queue.t) : Prop := lost worker job db.

Lemma update_job_lost_preserved id p f : never_leases f -> preserves still_lost (update_job id p f).
Proof. intros Hf. apply update_job_preserves. intros db r Hl Hr _. unfold still_lost, lost. cbn. by apply lost_update. Qed.

Lemma request_events_lost event target p s : preserves still_lost (update_request_events event target p s).
Proof. by apply update_request_events_frame. Qed.

Lemma updated_or_lost e b : preserves still_lost (updated_or e b).
Proof. apply preserves_lift. Qed.

Hint Resolve update_job_lost_preserved request_events_lost updated_or_lost never_leases_extended never_leases_requeued
  preserves_bind preserves_lift preserves_ret : leases.

Lemma lock_lease_keeps_lost now w j : preserves still_lost (lock_lease now w j).
Proof. unfold lock_lease. eauto with leases. Qed.
Lemma complete_job_keeps_lost w j c : preserves still_lost (complete_job w j c).
Proof. unfold complete_job. apply preserves_bind; [apply update_job_lost_preserved; by apply (never_leases_state Completed)|auto with leases]. Qed.
Lemma requeue_keeps_lost now w j : preserves still_lost (requeue_job_for_new_generation now w j).
Proof. unfold requeue_job_for_new_generation. eauto with leases. Qed.
Lemma terminal_job_keeps_lost w j s c rf : is_leased s = false -> preserves still_lost (terminal_job w j s c rf).
Proof.
  intros Hs. unfold terminal_job. apply preserves_bind; [apply update_job_lost_preserved; by apply (never_leases_state s)|auto with leases].
Qed.

Lemma body_transaction {A} (m : jtx A) : preserves still_lost m -> preserves still_lost (transaction database_unavailable m).
Proof. intros Hm. apply preserves_transaction. eapply triple_conseq; [exact Hm|done..]. Qed.

Lemma release_job_keeps_lost now w j code delay resource dependency :
  preserves still_lost (release_job now w j code delay resource dependency).
Proof.
  apply body_transaction. apply preserves_bind; [apply update_job_lost_preserved; by apply (never_leases_state Pending)|].
  intros b. apply preserves_bind; [auto with leases|]. intros _. destruct (Job.event_id j); [|auto with leases].
  destruct (_ <? _)%Z; auto with leases.
Qed.

Lemma update_event_keeps_lost k f : preserves still_lost (update_event k f).
Proof.
  unfold update_event. apply preserves_bind; [|auto with leases]. apply preserves_statement. intros db a db' HP E.
  by case_match; simplify_eq.
Qed.

Lemma update_row_keeps_lost {V} (get : Queue.t -> gmap key V) (set : (gmap key V -> gmap key V) -> Queue.t -> Queue.t) k p f :
  (forall g db, Queue.jobs (set g db) = Queue.jobs db) -> preserves still_lost (update_row get set k p f).
Proof.
  intros Hs. unfold update_row. apply preserves_statement. intros db a db' HP E. unfold still_lost, lost in *.
  repeat case_match; simplify_eq; rewrite ?Hs; done.
Qed.

Lemma finish_failure_keeps_lost now w j code q rf : preserves still_lost (finish_failure now w j code q rf).
Proof.
  apply body_transaction. apply preserves_bind; [apply lock_lease_keeps_lost|]. intros _. apply preserves_bind.
  - unfold fail_crash, fail_upload, fail_cache, bound, raise, updated_or. repeat case_decide; auto with leases.
    + apply preserves_bind; [auto with leases|]. intros event_id. apply preserves_bind; [apply update_event_keeps_lost|]. intros e.
      apply preserves_bind; [destruct (_ <? _)%Z; auto with leases|auto with leases].
    + repeat first [by apply update_row_keeps_lost|apply preserves_bind; [|intros ?]|apply preserves_lift|apply preserves_ret|apply preserves_select].
    + repeat first [by apply update_row_keeps_lost|apply preserves_bind; [|intros ?]|apply preserves_lift|apply preserves_ret].
  - intros []; [apply requeue_keeps_lost|apply terminal_job_keeps_lost; by destruct q].
Qed.

Lemma act_keeps_lost now w j a : preserves still_lost (act now w j a).
Proof.
  destruct a; cbn [act].
  - unfold heartbeat. eauto with leases.
  - apply release_job_keeps_lost.
  - apply release_job_keeps_lost.
  - unfold finish_result. destruct outcome as [?|[]]; auto with leases; try (apply preserves_ignoring;
      first [apply release_job_keeps_lost|apply finish_failure_keeps_lost]).
    + destruct (_ =? _)%Z; apply preserves_ignoring; first [apply release_job_keeps_lost|apply finish_failure_keeps_lost].
    + destruct (_ <? _)%Z; apply preserves_ignoring; first [apply release_job_keeps_lost|apply finish_failure_keeps_lost].
  - apply preserves_bind; [apply preserves_lift|]. intros ?. apply preserves_bind; [auto with leases|]. intros event_id.
    apply body_transaction. apply preserves_bind; [apply lock_lease_keeps_lost|]. intros _. unfold conclude_publication.
    apply preserves_bind; [apply update_event_keeps_lost|]. intros e. apply preserves_bind.
    + unfold complete_reprocessing_request_events. destruct (_ =? _)%Z; auto with leases.
    + intros _. destruct (_ <? _)%Z; [apply requeue_keeps_lost|apply complete_job_keeps_lost].
  - apply preserves_bind; [apply preserves_lift|]. intros ?. apply preserves_bind; [|intros _; apply preserves_ret].
    apply ensure_cache_preserves; [done|]. intros db id org proj cache_id Hl Hid. unfold still_lost, lost. cbn. apply lost_insert; [done|].
    intros _. unfold owned_by. cbn. by rewrite andb_false_r.
  - apply preserves_bind; [apply preserves_lift|]. intros ?. unfold mark_cache_processing. apply preserves_bind; [|auto with leases].
    apply preserves_statement. intros db x db' Hl E. repeat case_match; by simplify_eq.
  - apply preserves_bind; [apply preserves_lift|]. intros ?. apply body_transaction.
    apply preserves_bind; [apply lock_lease_keeps_lost|]. intros _. apply preserves_bind; [apply preserves_remote|]. intros put.
    apply preserves_bind; [auto with leases|]. intros _. apply preserves_bind; [auto with leases|]. intros _.
    apply preserves_bind; [by apply update_row_keeps_lost|]. intros b. apply preserves_bind; [auto with leases|]. intros _.
    apply complete_job_keeps_lost.
  - apply preserves_bind; [apply preserves_lift|]. intros ?. apply body_transaction.
    apply preserves_bind; [apply lock_lease_keeps_lost|]. intros _. apply complete_job_keeps_lost.
Qed.
Lemma claim_keeps_lost now w random limit :
  random <> Some (Job.lease_token job) -> preserves still_lost (claim_job_with_project_limit now w random limit).
Proof.
  intros Hr. unfold claim_job_with_project_limit. intros o db Hl. unfold mbind at 1, tx_bind, lift.
  destruct random as [token|]; [|done]. cbn [ok_or]. revert o db Hl.
  apply body_transaction. apply preserves_bind.
  - apply preserves_statement. intros db a db' Hl E. destruct (candidate now limit db) as [[[id r] prior]|]; simplify_eq; [|done].
    unfold still_lost, lost. cbn. apply lost_insert; [done|]. intros _. unfold owned_by. cbn.
    rewrite (bool_decide_false (token = _)) by congruence. by rewrite !andb_false_r.
  - intros [j|]; [|auto with leases]. apply preserves_bind; [|auto with leases]. unfold mark_reprocessing_events_running.
    destruct (_ =? _)%Z; [auto with leases|]. destruct (Job.event_id j); auto with leases.
Qed.

Lemma schedule_event_lost now request_id db k : still_lost db -> still_lost (schedule_event now request_id db k).
Proof.
  intros Hl. unfold schedule_event. destruct (Queue.events db !! k) as [e|]; [|done].
  destruct (head (crash_jobs k db)) as [[id r]|] eqn:Eh; [|done]. destruct (Queue.request_events db !! _); [done|].
  unfold still_lost, lost. cbn. apply lost_update; [apply never_leases_reactivated|done|].
  apply head_Some_elem_of in Eh. unfold crash_jobs in Eh. apply list_elem_of_filter in Eh as [_ Eh]. by apply elem_of_map_to_list in Eh.
Qed.

Lemma schedule_keeps_lost now request_id organization_id project_id event_ids :
  preserves still_lost (transaction database_unavailable (schedule_reprocessing_events now request_id organization_id project_id event_ids)).
Proof.
  apply body_transaction. unfold schedule_reprocessing_events. apply preserves_bind; [apply preserves_select|]. intros n.
  apply preserves_bind; [auto with leases|]. intros _. apply preserves_execute. intros db Hl. revert db Hl.
  induction (map _ event_ids) as [|k ks IH]; intros db Hl; [done|]. cbn. apply IH. by apply schedule_event_lost.
Qed.

Lemma reconcile_keeps_lost now : preserves still_lost (reconcile_reprocessing_event_jobs now).
Proof.
  apply body_transaction. apply preserves_bind.
  - apply preserves_statement. intros db a db' Hl [= <- <-]. unfold still_lost, lost. cbn. intros r'.
    rewrite lookup_fmap_Some. intros (r & <- & Hr). apply not_true_iff_false. case_match.
    + intros E%never_leases_requeued. by rewrite (Hl r Hr) in E.
    + by rewrite (Hl r Hr).
  - intros [ids n]. apply preserves_bind; [|auto with leases]. apply for_each_preserves. intros x. by apply refresh_jobs.
Qed.
End lost.

Lemma step_lost worker job token s s' :
  (token = None \/ token <> Some (Job.lease_token job)) -> step token s s' -> lost worker job s.1 -> lost worker job s'.1.
Proof.
  intros Ht Hs Hl. destruct Hs as [now w random limit o db hs r db' o' E|now w j a o db hs r db' o' _ E
    |now id org p ids o db hs r db' o' _ E|now o db hs r db' o' E]; cbn in *.
  - assert (Hr : random <> Some (Job.lease_token job)) by (destruct Ht as [->|Ht]; done).
    pose proof (claim_keeps_lost worker job now w random limit Hr o db Hl) as HI. rewrite E in HI. by destruct r.
  - pose proof (act_keeps_lost worker job now w j a o db Hl) as HI. rewrite E in HI. by destruct r.
  - pose proof (schedule_keeps_lost worker job now id org p ids o db Hl) as HI. rewrite E in HI. by destruct r.
  - pose proof (reconcile_keeps_lost worker job now o db Hl) as HI. rewrite E in HI. by destruct r.
Qed.

(** * Claims *)

Lemma job_leb_total a b : job_leb a b = true \/ job_leb b a = true.
Proof.
  unfold job_leb. rewrite (Z.eqb_sym (JobRow.priority b.2)), (Z.eqb_sym (JobRow.available_at b.2)), (Z.eqb_sym (JobRow.created_at b.2)).
  repeat (match goal with |- context [(?x =? ?y)%Z] => destruct (Z.eqb_spec x y) end); try apply text_leb_total;
    rewrite !Z.ltb_lt; lia.
Qed.

Lemma job_leb_trans a b c : job_leb a b = true -> job_leb b c = true -> job_leb a c = true.
Proof.
  unfold job_leb. repeat (match goal with |- context [(?x =? ?y)%Z] => destruct (Z.eqb_spec x y) end);
    rewrite ?Z.ltb_lt; try lia; try apply text_leb_trans; try congruence.
Qed.

Lemma first_job_Some p db id r :
  first_job p db = Some (id, r) ->
  Queue.jobs db !! id = Some r /\ p r = true
  /\ forall id' r', Queue.jobs db !! id' = Some r' -> p r' = true -> job_leb (id, r) (id', r') = true.
Proof.
  intros [Hin Hmin]%(head_sort_least job_leb); [|apply job_leb_total|apply job_leb_trans].
  apply list_elem_of_filter in Hin as [Hp Hin%elem_of_map_to_list]. split_and!; [done..|].
  intros id' r' Hr' Hp'. apply Hmin, list_elem_of_filter. split; [done|]. by apply elem_of_map_to_list.
Qed.

Lemma first_job_None p db : first_job p db = None -> forall id r, Queue.jobs db !! id = Some r -> p r = false.
Proof.
  unfold first_job. intros E id r Hr. apply not_true_iff_false. intros Hp.
  assert (Hin : (id, r) ∈ sort job_leb (filter (fun kv : text * JobRow.t => p kv.2 = true) (map_to_list (Queue.jobs db)))).
  { rewrite sort_perm. apply list_elem_of_filter. split; [done|]. by apply elem_of_map_to_list. }
  destruct (sort _ _); [by apply not_elem_of_nil in Hin|done].
Qed.

Lemma project_active_same now a b db : same_project a b = true -> project_active_jobs now a db = project_active_jobs now b db.
Proof.
  unfold same_project. intros [Ho%bool_decide_eq_true Hp%bool_decide_eq_true]%andb_true_iff.
  unfold project_active_jobs, same_project. do 2 f_equal. apply list_filter_iff. intros kv. by rewrite Ho, Hp.
Qed.

(** A claimed job: claimable, of a project below its limit, and first among those. *)
Lemma candidate_Some now limit db id r prior :
  candidate now limit db = Some (id, r, prior) ->
  Queue.jobs db !! id = Some r /\ claimable now r = true /\ prior = project_active_jobs now r db /\ (prior < limit)%Z
  /\ forall id' r', Queue.jobs db !! id' = Some r' -> claimable now r' = true -> (project_active_jobs now r' db < limit)%Z ->
     job_leb (id, r) (id', r') = true.
Proof.
  unfold candidate. destruct (first_job _ db) as [[sid seed]|] eqn:Es; [|done]. cbn.
  destruct (first_job (fun r => claimable now r && same_project r seed) db) as [[id0 r0]|] eqn:Er; [|done]. cbn. intros [= <- <- Hprior].
  apply first_job_Some in Es as (Hs & [Hcs Hls%Z.ltb_lt]%andb_true_iff & Hmin).
  apply first_job_Some in Er as (Hr & [Hcr Hsame]%andb_true_iff & Hminr).
  assert (Hse : project_active_jobs now r0 db = project_active_jobs now seed db) by (by apply project_active_same).
  assert (Hss : same_project seed seed = true) by (unfold same_project; by rewrite !bool_decide_true).
  rewrite Hse. split_and!; [done|done|by rewrite Hprior|lia|]. intros id' r' Hr' Hc' Hl'.
  apply (job_leb_trans _ (sid, seed)); [apply Hminr; [done|]|apply Hmin; [done|]].
  - by rewrite Hcs, Hss.
  - rewrite Hc'. by apply Z.ltb_lt.
Qed.

Lemma candidate_None now limit db :
  candidate now limit db = None ->
  forall id r, Queue.jobs db !! id = Some r -> claimable now r = true -> (limit <= project_active_jobs now r db)%Z.
Proof.
  unfold candidate. destruct (first_job _ db) as [[sid seed]|] eqn:Es; cbn.
  - destruct (first_job (fun r => claimable now r && same_project r seed) db) as [[id0 r0]|] eqn:Er; [done|]. intros _.
    apply first_job_Some in Es as (Hs & [Hcs Hls]%andb_true_iff & _). pose proof (first_job_None _ _ Er sid seed Hs) as Hn. cbn beta in Hn.
    rewrite Hcs in Hn. unfold same_project in Hn. by rewrite !bool_decide_true in Hn.
  - intros _ id r Hr Hc. pose proof (first_job_None _ _ Es id r Hr) as Hn. cbn beta in Hn. rewrite Hc in Hn. cbn in Hn. by apply Z.ltb_ge.
Qed.

Lemma mark_running_jobs job : forall M, preserves (fun db => Queue.jobs db = M) (mark_reprocessing_events_running job).
Proof.
  intros M. unfold mark_reprocessing_events_running. destruct (_ =? _)%Z; [apply preserves_ret|].
  destruct (Job.event_id job); [by apply update_request_events_frame|apply preserves_ret].
Qed.

Lemma claim_Some now worker random limit o db job db' o' :
  claim_job_with_project_limit now worker random limit o db = (Ok (Some job), db', o') ->
  exists token r prior, random = Some token /\ candidate now limit db = Some (Job.id job, r, prior)
    /\ job = job_of (Job.id job) token now prior r db
    /\ Queue.jobs db' = <[Job.id job := leased_by worker token now r]> (Queue.jobs db).
Proof.
  unfold claim_job_with_project_limit. unfold mbind at 1, tx_bind, lift. destruct random as [token|]; [|done]. cbn [ok_or].
  intros (o1 & s1 & o2 & Eb & ->)%transaction_if_Ok. exists token. unfold mbind, tx_bind, statement in Eb.
  destruct (next_outcome o1) as [[] o3]; [done|]. destruct (candidate now limit db) as [[[id r] prior]|]; [|done]. cbv zeta in Eb.
  set (j := job_of id token now prior r db) in *. set (db1 := Queue.set_jobs _ db) in *.
  pose proof (mark_running_jobs j (Queue.jobs db1) o3 db1 eq_refl) as Hm.
  destruct (mark_reprocessing_events_running j o3 db1) as [[[[]|e] s2] o4]; [|done]. injection Eb as <- <- <-.
  exists r, prior. split_and!; [done..|]. by rewrite Hm.
Qed.

Lemma claim_None now worker random limit o db db' o' :
  claim_job_with_project_limit now worker random limit o db = (Ok None, db', o') -> candidate now limit db = None /\ db' = db.
Proof.
  unfold claim_job_with_project_limit. unfold mbind at 1, tx_bind, lift. destruct random as [token|]; [|done]. cbn [ok_or].
  intros (o1 & s1 & o2 & Eb & ->)%transaction_if_Ok. unfold mbind, tx_bind, statement in Eb.
  destruct (next_outcome o1) as [[] o3]; [done|]. destruct (candidate now limit db) as [[[id r] prior]|].
  - destruct (mark_reprocessing_events_running _ _ _) as [[[[]|e] s2] o4]; done.
  - by injection Eb as <- <-.
Qed.

(** The jobs that are active after a claim are those that were, and the claimed one. *)
Lemma active_after_claim now worker token id r db db' :
  Queue.jobs db !! id = Some r -> claimable now r = true ->
  Queue.jobs db' = <[id := leased_by worker token now r]> (Queue.jobs db) ->
  project_active_jobs now r db' = (project_active_jobs now r db + 1)%Z.
Proof.
  intros Hr Hc E. unfold project_active_jobs. rewrite E.
  assert (Hna : active now (JobRow.state r) = false).
  { unfold claimable in Hc. destruct (JobRow.state r); try done. cbn in *. apply Z.leb_le in Hc. by apply Z.ltb_ge. }
  rewrite <-insert_delete_eq, map_to_list_insert by apply lookup_delete_eq.
  rewrite <-(insert_delete_id (Queue.jobs db) id r Hr) at 2. rewrite map_to_list_insert by apply lookup_delete_eq.
  rewrite !filter_cons. cbn. rewrite decide_True.
  - rewrite decide_False by (rewrite Hna; by intros []). cbn. lia.
  - split; [unfold same_project; by rewrite !bool_decide_true|]. apply Z.ltb_lt. unfold seconds, LEASE_SECONDS. lia.
Qed.

(** C27: a claim is the next job.  A claim that answers a job took the first claimable one, by priority,
    availability, age and id, among the jobs of the projects below their limit; its row is leased to the
    worker under the new token, no other row changed, and the project is not above its limit now.  A claim
    that answers no job found every claimable job in a project that is at its limit, and changed nothing. *)
Theorem claims_take_the_next_job now worker token limit o db r db' o' :
  claim_job_with_project_limit now worker (Some token) limit o db = (Ok r, db', o') ->
  match r with
  | Some job => exists row, Queue.jobs db !! Job.id job = Some row /\ claimable now row = true
      /\ (forall id' row', Queue.jobs db !! id' = Some row' -> claimable now row' = true ->
            (project_active_jobs now row' db < limit)%Z -> job_leb (Job.id job, row) (id', row') = true)
      /\ Queue.jobs db' = <[Job.id job := leased_by worker token now row]> (Queue.jobs db)
      /\ owned_by job worker (leased_by worker token now row) = true /\ Job.attempt job = (JobRow.attempt row + 1)%Z
      /\ (project_active_jobs now row db' <= limit)%Z
  | None => db' = db /\ forall id row, Queue.jobs db !! id = Some row -> claimable now row = true ->
      (limit <= project_active_jobs now row db)%Z
  end.
Proof.
  destruct r as [job|].
  - intros (t & row & prior & [= <-] & Hc & Ej & Edb)%claim_Some.
    apply candidate_Some in Hc as (Hrow & Hcl & Hp & Hlt & Hmin). exists row. split_and!; [done|done|done|done| | |].
    + rewrite Ej. unfold owned_by. cbn. by rewrite !bool_decide_true.
    + by rewrite Ej.
    + rewrite (active_after_claim now worker token (Job.id job) row db db') by done. lia.
  - intros [Hc ->]%claim_None. split; [done|]. by apply candidate_None.
Qed.

(** ** Jobs that are no longer a worker's *)

(** The job is not leased under the token of the worker: it was claimed again, released, finished or given up. *)
Definition superseded (job : Job.t) (db : Queue.t) : Prop :=
  forall row l, Queue.jobs db !! Job.id job = Some row -> JobRow.state row = Leased l -> Lease.token l <> Job.lease_token job.

Lemma superseded_lost worker job db : superseded job db -> lost worker job db.
Proof.
  intros Hs row Hrow. unfold owned_by. destruct (JobRow.state row) as [|l| | |] eqn:E; rewrite ?andb_false_r; try done.
  rewrite (bool_decide_false (Lease.token l = _)) by by eapply Hs. by rewrite !andb_false_r.
Qed.
Lemma steps_lost worker job s s' : steps (Some (Job.lease_token job)) s s' -> lost worker job s.1 -> lost worker job s'.1.
Proof. induction 1 as [|token s1 s2 _ IH Hstep Ht]; [done|]. intros Hl. eapply step_lost; [exact Ht|exact Hstep|auto]. Qed.

(** A claim under another token, and the end of a job, take it away. *)
Lemma claim_supersedes now worker2 token2 limit o db job2 db1 o1 job :
  claim_job_with_project_limit now worker2 (Some token2) limit o db = (Ok (Some job2), db1, o1) ->
  Job.id job2 = Job.id job -> token2 <> Job.lease_token job -> superseded job db1.
Proof.
  intros (t & row & prior & [= <-] & _ & _ & Edb)%claim_Some Hid Hne r l. rewrite Edb, Hid, lookup_insert_eq. by intros [= <-] [= <-].
Qed.
Lemma finished_superseded job db row : Queue.jobs db !! Job.id job = Some row -> is_terminal (JobRow.state row) = true -> superseded job db.
Proof. intros Hr Ht row' l Hr' Hl. assert (row' = row) as -> by congruence. by rewrite Hl in Ht. Qed.

(** * A small queue *)

Lemma run_jtx_eq {E A} (m : tx Queue.t E A) os db r : (m os db).1.1 = r -> m os db = (r, (m os db).1.2, (m os db).2).
Proof. by destruct (m os db) as [[r' db'] rest]; intros <-. Qed.

Definition a_crash : key := (txt "o", txt "p", txt "e").
Definition a_job_row : JobRow.t := {|
  JobRow.organization_id := txt "o"; JobRow.project_id := txt "p"; JobRow.event_id := Some (txt "e");
  JobRow.artifact_upload_id := None; JobRow.derived_cache_id := None; JobRow.kind := txt "process_crash";
  JobRow.state := Pending; JobRow.priority := 100; JobRow.attempt := 0; JobRow.max_attempt := 5;
  JobRow.resource_failures := 0; JobRow.available_at := 0; JobRow.created_at := 0; JobRow.failure_code := None |}.
Definition an_event_row : EventRow.t := {|
  EventRow.processing_state := txt "stored"; EventRow.state_reason := None; EventRow.retryable := false;
  EventRow.retry_at := None; EventRow.current_result_id := None; EventRow.requested_generation := 0;
  EventRow.completed_generation := 0 |}.
Definition a_request_row : RequestRow.t := {|
  RequestRow.organization_id := txt "o"; RequestRow.project_id := txt "p"; RequestRow.state := RRunning;
  RequestRow.selection_complete := true; RequestRow.counts := Counts.Mk 0 0 0 0 0; RequestRow.failure_code := None |}.
Definition a_queue : Queue.t := {|
  Queue.jobs := {[txt "j" := a_job_row]}; Queue.events := {[a_crash := an_event_row]};
  Queue.requests := {[txt "q" := a_request_row]}; Queue.request_events := ∅; Queue.uploads := ∅;
  Queue.artifacts := ∅; Queue.caches := ∅ |}.

Definition claim_at (now : Z) (worker token : text) : jtx (option Job.t) := claim_job_with_project_limit now worker (Some token) 1.
Definition claimed : Queue.t := (claim_at 10 (txt "w1") (txt "t1") [] a_queue).1.2.
Definition first_handle : Job.t := job_of (txt "j") (txt "t1") 10 0 a_job_row a_queue.

Lemma claims_take_the_next_job_witness : exists row, Queue.jobs a_queue !! txt "j" = Some row /\ claimable 10 row = true.
Proof.
  destruct (claims_take_the_next_job 10 (txt "w1") (txt "t1") 1 [] a_queue (Some first_handle) claimed
    (claim_at 10 (txt "w1") (txt "t1") [] a_queue).2) as (row & Hr & Hc & _).
  - apply run_jtx_eq. vm_compute. reflexivity.
  - exists row. split; [exact Hr|exact Hc].
Defined.

(** The first lease runs out and another worker claims the job. *)
Definition late : Z := seconds 1000.
Definition reclaimed : Queue.t := (claim_at late (txt "w2") (txt "t2") [] claimed).1.2.
Definition second_handle : Job.t := Job.Mk (txt "j") (txt "o") (txt "p") (Some (txt "e")) None None (txt "process_crash") 2 5 0 (txt "t2") 0 1 1000.
(** * What the lease does not hold back *)

(** A heartbeat does not ask whether the lease has run out, unlike [lock_lease]: one that comes late
    revives the lease of a job that nobody reclaimed, next to the job that was claimed instead. *)
Definition a_cache_row : JobRow.t := {|
  JobRow.organization_id := txt "o"; JobRow.project_id := txt "p"; JobRow.event_id := None;
  JobRow.artifact_upload_id := None; JobRow.derived_cache_id := Some (txt "c"); JobRow.kind := txt "generate_symcache";
  JobRow.state := Pending; JobRow.priority := 50; JobRow.attempt := 0; JobRow.max_attempt := 5;
  JobRow.resource_failures := 0; JobRow.available_at := late; JobRow.created_at := late; JobRow.failure_code := None |}.
Definition overtaken : Queue.t := (claim_at late (txt "w2") (txt "t2") [] (Queue.set_jobs <[txt "k" := a_cache_row]> claimed)).1.2.
Definition revived : Queue.t := (act late (txt "w1") first_handle Heartbeat [] overtaken).1.2.
Lemma late_heartbeat_exceeds_the_limit :
  project_active_jobs late a_job_row overtaken = 1%Z /\ project_active_jobs late a_job_row revived = 2%Z.
Proof. vm_compute. auto. Qed.

(** The generation of a claimed job is read for every job with a crash, so the deletion of the raw data
    of a crash marks the requests that wait for the crash as running. *)
Definition a_deletion_row : JobRow.t := {|
  JobRow.organization_id := txt "o"; JobRow.project_id := txt "p"; JobRow.event_id := Some (txt "e");
  JobRow.artifact_upload_id := None; JobRow.derived_cache_id := None; JobRow.kind := txt "delete_raw";
  JobRow.state := Pending; JobRow.priority := 10; JobRow.attempt := 0; JobRow.max_attempt := 5;
  JobRow.resource_failures := 0; JobRow.available_at := 0; JobRow.created_at := 0; JobRow.failure_code := None |}.
Definition requested : Queue.t :=
  (schedule_reprocessing_events 5 (txt "q") (txt "o") (txt "p") [txt "e"] [] a_queue).1.2.
Definition deleting : Queue.t := (claim_at 10 (txt "w1") (txt "t1") [] (Queue.set_jobs <[txt "d" := a_deletion_row]> requested)).1.2.
Lemma raw_deletion_marks_requests_running :
  (JobRow.state <$> Queue.jobs deleting !! txt "j") = Some Pending
  /\ (RequestEvent.state <$> Queue.request_events deleting !! (txt "q", a_crash)) = Some ERunning.
Proof. vm_compute. auto. Qed.
