(* ===== verification/Generations.v ===== *)
(** Properties of reprocessing: the generations by which a crash is processed again never lose a
    request, and the attempts of a job are bounded, after which the job is closed and its crash marked. *)

From S2P Require Import Prelude Text Identifiers Store Jobs Leases.

(** * The invariant *)

(** What a handed-out job says of its row stays true: the columns of a job never change, and the
    generation it answers only falls behind. *)
Definition describes (db : Queue.t) (job : Job.t) : Prop :=
  (0 <= Job.target_generation job)%Z /\
  exists r, Queue.jobs db !! Job.id job = Some r /\ JobRow.kind r = Job.kind job
    /\ JobRow.organization_id r = Job.organization_id job /\ JobRow.project_id r = Job.project_id job
    /\ JobRow.event_id r = Job.event_id job
    /\ forall id e, Job.event_id job = Some id -> Queue.events db !! scoped job id = Some e ->
         (Job.target_generation job <= EventRow.requested_generation e)%Z.

(** The tables, except for what is promised of the crash [but]: a crash has one job; while it is open the
    crash has a generation to reach, and once it is closed none; a waiting request is ahead of what was
    completed and within what was requested. *)
Record tracked_but (but : option key) (db : Queue.t) : Prop := {
  one_job : forall k id1 r1 id2 r2, Queue.jobs db !! id1 = Some r1 -> Queue.jobs db !! id2 = Some r2 ->
    processes k r1 = true -> processes k r2 = true -> id1 = id2;
  has_job : forall k e, Queue.events db !! k = Some e -> exists id r, Queue.jobs db !! id = Some r /\ processes k r = true;
  generations : forall k e, Queue.events db !! k = Some e ->
    (0 <= EventRow.completed_generation e <= EventRow.requested_generation e)%Z;
  positive : forall q k x, Queue.request_events db !! (q, k) = Some x -> (0 < RequestEvent.generation x)%Z;
  busy : forall k e id r, Some k <> but -> Queue.events db !! k = Some e -> Queue.jobs db !! id = Some r -> processes k r = true ->
    is_terminal (JobRow.state r) = false -> (0 < EventRow.requested_generation e)%Z ->
    (EventRow.completed_generation e < EventRow.requested_generation e)%Z;
  idle : forall k e id r, Some k <> but -> Queue.events db !! k = Some e -> Queue.jobs db !! id = Some r -> processes k r = true ->
    is_terminal (JobRow.state r) = true -> (EventRow.requested_generation e <= EventRow.completed_generation e)%Z;
  waiting : forall q k x, Some k <> but -> Queue.request_events db !! (q, k) = Some x -> is_active (RequestEvent.state x) = true ->
    exists e, Queue.events db !! k = Some e
      /\ (EventRow.completed_generation e < RequestEvent.generation x <= EventRow.requested_generation e)%Z }.

Definition tracked (db : Queue.t) : Prop := tracked_but None db.
Definition handed (hs : list (text * Job.t)) (db : Queue.t) : Prop := forall w job, (w, job) ∈ hs -> describes db job.
Definition good (hs : list (text * Job.t)) (db : Queue.t) : Prop := tracked db /\ handed hs db.

(** * Updates of rows *)

(** The columns that say what a job is about. *)
Definition same_job (r r' : JobRow.t) : Prop :=
  JobRow.kind r' = JobRow.kind r /\ JobRow.organization_id r' = JobRow.organization_id r
  /\ JobRow.project_id r' = JobRow.project_id r /\ JobRow.event_id r' = JobRow.event_id r.

Lemma same_job_processes k r r' : same_job r r' -> processes k r' = processes k r.
Proof. intros (E1 & E2 & E3 & E4). unfold processes. by rewrite E1, E2, E3, E4. Qed.

Lemma describes_jobs db job id r r' :
  Queue.jobs db !! id = Some r -> same_job r r' -> describes db job -> describes (Queue.set_jobs <[id := r']> db) job.
Proof.
  intros Hr (E1 & E2 & E3 & E4) (H0 & r0 & Hr0 & H1 & H2 & H3 & H4 & H5). split; [done|]. cbn.
  destruct (decide (id = Job.id job)) as [->|Hne].
  - exists r'. assert (r0 = r) as -> by congruence. rewrite lookup_insert_eq. split_and!; congruence || done.
  - exists r0. rewrite lookup_insert_ne by done. done.
Qed.

(** A changed row of another kind, of the excepted crash, or of the same standing. *)
Lemma tracked_jobs but db id r r' :
  Queue.jobs db !! id = Some r -> same_job r r' ->
  (forall k, Some k <> but -> processes k r = true -> is_terminal (JobRow.state r') = is_terminal (JobRow.state r)) ->
  tracked_but but db -> tracked_but but (Queue.set_jobs <[id := r']> db).
Proof.
  intros Hr Hs Ht [H1 H2 H3 H4 H5 H6 H7].
  assert (Hl : forall id0 r0, <[id := r']> (Queue.jobs db) !! id0 = Some r0 -> exists r1, Queue.jobs db !! id0 = Some r1
    /\ (forall k, processes k r0 = processes k r1)
    /\ (forall k, Some k <> but -> processes k r0 = true -> is_terminal (JobRow.state r0) = is_terminal (JobRow.state r1))).
  { intros id0 r0. rewrite lookup_insert_Some. intros [[<- <-]|[_ E]].
    - exists r. split_and!; [done|by intros; apply same_job_processes|]. intros k Hk Hp. apply (Ht k Hk). by rewrite <-(same_job_processes k r r').
    - by exists r0. }
  split; cbn; try done.
  - intros k id1 r1 id2 r2 (s1 & Hs1 & Hp1 & _)%Hl (s2 & Hs2 & Hp2 & _)%Hl. rewrite Hp1, Hp2. by eapply H1.
  - intros k e He. destruct (H2 k e He) as (id0 & r0 & Hr0 & Hp). destruct (decide (id0 = id)) as [->|Hne].
    + exists id, r'. rewrite lookup_insert_eq. split; [done|]. rewrite (same_job_processes k r r') by done. congruence.
    + exists id0, r0. by rewrite lookup_insert_ne.
  - intros k e id0 r0 Hk He (s0 & Hs0 & Hp0 & Ht0)%Hl Hp Hn. rewrite (Ht0 k Hk Hp) in Hn. rewrite Hp0 in Hp. by eapply H5.
  - intros k e id0 r0 Hk He (s0 & Hs0 & Hp0 & Ht0)%Hl Hp Hn. rewrite (Ht0 k Hk Hp) in Hn. rewrite Hp0 in Hp. by eapply H6.
Qed.

Lemma good_jobs hs db id r r' :
  Queue.jobs db !! id = Some r -> same_job r r' -> is_terminal (JobRow.state r') = is_terminal (JobRow.state r) ->
  good hs db -> good hs (Queue.set_jobs <[id := r']> db).
Proof.
  intros Hr Hs Ht [HT HH]. split; [by eapply tracked_jobs|]. intros w job Hj. eapply describes_jobs; [done..|]. by eapply HH.
Qed.

(** Request events that stay active, or were settled. *)
Lemma tracked_request_events but db (f : text * key -> RequestEvent.t -> RequestEvent.t) :
  (forall k x, RequestEvent.generation (f k x) = RequestEvent.generation x) ->
  (forall q k x, Some k <> but -> is_active (RequestEvent.state (f (q, k) x)) = true -> is_active (RequestEvent.state x) = true) ->
  tracked_but but db -> tracked_but but (Queue.set_request_events (map_imap (fun k x => Some (f k x))) db).
Proof.
  intros Hg Ha [H1 H2 H3 H4 H5 H6 H7].
  assert (Hl : forall k x, map_imap (fun k x => Some (f k x)) (Queue.request_events db) !! k = Some x ->
    exists y, Queue.request_events db !! k = Some y /\ x = f k y).
  { intros k x. rewrite map_lookup_imap. destruct (Queue.request_events db !! k) as [y|]; [|done]. cbn. intros [= <-]. by exists y. }
  split; cbn; try done.
  - intros q k x (y & Hy & ->)%Hl. rewrite Hg. by eapply H4.
  - intros q k x Hk (y & Hy & ->)%Hl Hx. rewrite Hg. apply (H7 q k y Hk Hy). by eapply Ha.
Qed.

Lemma handed_frame hs db db' : Queue.jobs db' = Queue.jobs db -> Queue.events db' = Queue.events db -> handed hs db -> handed hs db'.
Proof. intros E1 E2 HH w job Hj. destruct (HH w job Hj) as [H0 H1]. split; [done|]. by rewrite E1, E2. Qed.

(** What reads neither. *)
Lemma tracked_requests but f db : tracked_but but db -> tracked_but but (Queue.set_requests f db).
Proof. by intros []; split. Qed.
Lemma good_requests hs f db : good hs db -> good hs (Queue.set_requests f db).
Proof. intros [HT HH]. split; [by apply tracked_requests|]. by eapply handed_frame. Qed.

(** * The statements *)

Lemma update_job_triple (P Q : Queue.t -> Prop) id p f e :
  (forall db r, P db -> Queue.jobs db !! id = Some r -> p r = true -> Q (Queue.set_jobs <[id := f r]> db)) ->
  triple P (b ← update_job id p f; updated_or e b) (fun _ => Q) (fun _ _ => True).
Proof.
  intros HQ. eapply (triple_bind _ _ _ _ _ (fun b db => b = true -> Q db)).
  - unfold update_job, update_row. apply triple_statement; [done| |done]. intros db b db' HP E.
    repeat case_match; simplify_eq; try done. intros _. by apply HQ.
  - intros b. apply triple_lift; [|done]. intros db [] Hb Hf%fail_if_Ok. apply Hb. by destruct b.
Qed.

Lemma update_row_triple {V} (get : Queue.t -> gmap key V) set (P : Queue.t -> Prop) k p f :
  (forall g db, P db -> P (set g db)) -> preserves P (update_row get set k p f).
Proof.
  intros HP. unfold update_row. apply preserves_statement. intros db b db' H E. repeat case_match; simplify_eq; auto.
Qed.

Lemma for_each_refresh (P : Queue.t -> Prop) l :
  (forall f db, P db -> P (Queue.set_requests f db)) -> preserves P (for_each refresh_reprocessing_request l).
Proof. intros HP. apply for_each_preserves. intros x. by apply refresh_jobs. Qed.

(** The update of the request events, in a form that lookups go through. *)
Definition settle (event : key) (target : Z) (p : RequestEventState -> bool) (s : RequestEventState) (k : text * key)
    (x : RequestEvent.t) : RequestEvent.t :=
  if concerns event target p (k, x) then RequestEvent.set_state s x else x.

Lemma settle_generation event target p s k x : RequestEvent.generation (settle event target p s k x) = RequestEvent.generation x.
Proof. unfold settle. by destruct (concerns _ _ _ _). Qed.

Lemma update_request_events_triple (P Q : Queue.t -> Prop) event target p s :
  (forall db, P db -> Q (Queue.set_request_events (map_imap (fun k x => Some (settle event target p s k x))) db)) ->
  (forall f db, Q db -> Q (Queue.set_requests f db)) ->
  triple P (update_request_events event target p s) (fun _ => Q) (fun _ _ => True).
Proof.
  intros HQ HR. unfold update_request_events. eapply (triple_bind _ _ _ _ _ (fun _ => Q)).
  - apply triple_statement; [done| |done]. intros db a db' HP [= _ <-]. by apply HQ.
  - intros ids. eapply triple_conseq; [apply (for_each_refresh Q); exact HR|done..].
Qed.

(** A change between the active states. *)
Lemma activity_triple hs event target p s :
  is_active s = true -> (forall st, p st = true -> is_active st = true) ->
  triple (good hs) (update_request_events event target p s) (fun _ => good hs) (fun _ _ => True).
Proof.
  intros Hs Hp. apply update_request_events_triple; [|intros; by apply good_requests].
  intros db [HT HH]. split; [|by eapply handed_frame]. apply tracked_request_events; [intros; apply settle_generation| |done].
  intros q k x _. unfold settle, concerns. cbn [fst snd]. destruct (p (RequestEvent.state x)) eqn:E; [|by rewrite andb_false_r].
  intros _. by apply Hp.
Qed.

(** The lease of a job is held. *)
Definition owns (worker : text) (job : Job.t) (db : Queue.t) : Prop :=
  exists r, Queue.jobs db !! Job.id job = Some r /\ owned_by job worker r = true.

Lemma owned_open worker job r : owned_by job worker r = true -> is_terminal (JobRow.state r) = false.
Proof. unfold owned_by. by destruct (JobRow.state r); rewrite ?andb_false_r. Qed.

Lemma lock_lease_good hs now worker job :
  triple (good hs) (lock_lease now worker job) (fun _ db => good hs db /\ owns worker job db) (fun _ _ => True).
Proof.
  unfold lock_lease. apply update_job_triple. intros db r Hg Hr [Ho _]%andb_true_iff. split.
  - eapply good_jobs; [done| | |done]; unfold extended; destruct (JobRow.state r) eqn:E; cbn; rewrite ?E; by split_and?.
  - exists (extended now r). cbn. rewrite lookup_insert_eq. split; [done|].
    unfold owned_by, extended in *. destruct (JobRow.state r) eqn:E; cbn in *; rewrite ?E; done.
Qed.

(** A job put back to the queue. *)
Lemma back_to_queue hs worker job r db r' :
  owned_by job worker r = true -> Queue.jobs db !! Job.id job = Some r -> same_job r r' -> JobRow.state r' = Pending ->
  good hs db -> good hs (Queue.set_jobs <[Job.id job := r']> db).
Proof. intros Ho Hr Hs E. eapply good_jobs; [done|done|]. rewrite E. by rewrite (owned_open worker job r). Qed.

Lemma release_job_good hs now worker job code delay resource dependency :
  triple (good hs) (release_job now worker job code delay resource dependency) (fun _ => good hs) (fun _ => good hs).
Proof.
  apply triple_transaction; [done|].
  eapply (triple_bind _ _ _ _ _ (fun b db => good hs db)).
  - eapply triple_conseq; [apply (update_job_preserves (good hs))|done|done|done].
    intros db r Hg Hr Ho. by eapply back_to_queue.
  - intros b. eapply (triple_bind _ _ _ _ _ (fun _ => good hs)); [by apply triple_lift|]. intros _.
    destruct (Job.event_id job); [|by apply triple_ret]. destruct (_ <? _)%Z; [|by apply triple_ret].
    apply activity_triple; [done|]. intros st. unfold is_active. intros ->. apply orb_true_r.
Qed.

(** * The end of a crash job *)

(** In the middle: the crash has its new generation and is excepted from the promises; its request events
    that are due have not been told yet, or have. *)
Definition reached (target : Z) (e : EventRow.t) : Prop :=
  ((EventRow.requested_generation e <= target -> EventRow.requested_generation e <= EventRow.completed_generation e)
   /\ (target < EventRow.requested_generation e -> EventRow.completed_generation e < EventRow.requested_generation e))%Z.
Definition ending (hs : list (text * Job.t)) (worker : text) (job : Job.t) (k : key) (told : bool) (e : EventRow.t) (db : Queue.t) : Prop :=
  tracked_but (Some k) db /\ handed hs db /\ owns worker job db
  /\ Queue.events db !! k = Some e /\ reached (Job.target_generation job) e
  /\ forall q x, Queue.request_events db !! (q, k) = Some x -> is_active (RequestEvent.state x) = true ->
       (RequestEvent.generation x <= EventRow.requested_generation e)%Z
       /\ ((EventRow.completed_generation e < RequestEvent.generation x)%Z
           \/ told = false /\ (RequestEvent.generation x <= Job.target_generation job)%Z).

Lemma describes_events db job k e e' :
  Queue.events db !! k = Some e -> (EventRow.requested_generation e <= EventRow.requested_generation e')%Z ->
  describes db job -> describes (Queue.set_events <[k := e']> db) job.
Proof.
  intros He Hle (H0 & r & Hr & H1 & H2 & H3 & H4 & H5). split; [done|]. exists r. split_and!; try done.
  intros id e0 Hid. cbn. rewrite lookup_insert_Some. intros [[-> <-]|[_ E]]; [|by eapply H5].
  specialize (H5 id e Hid He). lia.
Qed.

(** The excepted crash may change as long as its generations do not go back. *)
Lemma tracked_events k e e' db :
  Queue.events db !! k = Some e -> EventRow.requested_generation e' = EventRow.requested_generation e ->
  (0 <= EventRow.completed_generation e' <= EventRow.requested_generation e')%Z ->
  tracked db -> tracked_but (Some k) (Queue.set_events <[k := e']> db).
Proof.
  intros He Hq Hc [H1 H2 H3 H4 H5 H6 H7]. split; cbn; try done.
  - intros k0 e0. rewrite lookup_insert_Some. intros [[<- <-]|[_ E]]; [apply (H2 _ _ He)|apply (H2 _ _ E)].
  - intros k0 e0. rewrite lookup_insert_Some. intros [[<- <-]|[_ E]]; [done|apply (H3 _ _ E)].
  - intros k0 e0 id r Hk. rewrite lookup_insert_ne by congruence. by apply H5.
  - intros k0 e0 id r Hk. rewrite lookup_insert_ne by congruence. by apply H6.
  - intros q k0 x Hk Hx Ha. rewrite lookup_insert_ne by congruence. by apply (H7 q k0 x).
Qed.

Lemma processes_describes db job r id :
  describes db job -> Queue.jobs db !! Job.id job = Some r -> Job.kind job = txt "process_crash" -> Job.event_id job = Some id ->
  processes (scoped job id) r = true.
Proof.
  intros (_ & r0 & Hr0 & H1 & H2 & H3 & H4 & _) Hr Hk Hid. assert (r0 = r) as -> by congruence.
  unfold processes, scoped. cbn. rewrite H1, H2, H3, H4, Hk, Hid. by rewrite !bool_decide_true.
Qed.

Lemma update_event_ends hs worker job id f :
  (worker, job) ∈ hs -> Job.kind job = txt "process_crash" -> Job.event_id job = Some id ->
  (forall e, EventRow.requested_generation (f e) = EventRow.requested_generation e
    /\ EventRow.completed_generation (f e) = Z.max (EventRow.completed_generation e) (Job.target_generation job)) ->
  triple (fun db => good hs db /\ owns worker job db) (update_event (scoped job id) f)
    (fun e => ending hs worker job (scoped job id) false e) (fun _ _ => True).
Proof.
  intros Hin Hkind Hid Hf. unfold update_event.
  eapply (triple_bind _ _ _ _ _ (fun row db => forall e, row = Some e -> ending hs worker job (scoped job id) false e db)).
  - apply triple_statement; [done| |done]. intros db row db' [[HT HH] (r & Hr & Ho)] E.
    destruct (Queue.events db !! scoped job id) as [e|] eqn:He; simplify_eq; [|done]. intros e' [= <-].
    destruct (Hf e) as [Hq Hc]. pose proof (HH _ _ Hin) as Hd. pose proof Hd as (H0 & r0 & Hr0 & _ & _ & _ & _ & Ht).
    specialize (Ht id e Hid He). pose proof (generations _ _ HT _ _ He) as Hg.
    assert (Hproc : processes (scoped job id) r = true) by by eapply processes_describes.
    assert (Hopen := owned_open _ _ _ Ho). pose proof (busy _ _ HT (scoped job id) e _ r ltac:(done) He Hr Hproc Hopen) as Hb.
    split_and!.
    + eapply tracked_events; [done|done|lia|done].
    + intros w j Hj. eapply describes_events; [done|lia|by eapply HH].
    + by exists r.
    + cbn. by rewrite lookup_insert_eq.
    + unfold reached. rewrite Hq, Hc. lia.
    + intros q x Hx Ha. destruct (waiting _ _ HT q (scoped job id) x ltac:(done) Hx Ha) as (e0 & He0 & Hgen).
      assert (e0 = e) as -> by congruence. rewrite Hq, Hc. split; [lia|].
      destruct (decide (RequestEvent.generation x <= Job.target_generation job)%Z); [by right|left; lia].
  - intros row. apply triple_lift; [|done]. intros db e Hrow ->%ok_or_Ok. by apply Hrow.
Qed.

(** The request events that are due are told. *)
Lemma tell_ends hs worker job k e p s :
  is_active s = false -> (forall st, p st = is_active st) ->
  triple (ending hs worker job k false e) (update_request_events k (Job.target_generation job) p s)
    (fun _ => ending hs worker job k true e) (fun _ _ => True).
Proof.
  intros Hs Hp. apply update_request_events_triple.
  - intros db (HT & HH & Ho & He & Hr & Hx). split_and!.
    + apply tracked_request_events; [intros; apply settle_generation| |done].
      intros q k0 x _. unfold settle. destruct (concerns _ _ _ _); [|done]. cbn. by rewrite Hs.
    + by eapply handed_frame.
    + done.
    + done.
    + done.
    + intros q x. cbn. rewrite map_lookup_imap. destruct (Queue.request_events db !! (q, k)) as [y|] eqn:Ey; [|done]. cbn.
      intros [= <-] Ha. rewrite settle_generation. unfold settle in Ha. destruct (concerns _ _ _ _) eqn:Ec; [cbn in Ha; by rewrite Hs in Ha|].
      destruct (Hx q y Ey Ha) as [H1 [H2|[_ H2]]]; split; try done; [by left|]. exfalso.
      unfold concerns in Ec. cbn in Ec. rewrite bool_decide_true, Hp, Ha in Ec by done. apply Z.leb_le in H2. by rewrite H2 in Ec.
  - intros f db (HT & HH & Ho & He & Hr & Hx). split_and!; [by apply tracked_requests|by eapply handed_frame|done..].
Qed.

(** When nothing can be due, all are told. *)
Lemma nothing_due hs worker job k e db :
  Job.target_generation job = 0%Z -> ending hs worker job k false e db -> ending hs worker job k true e db.
Proof.
  intros H0 (HT & HH & Ho & He & Hr & Hx). split_and!; [done..|]. intros q x Hqx Ha. destruct (Hx q x Hqx Ha) as [H1 [H2|[_ H2]]].
  - split; [done|by left].
  - pose proof (positive _ _ HT _ _ _ Hqx). lia.
Qed.

(** The row of the job is put back or closed, as the generation says: the promises hold again. *)
Lemma ends_good hs worker job id e db r r' :
  (worker, job) ∈ hs -> Job.kind job = txt "process_crash" -> Job.event_id job = Some id ->
  Queue.jobs db !! Job.id job = Some r -> same_job r r' ->
  is_terminal (JobRow.state r') = negb (Job.target_generation job <? EventRow.requested_generation e)%Z ->
  ending hs worker job (scoped job id) true e db -> good hs (Queue.set_jobs <[Job.id job := r']> db).
Proof.
  intros Hin Hkind Hid Hr Hs Ht (HT & HH & Ho & He & [Hr1 Hr2] & Hx). set (k := scoped job id) in *.
  assert (Hproc : processes k r = true) by (eapply processes_describes; [by eapply HH|done..]).
  assert (HT' : tracked_but (Some k) (Queue.set_jobs <[Job.id job := r']> db)).
  { eapply tracked_jobs; [done|done| |done]. intros k0 Hne Hp0. exfalso. apply Hne. f_equal. revert Hproc Hp0. unfold processes.
    rewrite !andb_true_iff, !bool_decide_eq_true. destruct k as [[o p] i], k0 as [[o0 p0] i0]. cbn. naive_solver. }
  assert (Hjob : forall k0 id0 r0, Queue.jobs (Queue.set_jobs <[Job.id job := r']> db) !! id0 = Some r0 -> processes k0 r0 = true -> k0 = k ->
    r0 = r').
  { intros k0 id0 r0 Hr0 Hp0 ->. pose proof (one_job _ _ HT' k id0 r0 (Job.id job) r' Hr0) as Hone. cbn in *.
    rewrite lookup_insert_eq in Hone. rewrite Hone in Hr0; [by rewrite lookup_insert_eq in Hr0; injection Hr0|done|done|].
    by rewrite (same_job_processes k r r'). }
  split.
  - destruct HT' as [H1 H2 H3 H4 H5 H6 H7]. split; try done.
    + intros k0 e0 id0 r0 _ He0 Hr0 Hp0 Hop Hq. destruct (decide (k0 = k)) as [->|Hne]; [|apply (H5 k0 e0 id0 r0); congruence || done].
      rewrite (Hjob k id0 r0 Hr0 Hp0 eq_refl) in Hop. rewrite Ht in Hop. apply negb_false_iff, Z.ltb_lt in Hop.
      cbn in He0. assert (e0 = e) as -> by congruence. by apply Hr2.
    + intros k0 e0 id0 r0 _ He0 Hr0 Hp0 Hop. destruct (decide (k0 = k)) as [->|Hne]; [|apply (H6 k0 e0 id0 r0); congruence || done].
      rewrite (Hjob k id0 r0 Hr0 Hp0 eq_refl) in Hop. rewrite Ht in Hop. apply negb_true_iff, Z.ltb_ge in Hop.
      cbn in He0. assert (e0 = e) as -> by congruence. by apply Hr1.
    + intros q k0 x _ Hqx Ha. destruct (decide (k0 = k)) as [->|Hne]; [|apply (H7 q k0 x); congruence || done].
      exists e. split; [done|]. destruct (Hx q x Hqx Ha) as [? [?|[? _]]]; done.
  - intros w j Hj. eapply describes_jobs; [done..|by eapply HH].
Qed.

(** * The actions *)

Lemma ending_owner hs worker job k told e db : ending hs worker job k told e db -> owns worker job db.
Proof. by intros (_ & _ & Ho & _). Qed.

(** The last statement of a crash job: back to the queue when it was requested again, closed otherwise. *)
Lemma close_crash hs now worker job id e (m : jtx ()) f :
  (worker, job) ∈ hs -> Job.kind job = txt "process_crash" -> Job.event_id job = Some id ->
  (forall r, same_job r (f r)) -> (forall r, is_terminal (JobRow.state (f r)) = true) ->
  m = (b ← update_job (Job.id job) (owned_by job worker) f; updated_or LostLease b) ->
  triple (ending hs worker job (scoped job id) true e)
    (if (Job.target_generation job <? EventRow.requested_generation e)%Z then requeue_job_for_new_generation now worker job else m)
    (fun _ => good hs) (fun _ _ => True).
Proof.
  intros Hin Hkind Hid Hs Ht ->. apply triple_if; intros Hlt.
  - unfold requeue_job_for_new_generation. apply update_job_triple. intros db r He Hr Ho.
    eapply (ends_good _ _ _ _ _ _ r); [done..| | |done]; [done|]. by rewrite Hlt.
  - apply update_job_triple. intros db r He Hr Ho. eapply (ends_good _ _ _ _ _ _ r); [done..| | |done]; [done|]. by rewrite Hlt, Ht.
Qed.

Lemma is_active_or st : is_active st = is_active st.
Proof. done. Qed.

Lemma publish_good hs now worker job event_id result_id state reason :
  (worker, job) ∈ hs -> Job.kind job = txt "process_crash" -> Job.event_id job = Some event_id ->
  preserves (good hs) (transaction database_unavailable
    (_ ← lock_lease now worker job; conclude_publication now worker job event_id result_id state reason)).
Proof.
  intros Hin Hkind Hid. apply triple_transaction; [done|].
  eapply triple_bind; [apply lock_lease_good|]. intros ?. cbn beta. unfold conclude_publication.
  eapply triple_bind; [by apply update_event_ends|]. intros e. cbn beta.
  eapply (triple_bind _ _ _ _ _ (fun _ => ending hs worker job (scoped job event_id) true e)).
  - unfold complete_reprocessing_request_events. apply triple_if; intros Ht.
    + apply triple_ret. intros db. apply nothing_due. by apply Z.eqb_eq.
    + by apply tell_ends.
  - intros _. by apply (close_crash hs now worker job event_id e (complete_job worker job None)
      (fun r => JobRow.set_state Completed (JobRow.set_failure_code None r))).
Qed.

(** A job of another kind that is closed. *)
Lemma close_other hs worker job r db r' :
  (worker, job) ∈ hs -> Job.kind job <> txt "process_crash" -> Queue.jobs db !! Job.id job = Some r -> same_job r r' ->
  good hs db -> good hs (Queue.set_jobs <[Job.id job := r']> db).
Proof.
  intros Hin Hkind Hr Hs [HT HH]. split.
  - eapply tracked_jobs; [done|done| |done]. intros k _ Hp. exfalso. destruct (HH _ _ Hin) as (_ & r0 & Hr0 & H1 & _).
    assert (r0 = r) as -> by congruence. unfold processes in Hp. rewrite H1, bool_decide_false in Hp by done. done.
  - intros w j Hj. eapply describes_jobs; [done..|by eapply HH].
Qed.

Lemma good_uploads hs f db : good hs db -> good hs (Queue.set_uploads f db).
Proof. intros [[] HH]. split; [by split|by eapply handed_frame]. Qed.
Lemma good_artifacts hs f db : good hs db -> good hs (Queue.set_artifacts f db).
Proof. intros [[] HH]. split; [by split|by eapply handed_frame]. Qed.
Lemma good_caches hs f db : good hs db -> good hs (Queue.set_caches f db).
Proof. intros [[] HH]. split; [by split|by eapply handed_frame]. Qed.

Lemma finish_other_good hs now worker job code q rf :
  (worker, job) ∈ hs -> Job.kind job <> txt "process_crash" ->
  triple (good hs) (finish_failure now worker job code q rf) (fun _ => good hs) (fun _ => good hs).
Proof.
  intros Hin Hkind. apply triple_transaction; [done|]. eapply triple_bind; [apply lock_lease_good|]. intros ?. cbn beta.
  eapply (triple_bind _ _ _ _ _ (fun b db => good hs db /\ b = false)).
  - apply (triple_conseq _ (good hs) _ _ (fun b db => good hs db /\ b = false) _ (fun _ _ => True)); [|by intros ? []|done|done].
    rewrite decide_False by done. repeat case_decide.
    + unfold fail_upload, bound. eapply (triple_bind _ _ _ _ _ (fun _ => good hs)); [by apply triple_lift|]. intros id.
      eapply (triple_bind _ _ _ _ _ (fun _ => good hs)).
      { apply preserves_triple, update_row_triple. intros. by apply good_uploads. }
      intros b. eapply (triple_bind _ _ _ _ _ (fun _ => good hs)); [by apply triple_lift|]. intros _.
      eapply (triple_bind _ _ _ _ _ (fun _ => good hs)); [by apply triple_select|]. intros m.
      eapply (triple_bind _ _ _ _ _ (fun _ => good hs)); [by apply triple_lift|]. intros mid.
      eapply (triple_bind _ _ _ _ _ (fun _ => good hs)).
      { apply preserves_triple, update_row_triple. intros. by apply good_artifacts. }
      intros c. eapply (triple_bind _ _ _ _ _ (fun _ => good hs)); [by apply triple_lift|]. intros _. by apply triple_ret.
    + unfold fail_cache, bound. eapply (triple_bind _ _ _ _ _ (fun _ => good hs)); [by apply triple_lift|]. intros id.
      eapply (triple_bind _ _ _ _ _ (fun _ => good hs)).
      { apply preserves_triple, update_row_triple. intros. by apply good_caches. }
      intros b. eapply (triple_bind _ _ _ _ _ (fun _ => good hs)); [by apply triple_lift|]. intros _. by apply triple_ret.
    + by apply triple_ret.
    + by apply triple_lift.
  - intros []; [intros os db [_ ?]; done|].
    apply (triple_conseq _ (good hs) _ _ (fun _ => good hs) _ (fun _ _ => True)); [|by intros ? []|done|done].
    unfold terminal_job. apply update_job_triple. intros db r Hg Hr Ho. by eapply close_other.
Qed.

Lemma finish_crash_good hs now worker job id code q rf :
  (worker, job) ∈ hs -> Job.kind job = txt "process_crash" -> Job.event_id job = Some id ->
  triple (good hs) (finish_failure now worker job code q rf) (fun _ => good hs) (fun _ => good hs).
Proof.
  intros Hin Hkind Hid. apply triple_transaction; [done|]. eapply triple_bind; [apply lock_lease_good|]. intros ?. cbn beta.
  eapply (triple_bind _ _ _ _ _ (fun b db => exists e, ending hs worker job (scoped job id) true e db
    /\ b = (Job.target_generation job <? EventRow.requested_generation e)%Z)).
  - rewrite decide_True by done. unfold fail_crash, bound. rewrite Hid. cbn [ok_or].
    change (triple (fun db => good hs db /\ owns worker job db)
      (e ← update_event (scoped job id) (event_failed q code (Job.target_generation job));
       _ ← (if (0 <? Job.target_generation job)%Z
            then update_request_events (scoped job id) (Job.target_generation job) is_active (EFailed code)
            else mret ());
       mret (Job.target_generation job <? EventRow.requested_generation e)%Z)
      (fun b db => exists e, ending hs worker job (scoped job id) true e db
        /\ b = (Job.target_generation job <? EventRow.requested_generation e)%Z) (fun _ _ => True)).
    eapply triple_bind; [by apply update_event_ends|]. intros e. cbn beta.
    eapply (triple_bind _ _ _ _ _ (fun _ => ending hs worker job (scoped job id) true e)).
    + apply triple_if; intros Ht; [by apply tell_ends|]. apply triple_ret. intros db He. apply nothing_due; [|done].
      apply Z.ltb_ge in Ht. destruct He as (_ & HH & _). destruct (HH _ _ Hin) as [H0 _]. lia.
    + intros _. apply triple_ret. intros db He. by exists e.
  - intros b os db (e & He & ->).
    pose proof (close_crash hs now worker job id e (terminal_job worker job (if q then Failed else Dead) code rf)
      (fun r => JobRow.set_state (if q then Failed else Dead) (JobRow.set_failure_code (Some code)
       (JobRow.set_resource_failures (JobRow.resource_failures r + (if rf then 1 else 0)) r)))) as Ht.
    refine (Ht Hin Hkind Hid _ _ eq_refl os db He); [done|by destruct q].
Qed.

Lemma finish_good hs now worker job code q rf : (worker, job) ∈ hs -> preserves (good hs) (finish_failure now worker job code q rf).
Proof.
  intros Hin. destruct (decide (Job.kind job = txt "process_crash")) as [Hk|Hk]; [|by apply finish_other_good].
  destruct (Job.event_id job) as [id|] eqn:Hid; [by eapply finish_crash_good|].
  apply triple_transaction; [done|]. eapply triple_bind; [apply lock_lease_good|]. intros ?. cbn beta.
  rewrite decide_True by done. unfold fail_crash, bound. rewrite Hid.
  eapply (triple_bind _ _ _ _ _ (fun _ _ => False)); [by apply triple_lift|]. by intros b os db [].
Qed.

(** A job of another kind that is new. *)
Lemma good_new_job hs db id r :
  Queue.jobs db !! id = None -> JobRow.kind r <> txt "process_crash" -> good hs db -> good hs (Queue.set_jobs <[id := r]> db).
Proof.
  intros Hid Hk [[H1 H2 H3 H4 H5 H6 H7] HH].
  assert (Hp : forall k, processes k r = false). { intros k. unfold processes. by rewrite bool_decide_false. }
  assert (Hl : forall k id0 r0, <[id := r]> (Queue.jobs db) !! id0 = Some r0 -> processes k r0 = true -> Queue.jobs db !! id0 = Some r0).
  { intros k id0 r0. rewrite lookup_insert_Some. intros [[<- <-]|[_ E]] Hr; [by rewrite Hp in Hr|done]. }
  split; [split; cbn; try done|].
  - intros k id1 r1 id2 r2 E1 E2 P1 P2. eapply H1; [by eapply Hl|by eapply Hl|done..].
  - intros k e He. destruct (H2 k e He) as (id0 & r0 & Hr0 & Hp0). exists id0, r0. rewrite lookup_insert_ne; [done|]. congruence.
  - intros k e id0 r0 Hne He Hr0 Hp0. by eapply H5; [..|eapply Hl|].
  - intros k e id0 r0 Hne He Hr0 Hp0. by eapply H6; [..|eapply Hl|].
  - intros w j Hj. destruct (HH w j Hj) as (H0 & r0 & Hr0 & Hrest). split; [done|]. exists r0. cbn. rewrite lookup_insert_ne; [done|]. congruence.
Qed.

Lemma act_good hs now worker job a : (worker, job) ∈ hs -> preserves (good hs) (act now worker job a).
Proof.
  intros Hin. assert (Hrel : forall code delay resource dependency, preserves (good hs) (release_job now worker job code delay resource dependency)).
  { intros. apply release_job_good. }
  destruct a; cbn [act].
  - apply preserves_bind; [|intros ?; apply preserves_ret]. apply update_job_preserves. intros db r Hg Hr Ho.
    eapply good_jobs; [done| | |done]; unfold extended; destruct (JobRow.state r) eqn:E; cbn; rewrite ?E; by split_and?.
  - apply Hrel.
  - apply Hrel.
  - unfold finish_result. destruct outcome as [?|[]]; try apply preserves_ret.
    + apply preserves_ignoring, Hrel.
    + by apply preserves_ignoring, finish_good.
    + apply preserves_if; apply preserves_ignoring; [apply Hrel|by apply finish_good].
    + apply preserves_if; apply preserves_ignoring; [apply Hrel|by apply finish_good].
  - eapply (triple_bind _ _ _ _ _ (fun _ db => good hs db /\ Job.kind job = txt "process_crash")).
    { apply triple_lift; [|done]. intros db [] Hg Hf%fail_if_Ok. split; [done|]. by apply negb_false_iff, bool_decide_eq_true in Hf. }
    intros ?. eapply (triple_bind _ _ _ _ _ (fun id db => good hs db /\ Job.kind job = txt "process_crash" /\ Job.event_id job = Some id)).
    { apply triple_lift; [|by intros ? ? []]. intros db id [Hg Hk] ->%ok_or_Ok. done. }
    intros id os db (Hg & Hk & Hid). by apply publish_good.
  - apply preserves_bind; [apply preserves_lift|]. intros ?. apply preserves_bind; [|intros ?; apply preserves_ret].
    apply ensure_cache_preserves; [intros; by apply good_caches|]. intros. by apply good_new_job.
  - apply preserves_bind; [apply preserves_lift|]. intros ?. unfold mark_cache_processing. apply preserves_bind; [|intros ?; apply preserves_lift].
    apply preserves_statement. intros db x db' Hg E. repeat case_match; simplify_eq; try done. by apply good_caches.
  - eapply (triple_bind _ _ _ _ _ (fun _ db => good hs db /\ Job.kind job <> txt "process_crash")).
    { apply triple_lift; [|done]. intros db [] Hg Hf%fail_if_Ok. split; [done|]. apply negb_false_iff, bool_decide_eq_true in Hf. by rewrite Hf. }
    intros ? os db [Hg Hk]. revert os db Hg. cbn beta. unfold publish_cache. apply triple_transaction; [done|].
    eapply triple_bind; [apply lock_lease_good|]. intros ?. cbn beta.
    apply (triple_conseq _ (good hs) _ _ (fun _ => good hs) _ (fun _ _ => True)); [|by intros ? []|done|done].
    eapply (triple_bind _ _ _ _ _ (fun _ => good hs)); [by apply triple_remote|]. intros put.
    eapply (triple_bind _ _ _ _ _ (fun _ => good hs)); [by apply triple_lift|]. intros ?.
    eapply (triple_bind _ _ _ _ _ (fun _ => good hs)); [by apply triple_lift|]. intros ?.
    eapply (triple_bind _ _ _ _ _ (fun _ => good hs)).
    { apply preserves_triple, update_row_triple. intros. by apply good_caches. }
    intros b. eapply (triple_bind _ _ _ _ _ (fun _ => good hs)); [by apply triple_lift|]. intros ?.
    unfold complete_job. apply update_job_triple. intros db r Hg Hr Ho. by eapply close_other.
  - eapply (triple_bind _ _ _ _ _ (fun _ db => good hs db /\ Job.kind job <> txt "process_crash")).
    { apply triple_lift; [|done]. intros db [] Hg Hf%fail_if_Ok. split; [done|]. apply bool_decide_eq_false in Hf. intros E. apply Hf. rewrite E. set_solver. }
    intros ? os db [Hg Hk]. revert os db Hg. change (preserves (good hs) (transaction database_unavailable
      (_ ← lock_lease now worker job; complete_job worker job failure_code))). apply triple_transaction; [done|].
    eapply triple_bind; [apply lock_lease_good|]. intros ?. cbn beta. unfold complete_job. apply update_job_triple.
    intros db r [Hg _] Hr Ho. by eapply close_other.
Qed.

(** * Claims, requests and reconciliation *)

Definition with_claim (worker : text) (r : option Job.t) (hs : list (text * Job.t)) : list (text * Job.t) :=
  match r with Some job => (worker, job) :: hs | None => hs end.

Lemma claim_row_good hs now worker token limit id r prior db :
  candidate now limit db = Some (id, r, prior) -> good hs db ->
  good ((worker, job_of id token now prior r db) :: hs) (Queue.set_jobs <[id := leased_by worker token now r]> db).
Proof.
  intros (Hr & Hc & _)%candidate_Some Hg.
  assert (Hopen : is_terminal (JobRow.state (leased_by worker token now r)) = is_terminal (JobRow.state r)).
  { unfold claimable in Hc. by destruct (JobRow.state r). }
  assert (Hgood : good hs (Queue.set_jobs <[id := leased_by worker token now r]> db)) by by eapply good_jobs.
  split; [apply Hgood|]. intros w job [E|Hj]%elem_of_cons; [|by eapply Hgood]. injection E as -> ->. split; cbn.
  - destruct (JobRow.event_id r) as [eid|]; cbn; [|done]. destruct (Queue.events db !! _) as [e|] eqn:He; cbn; [|done].
    pose proof (generations _ _ (proj1 Hg) _ _ He). lia.
  - exists (leased_by worker token now r). rewrite lookup_insert_eq. split_and!; try done.
    intros eid e Hid He. unfold scoped in He. cbn in He. rewrite Hid. cbn.
    exact (Z.eq_le_incl _ _ (f_equal (from_option EventRow.requested_generation 0%Z) He)).
Qed.

Lemma claim_good hs now worker random limit :
  triple (good hs) (claim_job_with_project_limit now worker random limit)
    (fun r => good (with_claim worker r hs)) (fun _ => good hs).
Proof.
  unfold claim_job_with_project_limit. eapply (triple_bind _ _ _ _ _ (fun _ => good hs)); [by apply triple_lift|]. intros token.
  apply triple_transaction; [done|].
  eapply (triple_bind _ _ _ _ _ (fun row db => good (with_claim worker row hs) db)).
  - apply triple_statement; [done| |done]. intros db row db' Hg E.
    destruct (candidate now limit db) as [[[id r] prior]|] eqn:Ec; injection E as <- <-; [|done]. by apply (claim_row_good _ _ _ _ limit).
  - intros [job|]; [|by apply triple_ret]. eapply (triple_bind _ _ _ _ _ (fun _ => good (with_claim worker (Some job) hs))).
    + unfold mark_reprocessing_events_running. apply triple_if; intros _; [by apply triple_ret|].
      destruct (Job.event_id job); [|by apply triple_ret]. apply activity_triple; [done|]. intros st. unfold is_active. by intros ->.
    + intros _. by apply triple_ret.
Qed.

Lemma crash_jobs_elem k db id r : (id, r) ∈ crash_jobs k db <-> Queue.jobs db !! id = Some r /\ processes k r = true.
Proof. unfold crash_jobs. rewrite list_elem_of_filter, elem_of_map_to_list. cbn. tauto. Qed.

Lemma running_generation_nonneg k db : (0 <= running_generation k db)%Z.
Proof. unfold running_generation. induction (map _ _) as [|z l IH]; cbn; lia. Qed.

(** The generation that is asked for is ahead of what was completed and not behind what was requested. *)
Lemma next_generation_ahead k e id r db :
  tracked db -> Queue.events db !! k = Some e -> Queue.jobs db !! id = Some r -> processes k r = true ->
  (EventRow.completed_generation e < next_generation k e r db)%Z
  /\ (EventRow.requested_generation e <= next_generation k e r db)%Z.
Proof.
  intros HT He Hr Hp. pose proof (generations _ _ HT k e He) as Hg. pose proof (running_generation_nonneg k db) as Hn.
  unfold next_generation. destruct (is_leased (JobRow.state r)) eqn:El.
  - destruct (EventRow.requested_generation e <=? running_generation k db)%Z eqn:E; [lia|]. apply Z.leb_gt in E.
    assert (Ho : is_terminal (JobRow.state r) = false) by by destruct (JobRow.state r).
    pose proof (busy _ _ HT k e id r ltac:(done) He Hr Hp Ho). lia.
  - destruct (EventRow.completed_generation e <? EventRow.requested_generation e)%Z eqn:E; [apply Z.ltb_lt in E|apply Z.ltb_ge in E]; lia.
Qed.

Lemma schedule_event_good hs now q db k : good hs db -> good hs (schedule_event now q db k).
Proof.
  intros [HT HH]. unfold schedule_event. destruct (Queue.events db !! k) as [e|] eqn:He; [|done].
  destruct (head (crash_jobs k db)) as [[id r]|] eqn:Eh; [|done]. destruct (Queue.request_events db !! (q, k)) eqn:Eq; [done|].
  apply head_Some_elem_of, crash_jobs_elem in Eh as [Hr Hp].
  destruct (next_generation_ahead k e id r db HT He Hr Hp) as [H1 H2]. set (g := next_generation k e r db) in *.
  pose proof (generations _ _ HT k e He) as Hg.
  set (db1 := Queue.set_events <[k := requested_again g e]> db).
  set (x := {| RequestEvent.generation := g; RequestEvent.previous_result_id := EventRow.current_result_id e;
               RequestEvent.state := EQueued; RequestEvent.created_at := now |}).
  assert (Hs : same_job r (reactivated now r)) by (unfold reactivated; by destruct (is_leased _)).
  assert (Hopen : is_terminal (JobRow.state (reactivated now r)) = false).
  { unfold reactivated. destruct (is_leased (JobRow.state r)) eqn:E; [by destruct (JobRow.state r)|done]. }
  assert (HT1 : tracked_but (Some k) (Queue.set_request_events <[(q, k) := x]> db1)).
  { destruct HT as [G1 G2 G3 G4 G5 G6 G7]. split; cbn; try done.
    - intros k0 e0. rewrite lookup_insert_Some. intros [[<- <-]|[_ E]]; [apply (G2 _ _ He)|apply (G2 _ _ E)].
    - intros k0 e0. rewrite lookup_insert_Some. intros [[<- <-]|[_ E]]; [cbn; lia|apply (G3 _ _ E)].
    - intros q0 k0 y. rewrite lookup_insert_Some. intros [[[= <- <-] <-]|[_ E]]; [cbn; lia|apply (G4 _ _ _ E)].
    - intros k0 e0 id0 r0 Hk. rewrite lookup_insert_ne by congruence. by apply G5.
    - intros k0 e0 id0 r0 Hk. rewrite lookup_insert_ne by congruence. by apply G6.
    - intros q0 k0 y Hk. rewrite !lookup_insert_ne by congruence. by apply (G7 q0 k0 y). }
  apply (tracked_jobs _ _ id r (reactivated now r)) in HT1; [|done|done|].
  2: { intros k0 Hne Hp0. exfalso. apply Hne. f_equal. revert Hp Hp0. unfold processes.
       rewrite !andb_true_iff, !bool_decide_eq_true. destruct k as [[o p] i], k0 as [[o0 p0] i0]. cbn. naive_solver. }
  split.
  - destruct HT1 as [G1 G2 G3 G4 G5 G6 G7]. split; try done.
    + intros k0 e0 id0 r0 _ He0 Hr0 Hp0 Hop Hq. destruct (decide (k0 = k)) as [->|Hne]; [|apply (G5 k0 e0 id0 r0); congruence || done].
      cbn in He0. rewrite lookup_insert_eq in He0. injection He0 as <-. cbn. lia.
    + intros k0 e0 id0 r0 _ He0 Hr0 Hp0 Hop. destruct (decide (k0 = k)) as [->|Hne]; [|apply (G6 k0 e0 id0 r0); congruence || done].
      exfalso. assert (id0 = id) as ->.
      { apply (G1 k id0 r0 id (reactivated now r)); [done|cbn; by rewrite lookup_insert_eq|done|]. by rewrite (same_job_processes k r). }
      cbn in Hr0. rewrite lookup_insert_eq in Hr0. injection Hr0 as <-. congruence.
    + intros q0 k0 y _ Hy Ha. destruct (decide (k0 = k)) as [->|Hne]; [|apply (G7 q0 k0 y); congruence || done].
      exists (requested_again g e). cbn. rewrite lookup_insert_eq. split; [done|]. cbn in Hy.
      rewrite lookup_insert_Some in Hy. destruct Hy as [[_ <-]|[_ Hy]]; [cbn; lia|].
      destruct (waiting _ _ HT q0 k y ltac:(done) Hy Ha) as (e0 & He0 & Hgy). assert (e0 = e) as -> by congruence. cbn. lia.
  - intros w job Hj. eapply describes_jobs; [done..|]. apply (describes_events db job k e (requested_again g e)) in He; [|done|by eapply HH].
    destruct He as [H0 He]. split; [done|]. exact He.
Qed.

Lemma schedule_good hs now q o p ids :
  preserves (good hs) (transaction database_unavailable (schedule_reprocessing_events now q o p ids)).
Proof.
  apply triple_transaction; [done|]. unfold schedule_reprocessing_events.
  eapply (triple_bind _ _ _ _ _ (fun _ => good hs)); [by apply triple_select|]. intros n.
  eapply (triple_bind _ _ _ _ _ (fun _ => good hs)); [by apply triple_lift|]. intros _. apply triple_execute; [done|].
  induction (map _ ids) as [|k ks IH]; intros db Hg; [done|]. cbn. apply IH. by apply schedule_event_good.
Qed.

(** With the promises kept nothing is ever stranded. *)
Lemma nothing_stranded db : tracked db -> stranded_events db = [].
Proof.
  intros HT. unfold stranded_events. destruct (filter _ _) as [|[[q k] x] l] eqn:E; [done|]. exfalso.
  assert (Hx : ((q, k), x) ∈ filter (fun kv => stranded db kv = true) (map_to_list (Queue.request_events db))) by (rewrite E; by left).
  apply list_elem_of_filter in Hx as [Hs Hx%elem_of_map_to_list]. unfold stranded in Hs. cbn in Hs.
  apply andb_true_iff in Hs as [[[Ha _]%andb_true_iff _]%andb_true_iff ((id & r) & Hin & Ht)%existsb_exists].
  apply list_elem_of_In, crash_jobs_elem in Hin as [Hr Hp]. destruct (waiting _ _ HT q k x ltac:(done) Hx Ha) as (e & He & Hg).
  pose proof (idle _ _ HT k e id r ltac:(done) He Hr Hp Ht). lia.
Qed.

Lemma reconcile_good hs now : preserves (good hs) (reconcile_reprocessing_event_jobs now).
Proof.
  apply triple_transaction; [done|]. eapply (triple_bind _ _ _ _ _ (fun _ => good hs)).
  - apply triple_statement; [done| |done]. intros db a db' [HT HH] E. rewrite (nothing_stranded db HT) in E. cbn in E.
    injection E as _ <-.
    assert (Ej : forall m : gmap text JobRow.t, (fun r : JobRow.t => if is_terminal (JobRow.state r) && false then requeued now r else r) <$> m = m).
    { intros m. apply map_eq. intros i. rewrite lookup_fmap. destruct (m !! i) as [r|]; [|done]. cbn. by rewrite andb_false_r. }
    assert (Hg : good hs (Queue.set_jobs (fun _ => Queue.jobs db) (Queue.set_request_events (map_imap (fun k x =>
        Some (if bool_decide (k ∈ @nil (text * key)) then RequestEvent.set_state EQueued x else x))) db))).
    { split; [|by eapply handed_frame]. destruct (tracked_request_events None db
        (fun k x => if bool_decide (k ∈ @nil (text * key)) then RequestEvent.set_state EQueued x else x)) as [G1 G2 G3 G4 G5 G6 G7]; [|done|done|by split].
      by intros k x. }
    unfold Queue.set_jobs in *. cbn in *. by rewrite Ej.
  - intros [ids n]. eapply (triple_bind _ _ _ _ _ (fun _ => good hs)); [|intros _; by apply triple_ret].
    eapply triple_conseq; [apply (for_each_refresh (good hs)); intros; by apply good_requests|done..].
Qed.

(** * No request is lost *)

Lemma step_good token s s' : step token s s' -> good s.2 s.1 -> good s'.2 s'.1.
Proof.
  intros Hs Hg. destruct Hs as [now w random limit o db hs r db' o' E|now w j a o db hs r db' o' Hin E
    |now q og p ids o db hs r db' o' _ E|now o db hs r db' o' E]; cbn [fst snd] in *.
  - pose proof (claim_good hs now w random limit o db Hg) as HI. rewrite E in HI. by destruct r as [[job|]|].
  - pose proof (act_good hs now w j a Hin o db Hg) as HI. rewrite E in HI. by destruct r.
  - pose proof (schedule_good hs now q og p ids o db Hg) as HI. rewrite E in HI. by destruct r.
  - pose proof (reconcile_good hs now o db Hg) as HI. rewrite E in HI. by destruct r.
Qed.

(** C7: no request to process a crash again is lost.  Whatever workers claim, finish, fail, retry, lose or
    publish, and whatever is requested meanwhile, in whatever order and with whatever failures: a request
    that waits for a crash is for a generation that was not completed and that the crash is asked to
    reach, and the job of the crash is in the queue or leased, so that the reconciliation of stranded
    requests never finds one. *)
Theorem no_reprocessing_request_is_lost s s' :
  good s.2 s.1 -> steps None s s' ->
  stranded_events s'.1 = [] /\
  forall q k x, Queue.request_events s'.1 !! (q, k) = Some x -> is_active (RequestEvent.state x) = true ->
    exists e id r, Queue.events s'.1 !! k = Some e /\ Queue.jobs s'.1 !! id = Some r /\ processes k r = true
      /\ (EventRow.completed_generation e < RequestEvent.generation x <= EventRow.requested_generation e)%Z
      /\ is_terminal (JobRow.state r) = false.
Proof.
  intros Hg Hs. assert (Hg' : good s'.2 s'.1).
  { induction Hs as [|token s1 s2 _ IH Hstep _]; [done|]. by eapply step_good. }
  destruct Hg' as [HT _]. split; [by apply nothing_stranded|]. intros q k x Hx Ha.
  destruct (waiting _ _ HT q k x ltac:(done) Hx Ha) as (e & He & Hgen). destruct (has_job _ _ HT k e He) as (id & r & Hr & Hp).
  exists e, id, r. split_and!; [done|done|done|lia|lia|]. apply not_true_iff_false. intros Ht.
  pose proof (idle _ _ HT k e id r ltac:(done) He Hr Hp Ht). lia.
Qed.

(** * Attempts are bounded *)

(** The row of a job with its attempts, and nothing newer to process. *)
Definition attempted (job : Job.t) (a m : Z) (db : Queue.t) : Prop :=
  (exists r, Queue.jobs db !! Job.id job = Some r /\ JobRow.attempt r = a /\ JobRow.max_attempt r = m)
  /\ forall id e, Job.event_id job = Some id -> Queue.events db !! scoped job id = Some e ->
       (EventRow.requested_generation e <= Job.target_generation job)%Z.

Lemma attempted_update job a m db r f id :
  (forall r, JobRow.attempt (f r) = JobRow.attempt r /\ JobRow.max_attempt (f r) = JobRow.max_attempt r) ->
  Queue.jobs db !! id = Some r -> attempted job a m db -> attempted job a m (Queue.set_jobs <[id := f r]> db).
Proof.
  intros Hf Hr [(r0 & Hr0 & Ha & Hm) He]. split; [|done]. cbn. destruct (Hf r) as [E1 E2].
  destruct (decide (id = Job.id job)) as [->|Hne].
  - exists (f r). assert (r0 = r) as -> by congruence. rewrite lookup_insert_eq, E1, E2. done.
  - exists r0. by rewrite lookup_insert_ne.
Qed.

Lemma update_job_attempted job a m id p f :
  (forall r, JobRow.attempt (f r) = JobRow.attempt r /\ JobRow.max_attempt (f r) = JobRow.max_attempt r) ->
  preserves (attempted job a m) (update_job id p f).
Proof. intros Hf. apply update_job_preserves. intros db r Ha Hr _. by apply attempted_update. Qed.

Lemma request_events_attempted job a m k target p s : preserves (attempted job a m) (update_request_events k target p s).
Proof. by apply update_request_events_frame. Qed.

Lemma update_event_attempted job a m id f :
  Job.event_id job = Some id -> (forall e, EventRow.requested_generation (f e) = EventRow.requested_generation e) ->
  triple (attempted job a m) (update_event (scoped job id) f)
    (fun e db => attempted job a m db /\ (EventRow.requested_generation e <= Job.target_generation job)%Z) (fun _ _ => True).
Proof.
  intros Hid Hf. unfold update_event.
  eapply (triple_bind _ _ _ _ _ (fun row db => attempted job a m db /\ forall e, row = Some e -> (EventRow.requested_generation e <= Job.target_generation job)%Z)).
  - apply triple_statement; [done| |done]. intros db row db' [Hr He] E. destruct (Queue.events db !! _) as [e|] eqn:Ee; simplify_eq; [|by repeat split].
    split; [|by intros e' [= <-]; rewrite Hf; eapply He]. split; [done|]. intros id' e'. rewrite Hid. intros [= <-]. cbn.
    rewrite lookup_insert_eq. intros [= <-]. rewrite Hf. by eapply He.
  - intros row. apply triple_lift; [|done]. intros db e [Ha Hrow] ->%ok_or_Ok. split; [done|by apply Hrow].
Qed.

Lemma attempted_frame job a m db db' :
  Queue.jobs db' = Queue.jobs db -> Queue.events db' = Queue.events db -> attempted job a m db -> attempted job a m db'.
Proof. intros E1 E2 [Hr He]. split; rewrite ?E1, ?E2; done. Qed.

Lemma finish_failure_attempted now worker job a m code q rf : preserves (attempted job a m) (finish_failure now worker job code q rf).
Proof.
  apply triple_transaction; [done|].
  eapply (triple_bind _ _ _ _ _ (fun _ => attempted job a m)).
  { unfold lock_lease. apply preserves_triple, (preserves_bind (attempted job a m)); [|intros b; apply preserves_lift]. apply update_job_attempted.
    intros r. unfold extended. by destruct (JobRow.state r). }
  intros _. eapply (triple_bind _ _ _ _ _ (fun b db => attempted job a m db /\ b = false)).
  - repeat case_decide.
    + unfold fail_crash, bound. eapply (triple_bind _ _ _ _ _ (fun id db => attempted job a m db /\ Job.event_id job = Some id)).
      { apply triple_lift; [|done]. intros db id Ha ->%ok_or_Ok. done. }
      intros id os db [Ha Hid]. revert os db Ha.
      eapply triple_bind; [by apply update_event_attempted|]. intros e. cbn beta.
      eapply (triple_bind _ _ _ _ _ (fun _ db => attempted job a m db /\ (EventRow.requested_generation e <= Job.target_generation job)%Z)).
      * apply triple_if; intros _; [|by apply triple_ret]. intros os db [Ha He].
        pose proof (request_events_attempted job a m (scoped job id) (Job.target_generation job) is_active (EFailed code) os db Ha) as Ht.
        by destruct (update_request_events _ _ _ _ os db) as [[[?|?] ?] ?].
      * intros _. apply triple_ret. intros db [Ha He]. split; [done|]. by apply Z.ltb_ge.
    + apply (triple_conseq _ (attempted job a m) _ _ (fun b db => attempted job a m db /\ b = false) _ (fun _ _ => True)); [|done..].
      unfold fail_upload, bound. eapply (triple_bind _ _ _ _ _ (fun _ => attempted job a m)); [by apply triple_lift|]. intros id.
      eapply (triple_bind _ _ _ _ _ (fun _ => attempted job a m)).
      { apply preserves_triple, update_row_triple. intros. by eapply attempted_frame. }
      intros b. eapply (triple_bind _ _ _ _ _ (fun _ => attempted job a m)); [by apply triple_lift|]. intros _.
      eapply (triple_bind _ _ _ _ _ (fun _ => attempted job a m)); [by apply triple_select|]. intros x.
      eapply (triple_bind _ _ _ _ _ (fun _ => attempted job a m)); [by apply triple_lift|]. intros mid.
      eapply (triple_bind _ _ _ _ _ (fun _ => attempted job a m)).
      { apply preserves_triple, update_row_triple. intros. by eapply attempted_frame. }
      intros c. eapply (triple_bind _ _ _ _ _ (fun _ => attempted job a m)); [by apply triple_lift|]. intros _. by apply triple_ret.
    + unfold fail_cache, bound. eapply (triple_bind _ _ _ _ _ (fun _ => attempted job a m)); [by apply triple_lift|]. intros id.
      eapply (triple_bind _ _ _ _ _ (fun _ => attempted job a m)).
      { apply preserves_triple, update_row_triple. intros. by eapply attempted_frame. }
      intros b. eapply (triple_bind _ _ _ _ _ (fun _ => attempted job a m)); [by apply triple_lift|]. intros _. by apply triple_ret.
    + by apply triple_ret.
    + by apply triple_lift.
  - intros []; [by intros os db [_ ?]|].
    apply (triple_conseq _ (attempted job a m) _ _ (fun _ => attempted job a m) _ (fun _ _ => True)); [|by intros ? []|done|done].
    unfold terminal_job. apply update_job_triple. intros db r Ha Hr _.
    apply (attempted_update job a m db r (fun r => JobRow.set_state (if q then Failed else Dead) (JobRow.set_failure_code (Some code)
       (JobRow.set_resource_failures (JobRow.resource_failures r + (if rf then 1 else 0)) r)))); done.
Qed.

Lemma retry_attempted now worker job a m code resource : preserves (attempted job a m) (retry now worker job code resource).
Proof.
  apply triple_transaction; [done|]. apply preserves_triple, preserves_bind.
  - apply update_job_attempted. intros r. cbn. split; [lia|done].
  - intros b. apply preserves_bind; [apply preserves_lift|]. intros _. destruct (Job.event_id job); [|apply preserves_ret].
    apply preserves_if; [apply request_events_attempted|apply preserves_ret].
Qed.

(** An outcome that counts as an attempt. *)
Definition counts_as_attempt (e : JobError) : bool := match e with LostLease | Dependency => false | _ => true end.

Lemma finish_result_attempted now worker job a m e :
  counts_as_attempt e = true -> preserves (attempted job a m) (finish_result now worker job (Err e)).
Proof.
  intros He. destruct e; try done; cbn [finish_result].
  - apply preserves_ignoring, finish_failure_attempted.
  - apply preserves_if; apply preserves_ignoring; [apply retry_attempted|apply finish_failure_attempted].
  - apply preserves_if; apply preserves_ignoring; [apply retry_attempted|apply finish_failure_attempted].
Qed.

(** [n] times the work on a job is started and fails: the job is claimed by some worker at some time, its
    attempts are not exhausted, and its failure is recorded, or not, when the database fails.  In between
    the rest of the service does what it likes to everything but this job and its crash. *)
Inductive failing (id : text) : nat -> Queue.t -> Queue.t -> Prop :=
| NoRound db : failing id 0 db db
| Others n db db1 db2 : Queue.jobs db1 !! id = Queue.jobs db !! id -> failing id n db1 db2 -> failing id n db db2
| Round n now worker token limit o db job db1 o1 now' e o2 r db2 o3 db3 :
    claim_job_with_project_limit now worker (Some token) limit o db = (Ok (Some job), db1, o1) -> Job.id job = id ->
    exhausted job = false -> counts_as_attempt e = true ->
    run_job now' worker job (fun _ => raise e) o2 db1 = (r, db2, o3) -> failing id n db2 db3 -> failing id (S n) db db3.

Lemma mark_running_events job M : preserves (fun db => Queue.events db = M) (mark_reprocessing_events_running job).
Proof.
  unfold mark_reprocessing_events_running. destruct (_ =? _)%Z; [apply preserves_ret|].
  destruct (Job.event_id job); [by apply update_request_events_frame|apply preserves_ret].
Qed.

Lemma claim_attempted now worker token limit o db job db1 o1 r :
  claim_job_with_project_limit now worker (Some token) limit o db = (Ok (Some job), db1, o1) ->
  Queue.jobs db !! Job.id job = Some r ->
  Job.attempt job = (JobRow.attempt r + 1)%Z /\ Job.max_attempt job = JobRow.max_attempt r
  /\ attempted job (JobRow.attempt r + 1) (JobRow.max_attempt r) db1.
Proof.
  intros Hc Hr. pose proof Hc as (t & row & prior & [= <-] & Hcand & Ej & Edb)%claim_Some.
  pose proof Hcand as (Hrow & _)%candidate_Some. assert (row = r) as -> by congruence.
  split_and!; [by rewrite Ej|by rewrite Ej|]. split.
  - exists (leased_by worker token now r). by rewrite Edb, lookup_insert_eq.
  - intros id e Hid He. assert (Hev : Queue.events db1 = Queue.events db).
    { revert Hc. unfold claim_job_with_project_limit. unfold mbind at 1, tx_bind, lift. cbn [ok_or].
      intros (oa & sa & ob & Eb & ->)%transaction_if_Ok. unfold mbind, tx_bind, statement in Eb.
      destruct (next_outcome oa) as [[] oc]; [done|]. rewrite Hcand in Eb.
      set (j := job_of _ _ _ _ _ _) in *. set (dbx := Queue.set_jobs _ db) in *.
      pose proof (mark_running_events j (Queue.events dbx) oc dbx eq_refl) as Hm.
      destruct (mark_reprocessing_events_running j oc dbx) as [[[[]|e0] s2] o4]; [|done]. injection Eb as _ <- _. by rewrite Hm. }
    rewrite Hev in He. rewrite Ej in Hid, He |- *. cbn in *. rewrite Hid. cbn. unfold scoped in He. cbn in He.
    exact (Z.eq_le_incl _ _ (eq_sym (f_equal (from_option EventRow.requested_generation 0%Z) He))).
Qed.

Lemma failing_attempts id n db db' r :
  failing id n db db' -> Queue.jobs db !! id = Some r -> (JobRow.attempt r <= JobRow.max_attempt r + 1)%Z ->
  (Z.of_nat n <= JobRow.max_attempt r + 1 - JobRow.attempt r)%Z
  /\ exists r', Queue.jobs db' !! id = Some r' /\ JobRow.attempt r' = (JobRow.attempt r + Z.of_nat n)%Z /\ JobRow.max_attempt r' = JobRow.max_attempt r.
Proof.
  intros Hf. revert r. induction Hf as [db|n db db1 db2 Hsame _ IH
    |n now worker token limit o db job db1 o1 now' e o2 res db2 o3 db3 Hclaim Hid Hex He Hrun _ IH]; intros r Hr Hle.
  - split; [lia|]. exists r. split_and!; [done|lia|done].
  - apply IH; [congruence|done].
  - subst id. destruct (claim_attempted _ _ _ _ _ _ _ _ _ r Hclaim Hr) as (Ea & Em & Hatt).
    assert (Hbound : (JobRow.attempt r + 1 <= JobRow.max_attempt r + 1)%Z).
    { unfold exhausted, resource_retry in Hex. apply andb_false_iff in Hex as [Hex%Z.ltb_ge|Hex]; [lia|].
      apply negb_false_iff, andb_true_iff in Hex as [_ Hex%Z.eqb_eq]. lia. }
    unfold run_job in Hrun. rewrite Hex in Hrun. cbn [raise lift] in Hrun.
    change (finish_result now' worker job (Err e) o2 db1 = (res, db2, o3)) in Hrun.
    pose proof (finish_result_attempted now' worker job _ _ e He o2 db1 Hatt) as Hf.
    assert (Hdb2 : attempted job (JobRow.attempt r + 1) (JobRow.max_attempt r) db2) by (rewrite Hrun in Hf; by destruct res).
    destruct Hdb2 as [(r2 & Hr2 & Ha2 & Hm2) _]. destruct (IH r2 Hr2 ltac:(lia)) as (Hn & r3 & Hr3 & Ha3 & Hm3).
    split; [lia|]. exists r3. split_and!; [done|lia|congruence].
Qed.

(** ** The end of a job that failed for good *)

(** Programs whose statements do not fail. *)
Definition runs {A} (m : jtx A) (db : Queue.t) (a : A) (db' : Queue.t) : Prop := m [] db = (Ok a, db', []).
Lemma runs_bind {A B} (m : jtx A) (f : A -> jtx B) db a db1 b db2 : runs m db a db1 -> runs (f a) db1 b db2 -> runs (m ≫= f) db b db2.
Proof. unfold runs, mbind, tx_bind. by intros ->. Qed.
Lemma runs_transaction {A} (m : jtx A) db a db' : runs m db a db' -> runs (transaction database_unavailable m) db a db'.
Proof. unfold runs, transaction, transaction_if. cbn. by intros ->. Qed.
Lemma runs_update_job id p f e db r :
  Queue.jobs db !! id = Some r -> p r = true ->
  runs (b ← update_job id p f; updated_or e b) db tt (Queue.set_jobs <[id := f r]> db).
Proof.
  intros Hr Hp. unfold runs, mbind, tx_bind, update_job, update_row, statement, updated_or, lift. cbn [next_outcome]. by rewrite Hr, Hp.
Qed.
Lemma runs_update_event (k : key) f db e : Queue.events db !! k = Some e -> runs (update_event k f) db (f e) (Queue.set_events <[k := f e]> db).
Proof. intros He. unfold runs, update_event, mbind, tx_bind, statement, lift. cbn [next_outcome]. by rewrite He. Qed.

(** Every request event is one of a request, as a foreign key says. *)
Definition requests_known (db : Queue.t) : Prop := forall q k, is_Some (Queue.request_events db !! (q, k)) -> is_Some (Queue.requests db !! q).

Lemma runs_refreshes ids db :
  (forall q, q ∈ ids -> is_Some (Queue.requests db !! q)) ->
  exists f, runs (for_each refresh_reprocessing_request ids) db tt (Queue.set_requests f db).
Proof.
  revert db. induction ids as [|q ids IH]; intros db Hk; [exists (fun m => m); by destruct db|].
  destruct (Hk q) as [x Hx]; [by left|]. set (y := RequestRow.refreshed (next_request_state x (counts_of q db)) (counts_of q db) x).
  destruct (IH (Queue.set_requests <[q := y]> db)) as [f Hf].
  { intros q' Hq'. cbn. destruct (decide (q' = q)) as [->|]; [rewrite lookup_insert_eq; eauto|rewrite lookup_insert_ne by done; apply Hk; by right]. }
  exists (fun m => f (<[q := y]> m)). cbn [for_each].
  eapply runs_bind; [|exact Hf]. unfold runs, refresh_reprocessing_request, mbind, tx_bind, statement. cbn [next_outcome]. by rewrite Hx.
Qed.

Lemma runs_update_request_events k target p s db :
  requests_known db ->
  exists f, runs (update_request_events k target p s) db tt
    (Queue.set_requests f (Queue.set_request_events (map_imap (fun k' x => Some (settle k target p s k' x))) db)).
Proof.
  intros Hknown. unfold update_request_events.
  set (ids := map (fun kv => kv.1.1) (filter (fun kv => concerns k target p kv = true) (map_to_list (Queue.request_events db)))).
  set (db1 := Queue.set_request_events (map_imap (fun k' x => Some (settle k target p s k' x))) db).
  destruct (runs_refreshes (dedup (sort text_leb ids)) db1) as [f Hf].
  { intros q Hq. rewrite (elem_of_dedup_sort text_leb) in Hq. unfold ids in Hq.
    apply list_elem_of_fmap in Hq as ([[q' k'] x] & -> & Hin). apply list_elem_of_filter in Hin as [_ Hin%elem_of_map_to_list]. cbn.
    apply (Hknown q' k'). by exists x. }
  exists f. eapply (runs_bind _ _ _ ids); [done|exact Hf].
Qed.

(** The failures after which a job is given up: of a job without attempts left, whatever its work would do, a deterministic
    one, the second of the resources, and a transient one at the last attempt. *)
Inductive gives_up (job : Job.t) (e : JobError) : bool -> text -> Prop :=
| at_the_end : exhausted job = true -> gives_up job e false (txt "retry_exhausted")
| deterministic code : exhausted job = false -> e = Deterministic code -> gives_up job e true code
| out_of_resources code : exhausted job = false -> e = Resource code -> Job.resource_failures job <> 0%Z -> gives_up job e true code
| last_attempt code : exhausted job = false -> e = Transient code -> (Job.max_attempt job <= Job.attempt job)%Z -> gives_up job e false code.

(** What is left of it: the job is closed with the code of the failure; its crash is marked with it, unless it has a
    result to keep, and is done with the generation of the job; and the requests that waited for that are told. *)
Definition marked (quarantined : bool) (code : text) (target : Z) (e e' : EventRow.t) : Prop :=
  (target <= EventRow.completed_generation e')%Z
  /\ EventRow.requested_generation e' = EventRow.requested_generation e
  /\ EventRow.current_result_id e' = EventRow.current_result_id e
  /\ if decide ((0 < target)%Z /\ EventRow.current_result_id e <> None)
     then EventRow.processing_state e' = EventRow.processing_state e
     else EventRow.processing_state e' = (if quarantined then txt "quarantined" else txt "failed")
       /\ EventRow.state_reason e' = Some code /\ EventRow.retryable e' = false /\ EventRow.retry_at e' = None.
Record given_up (job : Job.t) (quarantined : bool) (code : text) (db db' : Queue.t) : Prop := {
  closed : exists row, Queue.jobs db' !! Job.id job = Some row
    /\ JobRow.state row = (if quarantined then Failed else Dead) /\ JobRow.failure_code row = Some code;
  crash_marked : forall eid e, Job.kind job = txt "process_crash" -> Job.event_id job = Some eid ->
    Queue.events db !! scoped job eid = Some e ->
    exists e', Queue.events db' !! scoped job eid = Some e' /\ marked quarantined code (Job.target_generation job) e e';
  requests_told : forall eid q x, Job.kind job = txt "process_crash" -> Job.event_id job = Some eid ->
    Queue.request_events db' !! (q, scoped job eid) = Some x -> (0 < RequestEvent.generation x <= Job.target_generation job)%Z ->
    is_active (RequestEvent.state x) = false }.

(** The jobs of a crash: one that processes it, which is there, or one that deletes its upload. *)
Definition of_crash (job : Job.t) (db : Queue.t) : Prop :=
  (Job.kind job = txt "process_crash" /\ exists eid, Job.event_id job = Some eid /\ is_Some (Queue.events db !! scoped job eid))
  \/ Job.kind job = txt "delete_raw".

Lemma event_failed_marked q code target e : marked q code target e (event_failed q code target e).
Proof.
  unfold marked, event_failed. cbn. split_and!; [lia|done|done|]. destruct (Z.ltb_spec 0 target), (EventRow.current_result_id e); cbn; case_decide;
    by first [naive_solver|lia].
Qed.

Definition terminal (q : bool) (code : text) (rf : bool) (r : JobRow.t) : JobRow.t :=
  JobRow.set_state (if q then Failed else Dead) (JobRow.set_failure_code (Some code)
    (JobRow.set_resource_failures (JobRow.resource_failures r + (if rf then 1 else 0)) r)).

Lemma finish_failure_closes now worker job q code rf db row :
  Queue.jobs db !! Job.id job = Some row -> owned_by job worker row = true -> unexpired now row = true ->
  of_crash job db -> requests_known db ->
  (forall eid e, Job.event_id job = Some eid -> Queue.events db !! scoped job eid = Some e ->
     (EventRow.requested_generation e <= Job.target_generation job)%Z) ->
  exists db', runs (finish_failure now worker job code q rf) db tt db' /\ given_up job q code db db'.
Proof.
  intros Hrow Hown Hun Hkind Hknown Htarget.
  set (db1 := Queue.set_jobs <[Job.id job := extended now row]> db).
  assert (Hlock : runs (lock_lease now worker job) db tt db1) by (apply runs_update_job; [done|by rewrite Hown, Hun]).
  assert (Hext : owned_by job worker (extended now row) = true).
  { unfold owned_by, extended in *. destruct (JobRow.state row) eqn:E; cbn in *; rewrite ?E; done. }
  destruct Hkind as [(Hk & eid & Heid & [e He])|Hk].
  - set (k := scoped job eid) in *. set (e' := event_failed q code (Job.target_generation job) e).
    set (db2 := Queue.set_events <[k := e']> db1).
    assert (exists f g, runs (if (0 <? Job.target_generation job)%Z
              then update_request_events k (Job.target_generation job) is_active (EFailed code) else mret ()) db2 tt
              (Queue.set_requests f (Queue.set_request_events g db2))
            /\ forall qid x, g (Queue.request_events db2) !! (qid, k) = Some x -> (0 < RequestEvent.generation x <= Job.target_generation job)%Z ->
                 is_active (RequestEvent.state x) = false) as (f & g & Htell & Htold).
    { destruct (Z.ltb_spec 0 (Job.target_generation job)) as [Ht|Ht].
      - destruct (runs_update_request_events k (Job.target_generation job) is_active (EFailed code) db2 Hknown) as [f Hf].
        eexists f, _. split; [exact Hf|]. intros qid x. rewrite map_lookup_imap. destruct (Queue.request_events db2 !! (qid, k)) as [y|]; [|done].
        cbn. intros [= <-]. rewrite settle_generation. intros [_ Hle]. unfold settle. destruct (concerns _ _ _ _) eqn:Ec; [done|].
        unfold concerns in Ec. cbn in Ec. rewrite bool_decide_true in Ec by done. apply Z.leb_le in Hle. rewrite Hle in Ec. by cbn in Ec.
      - exists (fun m => m), (fun m => m). split; [by destruct db2|]. intros. lia. }
    set (db3 := Queue.set_requests f (Queue.set_request_events g db2)) in *.
    exists (Queue.set_jobs <[Job.id job := terminal q code rf (extended now row)]> db3). split.
    + apply runs_transaction. eapply runs_bind; [exact Hlock|]. eapply (runs_bind _ _ _ false db3).
      * rewrite decide_True by done. unfold fail_crash, bound. rewrite Heid. cbn [ok_or].
        eapply (runs_bind _ _ _ eid db1); [done|]. eapply runs_bind; [by apply runs_update_event|]. eapply runs_bind; [exact Htell|].
        unfold runs, mret, tx_ret. cbn [EventRow.requested_generation event_failed]. pose proof (Htarget eid e Heid He) as Hle.
        apply Z.ltb_ge in Hle. by rewrite Hle.
      * cbn. apply (runs_update_job _ _ (terminal q code rf)); [cbn; apply lookup_insert_eq|done].
    + split.
      * eexists. cbn. rewrite lookup_insert_eq. by split_and!.
      * intros eid' x _ Heid' Hx. assert (eid' = eid) as -> by congruence. assert (x = e) as -> by (unfold k in He; congruence).
        exists e'. cbn. rewrite lookup_insert_eq. split; [done|]. apply event_failed_marked.
      * intros eid' qid x _ Heid' Hx. assert (eid' = eid) as -> by congruence. by apply (Htold qid).
  - exists (Queue.set_jobs <[Job.id job := terminal q code rf (extended now row)]> db1). split.
    + apply runs_transaction. eapply runs_bind; [exact Hlock|]. eapply (runs_bind _ _ _ false db1).
      * rewrite Hk. by vm_compute.
      * apply (runs_update_job _ _ (terminal q code rf)); [cbn; apply lookup_insert_eq|done].
    + split; [|by rewrite Hk..]. eexists. cbn. rewrite lookup_insert_eq. by split_and!.
Qed.


(** * A crash that is requested again while it is processed *)

Lemma a_queue_good : good [] a_queue.
Proof.
  assert (Hj : forall id r, Queue.jobs a_queue !! id = Some r -> id = txt "j" /\ r = a_job_row).
  { intros id r E. cbn in E. apply lookup_singleton_Some in E as [<- <-]. done. }
  assert (He : forall k e, Queue.events a_queue !! k = Some e -> k = a_crash /\ e = an_event_row).
  { intros k e E. cbn in E. apply lookup_singleton_Some in E as [<- <-]. done. }
  split; [|by intros w j ?%not_elem_of_nil]. split.
  - intros k id1 r1 id2 r2 [-> _]%Hj [-> _]%Hj _ _. done.
  - intros k e [-> ->]%He. exists (txt "j"), a_job_row. split; [by apply lookup_singleton_Some|by vm_compute].
  - intros k e [-> ->]%He. cbn. lia.
  - done.
  - intros k e id r _ [-> ->]%He [-> ->]%Hj _ _ ?. done.
  - intros k e id r _ [-> ->]%He [-> ->]%Hj _ ?. done.
  - done.
Qed.

Definition again (db : Queue.t) : Queue.t :=
  (transaction database_unavailable (schedule_reprocessing_events 20 (txt "q") (txt "o") (txt "p") [txt "e"]) [] db).1.2.
Definition published (db : Queue.t) : Queue.t :=
  (act 30 (txt "w1") first_handle (Publish (txt "r") (txt "processed") (txt "done")) [] db).1.2.

(** The request joins generation 1, the publication of generation 0 puts the job back, and the request
    is still waiting. *)
Example requested_while_processed :
  (RequestEvent.generation <$> Queue.request_events (published (again claimed)) !! (txt "q", a_crash)) = Some 1%Z
  /\ (JobRow.state <$> Queue.jobs (published (again claimed)) !! txt "j") = Some Pending.
Proof. vm_compute. auto. Qed.

Lemma no_reprocessing_request_is_lost_witness :
  stranded_events (published (again claimed)) = [] /\
  exists e id r, Queue.events (published (again claimed)) !! a_crash = Some e
    /\ Queue.jobs (published (again claimed)) !! id = Some r /\ is_terminal (JobRow.state r) = false.
Proof.
  destruct (no_reprocessing_request_is_lost (a_queue, []) (published (again claimed), [(txt "w1", first_handle)])) as [Hs Hw].
  - apply a_queue_good.
  - eapply Go; [eapply Go; [eapply Go; [apply Stay| |]| |]| |].
    + apply (Claim 10 (txt "w1") (Some (txt "t1")) 1 [] a_queue [] (Ok (Some first_handle)) claimed (claim_at 10 (txt "w1") (txt "t1") [] a_queue).2).
      unfold claimed. apply run_jtx_eq. vm_compute. reflexivity.
    + right. discriminate.
    + apply (Schedule 20 (txt "q") (txt "o") (txt "p") [txt "e"] [] claimed _ (Ok tt) (again claimed)
        (transaction database_unavailable (schedule_reprocessing_events 20 (txt "q") (txt "o") (txt "p") [txt "e"]) [] claimed).2).
      * apply NoDup_singleton.
      * unfold again. apply run_jtx_eq. vm_compute. reflexivity.
    + by left.
    + apply (Act 30 (txt "w1") first_handle (Publish (txt "r") (txt "processed") (txt "done")) [] (again claimed) _ (Ok tt) (published (again claimed))
        (act 30 (txt "w1") first_handle (Publish (txt "r") (txt "processed") (txt "done")) [] (again claimed)).2).
      * by left.
      * unfold published. apply run_jtx_eq. vm_compute. reflexivity.
    + by left.
  - split; [exact Hs|].
    destruct (Hw (txt "q") a_crash (RequestEvent.Mk 1 None EQueued 20)) as (e & id & r & He & Hr & _ & _ & Ht).
    + vm_compute. reflexivity.
    + reflexivity.
    + exists e, id, r. split; [exact He|]. split; [exact Hr|exact Ht].
Defined.

(** One round fails and is put back; the job is claimed again, for the first time with a failure that is
    deterministic, and is given up. *)
Definition failed_once : Queue.t :=
  (run_job 20 (txt "w1") first_handle (fun _ => raise (Transient (txt "scratch_unavailable"))) [] claimed).1.2.
Definition retried : Queue.t := (claim_at (seconds 30) (txt "w1") (txt "t3") [] failed_once).1.2.
Definition third_handle : Job.t := Job.Mk (txt "j") (txt "o") (txt "p") (Some (txt "e")) None None (txt "process_crash") 2 5 0 (txt "t3") 0 1 30.

