(* ===== verification/Issues.v ===== *)
(** Issues: the end of the publication of a crash in [apps/server/src/worker.rs], which assigns the crash
    to an issue and maintains the counts, the bounds and the representatives of the issue, its variants
    and its releases one event at a time; the repair that recomputes them; and the transitions between open,
    resolved and regressed.  The tables are the rows of one project, to which every statement is restricted. *)

From S2P Require Import Prelude Text Json Identifiers Grouping Store Jobs.

Definition FINGERPRINT_ALGORITHM : text := txt "stack".
Definition FINGERPRINT_VERSION : Z := 1.

(** * Tables *)

(** The release mapping and the grouping of a crash: the columns that a state requires are its arguments
    (the checks of the table). *)
Module Mapping.
Inductive t : Type := Pending | Matched (release_id : text) | Missing | Ambiguous.
End Mapping.
Module EventGrouping.
Inductive t : Type :=
| Pending | Disabled | Insufficient
| Grouped (issue_id fingerprint variant_fingerprint : text) (grouping_quality : Z).
Definition state (g : t) : text :=
  match g with Pending => txt "pending" | Disabled => txt "disabled" | Insufficient => txt "insufficient"
             | Grouped _ _ _ _ => txt "grouped" end.
End EventGrouping.

Module Event.
Record t : Type := Mk { received_at : Z; mapping : Mapping.t; grouping : EventGrouping.t }.
Definition set_mapping m e := Mk (received_at e) m (grouping e).
Definition set_grouping g e := Mk (received_at e) (mapping e) g.
Definition issue_id (e : t) : option text := match grouping e with EventGrouping.Grouped i _ _ _ => Some i | _ => None end.
Definition fingerprint (e : t) : option text := match grouping e with EventGrouping.Grouped _ f _ _ => Some f | _ => None end.
Definition variant (e : t) : option text := match grouping e with EventGrouping.Grouped _ _ v _ => Some v | _ => None end.
Definition quality (e : t) : option Z := match grouping e with EventGrouping.Grouped _ _ _ q => Some q | _ => None end.
Definition release_id (e : t) : option text := match mapping e with Mapping.Matched r => Some r | _ => None end.
Definition grouped (e : t) : bool := negb (is_none (issue_id e)).
End Event.

(** The counts and bounds of a group of crashes, and the crash that represents it. *)
Module Rollup.
Record t : Type := Mk { first_seen_at : Z; last_seen_at : Z; event_count : Z; representative : text }.
End Rollup.

Module Status.
Inductive t : Type := Open | Resolved.
End Status.
Module Regression.
Inductive t : Type := New | Ongoing | Resolved | Regressed | Unknown.
End Regression.
#[export] Instance Status_eq_dec : EqDecision Status.t.
Proof. solve_decision. Defined.
#[export] Instance Regression_eq_dec : EqDecision Regression.t.
Proof. solve_decision. Defined.

(** A resolution is a release and the time at which it was declared. *)
Module Issue.
Record t : Type := Mk {
  fingerprint_algorithm : text; fingerprint_version : Z; fingerprint : text; title : text; status : Status.t;
  regression : Regression.t; rollup : Rollup.t; first_release_id : option text; last_release_id : option text;
  resolved_in : option (text * Z) }.
Definition set_rollup (r : Rollup.t) (i : t) : t :=
  Mk (fingerprint_algorithm i) (fingerprint_version i) (fingerprint i) (title i) (status i) (regression i) r
    (first_release_id i) (last_release_id i) (resolved_in i).
Definition set_chronology (first last : option text) (s : Status.t) (r : Regression.t) (i : t) : t :=
  Mk (fingerprint_algorithm i) (fingerprint_version i) (fingerprint i) (title i) s r (rollup i) first last (resolved_in i).
Definition set_resolution (s : Status.t) (r : Regression.t) (release : option (text * Z)) (i : t) : t :=
  Mk (fingerprint_algorithm i) (fingerprint_version i) (fingerprint i) (title i) s r (rollup i)
    (first_release_id i) (last_release_id i) release.
End Issue.

(** Variants are keyed by issue and fingerprint, issue releases by issue and release; a release has the
    time of its build, when it is known. *)
Module Tables.
Record t : Type := Mk {
  events : gmap text Event.t;
  issues : gmap text Issue.t;
  variants : gmap (text * text) Rollup.t;
  issue_releases : gmap (text * text) Rollup.t;
  releases : gmap text (option Z) }.
Definition set_events f (s : t) : t := Mk (f (events s)) (issues s) (variants s) (issue_releases s) (releases s).
Definition set_issues f (s : t) : t := Mk (events s) (f (issues s)) (variants s) (issue_releases s) (releases s).
Definition set_variants f (s : t) : t := Mk (events s) (issues s) (f (variants s)) (issue_releases s) (releases s).
Definition set_issue_releases f (s : t) : t := Mk (events s) (issues s) (variants s) (f (issue_releases s)) (releases s).
End Tables.

Abbreviation itx := (tx Tables.t JobError).

(** * Groups of crashes *)

(** What orders the representatives: [ORDER BY grouping_quality DESC, received_at, id], where a missing
    quality comes first. *)
Abbreviation Point := (option Z * Z)%type.
Definition point (e : Event.t) : Point := (Event.quality e, Event.received_at e).
Definition quality_order (a b : option Z) : comparison :=
  match a, b with
  | None, None => Eq
  | None, Some _ => Lt
  | Some _, None => Gt
  | Some a, Some b => Z.compare b a
  end.
Definition before (a b : text * Point) : bool :=
  match quality_order a.2.1 b.2.1 with
  | Lt => true
  | Gt => false
  | Eq => if (a.2.2 =? b.2.2)%Z then text_leb a.1 b.1 else (a.2.2 <? b.2.2)%Z
  end.
Definition first_of (l : list (text * Point)) : option text := fst <$> head (sort before l).

(** The crashes with a property, and the aggregates of a [GROUP BY] over them. *)
Definition members (p : Event.t -> bool) (db : Tables.t) : gmap text Point :=
  point <$> filter (fun kv : text * Event.t => p kv.2 = true) (Tables.events db).
Definition in_issue (issue_id : text) (e : Event.t) : bool := bool_decide (Event.issue_id e = Some issue_id).
Definition in_variant (k : text * text) (e : Event.t) : bool :=
  in_issue k.1 e && bool_decide (Event.variant e = Some k.2).
Definition in_release (k : text * text) (e : Event.t) : bool :=
  in_issue k.1 e && bool_decide (Event.release_id e = Some k.2).
Definition bounds_of (g : gmap text Point) : option (Z * Z) :=
  match map (fun kv : text * Point => kv.2.2) (map_to_list g) with
  | [] => None
  | z :: zs => Some (foldr Z.min z zs, foldr Z.max z zs)
  end.
Definition rollup_of (g : gmap text Point) : option Rollup.t :=
  representative ← first_of (map_to_list g);
  '(first_seen_at, last_seen_at) ← bounds_of g;
  Some {| Rollup.first_seen_at := first_seen_at; Rollup.last_seen_at := last_seen_at;
          Rollup.event_count := Z.of_nat (length (map_to_list g)); Rollup.representative := representative |}.

(** * Publication *)

Module ReleaseResolution.
Record t : Type := Mk { candidates : list text }.
Definition matched_id (r : t) : option text := match candidates r with [release_id] => Some release_id | _ => None end.
(** [ReleaseResolution::state], with the release that it requires. *)
Definition state (r : t) : Mapping.t :=
  match candidates r with [] => Mapping.Missing | [release_id] => Mapping.Matched release_id | _ => Mapping.Ambiguous end.
End ReleaseResolution.

Module GroupingPublication.
Inductive t : Type := Disabled | Insufficient | Grouped (fingerprint : Fingerprint.t).
End GroupingPublication.

Module ExistingGrouping.
Record t : Type := Mk { state : text; issue_id : option text; release_id : option text; received_at : Z }.
End ExistingGrouping.
Module GroupingAssignment.
Record t : Type := Mk { issue_id : text; first_assignment : bool; previous_release_id : option text; received_at : Z }.
End GroupingAssignment.

Definition update_event (event_id : text) (p : Event.t -> bool) (f : Event.t -> Event.t) : itx bool :=
  statement database_unavailable (fun db =>
    match Tables.events db !! event_id with
    | Some e => if p e then Ok (true, Tables.set_events <[event_id := f e]> db) else Ok (false, db)
    | None => Ok (false, db)
    end).
Definition update_issue (issue_id : text) (f : Issue.t -> Issue.t) : itx bool :=
  statement database_unavailable (fun db =>
    match Tables.issues db !! issue_id with
    | Some i => Ok (true, Tables.set_issues <[issue_id := f i]> db)
    | None => Ok (false, db)
    end).
Definition updated_or (e : JobError) (b : bool) : itx () := lift (fail_if (negb b) e).
Definition issue_missing : JobError := Deterministic (txt "issue_missing").
Definition issue_rollup_invalid : JobError := Deterministic (txt "issue_rollup_invalid").

(** [lock_event]. *)
Definition lock_event (event_id : text) : itx ExistingGrouping.t :=
  row ← select database_unavailable (fun db => Tables.events db !! event_id);
  e ← lift (ok_or LostLease row);
  mret {| ExistingGrouping.state := EventGrouping.state (Event.grouping e); ExistingGrouping.issue_id := Event.issue_id e;
          ExistingGrouping.release_id := Event.release_id e; ExistingGrouping.received_at := Event.received_at e |}.

(** [record_release_mapping]; the list of candidates, which only the dashboard shows, is not kept.  The
    release must exist. *)
Definition release_exists (m : Mapping.t) (db : Tables.t) : bool :=
  match m with Mapping.Matched r => bool_decide (is_Some (Tables.releases db !! r)) | _ => true end.
Definition record_release_mapping (event_id : text) (release : ReleaseResolution.t) : itx () :=
  _ ← execute database_unavailable id;
  _ ← (if bool_decide (ReleaseResolution.candidates release = []) then mret () else execute database_unavailable id);
  updated ← statement database_unavailable (fun db =>
    match Tables.events db !! event_id with
    | Some e =>
        if release_exists (ReleaseResolution.state release) db
        then Ok (true, Tables.set_events <[event_id := Event.set_mapping (ReleaseResolution.state release) e]> db)
        else Err database_unavailable
    | None => Ok (false, db)
    end);
  updated_or LostLease updated.

(** The row that a crash adds to a rollup, and the row after [ON CONFLICT DO UPDATE]: the representative is
    the better of the two. *)
Definition entered (event_id : text) (e : Event.t) : Rollup.t :=
  {| Rollup.first_seen_at := Event.received_at e; Rollup.last_seen_at := Event.received_at e;
     Rollup.event_count := 1; Rollup.representative := event_id |}.
Definition among (ids : list text) (db : Tables.t) : option text :=
  first_of (map_to_list (filter (fun kv : text * Point => kv.1 ∈ ids) (point <$> Tables.events db))).
Definition upserted (old : option Rollup.t) (new : Rollup.t) (db : Tables.t) : result JobError Rollup.t :=
  match old with
  | None => Ok new
  | Some old =>
      representative ← ok_or database_unavailable (among [Rollup.representative old; Rollup.representative new] db);
      Ok {| Rollup.first_seen_at := Z.min (Rollup.first_seen_at old) (Rollup.first_seen_at new);
            Rollup.last_seen_at := Z.max (Rollup.last_seen_at old) (Rollup.last_seen_at new);
            Rollup.event_count := Rollup.event_count old + 1; Rollup.representative := representative |}
  end.

(** [assign_issue]: the issue with the fingerprint of the crash, created when there is none; the crash; the
    aggregates of an issue that exists; the variant. *)
Definition has_fingerprint (fingerprint : text) (i : Issue.t) : bool :=
  bool_decide (Issue.fingerprint_algorithm i = FINGERPRINT_ALGORITHM)
  && (Issue.fingerprint_version i =? FINGERPRINT_VERSION)%Z && bool_decide (Issue.fingerprint i = fingerprint).
Definition issue_with (fingerprint : text) (db : Tables.t) : option text :=
  fst <$> head (filter (fun kv => has_fingerprint fingerprint kv.2 = true) (map_to_list (Tables.issues db))).
Definition new_issue (f : Fingerprint.t) (event_id : text) (e : Event.t) : Issue.t :=
  {| Issue.fingerprint_algorithm := FINGERPRINT_ALGORITHM; Issue.fingerprint_version := FINGERPRINT_VERSION;
     Issue.fingerprint := Fingerprint.issue_fingerprint f; Issue.title := Fingerprint.title f;
     Issue.status := Status.Open; Issue.regression := Regression.Unknown; Issue.rollup := entered event_id e;
     Issue.first_release_id := None; Issue.last_release_id := None; Issue.resolved_in := None |}.
Definition insert_issue (issue_id event_id : text) (f : Fingerprint.t) : itx (option text) :=
  statement database_unavailable (fun db =>
    match Tables.events db !! event_id, issue_with (Fingerprint.issue_fingerprint f) db with
    | Some e, None =>
        if is_none (Tables.issues db !! issue_id)
        then Ok (Some issue_id, Tables.set_issues <[issue_id := new_issue f event_id e]> db)
        else Err database_unavailable
    | _, _ => Ok (None, db)
    end).

(** The representative of an issue is replaced by a crash that is before it, or when it has none. *)
Definition represents_better (event : text * Event.t) (representative : text) (db : Tables.t) : bool :=
  match Tables.events db !! representative with
  | None => true
  | Some r =>
      match Event.quality event.2, Event.quality r with
      | Some q, Some q' =>
          (q' <? q)%Z
          || (q =? q')%Z && ((Event.received_at event.2 <? Event.received_at r)%Z
                             || (Event.received_at event.2 =? Event.received_at r)%Z
                                && text_leb event.1 representative && negb (bool_decide (event.1 = representative)))
      | _, _ => true
      end
  end.
Definition enter_issue (event_id issue_id : text) : itx bool :=
  statement database_unavailable (fun db =>
    match Tables.events db !! event_id, Tables.issues db !! issue_id with
    | Some e, Some i =>
        let old := Issue.rollup i in
        Ok (true, Tables.set_issues <[issue_id := Issue.set_rollup
          {| Rollup.first_seen_at := Z.min (Rollup.first_seen_at old) (Event.received_at e);
             Rollup.last_seen_at := Z.max (Rollup.last_seen_at old) (Event.received_at e);
             Rollup.event_count := Rollup.event_count old + 1;
             Rollup.representative := if represents_better (event_id, e) (Rollup.representative old) db
                                      then event_id else Rollup.representative old |} i]> db)
    | _, _ => Ok (false, db)
    end).
Definition enter_variant (event_id : text) : itx bool :=
  statement database_unavailable (fun db =>
    match Tables.events db !! event_id with
    | Some e =>
        k ← ok_or database_unavailable (i ← Event.issue_id e; v ← Event.variant e; Some (i, v));
        r ← upserted (Tables.variants db !! k) (entered event_id e) db;
        Ok (true, Tables.set_variants <[k := r]> db)
    | None => Ok (false, db)
    end).
Definition assign_issue (random : option text) (event_id : text) (f : Fingerprint.t) (received_at : Z)
    : itx (option GroupingAssignment.t) :=
  issue_id ← lift (ok_or (Transient (txt "random_unavailable")) random);
  inserted_issue ← insert_issue issue_id event_id f;
  stored_issue ← match inserted_issue with
    | Some issue_id => mret issue_id
    | None => row ← select database_unavailable (issue_with (Fingerprint.issue_fingerprint f));
              lift (ok_or issue_missing row)
    end;
  updated ← update_event event_id (fun e => negb (Event.grouped e))
    (Event.set_grouping (EventGrouping.Grouped stored_issue (Fingerprint.issue_fingerprint f)
       (Fingerprint.variant_fingerprint f) (Fingerprint.grouping_quality f)));
  if updated : bool then
    _ ← (if is_none inserted_issue
         then issue_updated ← enter_issue event_id stored_issue; updated_or issue_missing issue_updated
         else mret ());
    variant ← enter_variant event_id;
    _ ← updated_or issue_rollup_invalid variant;
    mret (Some {| GroupingAssignment.issue_id := stored_issue; GroupingAssignment.first_assignment := true;
                  GroupingAssignment.previous_release_id := None; GroupingAssignment.received_at := received_at |})
  else raise LostLease.

(** [apply_grouping]: a crash stays in the issue that it was assigned first. *)
Definition apply_grouping (random : option text) (event_id : text) (existing : ExistingGrouping.t)
    (grouping : GroupingPublication.t) : itx (option GroupingAssignment.t) :=
  if decide (ExistingGrouping.state existing = txt "grouped") then
    issue_id ← lift (ok_or (Deterministic (txt "grouping_state_invalid")) (ExistingGrouping.issue_id existing));
    mret (Some {| GroupingAssignment.issue_id := issue_id; GroupingAssignment.first_assignment := false;
                  GroupingAssignment.previous_release_id := ExistingGrouping.release_id existing;
                  GroupingAssignment.received_at := ExistingGrouping.received_at existing |})
  else
    let ungrouped (g : EventGrouping.t) : itx (option GroupingAssignment.t) :=
      updated ← update_event event_id (fun e => negb (Event.grouped e)) (Event.set_grouping g);
      _ ← updated_or LostLease updated;
      mret None in
    match grouping with
    | GroupingPublication.Disabled => ungrouped EventGrouping.Disabled
    | GroupingPublication.Insufficient => ungrouped EventGrouping.Insufficient
    | GroupingPublication.Grouped f => assign_issue random event_id f (ExistingGrouping.received_at existing)
    end.

(** [add_release_membership] and [remove_release_membership]. *)
Definition add_release_membership (event_id issue_id release_id : text) : itx () :=
  release ← statement database_unavailable (fun db =>
    match Tables.events db !! event_id with
    | Some e =>
        if in_release (issue_id, release_id) e then
          r ← upserted (Tables.issue_releases db !! (issue_id, release_id)) (entered event_id e) db;
          Ok (true, Tables.set_issue_releases <[(issue_id, release_id) := r]> db)
        else Ok (false, db)
    | None => Ok (false, db)
    end);
  updated_or issue_rollup_invalid release.
Definition delete_single (k : text * text) : itx bool :=
  statement database_unavailable (fun db =>
    match Tables.issue_releases db !! k with
    | Some r => if (Rollup.event_count r =? 1)%Z then Ok (true, Tables.set_issue_releases (delete k) db) else Ok (false, db)
    | None => Ok (false, db)
    end).
Definition decrement (k : text * text) : itx (option Rollup.t) :=
  statement database_unavailable (fun db =>
    match Tables.issue_releases db !! k with
    | Some r =>
        if (1 <? Rollup.event_count r)%Z then
          let r' := Rollup.Mk (Rollup.first_seen_at r) (Rollup.last_seen_at r) (Rollup.event_count r - 1) (Rollup.representative r) in
          Ok (Some r', Tables.set_issue_releases <[k := r']> db)
        else Ok (None, db)
    | None => Ok (None, db)
    end).
Definition remove_release_membership (event_id issue_id release_id : text) (received_at : Z) : itx () :=
  let k := (issue_id, release_id) in
  deleted ← delete_single k;
  if deleted : bool then mret () else
  row ← decrement k;
  row ← lift (ok_or issue_rollup_invalid row);
  let changed := (Rollup.first_seen_at row =? received_at)%Z || (Rollup.last_seen_at row =? received_at)%Z in
  let represented := bool_decide (Rollup.representative row = event_id) in
  if negb represented && negb changed then mret () else
  replacement_event_id ←
    (if represented then
       best ← select database_unavailable (fun db => first_of (map_to_list (members (in_release k) db)));
       lift (ok_or issue_rollup_invalid best)
     else mret (Rollup.representative row));
  bounds ←
    (if changed then
       bounds ← select database_unavailable (fun db => bounds_of (members (in_release k) db));
       lift (ok_or issue_rollup_invalid bounds)
     else mret (Rollup.first_seen_at row, Rollup.last_seen_at row));
  updated ← statement database_unavailable (fun db =>
    match Tables.issue_releases db !! k with
    | Some r => Ok (true, Tables.set_issue_releases
        <[k := Rollup.Mk bounds.1 bounds.2 (Rollup.event_count r) replacement_event_id]> db)
    | None => Ok (false, db)
    end);
  updated_or issue_rollup_invalid updated.

(** [apply_release_delta]: whether the releases of the issue changed. *)
Definition apply_release_delta (event_id : text) (assignment : GroupingAssignment.t) (release_id : option text) : itx bool :=
  let first := GroupingAssignment.first_assignment assignment in
  let previous := GroupingAssignment.previous_release_id assignment in
  if negb first && bool_decide (previous = release_id) then mret false else
  _ ← match previous with
      | Some previous =>
          if first then mret ()
          else remove_release_membership event_id (GroupingAssignment.issue_id assignment) previous (GroupingAssignment.received_at assignment)
      | None => mret ()
      end;
  _ ← match release_id with
      | Some release_id => add_release_membership event_id (GroupingAssignment.issue_id assignment) release_id
      | None => mret ()
      end;
  mret true.

(** * Chronology *)

Module ReleaseEvidence.
Record t : Type := Mk { id : text; build_timestamp : option Z }.
End ReleaseEvidence.
Module ReleaseChronology.
Record t : Type := Mk {
  first : option text; last : option text; last_timestamp : option Z; release_count : nat; valid : bool }.
End ReleaseChronology.

(** [release_chronology]: the releases of an issue are ordered when every one has a time of its own. *)
Definition stamp_leb (a b : Z * text) : bool := if (a.1 =? b.1)%Z then text_leb a.2 b.2 else (a.1 <? b.1)%Z.
Fixpoint repeats (l : list (Z * text)) : bool :=
  match l with a :: (b :: _) as l' => (a.1 =? b.1)%Z || repeats l' | _ => false end.
Definition release_chronology (evidence : list ReleaseEvidence.t) : ReleaseChronology.t :=
  let ordered := sort stamp_leb (omap (fun e => (fun z => (z, ReleaseEvidence.id e)) <$> ReleaseEvidence.build_timestamp e) evidence) in
  let valid := negb (bool_decide (ordered = [])) && (length ordered =? length evidence)%nat && negb (repeats ordered) in
  if negb valid then ReleaseChronology.Mk None None None (length evidence) false
  else ReleaseChronology.Mk (snd <$> head ordered) (snd <$> last ordered) (fst <$> last ordered) (length ordered) true.

(** [load_release_chronology]: [ORDER BY r.build_timestamp NULLS LAST, r.id]. *)
Definition evidence_leb (a b : ReleaseEvidence.t) : bool :=
  match ReleaseEvidence.build_timestamp a, ReleaseEvidence.build_timestamp b with
  | Some x, Some y => stamp_leb (x, ReleaseEvidence.id a) (y, ReleaseEvidence.id b)
  | Some _, None => true
  | None, Some _ => false
  | None, None => text_leb (ReleaseEvidence.id a) (ReleaseEvidence.id b)
  end.
Definition evidence_rows (issue_id : text) (db : Tables.t) : list ReleaseEvidence.t :=
  omap (fun kv : (text * text) * Rollup.t =>
    if decide (kv.1.1 = issue_id) then ReleaseEvidence.Mk kv.1.2 <$> Tables.releases db !! kv.1.2 else None)
    (map_to_list (Tables.issue_releases db)).
Definition evidence_of (issue_id : text) (db : Tables.t) : list ReleaseEvidence.t := sort evidence_leb (evidence_rows issue_id db).
Definition load_release_chronology (issue_id : text) : itx ReleaseChronology.t :=
  select database_unavailable (fun db => release_chronology (evidence_of issue_id db)).

Definition update_issue_chronology (issue_id : text) (c : ReleaseChronology.t) (s : Status.t) (r : Regression.t) : itx () :=
  updated ← update_issue issue_id (Issue.set_chronology (ReleaseChronology.first c) (ReleaseChronology.last c) s r);
  updated_or issue_missing updated.

(** [update_issue_transitions]: the state of an issue after its releases changed. *)
Definition next_transition (i : Issue.t) (c : ReleaseChronology.t) (resolution_timestamp : option Z) : Status.t * Regression.t :=
  let later := ReleaseChronology.valid c
    && match resolution_timestamp, ReleaseChronology.last_timestamp c with
       | Some resolved, Some latest => (resolved <? latest)%Z
       | _, _ => false
       end in
  match Issue.status i, Issue.resolved_in i with
  | Status.Resolved, _ => if later then (Status.Open, Regression.Regressed) else (Status.Resolved, Regression.Resolved)
  | Status.Open, Some _ => if later then (Status.Open, Regression.Regressed) else (Status.Open, Regression.Unknown)
  | Status.Open, None =>
      if negb (ReleaseChronology.valid c) then (Status.Open, Regression.Unknown)
      else if (ReleaseChronology.release_count c =? 1)%nat then (Status.Open, Regression.New)
      else (Status.Open, Regression.Ongoing)
  end.
Definition update_issue_transitions (issue_id : text) (transitions_enabled : bool) : itx () :=
  row ← select database_unavailable (fun db => Tables.issues db !! issue_id);
  issue ← lift (ok_or issue_missing row);
  chronology ← load_release_chronology issue_id;
  if negb transitions_enabled
  then update_issue_chronology issue_id chronology (Issue.status issue) (Issue.regression issue)
  else
    resolution_timestamp ← match Issue.resolved_in issue with
      | Some (release_id, _) => select database_unavailable (fun db => mjoin (Tables.releases db !! release_id))
      | None => mret None
      end;
    let '(status, regression) := next_transition issue chronology resolution_timestamp in
    update_issue_chronology issue_id chronology status regression.

(** The part of [publish_crash_result] that concerns issues, in the order of its statements. *)
Definition publish_grouping (random : option text) (grouping_enabled : bool) (event_id : text)
    (release : ReleaseResolution.t) (grouping : GroupingPublication.t) : itx (option text) :=
  existing ← lock_event event_id;
  _ ← record_release_mapping event_id release;
  assignment ← apply_grouping random event_id existing grouping;
  match assignment with
  | Some assignment =>
      rollup_changed ← apply_release_delta event_id assignment (ReleaseResolution.matched_id release);
      _ ← (if rollup_changed : bool then update_issue_transitions (GroupingAssignment.issue_id assignment) grouping_enabled else mret ());
      mret (Some (GroupingAssignment.issue_id assignment))
  | None => mret None
  end.

(** * Repair *)

(** [refresh_issue_memberships]: the rows of an issue, from its crashes. *)
Definition groups (issue_id : text) (key_of : Event.t -> option text) (p : text * text -> Event.t -> bool) (db : Tables.t)
    : gmap (text * text) Rollup.t :=
  let keys := dedup (sort text_leb (omap (fun kv : text * Event.t => if in_issue issue_id kv.2 then key_of kv.2 else None)
                                      (map_to_list (Tables.events db)))) in
  list_to_map (omap (fun k => (fun r => ((issue_id, k), r)) <$> rollup_of (members (p (issue_id, k)) db)) keys).
Definition without_issue (issue_id : text) (t : gmap (text * text) Rollup.t) : gmap (text * text) Rollup.t :=
  filter (fun kv : (text * text) * Rollup.t => kv.1.1 <> issue_id) t.
Definition refresh_issue_memberships (issue_id : text) : itx () :=
  _ ← execute database_unavailable (Tables.set_variants (without_issue issue_id));
  _ ← execute database_unavailable (fun db => Tables.set_variants (union (groups issue_id Event.variant in_variant db)) db);
  _ ← execute database_unavailable (Tables.set_issue_releases (without_issue issue_id));
  _ ← execute database_unavailable (fun db => Tables.set_issue_releases (union (groups issue_id Event.release_id in_release db)) db);
  updated ← statement database_unavailable (fun db =>
    match rollup_of (members (in_issue issue_id) db), Tables.issues db !! issue_id with
    | Some r, Some i => Ok (true, Tables.set_issues <[issue_id := Issue.set_rollup r i]> db)
    | _, _ => Ok (false, db)
    end);
  updated_or issue_missing updated.

(** [repair_issue], run by an operator. *)
Inductive RepairIssueError : Type := InvalidIdentifier | RepairNotFound | Database.
Module RepairIssueReport.
Record t : Type := Mk { events : Z; variants : Z; releases : Z }.
End RepairIssueReport.
Definition map_repair_error (e : JobError) : RepairIssueError :=
  match e with
  | Deterministic code => if decide (code = txt "issue_missing") then RepairNotFound else Database
  | _ => Database
  end.
Definition rows_of (issue_id : text) (t : gmap (text * text) Rollup.t) : Z :=
  Z.of_nat (length (filter (fun kv : (text * text) * Rollup.t => kv.1.1 = issue_id) (map_to_list t))).
Definition repair_statements (issue_id : text) : tx Tables.t RepairIssueError RepairIssueReport.t :=
  found ← select Database (fun db => is_none (Tables.issues db !! issue_id));
  _ ← lift (fail_if found RepairNotFound);
  _ ← map_error map_repair_error (refresh_issue_memberships issue_id);
  _ ← map_error map_repair_error (update_issue_transitions issue_id true);
  row ← select Database (fun db =>
    (fun i => {| RepairIssueReport.events := Rollup.event_count (Issue.rollup i);
                 RepairIssueReport.variants := rows_of issue_id (Tables.variants db);
                 RepairIssueReport.releases := rows_of issue_id (Tables.issue_releases db) |})
    <$> Tables.issues db !! issue_id);
  lift (ok_or Database row).
Definition repair_issue (organization_id project_id issue_id : text) : tx Tables.t RepairIssueError RepairIssueReport.t :=
  _ ← lift (fail_if (negb (valid_uuid organization_id) || negb (valid_uuid project_id) || negb (valid_uuid issue_id)) InvalidIdentifier);
  transaction Database (repair_statements issue_id).
