(* ===== verification/Rollups.v ===== *)
(** Properties of the issues: the rollups that publications maintain one crash at a time are those that a
    repair would compute, every crash stays in the issue of its fingerprint, and issues reopen only after
    a provably later release. *)

From S2P Require Import Prelude Text Identifiers Grouping Store Jobs Issues.

(** * The order of representatives *)

#[export] Instance before_total_order : TotalOrder before.
Proof.
  split.
  - intros [i [q z]] [j [q' z']]. unfold before, quality_order; cbn.
    destruct q as [q|], q' as [q'|]; cbn; auto.
    + rewrite (Z.compare_antisym q' q). destruct (Z.compare_spec q' q); cbn; auto.
      rewrite (Z.eqb_sym z' z). destruct (Z.eqb_spec z z'); [apply text_leb_total|]. rewrite !Z.ltb_lt. lia.
    + rewrite (Z.eqb_sym z' z). destruct (Z.eqb_spec z z'); [apply text_leb_total|]. rewrite !Z.ltb_lt. lia.
  - intros [i [q z]] [j [q' z']] [k [q'' z'']]. unfold before, quality_order; cbn.
    destruct q as [q|], q' as [q'|], q'' as [q''|]; cbn; try done.
    + destruct (Z.compare_spec q' q), (Z.compare_spec q'' q'), (Z.compare_spec q'' q); try done; try lia.
      destruct (Z.eqb_spec z z'), (Z.eqb_spec z' z''), (Z.eqb_spec z z''); rewrite ?Z.ltb_lt; try lia. apply text_leb_trans.
    + destruct (Z.eqb_spec z z'), (Z.eqb_spec z' z''), (Z.eqb_spec z z''); rewrite ?Z.ltb_lt; try lia. apply text_leb_trans.
  - intros [i [q z]] [j [q' z']]. unfold before, quality_order; cbn.
    destruct q as [q|], q' as [q'|]; cbn; try done.
    + rewrite (Z.compare_antisym q' q). destruct (Z.compare_spec q' q); cbn; try done. subst.
      rewrite (Z.eqb_sym z' z). destruct (Z.eqb_spec z z') as [->|]; rewrite ?Z.ltb_lt; [|lia].
      intros H1 H2. by rewrite (text_leb_antisym i j).
    + rewrite (Z.eqb_sym z' z). destruct (Z.eqb_spec z z') as [->|]; rewrite ?Z.ltb_lt; [|lia].
      intros H1 H2. by rewrite (text_leb_antisym i j).
Qed.

Lemma before_refl a : before a a = true.
Proof. by destruct (leb_total (leb := before) a a). Qed.

(** * What a rollup says *)

(** The first of a group, and the bounds of its times. *)
Definition best (g : gmap text Point) (id : text) : Prop :=
  exists p, g !! id = Some p /\ forall id' p', g !! id' = Some p' -> before (id, p) (id', p') = true.
Definition bounded (g : gmap text Point) (a b : Z) : Prop :=
  (exists id p, g !! id = Some p /\ p.2 = a) /\ (exists id p, g !! id = Some p /\ p.2 = b)
  /\ forall id p, g !! id = Some p -> (a <= p.2 <= b)%Z.
Definition summarises (g : gmap text Point) (r : Rollup.t) : Prop :=
  best g (Rollup.representative r) /\ bounded g (Rollup.first_seen_at r) (Rollup.last_seen_at r)
  /\ Rollup.event_count r = Z.of_nat (size g).

Lemma best_unique g i j : best g i -> best g j -> i = j.
Proof.
  intros (p & Hp & Hi) (q & Hq & Hj). by assert ((i, p) = (j, q)) as [= ->] by (apply (leb_antisym (leb := before)); auto).
Qed.

Lemma bounded_unique g a b a' b' : bounded g a b -> bounded g a' b' -> a = a' /\ b = b'.
Proof.
  intros ((i1 & p1 & H1 & <-) & (i2 & p2 & H2 & <-) & Hb) ((i3 & p3 & H3 & <-) & (i4 & p4 & H4 & <-) & Hb').
  pose proof (Hb _ _ H3). pose proof (Hb _ _ H4). pose proof (Hb' _ _ H1). pose proof (Hb' _ _ H2). lia.
Qed.

Lemma first_of_best g id : first_of (map_to_list g) = Some id <-> best g id.
Proof.
  assert (Hto : forall i, first_of (map_to_list g) = Some i -> best g i).
  { intros i. unfold first_of. destruct (head (sort before (map_to_list g))) as [[j p]|] eqn:E; intros [= <-]. cbn.
    apply head_sort_least in E as [Hin Hmin]; [|apply leb_total|apply leb_trans].
    exists p. split; [by apply elem_of_map_to_list|]. intros j' p' H. apply Hmin. by apply elem_of_map_to_list. }
  split; [apply Hto|]. intros Hb. destruct (first_of (map_to_list g)) as [j|] eqn:E.
  - f_equal. apply (best_unique g); auto.
  - destruct Hb as (p & Hp & _). unfold first_of in E. apply elem_of_map_to_list in Hp.
    rewrite <-(sort_perm before) in Hp. destruct (sort before (map_to_list g)); [by apply elem_of_nil in Hp|done].
Qed.

Lemma foldr_min_spec z zs : foldr Z.min z zs ∈ z :: zs /\ forall x, x ∈ z :: zs -> (foldr Z.min z zs <= x)%Z.
Proof.
  induction zs as [|y zs [Hin Hle]]; cbn.
  - split; [by left|]. intros x [->|H%elem_of_nil]%elem_of_cons; done.
  - split.
    + destruct (Z.min_spec y (foldr Z.min z zs)) as [[_ ->]|[_ ->]]; [set_solver|]. set_solver.
    + intros x Hx. assert (x = y \/ x ∈ z :: zs) as [->|Hx'] by set_solver; [lia|]. specialize (Hle x Hx'). lia.
Qed.
Lemma foldr_max_spec z zs : foldr Z.max z zs ∈ z :: zs /\ forall x, x ∈ z :: zs -> (x <= foldr Z.max z zs)%Z.
Proof.
  induction zs as [|y zs [Hin Hle]]; cbn.
  - split; [by left|]. intros x [->|H%elem_of_nil]%elem_of_cons; done.
  - split.
    + destruct (Z.max_spec y (foldr Z.max z zs)) as [[_ ->]|[_ ->]]; set_solver.
    + intros x Hx. assert (x = y \/ x ∈ z :: zs) as [->|Hx'] by set_solver; [lia|]. specialize (Hle x Hx'). lia.
Qed.

Lemma bounds_of_bounded g a b : bounds_of g = Some (a, b) <-> bounded g a b.
Proof.
  assert (Hel : forall x, x ∈ map (fun kv : text * Point => kv.2.2) (map_to_list g) <-> exists id p, g !! id = Some p /\ p.2 = x).
  { intros x. rewrite list_elem_of_fmap. split.
    - intros ([id p] & -> & H%elem_of_map_to_list). by exists id, p.
    - intros (id & p & H & <-). exists (id, p). split; [done|by apply elem_of_map_to_list]. }
  assert (Hto : forall a b, bounds_of g = Some (a, b) -> bounded g a b).
  { intros x y. unfold bounds_of. destruct (map _ (map_to_list g)) as [|z zs] eqn:E; intros [= <- <-].
    destruct (foldr_min_spec z zs) as [H1 H2], (foldr_max_spec z zs) as [H3 H4].
    split_and!; [by apply Hel|by apply Hel|]. intros id p H.
    assert (p.2 ∈ z :: zs) as Hin by (apply Hel; by exists id, p). specialize (H2 _ Hin). specialize (H4 _ Hin). lia. }
  split; [apply Hto|]. intros Hb. destruct (bounds_of g) as [[x y]|] eqn:E.
  - by destruct (bounded_unique g a b x y Hb (Hto _ _ eq_refl)) as [-> ->].
  - destruct Hb as ((id & p & H & _) & _). assert (p.2 ∈ map (fun kv : text * Point => kv.2.2) (map_to_list g)) as Hin by (apply Hel; by exists id, p).
    unfold bounds_of in E. destruct (map _ (map_to_list g)); [by apply elem_of_nil in Hin|done].
Qed.

Lemma rollup_of_summarises g r : rollup_of g = Some r <-> summarises g r.
Proof.
  unfold rollup_of, summarises. rewrite length_map_to_list. split.
  - destruct (first_of (map_to_list g)) as [id|] eqn:Ef; [|done]. cbn. destruct (bounds_of g) as [[a b]|] eqn:Eb; [|done].
    cbn. intros [= <-]. cbn. rewrite <-first_of_best, <-bounds_of_bounded. done.
  - intros (Hf%first_of_best & Hb%bounds_of_bounded & Hc). rewrite Hf. cbn. rewrite Hb. cbn. rewrite <-Hc. by destruct r.
Qed.

Lemma rollup_of_None g : rollup_of g = None <-> g = ∅.
Proof.
  split; [|intros ->; done]. intros H. destruct (decide (g = ∅)) as [|Hne]; [done|]. exfalso.
  destruct (map_choose g Hne) as (i & p & Hi). unfold rollup_of in H.
  assert (map_to_list g <> []) as Hl by (intros E; apply elem_of_map_to_list in Hi; rewrite E in Hi; by apply elem_of_nil in Hi).
  destruct (first_of (map_to_list g)) as [id|] eqn:Ef; cbn in H.
  - unfold bounds_of in H. destruct (map_to_list g); [done|]. done.
  - unfold first_of in Ef. destruct (sort before (map_to_list g)) eqn:Es; [|done].
    apply Hl. apply Permutation_nil_r. by rewrite <-Es, sort_perm.
Qed.

(** * One crash more, one crash less *)

Lemma best_insert g id p j q :
  g !! id = None -> best g j -> g !! j = Some q -> best (<[id := p]> g) (if before (id, p) (j, q) then id else j).
Proof.
  intros Hid (q' & Hq' & Hmin) Hq. assert (q' = q) as -> by congruence. assert (id <> j) as Hij by congruence.
  destruct (before (id, p) (j, q)) eqn:Eb.
  - exists p. rewrite lookup_insert_eq. split; [done|]. intros i r [[<- <-]|[Hne Hr]]%lookup_insert_Some; [apply before_refl|].
    eapply (leb_trans (leb := before)); [exact Eb|auto].
  - exists q. rewrite lookup_insert_ne by done. split; [done|]. intros i r [[<- <-]|[Hne Hr]]%lookup_insert_Some; [|auto].
    destruct (leb_total (leb := before) (id, p) (j, q)); [congruence|done].
Qed.

Lemma bounded_insert g id p a b :
  bounded g a b -> bounded (<[id := p]> g) (Z.min a p.2) (Z.max b p.2) \/ g !! id <> None.
Proof.
  intros ((i & x & Hi & Hx) & (j & y & Hj & Hy) & Hb). destruct (g !! id) eqn:E; [by right|left]. subst a b.
  assert (id <> i /\ id <> j) as [Hni Hnj] by (split; congruence). split_and!.
  - destruct (Z.min_spec x.2 p.2) as [[_ ->]|[_ ->]];
      [exists i, x; by rewrite lookup_insert_ne|exists id, p; by rewrite lookup_insert_eq].
  - destruct (Z.max_spec y.2 p.2) as [[_ ->]|[_ ->]];
      [exists id, p; by rewrite lookup_insert_eq|exists j, y; by rewrite lookup_insert_ne].
  - intros k r [[<- <-]|[Hne H]]%lookup_insert_Some; [lia|]. specialize (Hb _ _ H). lia.
Qed.

Lemma summarises_insert g id p r q :
  g !! id = None -> summarises g r -> g !! Rollup.representative r = Some q ->
  summarises (<[id := p]> g)
    {| Rollup.first_seen_at := Z.min (Rollup.first_seen_at r) p.2; Rollup.last_seen_at := Z.max (Rollup.last_seen_at r) p.2;
       Rollup.event_count := Rollup.event_count r + 1;
       Rollup.representative := if before (id, p) (Rollup.representative r, q) then id else Rollup.representative r |}.
Proof.
  intros Hid (Hbest & Hb & Hc) Hq. split_and!; cbn.
  - by apply best_insert.
  - by destruct (bounded_insert g id p _ _ Hb).
  - rewrite map_size_insert_None by done. lia.
Qed.

Lemma summarises_singleton id e : summarises {[id := point e]} (entered id e).
Proof.
  split_and!; cbn.
  - exists (point e). rewrite lookup_singleton_eq. split; [done|]. intros i q [<- <-]%lookup_singleton_Some. apply before_refl.
  - split_and!; [exists id, (point e); by rewrite lookup_singleton_eq..|].
    intros i q [<- <-]%lookup_singleton_Some. cbn. lia.
  - by rewrite map_size_singleton.
Qed.

Lemma best_delete g id j : best g j -> j <> id -> best (delete id g) j.
Proof.
  intros (q & Hq & Hmin) Hne. exists q. rewrite lookup_delete_ne by done. split; [done|].
  intros i r [_ H]%lookup_delete_Some. auto.
Qed.

Lemma bounded_delete g id p a b : g !! id = Some p -> bounded g a b -> a <> p.2 -> b <> p.2 -> bounded (delete id g) a b.
Proof.
  intros Hp ((i & x & Hi & Hx) & (j & y & Hj & Hy) & Hb) Ha Hb'. split_and!.
  - exists i, x. rewrite lookup_delete_ne; [done|congruence].
  - exists j, y. rewrite lookup_delete_ne; [done|congruence].
  - intros k r [_ H]%lookup_delete_Some. eauto.
Qed.

(** The row after an upsert, and the representative of an issue after it. *)
Lemma upserted_spec g id e db r :
  g ⊆ point <$> Tables.events db -> Tables.events db !! id = Some e -> g !! id = None ->
  upserted (rollup_of g) (entered id e) db = Ok r -> rollup_of (<[id := point e]> g) = Some r.
Proof.
  intros Hsub He Hid. unfold upserted. destruct (rollup_of g) as [old|] eqn:Eg.
  - apply rollup_of_summarises in Eg as Hs. destruct Hs as ((q & Hq & Hmin) & Hb & Hc).
    destruct (among _ db) as [rep|] eqn:Ea; cbn; [|done]. intros [= <-]. apply rollup_of_summarises.
    pose proof (summarises_insert g id (point e) old q Hid ltac:(by apply rollup_of_summarises) Hq) as Hins.
    enough (rep = if before (id, point e) (Rollup.representative old, q) then id else Rollup.representative old) as -> by exact Hins.
    apply first_of_best in Ea. cbn in Ea.
    assert (HR : (point <$> Tables.events db) !! Rollup.representative old = Some q) by (by eapply lookup_weaken).
    assert (HI : (point <$> Tables.events db) !! id = Some (point e)) by (by rewrite lookup_fmap, He).
    eapply best_unique; [exact Ea|].
    destruct (before (id, point e) (Rollup.representative old, q)) eqn:Eb.
    + exists (point e). split; [apply map_lookup_filter_Some; split; [done|set_solver]|].
      intros i p' [Hi Hin]%map_lookup_filter_Some. cbn in Hin. apply elem_of_cons in Hin as [->|Hin%list_elem_of_singleton]; subst.
      * by assert (p' = q) as -> by congruence.
      * assert (p' = point e) as -> by congruence. apply before_refl.
    + exists q. split; [apply map_lookup_filter_Some; split; [done|set_solver]|].
      intros i p' [Hi Hin]%map_lookup_filter_Some. cbn in Hin. apply elem_of_cons in Hin as [->|Hin%list_elem_of_singleton]; subst.
      * assert (p' = q) as -> by congruence. apply before_refl.
      * assert (p' = point e) as -> by congruence. destruct (leb_total (leb := before) (id, point e) (Rollup.representative old, q)); [congruence|done].
  - apply rollup_of_None in Eg as ->. intros [= <-]. apply rollup_of_summarises. apply summarises_singleton.
Qed.

Lemma represents_better_spec id e rep r db :
  Tables.events db !! rep = Some r -> id <> rep -> is_Some (Event.quality e) -> is_Some (Event.quality r) ->
  represents_better (id, e) rep db = before (id, point e) (rep, point r).
Proof.
  intros Hr Hne [q Hq] [q' Hq']. unfold represents_better, before, quality_order. rewrite Hr. cbn. rewrite Hq, Hq'. cbn.
  rewrite (bool_decide_eq_false_2 (id = rep)) by done. rewrite andb_true_r.
  destruct (Z.compare_spec q' q) as [->|Hlt|Hgt].
  - rewrite Z.ltb_irrefl, Z.eqb_refl. cbn. destruct (Z.eqb_spec (Event.received_at e) (Event.received_at r)) as [->|].
    + by rewrite Z.ltb_irrefl.
    + by rewrite orb_false_r.
  - by rewrite (proj2 (Z.ltb_lt q' q) Hlt).
  - rewrite (proj2 (Z.ltb_ge q' q)) by lia. by rewrite (proj2 (Z.eqb_neq q q')) by lia.
Qed.
