(* ===== verification/Publications.v ===== *)
(** The tables of issues through publications, repairs, resolutions and new crashes: the rollups always
    are the aggregates of the crashes, a crash stays in the only issue of its fingerprint, and a repair of
    tables that were kept finds nothing to repair. *)

From S2P Require Import Prelude Text Identifiers Grouping Store Jobs Issues Rollups.

(** * The invariant *)

(** The issue and release in which a crash is counted. *)
Definition rel (e : Event.t) : option (text * text) := i ← Event.issue_id e; r ← Event.release_id e; Some (i, r).

Lemma in_release_rel k e : in_release k e = bool_decide (rel e = Some k).
Proof.
  unfold in_release, in_issue, rel. destruct k as [i r]; cbn. destruct (Event.issue_id e) as [j|]; cbn; [|done].
  destruct (Event.release_id e) as [s|]; cbn; [|by rewrite andb_false_r].
  rewrite <-bool_decide_and. apply bool_decide_ext. naive_solver.
Qed.

(** The rollups of the issues and their variants, and the identity of the issues. *)
Record core (db : Tables.t) : Prop := Core {
  core_issues : forall i, Issue.rollup <$> Tables.issues db !! i = rollup_of (members (in_issue i) db);
  core_variants : forall k, Tables.variants db !! k = rollup_of (members (in_variant k) db);
  core_fingerprints : forall id e i f v q, Tables.events db !! id = Some e -> Event.grouping e = EventGrouping.Grouped i f v q ->
    exists r, Tables.issues db !! i = Some r /\ has_fingerprint f r = true;
  core_unique : forall i j r s f, Tables.issues db !! i = Some r -> Tables.issues db !! j = Some s ->
    has_fingerprint f r = true -> has_fingerprint f s = true -> i = j }.
Definition follows (g : text * text -> gmap text Point) (db : Tables.t) : Prop :=
  forall k, Tables.issue_releases db !! k = rollup_of (g k).
Definition consistent (db : Tables.t) : Prop := core db /\ follows (fun k => members (in_release k) db) db.

Lemma members_insert p db id e :
  members p (Tables.set_events <[id := e]> db) = if p e then <[id := point e]> (members p db) else delete id (members p db).
Proof.
  unfold members; cbn. rewrite map_filter_insert. cbn. destruct (p e) eqn:Ep.
  - rewrite decide_True by done. by rewrite fmap_insert.
  - rewrite decide_False by congruence. by rewrite map_filter_delete, fmap_delete.
Qed.

Lemma members_Some p db id q :
  members p db !! id = Some q <-> exists e, Tables.events db !! id = Some e /\ p e = true /\ point e = q.
Proof.
  unfold members. rewrite lookup_fmap_Some. setoid_rewrite map_lookup_filter_Some. naive_solver.
Qed.
Lemma members_in p db id e : Tables.events db !! id = Some e -> p e = true -> members p db !! id = Some (point e).
Proof. intros. apply members_Some. by exists e. Qed.
Lemma members_out p db id e : Tables.events db !! id = Some e -> p e = false -> members p db !! id = None.
Proof.
  intros He Hp. destruct (members p db !! id) as [q|] eqn:E; [|done]. apply members_Some in E as (e' & He' & Hp' & _). congruence.
Qed.
Lemma members_sub p db : members p db ⊆ point <$> Tables.events db.
Proof. unfold members. apply map_fmap_mono, map_filter_subseteq. Qed.

(** A change of a crash that a group does not see. *)
Lemma members_same p db id e e' :
  Tables.events db !! id = Some e -> p e' = p e -> point e' = point e ->
  members p (Tables.set_events <[id := e']> db) = members p db.
Proof.
  intros He Hp Hpt. rewrite members_insert, Hp, Hpt. destruct (p e) eqn:E.
  - by apply insert_id, members_in.
  - by eapply delete_id, members_out.
Qed.

Lemma core_same db id e e' :
  core db -> Tables.events db !! id = Some e -> Event.grouping e' = Event.grouping e -> Event.received_at e' = Event.received_at e ->
  core (Tables.set_events <[id := e']> db).
Proof.
  intros [Hi Hv Hf Hu] He Hg Ht.
  assert (Event.issue_id e' = Event.issue_id e /\ Event.variant e' = Event.variant e /\ point e' = point e) as (Hi' & Hv' & Hp).
  { unfold point, Event.issue_id, Event.variant, Event.quality. by rewrite Hg, Ht. }
  split; [intros i|intros k| |done].
  - rewrite (members_same _ _ _ e); [apply Hi|done| |done]. unfold in_issue. by rewrite Hi'.
  - rewrite (members_same _ _ _ e); [apply Hv|done| |done]. unfold in_variant, in_issue. by rewrite Hi', Hv'.
  - cbn. intros id' e1 i f v q [[<- <-]|[Hne H1]]%lookup_insert_Some Hg1; [|by eapply Hf]. rewrite Hg in Hg1. by eapply Hf.
Qed.

(** A change of the columns of an issue that are not its rollup nor its identity. *)
Definition same_identity (f : Issue.t -> Issue.t) : Prop :=
  forall i, Issue.rollup (f i) = Issue.rollup i /\ forall fp, has_fingerprint fp (f i) = has_fingerprint fp i.

Lemma core_issue_change db i r f :
  core db -> Tables.issues db !! i = Some r -> same_identity f -> core (Tables.set_issues <[i := f r]> db).
Proof.
  intros [Hi Hv Hf Hu] Hr Hs. destruct (Hs r) as [Hsr Hsf]. split; cbn; [|done| |].
  - intros j. destruct (decide (j = i)) as [->|Hne]; [|by rewrite lookup_insert_ne by done; apply Hi].
    rewrite lookup_insert_eq. cbn. rewrite Hsr. specialize (Hi i). by rewrite Hr in Hi.
  - intros id e j fp v q He Hg. destruct (Hf _ _ _ _ _ _ He Hg) as (s & Hsi & Hfp).
    destruct (decide (j = i)) as [->|Hne]; [|exists s; by rewrite lookup_insert_ne by done].
    exists (f r). rewrite lookup_insert_eq, Hsf. split; [done|congruence].
  - intros j j' s s' fp H1 H2 H3 H4.
    assert (Hback : forall j s, <[i := f r]> (Tables.issues db) !! j = Some s -> has_fingerprint fp s = true ->
              exists t, Tables.issues db !! j = Some t /\ has_fingerprint fp t = true).
    { intros k t [[<- <-]|[_ Ht]]%lookup_insert_Some Hfp; [exists r; by rewrite <-Hsf|by exists t]. }
    destruct (Hback _ _ H1 H3) as (t & Ht & Htf), (Hback _ _ H2 H4) as (t' & Ht' & Htf'). by eapply Hu.
Qed.

Lemma update_issue_consistent i f db b db' :
  same_identity f -> consistent db -> yields (update_issue i f) db b db' -> consistent db'.
Proof.
  intros Hs [Hc Hr] H. unfold update_issue in H. runs. destruct (Tables.issues db !! i) as [r|] eqn:E; simplify_eq; [|done].
  split; [by apply core_issue_change|apply Hr].
Qed.

Lemma set_chronology_identity a b s r : same_identity (Issue.set_chronology a b s r).
Proof. done. Qed.
Lemma set_resolution_identity s r x : same_identity (Issue.set_resolution s r x).
Proof. done. Qed.

Lemma update_issue_transitions_consistent i enabled db u db' :
  consistent db -> yields (update_issue_transitions i enabled) db u db' -> consistent db'.
Proof.
  intros Hc H. unfold update_issue_transitions, load_release_chronology in H. runs.
  assert (Hend : forall c s r db u db', consistent db -> yields (update_issue_chronology i c s r) db u db' -> consistent db').
  { intros c s r d v d' Hd Hy. unfold update_issue_chronology, updated_or in Hy. runs.
    eapply update_issue_consistent; [apply set_chronology_identity|done|done]. }
  destruct (negb enabled); [by eapply Hend|]. runs.
  match goal with H : yields (match Issue.resolved_in _ with _ => _ end) _ _ _ |- _ => destruct (Issue.resolved_in _) as [[]|]; runs end;
    destruct (next_transition _ _ _); by eapply Hend.
Qed.

(** * One publication *)

(** The releases still follow the crash as it was, [e0], while it is [e] already. *)
Definition behind (id : text) (e0 e : Event.t) (db : Tables.t) : Prop :=
  core db /\ Tables.events db !! id = Some e
  /\ follows (fun k => members (in_release k) (Tables.set_events <[id := e0]> db)) db.
(** The releases follow every crash but this one. *)
Definition without (id : text) (e : Event.t) (db : Tables.t) : Prop :=
  core db /\ Tables.events db !! id = Some e /\ follows (fun k => delete id (members (in_release k) db)) db.

Lemma consistent_behind id e db : consistent db -> Tables.events db !! id = Some e -> behind id e e db.
Proof. intros [Hc Hr] He. split_and!; [done..|]. intros k. by rewrite (members_same _ _ _ e). Qed.

Lemma behind_consistent id e0 e db : behind id e0 e db -> rel e0 = rel e -> point e0 = point e -> consistent db.
Proof.
  intros (Hc & He & Hr) Hrel Hp. split; [done|]. intros k. rewrite Hr.
  by rewrite (members_same _ _ _ e) by (rewrite ?in_release_rel; by rewrite ?Hrel).
Qed.

Lemma behind_without id e0 e db : behind id e0 e db -> rel e0 = None -> without id e db.
Proof.
  intros (Hc & He & Hr) Hrel. split_and!; [done..|]. intros k. rewrite Hr, members_insert, in_release_rel, Hrel. done.
Qed.

Lemma without_consistent id e db : without id e db -> rel e = None -> consistent db.
Proof.
  intros (Hc & He & Hr) Hrel. split; [done|]. intros k. rewrite Hr, delete_id; [done|].
  eapply members_out; [done|]. by rewrite in_release_rel, Hrel.
Qed.

Lemma lock_event_spec id db x db' :
  yields (lock_event id) db x db' ->
  db' = db /\ exists e, Tables.events db !! id = Some e /\ ExistingGrouping.state x = EventGrouping.state (Event.grouping e)
    /\ ExistingGrouping.issue_id x = Event.issue_id e /\ ExistingGrouping.release_id x = Event.release_id e
    /\ ExistingGrouping.received_at x = Event.received_at e.
Proof. intros H. unfold lock_event in H. runs. eauto 10. Qed.

Lemma record_release_mapping_spec id release e db u db' :
  Tables.events db !! id = Some e -> yields (record_release_mapping id release) db u db' ->
  db' = Tables.set_events <[id := Event.set_mapping (ReleaseResolution.state release) e]> db
  /\ release_exists (ReleaseResolution.state release) db = true.
Proof.
  intros He H. unfold record_release_mapping, updated_or in H. runs.
  match goal with Hif : yields (match ?b with _ => _ end) _ _ ?s |- _ =>
    assert (s = db) as -> by (destruct b; runs; done) end.
  rewrite He in *. destruct (release_exists _ db) eqn:E; [|done]. by simplify_eq.
Qed.

Lemma core_ungrouped db id e g :
  core db -> Tables.events db !! id = Some e -> Event.grouped e = false -> Event.grouped (Event.set_grouping g e) = false ->
  core (Tables.set_events <[id := Event.set_grouping g e]> db).
Proof.
  intros [Hi Hv Hf Hu] He Hg Hg'.
  assert (forall x, Event.grouped x = false -> Event.issue_id x = None /\ Event.variant x = None /\ Event.quality x = None) as Hnone.
  { intros x Hx. unfold Event.grouped, Event.issue_id, Event.variant, Event.quality in *. by destruct (Event.grouping x). }
  destruct (Hnone _ Hg) as (H1 & H2 & H3), (Hnone _ Hg') as (H1' & H2' & H3').
  assert (point (Event.set_grouping g e) = point e) as Hp by (unfold point; by rewrite H3, H3').
  split; [intros i|intros k| |done].
  - rewrite (members_same _ _ _ e); [apply Hi|done| |done]. unfold in_issue. by rewrite H1, H1'.
  - rewrite (members_same _ _ _ e); [apply Hv|done| |done]. unfold in_variant, in_issue. by rewrite H1, H1'.
  - cbn. intros id' e1 i f v q [[<- <-]|[Hne Hl]]%lookup_insert_Some Hg1; [|by eapply Hf].
    unfold Event.issue_id in H1'. by rewrite Hg1 in H1'.
Qed.

Lemma ungrouped_consistent db id e g :
  consistent db -> Tables.events db !! id = Some e -> Event.grouped e = false -> Event.grouped (Event.set_grouping g e) = false ->
  consistent (Tables.set_events <[id := Event.set_grouping g e]> db).
Proof.
  intros [Hc Hr] He Hg Hg'. split; [by apply core_ungrouped|]. intros k. cbn.
  assert (forall x, Event.grouped x = false -> Event.issue_id x = None /\ Event.quality x = None) as Hnone.
  { intros x Hx. unfold Event.grouped, Event.issue_id, Event.quality in *. by destruct (Event.grouping x). }
  destruct (Hnone _ Hg) as (H1 & H2), (Hnone _ Hg') as (H1' & H2').
  rewrite (members_same _ _ _ e); [apply Hr|done| |].
  - unfold in_release, in_issue. by rewrite H1, H1'.
  - unfold point. by rewrite H2, H2'.
Qed.

(** A crash that was in no issue enters one, and the rows of the issue and of the variant count it. *)
Lemma core_assigned db id e j fp v q r s rels stamps :
  let e' := Event.set_grouping (EventGrouping.Grouped j fp v q) e in
  core db -> Tables.events db !! id = Some e -> Event.grouped e = false ->
  rollup_of (<[id := point e']> (members (in_issue j) db)) = Some (Issue.rollup r) ->
  rollup_of (<[id := point e']> (members (in_variant (j, v)) db)) = Some s ->
  has_fingerprint fp r = true ->
  (forall i t, Tables.issues db !! i = Some t -> has_fingerprint fp t = true -> i = j) ->
  (forall t g, Tables.issues db !! j = Some t -> has_fingerprint g t = has_fingerprint g r) ->
  core {| Tables.events := <[id := e']> (Tables.events db); Tables.issues := <[j := r]> (Tables.issues db);
          Tables.variants := <[(j, v) := s]> (Tables.variants db); Tables.issue_releases := rels; Tables.releases := stamps |}.
Proof.
  intros e' [Hi Hv Hf Hu] He Hg Hroll Hvar Hfp Hjs Hjt. set (db' := Tables.Mk _ _ _ _ _).
  assert (Event.issue_id e = None) as Hnone by (unfold Event.grouped in Hg; by destruct (Event.issue_id e)).
  assert (Hm : forall p, members p db' = members p (Tables.set_events <[id := e']> db)) by done.
  assert (Hout : forall p, p e = false -> p e' = false -> members p db' = members p db).
  { intros p H1 H2. rewrite Hm, members_insert, H2. by eapply delete_id, members_out. }
  assert (Hissue : forall i, in_issue i e = false) by (intros i; unfold in_issue; by rewrite Hnone).
  split.
  - intros i. cbn. destruct (decide (i = j)) as [->|Hne].
    + rewrite lookup_insert_eq, Hm, members_insert. unfold in_issue at 1. cbn. by rewrite bool_decide_eq_true_2, <-Hroll by done.
    + rewrite lookup_insert_ne, Hout by (done || apply Hissue || (apply bool_decide_eq_false_2; cbn; congruence)). apply Hi.
  - intros k. cbn. destruct (decide (k = (j, v))) as [->|Hne].
    + rewrite lookup_insert_eq, Hm, members_insert. unfold in_variant at 1, in_issue at 1. cbn.
      by rewrite !bool_decide_eq_true_2, <-Hvar by done.
    + rewrite lookup_insert_ne, Hout; [apply Hv| | |done].
      * unfold in_variant. by rewrite Hissue.
      * unfold in_variant, in_issue. cbn. rewrite <-bool_decide_and. apply bool_decide_eq_false_2.
        intros [[= E1] [= E2]]. apply Hne. rewrite (surjective_pairing k). by rewrite <-E1, <-E2.
  - cbn. intros id' e1 i g v' q' [[<- <-]|[Hne H1]]%lookup_insert_Some Hg1.
    + cbn in Hg1. simplify_eq. exists r. by rewrite lookup_insert_eq.
    + destruct (Hf _ _ _ _ _ _ H1 Hg1) as (t & Ht & Htf). destruct (decide (i = j)) as [->|Hij].
      * exists r. rewrite lookup_insert_eq. split; [done|]. by rewrite <-(Hjt t).
      * exists t. by rewrite lookup_insert_ne.
  - cbn. assert (Hall : forall i t g, <[j := r]> (Tables.issues db) !! i = Some t -> has_fingerprint g t = true ->
                  (i = j /\ has_fingerprint g r = true) \/ (i <> j /\ Tables.issues db !! i = Some t)).
    { intros i t g [[<- <-]|[Hne Ht]]%lookup_insert_Some Hg'; auto. }
    assert (Hsame : forall g, has_fingerprint g r = true -> g = fp).
    { intros g. unfold has_fingerprint in *. rewrite !andb_true_iff, !bool_decide_eq_true in *. naive_solver. }
    intros i i' t t' g H1 H2 H3 H4.
    destruct (Hall _ _ _ H1 H3) as [[-> Hr]|[Hne Ht]], (Hall _ _ _ H2 H4) as [[-> Hr']|[Hne' Ht']]; [done| | |by eapply Hu].
    + rewrite (Hsame g Hr) in *. by rewrite (Hjs _ _ Ht' H4).
    + rewrite (Hsame g Hr') in *. by rewrite (Hjs _ _ Ht H3).
Qed.

Lemma issue_with_Some fp db j : issue_with fp db = Some j -> exists r, Tables.issues db !! j = Some r /\ has_fingerprint fp r = true.
Proof.
  unfold issue_with. destruct (filter _ _) as [|[i r] l] eqn:E; [done|]. intros [= <-].
  assert ((i, r) ∈ filter (fun kv => has_fingerprint fp kv.2 = true) (map_to_list (Tables.issues db))) as Hin by (rewrite E; by left).
  apply list_elem_of_filter in Hin as [Hf Hin%elem_of_map_to_list]. by exists r.
Qed.
Lemma issue_with_None fp db j r : issue_with fp db = None -> Tables.issues db !! j = Some r -> has_fingerprint fp r = false.
Proof.
  unfold issue_with. intros Hn Hr%elem_of_map_to_list. destruct (has_fingerprint fp r) eqn:E; [|done].
  assert ((j, r) ∈ filter (fun kv => has_fingerprint fp kv.2 = true) (map_to_list (Tables.issues db))) as Hin by (by apply list_elem_of_filter).
  destruct (filter _ _); [by apply elem_of_nil in Hin|done].
Qed.

Lemma members_sub_insert p db id e : members p db !! id = None -> members p db ⊆ point <$> <[id := e]> (Tables.events db).
Proof. intros Hn. rewrite fmap_insert. by apply insert_subseteq_r, members_sub. Qed.

Lemma enter_issue_spec db id j e' b db' :
  (forall i, Issue.rollup <$> Tables.issues db !! i = rollup_of (members (in_issue i) db)) ->
  members (in_issue j) db !! id = None -> is_Some (Event.quality e') ->
  yields (enter_issue id j) (Tables.set_events <[id := e']> db) b db' -> b = true ->
  exists r R, Tables.issues db !! j = Some r /\ rollup_of (<[id := point e']> (members (in_issue j) db)) = Some R
    /\ db' = Tables.set_issues <[j := Issue.set_rollup R r]> (Tables.set_events <[id := e']> db).
Proof.
  intros Hi Hout Hq H ->. unfold enter_issue in H. runs. cbn in *. rewrite lookup_insert_eq in H.
  destruct (Tables.issues db !! j) as [r|] eqn:Er; simplify_eq. eexists r, _. split; [done|]. split; [|done].
  specialize (Hi j). rewrite Er in Hi. symmetry in Hi. apply rollup_of_summarises in Hi as Hs.
  destruct Hs as ((q & Hrep & _) & _). apply rollup_of_summarises.
  pose proof (summarises_insert _ id (point e') _ q Hout (proj1 (rollup_of_summarises _ _) Hi) Hrep) as Hins.
  apply members_Some in Hrep as (er & Her & Hin & <-).
  assert (id <> Rollup.representative (Issue.rollup r)) as Hne.
  { intros ->. erewrite members_in in Hout; done. }
  rewrite (represents_better_spec id e' _ er) by
    (cbn; rewrite ?lookup_insert_ne; try done; unfold in_issue, Event.issue_id, Event.quality in *; destruct (Event.grouping er); done).
  exact Hins.
Qed.

Lemma enter_variant_spec db0 db id e j fp v q b db' :
  Event.grouping e = EventGrouping.Grouped j fp v q ->
  Tables.events db = <[id := e]> (Tables.events db0) -> Tables.variants db = Tables.variants db0 ->
  (forall k, Tables.variants db0 !! k = rollup_of (members (in_variant k) db0)) ->
  members (in_variant (j, v)) db0 !! id = None ->
  yields (enter_variant id) db b db' ->
  exists s, rollup_of (<[id := point e]> (members (in_variant (j, v)) db0)) = Some s
    /\ db' = Tables.set_variants <[(j, v) := s]> db.
Proof.
  intros Hg Hev Hvar Hv Hout H. unfold enter_variant in H. runs. rewrite Hev, lookup_insert_eq in H.
  unfold Event.issue_id, Event.variant in H. rewrite Hg in H. cbn in H.
  destruct (upserted (Tables.variants db !! (j, v)) (entered id e) db) as [s|] eqn:Eu; [|done]. cbn in H. simplify_eq.
  exists s. split; [|done]. rewrite Hvar, Hv in Eu. eapply upserted_spec; [|by rewrite Hev, lookup_insert_eq|done|exact Eu].
  rewrite Hev. by apply members_sub_insert.
Qed.

Lemma behind_assigned db id e j fp v q r s :
  let e' := Event.set_grouping (EventGrouping.Grouped j fp v q) e in
  consistent db -> Tables.events db !! id = Some e -> Event.grouped e = false ->
  rollup_of (<[id := point e']> (members (in_issue j) db)) = Some (Issue.rollup r) ->
  rollup_of (<[id := point e']> (members (in_variant (j, v)) db)) = Some s ->
  has_fingerprint fp r = true ->
  (forall i t, Tables.issues db !! i = Some t -> has_fingerprint fp t = true -> i = j) ->
  (forall t g, Tables.issues db !! j = Some t -> has_fingerprint g t = has_fingerprint g r) ->
  behind id e e' {| Tables.events := <[id := e']> (Tables.events db); Tables.issues := <[j := r]> (Tables.issues db);
    Tables.variants := <[(j, v) := s]> (Tables.variants db); Tables.issue_releases := Tables.issue_releases db;
    Tables.releases := Tables.releases db |}.
Proof.
  intros e' [Hc Hr] He Hg. intros. split_and!; [by apply core_assigned|by cbn; rewrite lookup_insert_eq|].
  intros k. cbn. rewrite Hr. f_equal. unfold members. cbn. by rewrite insert_insert_eq, insert_id.
Qed.

Lemma assign_issue_spec random id f at_ e db a db' :
  consistent db -> Tables.events db !! id = Some e -> Event.grouped e = false ->
  yields (assign_issue random id f at_) db a db' ->
  exists j, a = Some {| GroupingAssignment.issue_id := j; GroupingAssignment.first_assignment := true;
                           GroupingAssignment.previous_release_id := None; GroupingAssignment.received_at := at_ |}
    /\ behind id e (Event.set_grouping (EventGrouping.Grouped j (Fingerprint.issue_fingerprint f)
                       (Fingerprint.variant_fingerprint f) (Fingerprint.grouping_quality f)) e) db'.
Proof.
  intros [Hc Hr] He Hg H. unfold assign_issue, insert_issue, update_event, updated_or in H. runs.
  rewrite He in *. set (fp := Fingerprint.issue_fingerprint f) in *.
  assert (Hno : Event.issue_id e = None) by (unfold Event.grouped in Hg; by destruct (Event.issue_id e)).
  assert (Hout : forall p, p e = false -> members p db !! id = None) by (intros p; by eapply members_out).
  assert (Hoi : forall i, members (in_issue i) db !! id = None) by (intros i; apply Hout; unfold in_issue; by rewrite Hno).
  assert (Hov : forall k, members (in_variant k) db !! id = None) by (intros k; apply Hout; unfold in_variant, in_issue; by rewrite Hno).
  destruct (issue_with fp db) as [j|] eqn:Ew.
  - destruct (issue_with_Some _ _ _ Ew) as (r0 & Hr0 & Hfp).
    simplify_eq. runs. rewrite He, Hg in *. cbn in *. simplify_eq. runs. cbn in *. unfold updated_or in *. runs.
    eapply enter_issue_spec in H as (r & R & Er & HR & ->); [|apply Hc|done|done|by apply negb_false_iff].
    eapply (enter_variant_spec x2 _ id (Event.set_grouping (EventGrouping.Grouped j fp _ _) e)) in H0
      as (s & Hs & ->); [|reflexivity|reflexivity|reflexivity|apply Hc|done].
    exists j. split; [done|]. rewrite Er in Hr0. injection Hr0 as <-.
    apply (behind_assigned x2 id e j fp _ _ (Issue.set_rollup R r) s); [done|done|done|exact HR|exact Hs|done| |].
    + intros i t Ht Hft. by eapply (core_unique _ Hc).
    + intros t g Ht. by assert (t = r) as -> by congruence.
  - assert (Hnone : forall i t, Tables.issues db !! i = Some t -> has_fingerprint fp t = false) by (intros i t; by apply issue_with_None).
    match goal with H : (if is_none (Tables.issues _ !! ?x) then _ else _) = _ |- _ =>
      destruct (Tables.issues db !! x) eqn:Ej; cbn in H; simplify_eq end.
    runs. cbn in *. rewrite He, Hg in *. cbn in *. simplify_eq. runs. cbn in *. unfold updated_or in *. runs.
    eapply (enter_variant_spec db _ id (Event.set_grouping (EventGrouping.Grouped _ fp _ _) e)) in H0
      as (s & Hs & ->); [|reflexivity|reflexivity|reflexivity|apply Hc|done].
    eexists. split; [done|]. match goal with Ej : Tables.issues db !! ?j = None |- _ => rename j into i end.
    apply (behind_assigned db id e i fp _ _ (new_issue f id e) s); [done|done|done| |exact Hs| | |].
    + specialize (core_issues _ Hc i) as Hi. rewrite Ej in Hi. symmetry in Hi. apply rollup_of_None in Hi. rewrite Hi, insert_empty.
      apply rollup_of_summarises. exact (summarises_singleton id (Event.set_grouping (EventGrouping.Grouped i fp _ _) e)).
    + unfold has_fingerprint. cbn. by rewrite !bool_decide_eq_true_2.
    + intros k t Ht Hft. by rewrite (Hnone k t Ht) in Hft.
    + intros t g Ht. congruence.
Qed.

Lemma mapping_behind db id e m :
  consistent db -> Tables.events db !! id = Some e ->
  behind id e (Event.set_mapping m e) (Tables.set_events <[id := Event.set_mapping m e]> db).
Proof.
  intros [Hc Hr] He. split_and!; [by eapply core_same|by cbn; rewrite lookup_insert_eq|].
  intros k. cbn. rewrite Hr. f_equal. unfold members. cbn. by rewrite insert_insert_eq, insert_id.
Qed.

(** What [apply_grouping] leaves to be done for the releases. *)
Definition assigned (id : text) (m : Mapping.t) (a : GroupingAssignment.t) (db : Tables.t) : Prop :=
  exists e1 e, behind id e1 e db /\ Event.issue_id e = Some (GroupingAssignment.issue_id a) /\ Event.mapping e = m
  /\ if GroupingAssignment.first_assignment a then rel e1 = None
     else rel e1 = (fun r => (GroupingAssignment.issue_id a, r)) <$> GroupingAssignment.previous_release_id a
          /\ point e1 = point e /\ GroupingAssignment.received_at a = Event.received_at e.

Lemma apply_grouping_spec random id x g e0 m db a db' :
  consistent db -> Tables.events db !! id = Some e0 ->
  ExistingGrouping.state x = EventGrouping.state (Event.grouping e0) -> ExistingGrouping.issue_id x = Event.issue_id e0 ->
  ExistingGrouping.release_id x = Event.release_id e0 -> ExistingGrouping.received_at x = Event.received_at e0 ->
  yields (apply_grouping random id x g) (Tables.set_events <[id := Event.set_mapping m e0]> db) a db' ->
  match a with None => consistent db' | Some a => assigned id m a db' end.
Proof.
  intros Hcons He Hs Hi Hr Hat H. pose proof (mapping_behind db id e0 m Hcons He) as Hb.
  destruct (Event.issue_id e0) as [i|] eqn:Ei.
  - assert (ExistingGrouping.state x = txt "grouped") as Hst.
    { rewrite Hs. unfold Event.issue_id in Ei. by destruct (Event.grouping e0). }
    unfold apply_grouping in H. rewrite decide_True in H by done. runs. cbn.
    exists e0, (Event.set_mapping m e0). split_and!; [done|transitivity (Event.issue_id e0); [done|cbn; congruence]|done|]. cbn. split_and!; [|done|done].
    unfold rel. rewrite Ei. cbn. rewrite Hr. by destruct (Event.release_id e0).
  - assert (ExistingGrouping.state x <> txt "grouped") as Hst.
    { rewrite Hs. unfold Event.issue_id in Ei. by destruct (Event.grouping e0). }
    unfold apply_grouping in H. rewrite decide_False in H by done. set (d := Tables.set_events _ db) in *.
    assert (Hg : Event.grouped (Event.set_mapping m e0) = false) by (unfold Event.grouped; change (negb (is_none (Event.issue_id e0)) = false); by rewrite Ei).
    assert (Hd : Tables.events d !! id = Some (Event.set_mapping m e0)) by (unfold d; cbn; by rewrite lookup_insert_eq).
    assert (consistent d) as Hcd.
    { eapply behind_consistent; [exact Hb| |done]. unfold rel.
      change (Event.issue_id (Event.set_mapping m e0)) with (Event.issue_id e0). by rewrite Ei. }
    destruct g as [| |f].
    + unfold update_event, updated_or in H. runs. rewrite Hd in *. cbn in *. rewrite Hg in *. cbn in *. simplify_eq.
      by apply ungrouped_consistent.
    + unfold update_event, updated_or in H. runs. rewrite Hd in *. cbn in *. rewrite Hg in *. cbn in *. simplify_eq.
      by apply ungrouped_consistent.
    + eapply assign_issue_spec in H as (j & -> & Hbj); [|done..]. cbn. eexists _, _. split_and!; [exact Hbj|done|done|].
      cbn. unfold rel. change (Event.issue_id (Event.set_mapping m e0)) with (Event.issue_id e0). by rewrite Ei.
Qed.

(** The row of a release after one of its crashes left: what is kept is right, and the rest is read again. *)
Lemma left_row g id p r rep a b :
  g !! id = None -> summarises (<[id := p]> g) r ->
  (rep = Rollup.representative r /\ rep <> id \/ best g rep) ->
  ((a, b) = (Rollup.first_seen_at r, Rollup.last_seen_at r) /\ a <> p.2 /\ b <> p.2 \/ bounded g a b) ->
  summarises g (Rollup.Mk a b (Rollup.event_count r - 1) rep).
Proof.
  intros Hid (Hbest & Hb & Hc) Hrep Hab. assert (Hdel : delete id (<[id := p]> g) = g) by (by apply delete_insert_id).
  split_and!; cbn.
  - destruct Hrep as [[-> Hne]|Hr]; [|done]. rewrite <-Hdel. by apply best_delete.
  - destruct Hab as [([= -> ->] & Ha & Hb')|Hg]; [|done]. rewrite <-Hdel.
    eapply bounded_delete; [by rewrite lookup_insert_eq|done..].
  - rewrite Hc, map_size_insert_None by done. lia.
Qed.

Lemma release_left id e1 e db k db' :
  behind id e1 e db -> rel e1 = Some k ->
  Tables.events db' = Tables.events db -> Tables.issues db' = Tables.issues db -> Tables.variants db' = Tables.variants db ->
  (forall k', k' <> k -> Tables.issue_releases db' !! k' = Tables.issue_releases db !! k') ->
  Tables.issue_releases db' !! k = rollup_of (delete id (members (in_release k) db)) ->
  without id e db'.
Proof.
  intros ([Hi Hv Hf Hu] & He & Hr) Hrel Hev His Hva Hother Hk.
  assert (Hm : forall p, members p db' = members p db) by (intros p; unfold members; by rewrite Hev).
  split_and!; [split|by rewrite Hev|].
  - intros i. by rewrite His, Hm.
  - intros j. by rewrite Hva, Hm.
  - rewrite Hev, His. exact Hf.
  - rewrite His. exact Hu.
  - intros k'. cbn. rewrite Hm. destruct (decide (k' = k)) as [->|Hne]; [done|].
    rewrite Hother, Hr, members_insert, in_release_rel, Hrel by done. by rewrite bool_decide_eq_false_2 by congruence.
Qed.

Lemma remove_release_membership_spec id e1 e i r at_ db u db' :
  behind id e1 e db -> rel e1 = Some (i, r) -> rel e <> Some (i, r) -> point e1 = point e -> at_ = Event.received_at e ->
  yields (remove_release_membership id i r at_) db u db' -> without id e db'.
Proof.
  intros Hb Hr1 Hr Hp -> H. set (g := members (in_release (i, r)) db).
  assert (Hout : g !! id = None) by (eapply members_out; [apply Hb|]; rewrite in_release_rel; by apply bool_decide_eq_false_2).
  assert (Hrow : Tables.issue_releases db !! (i, r) = rollup_of (<[id := point e]> g)).
  { destruct Hb as (_ & _ & Hb). rewrite (Hb (i, r)), members_insert, in_release_rel, bool_decide_eq_true_2, Hp by done. done. }
  assert (Hend : forall f, (forall t k', k' <> (i, r) -> f t !! k' = t !! k') -> f (Tables.issue_releases db) !! (i, r) = rollup_of g ->
            without id e (Tables.set_issue_releases f db)).
  { intros f Hf Hg. eapply (release_left id e1 e db (i, r)); try done; cbn; [intros k' Hk'; by apply Hf|].
    rewrite Hg. f_equal. by rewrite delete_id. }
  unfold remove_release_membership, delete_single, decrement in H. runs.
  destruct (Tables.issue_releases db !! (i, r)) as [row|] eqn:Erow; simplify_eq; [|runs; rewrite Erow in *; by simplify_eq].
  symmetry in Hrow. apply rollup_of_summarises in Hrow as Hs. destruct (Z.eqb_spec (Rollup.event_count row) 1) as [E1|E1]; simplify_eq; runs.
  - apply Hend; [intros t k' Hk'; by rewrite lookup_delete_ne|]. rewrite lookup_delete_eq. symmetry. apply rollup_of_None.
    destruct Hs as (_ & _ & Hc). rewrite map_size_insert_None in Hc by done. apply map_size_empty_inv. lia.
  - rewrite Erow in *. destruct (1 <? Rollup.event_count row)%Z; simplify_eq. cbn in *.
    assert (Hrow' : forall f rep a b, Tables.issue_releases (Tables.set_issue_releases f x0) !! (i, r) = Some (Rollup.Mk a b (Rollup.event_count row - 1) rep) ->
      (forall t k', k' <> (i, r) -> f t !! k' = t !! k') ->
      (rep = Rollup.representative row /\ rep <> id \/ best g rep) ->
      ((a, b) = (Rollup.first_seen_at row, Rollup.last_seen_at row) /\ a <> Event.received_at e /\ b <> Event.received_at e \/ bounded g a b) ->
      without id e (Tables.set_issue_releases f x0)).
    { intros f rep a b Hf Hoth Hrep Hab. apply Hend; [done|]. cbn in Hf. rewrite Hf. symmetry. apply rollup_of_summarises.
      by apply (left_row g id (point e)). }
    assert (Hins : forall v w t k', k' <> (i, r) -> <[(i, r) := v]> (<[(i, r) := w]> t) !! k' = (t : gmap (text * text) Rollup.t) !! k')
      by (intros; by rewrite !lookup_insert_ne).
    destruct (bool_decide_reflect (Rollup.representative row = id)) as [Erep|Erep],
      (Z.eqb_spec (Rollup.first_seen_at row) (Event.received_at e)) as [E2|E2],
      (Z.eqb_spec (Rollup.last_seen_at row) (Event.received_at e)) as [E3|E3]; cbn in *; unfold updated_or in *; runs; cbn in *.
    all: try match goal with H : match <[_ := _]> _ !! _ with _ => _ end = Ok _ |- _ => rewrite lookup_insert_eq in H; cbn in H; simplify_eq end.
    all: try match goal with |- without _ _ (Tables.set_issue_releases ?f (Tables.set_issue_releases ?h _)) =>
      apply (Hrow' (fun t => f (h t)) _ _ _ ltac:(cbn; rewrite lookup_insert_eq; reflexivity) (Hins _ _)) end.
    all: try match goal with |- without _ _ (Tables.set_issue_releases ?f _) =>
      apply (Hrow' f _ _ _ ltac:(cbn; rewrite lookup_insert_eq; reflexivity)); [by intros; rewrite lookup_insert_ne|..] end.
    all: try solve [by right; apply first_of_best | by left | by left; split_and!
      | right; apply bounds_of_bounded; by match goal with b : Z * Z |- _ => destruct b end].
Qed.

Lemma add_release_membership_spec id e i r db u db' :
  without id e db -> rel e = Some (i, r) -> yields (add_release_membership id i r) db u db' -> consistent db'.
Proof.
  intros (Hc & He & Hf) Hr H. unfold add_release_membership, updated_or in H. runs. rewrite He in *.
  rewrite in_release_rel, bool_decide_eq_true_2 in * by done.
  destruct (upserted _ _ _) as [row|] eqn:Eu; cbn in *; simplify_eq.
  rewrite (Hf (i, r)) in Eu. eapply upserted_spec in Eu; [| |done|by rewrite lookup_delete_eq].
  - rewrite insert_delete_id in Eu by (eapply members_in; [done|by rewrite in_release_rel; apply bool_decide_eq_true_2]).
    split; [by destruct Hc|]. intros k. cbn. destruct (decide (k = (i, r))) as [->|Hne]; [by rewrite lookup_insert_eq|].
    rewrite lookup_insert_ne by done. rewrite (Hf k). unfold members at 2; cbn. rewrite delete_id; [done|].
    eapply members_out; [done|]. rewrite in_release_rel. apply bool_decide_eq_false_2. congruence.
  - etransitivity; [apply delete_subseteq|apply members_sub].
Qed.

Lemma apply_release_delta_spec id m a release db b db' :
  assigned id m a db -> (match m with Mapping.Matched r => Some r | _ => None end) = release ->
  yields (apply_release_delta id a release) db b db' -> consistent db'.
Proof.
  intros (e1 & e & Hb & Hi & <- & Hrel) Hm H.
  assert (Hre : rel e = (fun r => (GroupingAssignment.issue_id a, r)) <$> release).
  { unfold rel. rewrite Hi. cbn. unfold Event.release_id. rewrite <-Hm. by destruct (Event.mapping e). }
  clear Hm. assert (Hadd : forall db u db', without id e db -> yields (match release with
              | Some r => add_release_membership id (GroupingAssignment.issue_id a) r | None => mret () end) db u db' -> consistent db').
  { intros d v d' Hw Hy. destruct release as [r|]; [by eapply add_release_membership_spec|].
    runs. by eapply without_consistent. }
  unfold apply_release_delta in H. destruct (GroupingAssignment.first_assignment a) eqn:Ea; cbn [negb andb] in H.
  - runs. eapply Hadd; [|done]. apply (behind_without id e1) in Hb; [|done].
    destruct (GroupingAssignment.previous_release_id a); cbn iota in *; by runs.
  - destruct Hrel as (Hr1 & Hp & Hat).
    destruct (decide (GroupingAssignment.previous_release_id a = release)) as [Heq|Hne].
    + rewrite bool_decide_eq_true_2 in H by done. apply yields_ret in H as [_ ->].
      eapply behind_consistent; [done| |done]. by rewrite Hr1, Hre, Heq.
    + rewrite bool_decide_eq_false_2 in H by done. apply yields_bind in H as (v & d & H1 & H).
      apply yields_bind in H as (w & d2 & H2 & H3). apply yields_ret in H3 as [_ ->]. eapply (Hadd d); [|done].
      destruct (GroupingAssignment.previous_release_id a) as [p|].
      * eapply remove_release_membership_spec; [done|done| |done|done|done]. rewrite Hre. destruct release; cbn; congruence.
      * apply yields_ret in H1 as [-> ->]. by eapply behind_without.
Qed.

Lemma publish_grouping_consistent random enabled id release g db a db' :
  consistent db -> yields (publish_grouping random enabled id release g) db a db' -> consistent db'.
Proof.
  intros Hc H. unfold publish_grouping in H. runs.
  match goal with H : yields (lock_event id) _ _ _ |- _ => apply lock_event_spec in H as [-> (e & He & Hs & Hi & Hr & Hat)] end.
  match goal with H : yields (record_release_mapping _ _) _ _ _ |- _ => destruct (record_release_mapping_spec _ _ _ _ _ _ He H) as [-> _] end.
  match goal with H : yields (apply_grouping _ _ _ _) _ ?x _ |- _ =>
    eapply apply_grouping_spec in H; [|exact Hc|exact He|done..]; destruct x as [y|]; runs; [|done] end.
  match goal with H : yields (apply_release_delta _ _ _) _ _ _ |- _ => eapply apply_release_delta_spec in H; [|done|] end.
  - match goal with H : yields (match ?x with true => _ | false => _ end) _ _ _ |- _ => destruct x end; runs; [|done].
    by eapply update_issue_transitions_consistent.
  - unfold ReleaseResolution.state, ReleaseResolution.matched_id. by destruct (ReleaseResolution.candidates release) as [|? [|]].
Qed.

(** * Repair *)

Lemma groups_lookup i key_of p db k :
  (forall v e, p (i, v) e = in_issue i e && bool_decide (key_of e = Some v)) ->
  groups i key_of p db !! k = if decide (k.1 = i) then rollup_of (members (p (i, k.2)) db) else None.
Proof.
  intros Hp. unfold groups. set (keys := dedup _).
  assert (Hkeys : forall v, v ∈ keys <-> exists id e, Tables.events db !! id = Some e /\ p (i, v) e = true).
  { intros v. unfold keys. rewrite (elem_of_dedup_sort text_leb), list_elem_of_omap. setoid_rewrite Hp.
    setoid_rewrite andb_true_iff. setoid_rewrite bool_decide_eq_true. split.
    - intros ([id e] & Hin%elem_of_map_to_list & Hk). cbn in Hk. destruct (in_issue i e) eqn:E; [|done].
      apply bool_decide_eq_true in E. by exists id, e.
    - intros (id & e & He%elem_of_map_to_list & Hi & Hk). exists (id, e).
      split; [done|]. cbn. unfold in_issue. by rewrite bool_decide_eq_true_2. }
  assert (Hin : forall j v r, ((j, v), r) ∈ omap (fun k => (fun r => ((i, k), r)) <$> rollup_of (members (p (i, k)) db)) keys
            <-> j = i /\ rollup_of (members (p (i, v)) db) = Some r).
  { intros j v r. rewrite list_elem_of_omap. split.
    - intros (x & _ & Hx). destruct (rollup_of _) eqn:E; cbn in Hx; simplify_eq. done.
    - intros [-> Hr]. exists v. rewrite Hr. split; [|done]. apply Hkeys.
      destruct (decide (members (p (i, v)) db = ∅)) as [E|E]; [by rewrite (proj2 (rollup_of_None _) E) in Hr|].
      destruct (map_choose _ E) as (id & q & Hq). apply members_Some in Hq as (e & He & Hpe & _). eauto. }
  destruct k as [j v]; cbn. destruct (list_to_map _ !! (j, v)) as [r|] eqn:E.
  - apply elem_of_list_to_map_2, Hin in E as [-> Hr]. by rewrite decide_True.
  - apply not_elem_of_list_to_map_2 in E. destruct (decide (j = i)) as [->|]; [|done].
    destruct (rollup_of (members (p (i, v)) db)) as [r|] eqn:Er; [|done]. destruct E. apply list_elem_of_fmap.
    exists ((i, v), r). split; [done|]. by apply Hin.
Qed.

(** Replacing the rows of an issue. *)
Lemma regrouped_lookup (i : text) (g t : gmap (text * text) Rollup.t) (f : text * text -> option Rollup.t) (k : text * text) :
  (forall k : text * text, g !! k = if decide (k.1 = i) then f k else None) ->
  (g ∪ without_issue i t) !! k = if decide (k.1 = i) then f k else t !! k.
Proof.
  intros Hg. unfold without_issue. rewrite lookup_union, Hg. destruct (decide (k.1 = i)) as [Hi|Hi].
  - rewrite map_lookup_filter_None_2; [by destruct (f k)|]. right. intros r _ Hne. by apply Hne.
  - destruct (t !! k) as [r|] eqn:E; [|rewrite map_lookup_filter_None_2; [done|by left]].
    by rewrite (map_lookup_filter_Some_2 _ _ _ r).
Qed.

Lemma in_variant_key i v e : in_variant (i, v) e = in_issue i e && bool_decide (Event.variant e = Some v).
Proof. done. Qed.
Lemma in_release_key i v e : in_release (i, v) e = in_issue i e && bool_decide (Event.release_id e = Some v).
Proof. done. Qed.

(** Whatever the rows of the issue were, they are the aggregates of its crashes; the rest stays. *)
Definition refreshed (i : text) (db db' : Tables.t) : Prop :=
  Tables.events db' = Tables.events db /\ Tables.releases db' = Tables.releases db
  /\ (forall j, Tables.issues db' !! j = if decide (j = i)
        then r ← Tables.issues db !! i; (fun s => Issue.set_rollup s r) <$> rollup_of (members (in_issue i) db) else Tables.issues db !! j)
  /\ is_Some (Tables.issues db' !! i)
  /\ (forall k, Tables.variants db' !! k = if decide (k.1 = i) then rollup_of (members (in_variant k) db) else Tables.variants db !! k)
  /\ (forall k, Tables.issue_releases db' !! k = if decide (k.1 = i) then rollup_of (members (in_release k) db) else Tables.issue_releases db !! k).

Lemma refresh_issue_memberships_spec i db u db' :
  yields (refresh_issue_memberships i) db u db' -> refreshed i db db'.
Proof.
  intros H. unfold refresh_issue_memberships, updated_or in H. runs.
  set (db2 := Tables.set_issue_releases _ (Tables.set_issue_releases _ _)) in *.
  change (members (in_issue i) db2) with (members (in_issue i) db) in *. change (Tables.issues db2) with (Tables.issues db) in *.
  destruct (rollup_of (members (in_issue i) db)) as [s|] eqn:Es; [|by simplify_eq].
  destruct (Tables.issues db !! i) as [r|] eqn:Er; simplify_eq. unfold refreshed. rewrite Es, Er.
  split_and!; cbn; [done|done| |by rewrite lookup_insert_eq|intros k..].
  - intros j. destruct (decide (j = i)) as [->|]; [by rewrite lookup_insert_eq|by rewrite lookup_insert_ne].
  - rewrite (regrouped_lookup i _ _ (fun k => rollup_of (members (in_variant k) db))); [done|]. intros [j v].
    rewrite groups_lookup by apply in_variant_key. cbn. by destruct (decide (j = i)) as [->|].
  - rewrite (regrouped_lookup i _ _ (fun k => rollup_of (members (in_release k) db))); [done|]. intros [j v].
    rewrite groups_lookup by apply in_release_key. cbn. by destruct (decide (j = i)) as [->|].
Qed.

Lemma refreshed_consistent i db db' : consistent db -> refreshed i db db' -> db' = db.
Proof.
  intros [[Hi Hv _ _] Hr] (He & Hs & Hi' & _ & Hv' & Hr').
  destruct db as [ev iss va re st], db' as [ev' iss' va' re' st']; cbn in *. subst. f_equal; apply map_eq.
  - intros j. rewrite Hi'. destruct (decide (j = i)) as [->|]; [|done]. rewrite <-Hi.
    destruct (iss !! i) as [r|]; [|done]. cbn. by destruct r.
  - intros k. rewrite Hv'. destruct (decide (k.1 = i)); [by rewrite <-Hv|done].
  - intros k. rewrite Hr'. destruct (decide (k.1 = i)); [symmetry; exact (Hr k)|done].
Qed.
