(* ===== verification/Resolution.v ===== *)
(** The handlers of [apps/server/src/issues.rs] that resolve and reopen an issue, and what happens to the
    tables of issues: crashes arrive, workers publish them, releases are declared, operators repair and
    users resolve and reopen. *)

From S2P Require Import Prelude Text Json Identifiers Auth Grouping Store Jobs Issues.

Module IssueError.
Inductive t : Type := InvalidRequest | Forbidden | NotFound | Unavailable | Internal.
(** [IssueError::into_response]. *)
Definition response (e : t) : N * text * text :=
  match e with
  | InvalidRequest => (400%N, txt "invalid_request", txt "request is invalid")
  | Forbidden => (403%N, txt "forbidden", txt "operation is not allowed")
  | NotFound => (404%N, txt "not_found", txt "resource was not found")
  | Unavailable => (503%N, txt "service_unavailable", txt "service is unavailable")
  | Internal => (500%N, txt "internal_error", txt "request could not be completed")
  end.
End IssueError.

Abbreviation rtx := (tx Tables.t IssueError.t).

(** [authorize], of the answer of [Auth.authorize_project]. *)
Definition authorize {A} (answer : result AuthorizationError A) : result IssueError.t A :=
  map_err (fun e => match e with
                    | AuthForbidden => IssueError.Forbidden
                    | AuthUnavailable => IssueError.Unavailable
                    | _ => IssueError.NotFound
                    end) answer.

Definition lock_issue (issue_id : text) : rtx () :=
  found ← select IssueError.Internal (fun db => is_none (Tables.issues db !! issue_id));
  lift (fail_if found IssueError.NotFound).

(** The aggregates over the releases of an issue: [count], [count] of the known times, [count(DISTINCT)]
    of them, and [max]. *)
Module ReleaseCounts.
Record t : Type := Mk { releases : nat; timestamped : nat; distinct : nat; latest : option Z }.
End ReleaseCounts.
Definition release_counts (issue_id : text) (db : Tables.t) : ReleaseCounts.t :=
  let rows := evidence_rows issue_id db in
  let stamps := omap ReleaseEvidence.build_timestamp rows in
  {| ReleaseCounts.releases := length rows; ReleaseCounts.timestamped := length stamps;
     ReleaseCounts.distinct := length (remove_dups stamps);
     ReleaseCounts.latest := match stamps with [] => None | z :: zs => Some (foldr Z.max z zs) end |}.

(** [retained_regression_state] and [has_provably_later_release]. *)
Definition retained_regression_state (issue_id : text) : rtx Regression.t :=
  row ← select IssueError.Internal (release_counts issue_id);
  mret (if (ReleaseCounts.releases row =? 0)%nat
           || negb (ReleaseCounts.timestamped row =? ReleaseCounts.releases row)%nat
           || negb (ReleaseCounts.distinct row =? ReleaseCounts.releases row)%nat then Regression.Unknown
        else if (ReleaseCounts.releases row =? 1)%nat then Regression.New
        else Regression.Ongoing).
Definition has_provably_later_release (issue_id : text) (resolution_timestamp : Z) : rtx bool :=
  row ← select IssueError.Internal (release_counts issue_id);
  mret ((0 <? ReleaseCounts.releases row)%nat
        && (ReleaseCounts.releases row =? ReleaseCounts.timestamped row)%nat
        && (ReleaseCounts.releases row =? ReleaseCounts.distinct row)%nat
        && match ReleaseCounts.latest row with Some timestamp => (resolution_timestamp <? timestamp)%Z | None => false end).

(** [UPDATE issues ... RETURNING]: the view of the resolution. *)
Module ResolutionView.
Record t : Type := Mk { issue_id : text; status : Status.t; regression_state : Regression.t; resolved_in : option (text * Z) }.
End ResolutionView.
Definition set_resolution (issue_id : text) (s : Status.t) (r : Regression.t) (release : option (text * Z)) : rtx ResolutionView.t :=
  statement IssueError.Internal (fun db =>
    match Tables.issues db !! issue_id with
    | Some i => Ok (ResolutionView.Mk issue_id s r release, Tables.set_issues <[issue_id := Issue.set_resolution s r release i]> db)
    | None => Err IssueError.Internal
    end).

(** [resolve_issue] and [reopen_issue], without their line in the audit log, which is written after the
    commit; the statements of each are a transaction.  A payload that does not parse is [None]. *)
Definition resolve_statements (now : Z) (issue_id release_id : text) : rtx ResolutionView.t :=
  _ ← lock_issue issue_id;
  row ← select IssueError.Internal (fun db => mjoin (Tables.releases db !! release_id));
  resolution_timestamp ← lift (ok_or IssueError.NotFound row);
  regressed ← has_provably_later_release issue_id resolution_timestamp;
  let '(status, regression_state) :=
    if regressed : bool then (Status.Open, Regression.Regressed) else (Status.Resolved, Regression.Resolved) in
  set_resolution issue_id status regression_state (Some (release_id, now)).
Definition resolve_issue (now : Z) (answer : result AuthorizationError ()) (issue_id : text) (payload : option text)
    : rtx ResolutionView.t :=
  _ ← lift (authorize answer);
  release_id ← lift (ok_or IssueError.InvalidRequest payload);
  _ ← lift (fail_if (negb (valid_uuid issue_id) || negb (valid_uuid release_id)) IssueError.NotFound);
  transaction IssueError.Internal (resolve_statements now issue_id release_id).
Definition reopen_statements (issue_id : text) : rtx ResolutionView.t :=
  _ ← lock_issue issue_id;
  regression_state ← retained_regression_state issue_id;
  set_resolution issue_id Status.Open regression_state None.
Definition reopen_issue (answer : result AuthorizationError ()) (issue_id : text) : rtx ResolutionView.t :=
  _ ← lift (authorize answer);
  _ ← lift (fail_if (negb (valid_uuid issue_id)) IssueError.NotFound);
  transaction IssueError.Internal (reopen_statements issue_id).

(** * The service *)

(** [grouping_publication] of the worker: what a result says about the group of its crash. *)
Definition grouping_publication {U : Unicode} {H : Sha256} (enabled : bool) (v : json) : result JobError GroupingPublication.t :=
  if negb enabled then Ok GroupingPublication.Disabled
  else match fingerprint v with
       | Ok (Grouped f) => Ok (GroupingPublication.Grouped f)
       | Ok Insufficient => Ok GroupingPublication.Insufficient
       | Err _ => Err (Deterministic (txt "processor_output_invalid"))
       end.

(** What happens to the tables: a crash arrives with a new id, a worker publishes a result of a crash, a
    release is declared or changed, an operator repairs an issue, users resolve and reopen one. *)
Module Operation.
Inductive t : Type :=
| Receive (id : text) (received_at : Z)
| Publish (random : option text) (grouping_enabled : bool) (id : text) (release : ReleaseResolution.t) (grouping : GroupingPublication.t)
| Announce (id : text) (stamp : option Z)
| Repair (organization_id project_id issue_id : text)
| Resolve (now : Z) (answer : result AuthorizationError ()) (issue_id : text) (payload : option text)
| Reopen (answer : result AuthorizationError ()) (issue_id : text).
End Operation.

Inductive Ran : Operation.t -> Tables.t -> Tables.t -> Prop :=
| Receive id received_at db :
    Tables.events db !! id = None ->
    Ran (Operation.Receive id received_at) db (Tables.set_events <[id := Event.Mk received_at Mapping.Pending EventGrouping.Pending]> db)
| Publish random enabled id release grouping o db r db' o' :
    transaction database_unavailable (publish_grouping random enabled id release grouping) o db = (r, db', o') ->
    Ran (Operation.Publish random enabled id release grouping) db db'
| Announce id stamp db :
    Ran (Operation.Announce id stamp) db
      (Tables.Mk (Tables.events db) (Tables.issues db) (Tables.variants db) (Tables.issue_releases db) (<[id := stamp]> (Tables.releases db)))
| Repair organization_id project_id issue_id o db r db' o' :
    repair_issue organization_id project_id issue_id o db = (r, db', o') -> Ran (Operation.Repair organization_id project_id issue_id) db db'
| Resolve now answer issue_id payload o db r db' o' :
    resolve_issue now answer issue_id payload o db = (r, db', o') -> Ran (Operation.Resolve now answer issue_id payload) db db'
| Reopen answer issue_id o db r db' o' :
    reopen_issue answer issue_id o db = (r, db', o') -> Ran (Operation.Reopen answer issue_id) db db'.

(** A step is an operation; [publishes] says which groupings are published, and whether grouping is enabled then. *)
Definition admitted (publishes : bool -> GroupingPublication.t -> Prop) (op : Operation.t) : Prop :=
  match op with Operation.Publish _ enabled _ _ grouping => publishes enabled grouping | _ => True end.
Definition Step (publishes : bool -> GroupingPublication.t -> Prop) (db db' : Tables.t) : Prop :=
  exists op, admitted publishes op /\ Ran op db db'.
