(* ===== verification/Lifecycle.v ===== *)
(** Properties of the issues over any sequence of arrivals, publications, repairs, resolutions and
    releases, with any failures. *)

From stdpp Require Import sorting.
From S2P Require Import Prelude Text Identifiers Auth Grouping Store Jobs Issues Rollups Publications Resolution.

(** * Steps *)

Lemma repair_atomic o p i : atomic (repair_issue o p i).
Proof. apply atomic_lift. intros []. apply atomic_transaction. Qed.
Lemma resolve_atomic now answer i payload : atomic (resolve_issue now answer i payload).
Proof. repeat (apply atomic_lift; intros ?). apply atomic_transaction. Qed.
Lemma reopen_atomic answer i : atomic (reopen_issue answer i).
Proof. repeat (apply atomic_lift; intros ?). apply atomic_transaction. Qed.

(** An operation that changed something is a successful run. *)
Inductive Effect : Operation.t -> Tables.t -> Tables.t -> Prop :=
| Nothing op db : Effect op db db
| Received id received_at db : Tables.events db !! id = None ->
    Effect (Operation.Receive id received_at) db (Tables.set_events <[id := Event.Mk received_at Mapping.Pending EventGrouping.Pending]> db)
| Published random enabled id release grouping db a db' :
    yields (publish_grouping random enabled id release grouping) db a db' -> Effect (Operation.Publish random enabled id release grouping) db db'
| Declared id stamp db :
    Effect (Operation.Announce id stamp) db
      (Tables.Mk (Tables.events db) (Tables.issues db) (Tables.variants db) (Tables.issue_releases db) (<[id := stamp]> (Tables.releases db)))
| Repaired organization_id project_id issue_id db a db' : yields (repair_issue organization_id project_id issue_id) db a db' ->
    Effect (Operation.Repair organization_id project_id issue_id) db db'
| ResolvedIn now answer issue_id payload db a db' : yields (resolve_issue now answer issue_id payload) db a db' ->
    Effect (Operation.Resolve now answer issue_id payload) db db'
| Reopened answer issue_id db a db' : yields (reopen_issue answer issue_id) db a db' -> Effect (Operation.Reopen answer issue_id) db db'.

Lemma ran_effect op db db' : Ran op db db' -> Effect op db db'.
Proof.
  intros [id at_ d Hd|random enabled id release g o d r d' o' H|id stamp d|org p i o d r d' o' H|now ans i payload o d r d' o' H|ans i o d r d' o' H].
  - by apply Received.
  - apply atomic_run in H as [->|(a & _ & H)]; [constructor| |apply atomic_transaction].
    apply yields_transaction in H. by eapply Published.
  - apply Declared.
  - apply atomic_run in H as [->|(a & _ & H)]; [constructor|by eapply Repaired|apply repair_atomic].
  - apply atomic_run in H as [->|(a & _ & H)]; [constructor|by eapply ResolvedIn|apply resolve_atomic].
  - apply atomic_run in H as [->|(a & _ & H)]; [constructor|by eapply Reopened|apply reopen_atomic].
Qed.

Lemma set_resolution_spec i s r x db v db' :
  yields (set_resolution i s r x) db v db' ->
  exists row, Tables.issues db !! i = Some row /\ db' = Tables.set_issues <[i := Issue.set_resolution s r x row]> db
    /\ v = ResolutionView.Mk i s r x.
Proof. intros H. unfold set_resolution in H. runs. destruct (Tables.issues db !! i) as [row|]; simplify_eq. by exists row. Qed.

(** [has_provably_later_release], of the counts. *)
Definition provably_later (c : ReleaseCounts.t) (z : Z) : bool :=
  (0 <? ReleaseCounts.releases c)%nat && (ReleaseCounts.releases c =? ReleaseCounts.timestamped c)%nat
  && (ReleaseCounts.releases c =? ReleaseCounts.distinct c)%nat
  && match ReleaseCounts.latest c with Some t => (z <? t)%Z | None => false end.

Lemma resolve_issue_spec now answer i payload db v db' :
  yields (resolve_issue now answer i payload) db v db' ->
  exists row rel z, answer = Ok tt /\ payload = Some rel /\ Tables.issues db !! i = Some row /\ Tables.releases db !! rel = Some (Some z)
    /\ let s := if provably_later (release_counts i db) z then Status.Open else Status.Resolved in
       let g := if provably_later (release_counts i db) z then Regression.Regressed else Regression.Resolved in
       db' = Tables.set_issues <[i := Issue.set_resolution s g (Some (rel, now)) row]> db
       /\ v = ResolutionView.Mk i s g (Some (rel, now)).
Proof.
  intros H. unfold resolve_issue, resolve_statements, lock_issue, has_provably_later_release in H. runs.
  match goal with H : authorize answer = _ |- _ => destruct answer as [[]|]; [clear H|done] end.
  match goal with H : mjoin (Tables.releases _ !! ?r) = Some ?z |- _ =>
    destruct (Tables.releases db !! r) as [[t|]|] eqn:Er; cbn in H; simplify_eq end.
  match goal with H : yields (let '(_, _) := if ?b then _ else _ in _) _ _ _, Er : Tables.releases db !! ?r = Some (Some ?z) |- _ =>
    change b with (provably_later (release_counts i db) z) in H; destruct (provably_later (release_counts i db) z) eqn:Eb;
    apply set_resolution_spec in H as (row & Hrow & -> & ->); exists row, r, z; split_and!; try done; cbn zeta; by rewrite Eb end.
Qed.

Lemma reopen_issue_spec answer i db v db' :
  yields (reopen_issue answer i) db v db' ->
  exists row, answer = Ok tt /\ Tables.issues db !! i = Some row /\
    db' = Tables.set_issues <[i := Issue.set_resolution Status.Open (ResolutionView.regression_state v) None row]> db
    /\ v = ResolutionView.Mk i Status.Open (ResolutionView.regression_state v) None
    /\ yields (retained_regression_state i) db (ResolutionView.regression_state v) db.
Proof.
  intros H. unfold reopen_issue, reopen_statements, lock_issue in H. runs.
  match goal with H : authorize answer = _ |- _ => destruct answer as [[]|]; [clear H|done] end.
  match goal with H : yields (set_resolution _ _ _ _) _ _ _ |- _ => apply set_resolution_spec in H as (row & Hrow & -> & ->) end.
  match goal with H : yields (retained_regression_state i) db _ ?d |- _ => assert (d = db) as -> by (unfold retained_regression_state in H; by runs) end.
  by exists row.
Qed.

Lemma repair_issue_spec org p i db a db' :
  yields (repair_issue org p i) db a db' ->
  exists db1, refreshed i db db1 /\ yields (update_issue_transitions i true) db1 tt db'
    /\ (exists row, Tables.issues db' !! i = Some row /\ RepairIssueReport.events a = Rollup.event_count (Issue.rollup row))
    /\ RepairIssueReport.variants a = rows_of i (Tables.variants db') /\ RepairIssueReport.releases a = rows_of i (Tables.issue_releases db').
Proof.
  intros H. unfold repair_issue, repair_statements in H. runs.
  match goal with H : yields (refresh_issue_memberships i) _ _ ?d |- _ => apply refresh_issue_memberships_spec in H; exists d end.
  match goal with H : _ <$> ?x = Some a |- _ => destruct x as [row|] eqn:Er; cbn in H; simplify_eq; cbn end.
  match goal with x : unit |- _ => destruct x end.
  split_and!; eauto.
Qed.

(** * Chronology *)

#[export] Instance stamp_total_order : TotalOrder stamp_leb.
Proof.
  split.
  - intros [a i] [b j]. unfold stamp_leb; cbn. rewrite (Z.eqb_sym b a). destruct (Z.eqb_spec a b); [apply text_leb_total|].
    rewrite !Z.ltb_lt. lia.
  - intros [a i] [b j] [c k]. unfold stamp_leb; cbn.
    destruct (Z.eqb_spec a b), (Z.eqb_spec b c), (Z.eqb_spec a c); rewrite ?Z.ltb_lt; try lia. apply text_leb_trans.
  - intros [a i] [b j]. unfold stamp_leb; cbn. rewrite (Z.eqb_sym b a). destruct (Z.eqb_spec a b) as [->|]; rewrite ?Z.ltb_lt; [|lia].
    intros H1 H2. by rewrite (text_leb_antisym i j).
Qed.

(** Neighbours of a sorted list repeat a time exactly when the list does. *)
Lemma stamp_leb_le a b : stamp_leb a b = true -> (a.1 <= b.1)%Z.
Proof. unfold stamp_leb. destruct (Z.eqb_spec a.1 b.1); rewrite ?Z.ltb_lt; lia. Qed.

Lemma repeats_sorted l : StronglySorted (fun a b => stamp_leb a b = true) l -> repeats l = false <-> NoDup l.*1.
Proof.
  induction 1 as [|a l Hl IH Ha]; [split; [constructor|done]|]. destruct l as [|b l]; [split; [intros _; apply NoDup_singleton|done]|].
  change (repeats (a :: b :: l)) with ((a.1 =? b.1)%Z || repeats (b :: l)).
  change ((a :: b :: l).*1) with (a.1 :: (b :: l).*1).
  rewrite orb_false_iff, IH, NoDup_cons, Z.eqb_neq. split; intros [Hn Hd]; split; try done.
  - intros Hin. apply Hn. apply list_elem_of_fmap in Hin as (c & Hc & [->|Hin]%elem_of_cons); [done|].
    rewrite Forall_forall in Ha. pose proof (stamp_leb_le _ _ (Ha b ltac:(by left))).
    inversion Hl as [|? ? _ Hb]; subst. rewrite Forall_forall in Hb. pose proof (stamp_leb_le _ _ (Hb c Hin)). lia.
  - intros Heq. apply Hn. rewrite Heq. by left.
Qed.

Lemma last_sorted l x : StronglySorted (fun a b => stamp_leb a b = true) l -> last l = Some x ->
  x ∈ l /\ forall y, y ∈ l -> (y.1 <= x.1)%Z.
Proof.
  induction 1 as [|a l Hl IH Ha]; [done|]. destruct l as [|b l].
  - intros [= ->]. split; [by left|]. intros y ->%list_elem_of_singleton. done.
  - change (last (a :: b :: l)) with (last (b :: l)). intros Hx. destruct (IH Hx) as [Hin Hmax]. split; [by right|].
    intros y [->|Hy]%elem_of_cons; [|by apply Hmax]. rewrite Forall_forall in Ha. by apply stamp_leb_le, Ha.
Qed.

(** [release_chronology] in terms of the times alone. *)
Definition stamps (ev : list ReleaseEvidence.t) : list Z := omap ReleaseEvidence.build_timestamp ev.

Lemma stamps_fst ev :
  (omap (fun e => (fun z => (z, ReleaseEvidence.id e)) <$> ReleaseEvidence.build_timestamp e) ev).*1 = stamps ev.
Proof.
  unfold stamps. induction ev as [|[i [z|]] ev IH]; cbn; [done| |done]. by f_equal.
Qed.

Definition chronological (ev : list ReleaseEvidence.t) : Prop :=
  ev <> [] /\ length (stamps ev) = length ev /\ NoDup (stamps ev).

Lemma release_chronology_spec ev :
  let c := release_chronology ev in
  (ReleaseChronology.valid c = true <-> chronological ev)
  /\ (ReleaseChronology.valid c = true -> ReleaseChronology.release_count c = length ev
      /\ exists z, ReleaseChronology.last_timestamp c = Some z /\ z ∈ stamps ev /\ forall y, y ∈ stamps ev -> (y <= z)%Z).
Proof.
  unfold release_chronology. set (l := omap _ ev). set (ordered := sort stamp_leb l). cbn zeta.
  assert (Hperm : ordered ≡ₚ l) by apply sort_perm.
  assert (Hs : StronglySorted (fun a b => stamp_leb a b = true) ordered) by (apply (sort_strong stamp_leb)).
  assert (Hfst : ordered.*1 ≡ₚ stamps ev) by (by rewrite Hperm, <-stamps_fst).
  assert (Hlen : length ordered = length (stamps ev)) by (by rewrite <-Hfst, length_fmap).
  assert (Hv : negb (bool_decide (ordered = [])) && (length ordered =? length ev)%nat && negb (repeats ordered) = true <-> chronological ev).
  { rewrite !andb_true_iff, !negb_true_iff, Nat.eqb_eq, bool_decide_eq_false, repeats_sorted, Hfst, Hlen by done.
    unfold chronological. split.
    - intros [[Hne Hl] Hnd]. split_and!; try done. intros ->. apply Hne. by apply nil_length_inv.
    - intros (Hne & Hl & Hnd). split_and!; try done. intros E. rewrite E in Hlen. cbn in Hlen. apply Hne, nil_length_inv. congruence. }
  destruct (_ && _) eqn:E; cbn.
  - split; [done|]. intros _. destruct (proj1 Hv eq_refl) as (Hne & Hl & _). split; [congruence|].
    destruct (last ordered) as [x|] eqn:Ex.
    + exists x.1. split; [done|]. destruct (last_sorted _ _ Hs Ex) as [Hin Hmax]. split.
      * rewrite <-Hfst. apply list_elem_of_fmap. by exists x.
      * intros y Hy. rewrite <-Hfst in Hy. apply list_elem_of_fmap in Hy as (x' & -> & Hx'). by apply Hmax.
    + exfalso. apply last_None in Ex. rewrite Ex in Hlen. cbn in Hlen. apply Hne, nil_length_inv. congruence.
  - split; [|done]. by rewrite <-Hv.
Qed.

Lemma chronological_perm ev ev' : ev ≡ₚ ev' -> chronological ev -> chronological ev'.
Proof.
  intros H (Hne & Hl & Hnd). assert (Hst : stamps ev ≡ₚ stamps ev') by (unfold stamps; by rewrite H).
  split_and!; [|by rewrite <-Hst, <-H|by rewrite <-Hst]. intros ->. by apply Permutation_nil_r in H.
Qed.

Lemma remove_dups_length (l : list Z) : (length (remove_dups l) <= length l)%nat /\ (length (remove_dups l) = length l <-> NoDup l).
Proof.
  induction l as [|x l [Hle IH]]; cbn; [split; [done|split; [constructor|done]]|].
  destruct (decide_rel elem_of x l) as [Hin|Hin]; cbn.
  - split; [lia|]. rewrite NoDup_cons. split; [lia|naive_solver].
  - split; [lia|]. rewrite NoDup_cons, <-IH. split; [naive_solver|]. intros [_ ->]. done.
Qed.

(** The counts of the dashboard's queries say what [release_chronology] computes. *)
Lemma release_counts_spec i db :
  let c := release_counts i db in
  let h := release_chronology (evidence_of i db) in
  (ReleaseChronology.valid h = true <->
     ReleaseCounts.releases c <> 0%nat /\ ReleaseCounts.timestamped c = ReleaseCounts.releases c
     /\ ReleaseCounts.distinct c = ReleaseCounts.releases c)
  /\ (ReleaseChronology.valid h = true -> ReleaseChronology.release_count h = ReleaseCounts.releases c
      /\ ReleaseChronology.last_timestamp h = ReleaseCounts.latest c).
Proof.
  cbn zeta. set (ev := evidence_of i db).
  assert (Hp : ev ≡ₚ evidence_rows i db) by apply sort_perm.
  assert (Hst : stamps ev ≡ₚ stamps (evidence_rows i db)) by (unfold stamps; by rewrite Hp).
  destruct (release_chronology_spec ev) as [Hv Hc]. split.
  - rewrite Hv. unfold release_counts; cbn. change (omap _ _) with (stamps (evidence_rows i db)).
    destruct (remove_dups_length (stamps (evidence_rows i db))) as [_ Hd]. split.
    + intros H%(chronological_perm _ _ Hp). destruct H as (Hne & Hl & Hnd). split_and!; [by destruct (evidence_rows i db)|done|].
      apply Hd in Hnd. congruence.
    + intros (Hne & Hl & Hdl). apply (chronological_perm (evidence_rows i db)); [done|]. split_and!; [by intros E; rewrite E in Hne|done|].
      apply Hd. congruence.
  - intros Hvalid. destruct (Hc Hvalid) as (-> & z & -> & Hin & Hmax). unfold release_counts; cbn.
    change (omap _ _) with (stamps (evidence_rows i db)). split; [by rewrite Hp|].
    rewrite Hst in Hin. setoid_rewrite Hst in Hmax. destruct (stamps (evidence_rows i db)) as [|y ys]; [by apply elem_of_nil in Hin|].
    f_equal. destruct (foldr_max_spec y ys) as [H1 H2]. specialize (H2 _ Hin). specialize (Hmax _ H1). lia.
Qed.

Lemma later_agrees i db z :
  ReleaseChronology.valid (release_chronology (evidence_of i db))
  && match ReleaseChronology.last_timestamp (release_chronology (evidence_of i db)) with Some l => (z <? l)%Z | None => false end
  = provably_later (release_counts i db) z.
Proof.
  destruct (release_counts_spec i db) as [Hv Hc]. unfold provably_later. apply eq_true_iff_eq.
  rewrite !andb_true_iff, Hv, Nat.ltb_lt, !Nat.eqb_eq. split.
  - intros [H Hl]. destruct (Hc (proj2 Hv H)) as [_ Hlast]. rewrite Hlast in Hl. split_and!; [lia|lia|lia|done].
  - intros [[[H1 H2] H3] Hl]. assert (ReleaseCounts.releases (release_counts i db) <> 0%nat) as H0 by lia.
    destruct (Hc (proj2 Hv ltac:(split_and!; [done|lia|lia]))) as [_ ->]. split_and!; [done|lia|lia|done].
Qed.

Lemma retained_agrees i db c :
  c = release_counts i db ->
  (if (ReleaseCounts.releases c =? 0)%nat || negb (ReleaseCounts.timestamped c =? ReleaseCounts.releases c)%nat
      || negb (ReleaseCounts.distinct c =? ReleaseCounts.releases c)%nat then Regression.Unknown
   else if (ReleaseCounts.releases c =? 1)%nat then Regression.New else Regression.Ongoing)
  = let h := release_chronology (evidence_of i db) in
    if negb (ReleaseChronology.valid h) then Regression.Unknown
    else if (ReleaseChronology.release_count h =? 1)%nat then Regression.New else Regression.Ongoing.
Proof.
  intros ->. destruct (release_counts_spec i db) as [Hv Hc]. cbn zeta.
  destruct (ReleaseChronology.valid (release_chronology (evidence_of i db))); cbn [negb].
  - destruct (proj1 Hv eq_refl) as (H1 & -> & ->). destruct (Hc eq_refl) as [-> _].
    by rewrite (proj2 (Nat.eqb_neq _ 0)), !Nat.eqb_refl by done.
  - destruct (Nat.eqb_spec (ReleaseCounts.releases (release_counts i db)) 0),
      (Nat.eqb_spec (ReleaseCounts.timestamped (release_counts i db)) (ReleaseCounts.releases (release_counts i db))),
      (Nat.eqb_spec (ReleaseCounts.distinct (release_counts i db)) (ReleaseCounts.releases (release_counts i db))); try done.
    exfalso. enough (false = true) by done. apply Hv. done.
Qed.

Lemma update_issue_transitions_spec i enabled db u db' :
  yields (update_issue_transitions i enabled) db u db' ->
  exists r, Tables.issues db !! i = Some r
    /\ let c := release_chronology (evidence_of i db) in
       let stamp := rel ← Issue.resolved_in r; mjoin (Tables.releases db !! rel.1) in
       let next := if enabled then next_transition r c stamp else (Issue.status r, Issue.regression r) in
       db' = Tables.set_issues <[i := Issue.set_chronology (ReleaseChronology.first c) (ReleaseChronology.last c) next.1 next.2 r]> db.
Proof.
  intros H. unfold update_issue_transitions, load_release_chronology in H. runs.
  match goal with Hr : Tables.issues db !! i = Some ?r |- _ => exists r; split; [done|]; rename r into row; rename Hr into Hrow end.
  assert (Hend : forall c s g d v d', yields (update_issue_chronology i c s g) d v d' -> Tables.issues d !! i = Some row ->
    d' = Tables.set_issues <[i := Issue.set_chronology (ReleaseChronology.first c) (ReleaseChronology.last c) s g row]> d).
  { intros c s g d v d' Hy Hd. unfold update_issue_chronology, update_issue, updated_or in Hy. runs. rewrite Hd in *. by simplify_eq. }
  destruct enabled; cbn [negb] in *; [|by eapply Hend]. runs. cbn zeta.
  destruct (Issue.resolved_in row) as [[rel t]|]; runs; cbn [mbind option_bind fst] in *;
    match goal with H : yields (let '(_, _) := ?x in _) _ _ _ |- _ => destruct x as [s g] eqn:En end; by eapply Hend.
Qed.

(** C25: resolving and reopening agree with publication.  The two handlers decide whether an issue regressed
    with counts over its releases, the workers with a sorted chronology; right after a handler succeeded,
    recomputing the transitions of the issue keeps the state that the handler answered. *)
Theorem handlers_agree_with_publication i db v db1 u db2 :
  (exists now answer payload, yields (resolve_issue now answer i payload) db v db1) \/ (exists answer, yields (reopen_issue answer i) db v db1) ->
  yields (update_issue_transitions i true) db1 u db2 ->
  exists r, Tables.issues db2 !! i = Some r
    /\ Issue.status r = ResolutionView.status v /\ Issue.regression r = ResolutionView.regression_state v
    /\ Issue.resolved_in r = ResolutionView.resolved_in v.
Proof.
  intros Hh (r & Hr & ->)%update_issue_transitions_spec. cbn [Tables.set_issues Tables.issues]. rewrite lookup_insert_eq. eexists; split; [done|].
  cbn [Issue.status Issue.regression Issue.resolved_in Issue.set_chronology].
  destruct Hh as [(now & answer & payload & H)|(answer & H)].
  - apply resolve_issue_spec in H as (row & rel & z & _ & _ & Hrow & Hz & -> & ->). cbn in Hr. rewrite lookup_insert_eq in Hr. simplify_eq.
    cbn [Issue.resolved_in Issue.set_resolution Tables.set_issues Tables.releases mbind option_bind fst ResolutionView.status
         ResolutionView.regression_state ResolutionView.resolved_in]. rewrite Hz. change (mjoin (Some (Some z))) with (Some z).
    change (evidence_of i (Tables.set_issues _ db)) with (evidence_of i db).
    assert (Hl : ReleaseChronology.valid (release_chronology (evidence_of i db))
      && match ReleaseChronology.last_timestamp (release_chronology (evidence_of i db)) with Some l => (z <? l)%Z | None => false end
      = provably_later (release_counts i db) z) by apply later_agrees.
    unfold next_transition. cbn [Issue.status Issue.set_resolution Issue.resolved_in]. rewrite Hl.
    by destruct (provably_later (release_counts i db) z).
  - apply reopen_issue_spec in H as (row & _ & Hrow & -> & Hv & Hy). cbn in Hr. rewrite lookup_insert_eq in Hr. simplify_eq.
    rewrite Hv. cbn [Issue.resolved_in Issue.set_resolution ResolutionView.status ResolutionView.regression_state ResolutionView.resolved_in].
    unfold retained_regression_state in Hy. apply yields_bind in Hy as (c & d & [Hcs ->]%yields_select & [Hs _]%yields_ret).
    change (evidence_of i (Tables.set_issues _ db)) with (evidence_of i db). rewrite Hs, (retained_agrees i db c Hcs).
    unfold next_transition. cbn [Issue.status Issue.set_resolution Issue.resolved_in]. cbn zeta. by repeat case_match.
Qed.

(** * Every step keeps the rollups *)

Lemma received_consistent id e db :
  consistent db -> Tables.events db !! id = None -> Event.grouped e = false -> consistent (Tables.set_events <[id := e]> db).
Proof.
  intros [[Hi Hv Hf Hu] Hr] Hid Hg.
  assert (Hno : Event.issue_id e = None) by (unfold Event.grouped in Hg; by destruct (Event.issue_id e)).
  assert (Hm : forall p, p e = false -> members p (Tables.set_events <[id := e]> db) = members p db).
  { intros p Hp. rewrite members_insert, Hp. apply delete_id. destruct (members p db !! id) eqn:E; [|done].
    apply members_Some in E as (e' & He' & _). congruence. }
  split; [split; [intros i|intros k| |done]|intros k].
  - rewrite Hm; [apply Hi|]. unfold in_issue. by rewrite Hno.
  - rewrite Hm; [apply Hv|]. unfold in_variant, in_issue. by rewrite Hno.
  - cbn. intros id' e' i f v q [[<- <-]|[_ H]]%lookup_insert_Some Hg'; [|by eapply Hf].
    unfold Event.issue_id in Hno. by rewrite Hg' in Hno.
  - cbn. rewrite Hm; [apply Hr|]. unfold in_release, in_issue. by rewrite Hno.
Qed.

Lemma effect_consistent op db db' : Effect op db db' -> consistent db -> consistent db'.
Proof.
  intros [op' d|id at_ d Hd|random enabled id release g d a d' H|id stamp d|org p i d a d' H|now ans i payload d a d' H|ans i d a d' H] Hc.
  - done.
  - by apply received_consistent.
  - by eapply publish_grouping_consistent.
  - destruct Hc as [[Hi Hv Hf Hu] Hr]. by split; [split|].
  - apply repair_issue_spec in H as (d1 & Hd & Ht & _). rewrite (refreshed_consistent i d d1 Hc Hd) in Ht.
    by eapply update_issue_transitions_consistent.
  - apply resolve_issue_spec in H as (row & rel & z & _ & _ & Hrow & _ & -> & _). destruct Hc as [Hc Hr].
    split; [|apply Hr]. apply core_issue_change; [done|done|apply set_resolution_identity].
  - apply reopen_issue_spec in H as (row & _ & Hrow & -> & _). destruct Hc as [Hc Hr].
    split; [|apply Hr]. apply core_issue_change; [done|done|apply set_resolution_identity].
Qed.

Lemma steps_consistent publishes db db' : rtc (Step publishes) db db' -> consistent db -> consistent db'.
Proof.
  induction 1 as [|d1 d2 d3 (op & _ & H%ran_effect) _ IH]; [done|]. intros Hc. apply IH. by eapply effect_consistent.
Qed.

Lemma consistent_ungrouped db :
  Tables.issues db = ∅ -> Tables.variants db = ∅ -> Tables.issue_releases db = ∅ ->
  (forall id e, Tables.events db !! id = Some e -> Event.grouped e = false) -> consistent db.
Proof.
  intros Hi Hv Hr He.
  assert (Hno : forall id e, Tables.events db !! id = Some e -> Event.issue_id e = None).
  { intros id e H. specialize (He _ _ H). unfold Event.grouped in He. by destruct (Event.issue_id e). }
  assert (Hm : forall p, (forall e, Event.issue_id e = None -> p e = false) -> rollup_of (members p db) = None).
  { intros p Hp. apply rollup_of_None, map_empty. intros id. destruct (members p db !! id) eqn:E; [|done].
    apply members_Some in E as (e & H & Hpe & _). rewrite Hp in Hpe; [done|by eapply Hno]. }
  split; [split|].
  - intros i. rewrite Hi, Hm; [done|]. intros e Hn. unfold in_issue. by rewrite Hn.
  - intros k. rewrite Hv, Hm; [done|]. intros e Hn. unfold in_variant, in_issue. by rewrite Hn.
  - intros id e i f v q H Hg. apply Hno in H. unfold Event.issue_id in H. by rewrite Hg in H.
  - rewrite Hi. intros i j r s f H. by rewrite lookup_empty in H.
  - intros k. rewrite Hr, Hm; [done|]. intros e Hn. unfold in_release, in_issue. by rewrite Hn.
Qed.

(** C2: the rollups are exact.  From tables without issues, whatever arrives, is published in whatever order
    and as often as it may be, is repaired, resolved, reopened or moved to another release, with any
    failures: the row of every issue, of every variant and of every release of an issue is the aggregate of
    its crashes (their number, the first and the last time, the best representative), and there is a row
    exactly when there are crashes; crashes share an issue exactly when they share a fingerprint. *)
Theorem rollups_are_exact publishes db db' :
  Tables.issues db = ∅ -> Tables.variants db = ∅ -> Tables.issue_releases db = ∅ ->
  (forall id e, Tables.events db !! id = Some e -> Event.grouped e = false) -> rtc (Step publishes) db db' ->
  (forall i, Issue.rollup <$> Tables.issues db' !! i = rollup_of (members (in_issue i) db'))
  /\ (forall k, Tables.variants db' !! k = rollup_of (members (in_variant k) db'))
  /\ (forall k, Tables.issue_releases db' !! k = rollup_of (members (in_release k) db'))
  /\ (forall id1 e1 id2 e2, Tables.events db' !! id1 = Some e1 -> Tables.events db' !! id2 = Some e2 ->
        Event.grouped e1 = true -> Event.grouped e2 = true ->
        Event.issue_id e1 = Event.issue_id e2 <-> Event.fingerprint e1 = Event.fingerprint e2).
Proof.
  intros Hi Hv Hr He Hs.
  pose proof (consistent_ungrouped db Hi Hv Hr He) as Hc.
  apply (steps_consistent _ _ _ Hs) in Hc as [[H1 H2 H3 H4] H5]. split_and!; [done|done|done|].
  intros id1 e1 id2 e2 He1 He2 Hg1 Hg2. unfold Event.grouped, Event.issue_id, Event.fingerprint in *.
  destruct (Event.grouping e1) as [| | |i1 f1 v1 q1] eqn:G1, (Event.grouping e2) as [| | |i2 f2 v2 q2] eqn:G2; try done.
  destruct (H3 _ _ _ _ _ _ He1 G1) as (r1 & Hr1 & Hf1), (H3 _ _ _ _ _ _ He2 G2) as (r2 & Hr2 & Hf2). split.
  - intros [= ->]. rewrite Hr1 in Hr2. injection Hr2 as ->. unfold has_fingerprint in *.
    rewrite !andb_true_iff, !bool_decide_eq_true in *. destruct Hf1 as [_ <-], Hf2 as [_ <-]. done.
  - intros [= ->]. f_equal. by eapply H4.
Qed.

(** * States *)

Definition state_of (r : Issue.t) : Status.t * Regression.t * option (text * Z) :=
  (Issue.status r, Issue.regression r, Issue.resolved_in r).

(** The issues have the states that they had; new ones are open. *)
Definition keeps (db0 db : Tables.t) : Prop :=
  Tables.releases db = Tables.releases db0
  /\ (forall i r0, Tables.issues db0 !! i = Some r0 -> exists r, Tables.issues db !! i = Some r /\ state_of r = state_of r0)
  /\ (forall i r, Tables.issues db !! i = Some r -> match Tables.issues db0 !! i with
        | Some r0 => state_of r = state_of r0 | None => state_of r = (Status.Open, Regression.Unknown, None) end).

Lemma keeps_refl db : keeps db db.
Proof. split_and!; [done|naive_solver|]. intros i r ->. done. Qed.

Lemma keeps_same db0 db db' : keeps db0 db -> Tables.issues db' = Tables.issues db -> Tables.releases db' = Tables.releases db -> keeps db0 db'.
Proof. unfold keeps. by intros H -> ->. Qed.

(** A row that is new, or whose state stays. *)
Lemma keeps_insert db0 db i r :
  keeps db0 db -> (match Tables.issues db !! i with Some s => state_of r = state_of s | None => state_of r = (Status.Open, Regression.Unknown, None) end) ->
  keeps db0 (Tables.set_issues <[i := r]> db).
Proof.
  intros (Hr & Hf & Hb) Hs. split_and!; [done| |]; cbn; intros j s Hj; destruct (decide (j = i)) as [->|Hne].
  - rewrite lookup_insert_eq. destruct (Hf _ _ Hj) as (t & Ht & Hst). rewrite Ht in Hs. exists r. split; [done|congruence].
  - rewrite lookup_insert_ne by done. by apply Hf.
  - rewrite lookup_insert_eq in Hj. simplify_eq. destruct (Tables.issues db !! i) as [t|] eqn:Et.
    + specialize (Hb _ _ Et). by destruct (Tables.issues db0 !! i); congruence.
    + destruct (Tables.issues db0 !! i) as [t0|] eqn:E0; [|done]. destruct (Hf _ _ E0) as (t & Ht & _). congruence.
  - rewrite lookup_insert_ne in Hj by done. by apply Hb.
Qed.

Ltac kept := repeat case_match; simplify_eq; first [done | eapply keeps_same; [eassumption|done|done]].

Lemma update_event_keeps db0 id p f : preserves (keeps db0) (update_event id p f).
Proof. unfold update_event. preserve. kept. Qed.
Lemma lock_event_keeps db0 id : preserves (keeps db0) (lock_event id).
Proof. unfold lock_event. preserve. Qed.
Lemma record_release_mapping_keeps db0 id release : preserves (keeps db0) (record_release_mapping id release).
Proof. unfold record_release_mapping, updated_or. preserve; try done. kept. Qed.

Lemma insert_issue_keeps db0 i id f : preserves (keeps db0) (insert_issue i id f).
Proof.
  unfold insert_issue. preserve. repeat case_match; simplify_eq; try done. apply keeps_insert; [done|].
  by destruct (Tables.issues _ !! i).
Qed.
Lemma enter_issue_keeps db0 id i : preserves (keeps db0) (enter_issue id i).
Proof.
  unfold enter_issue. apply preserves_statement. intros db a db' Hk H.
  destruct (Tables.events db !! id); [|by simplify_eq]. destruct (Tables.issues db !! i) as [r|] eqn:Er; simplify_eq; [|done].
  apply keeps_insert; [done|]. by rewrite Er.
Qed.
Lemma enter_variant_keeps db0 id : preserves (keeps db0) (enter_variant id).
Proof.
  unfold enter_variant. apply preserves_statement. intros db a db' Hk H. destruct (Tables.events db !! id); [|by simplify_eq].
  unfold mbind, result_bind in H. kept.
Qed.
Lemma assign_issue_keeps db0 random id f at_ : preserves (keeps db0) (assign_issue random id f at_).
Proof.
  unfold assign_issue, updated_or, raise.
  repeat first [apply insert_issue_keeps | apply update_event_keeps | apply enter_issue_keeps | apply enter_variant_keeps | preserve_step].
Qed.

Lemma upsert_keeps db0 id i r : preserves (keeps db0) (add_release_membership id i r).
Proof.
  unfold add_release_membership, updated_or. preserve; try done. unfold mbind, result_bind in *. kept.
Qed.
Lemma remove_keeps db0 id i r at_ : preserves (keeps db0) (remove_release_membership id i r at_).
Proof. unfold remove_release_membership, delete_single, decrement, updated_or. preserve; kept. Qed.
Lemma apply_release_delta_keeps db0 id a r : preserves (keeps db0) (apply_release_delta id a r).
Proof.
  unfold apply_release_delta. repeat first [apply remove_keeps | apply upsert_keeps | preserve_step].
Qed.
Lemma apply_grouping_keeps db0 random id x g : preserves (keeps db0) (apply_grouping random id x g).
Proof.
  unfold apply_grouping, updated_or. repeat first [apply assign_issue_keeps | apply update_event_keeps | case_decide | preserve_step].
Qed.

Lemma yields_preserves {S E A} (P : S -> Prop) (m : tx S E A) s a s' : yields m s a s' -> preserves P m -> P s -> P s'.
Proof. intros (o & o' & H) Hm Hs. specialize (Hm o s Hs). by rewrite H in Hm. Qed.

Lemma keeps_run {A} (m : itx A) db0 db a db' :
  yields m db a db' -> (forall d, preserves (keeps d) m) -> keeps db0 db -> keeps db0 db'.
Proof. intros H Hm. by eapply yields_preserves. Qed.

(** A publication changes states at most by the transition of one issue, at its end. *)
Lemma publish_grouping_states random enabled id release g db a db' :
  yields (publish_grouping random enabled id release g) db a db' ->
  exists dbm, keeps db dbm /\ (db' = dbm \/ exists i, yields (update_issue_transitions i enabled) dbm tt db').
Proof.
  intros H. unfold publish_grouping in H. runs.
  assert (Hk := keeps_refl db).
  match goal with H : yields (lock_event id) _ _ _ |- _ => apply (keeps_run _ _ _ _ _ H (fun d => lock_event_keeps d id)) in Hk; clear H end.
  match goal with H : yields (record_release_mapping _ _) _ _ _ |- _ =>
    apply (keeps_run _ _ _ _ _ H (fun d => record_release_mapping_keeps d _ _)) in Hk; clear H end.
  match goal with H : yields (apply_grouping _ _ _ _) _ ?x _ |- _ =>
    apply (keeps_run _ _ _ _ _ H (fun d => apply_grouping_keeps d _ _ _ _)) in Hk; clear H; destruct x end; runs; [|eauto].
  match goal with H : yields (apply_release_delta _ _ _) _ _ _ |- _ =>
    apply (keeps_run _ _ _ _ _ H (fun d => apply_release_delta_keeps d _ _ _)) in Hk; clear H end.
  match goal with H : yields (if ?x then _ else _) _ ?v _ |- _ => destruct x, v end; runs; eauto.
Qed.

(** What an operation does to the state of an issue, new issues being open. *)
Abbreviation State := (Status.t * Regression.t * option (text * Z))%type.
Definition prior (db : Tables.t) (i : text) : State := from_option state_of (Status.Open, Regression.Unknown, None) (Tables.issues db !! i).
Inductive Transition (op : Operation.t) (db' : Tables.t) (i : text) (p : State) : State -> Prop :=
| Same : Transition op db' i p p
| Recomputed s next : state_of s = p ->
    next = next_transition s (release_chronology (evidence_of i db')) (rel ← Issue.resolved_in s; mjoin (Tables.releases db' !! rel.1)) ->
    Transition op db' i p (next.1, next.2, Issue.resolved_in s)
| Resolving rel z now : op = Operation.Resolve now (Ok tt) i (Some rel) -> Tables.releases db' !! rel = Some (Some z) ->
    Transition op db' i p (if provably_later (release_counts i db') z then (Status.Open, Regression.Regressed, Some (rel, now))
                           else (Status.Resolved, Regression.Resolved, Some (rel, now)))
| Reopening g : op = Operation.Reopen (Ok tt) i -> g <> Regression.Regressed -> g <> Regression.Resolved ->
    Transition op db' i p (Status.Open, g, None).

Lemma keeps_prior db0 db i r : keeps db0 db -> Tables.issues db !! i = Some r -> state_of r = prior db0 i.
Proof. intros (_ & _ & Hb) Hr. specialize (Hb _ _ Hr). unfold prior. by destruct (Tables.issues db0 !! i). Qed.

(** The transition of an issue in tables that keep the states. *)
Lemma transition_states op db0 db j enabled u db' i r' :
  yields (update_issue_transitions j enabled) db u db' -> keeps db0 db -> Tables.issues db' !! i = Some r' ->
  Transition op db' i (prior db0 i) (state_of r').
Proof.
  intros (r & Hr & ->)%update_issue_transitions_spec Hk Hi. cbn in Hi.
  apply lookup_insert_Some in Hi as [[<- <-]|[_ Hi]].
  - pose proof (keeps_prior _ _ _ _ Hk Hr) as Hp. destruct enabled.
    + exact (Recomputed _ _ _ _ r _ Hp eq_refl).
    + rewrite <-Hp. apply Same.
  - rewrite (keeps_prior _ _ _ _ Hk Hi). apply Same.
Qed.

Lemma set_resolution_states db i s g x r j r' :
  Tables.issues (Tables.set_issues <[i := Issue.set_resolution s g x r]> db) !! j = Some r' ->
  (j = i /\ state_of r' = (s, g, x)) \/ state_of r' = prior db j.
Proof.
  cbn. intros [[<- <-]|[_ Hj]]%lookup_insert_Some; [by left|]. right. unfold prior. by rewrite Hj.
Qed.

Lemma refreshed_keeps i db db' : refreshed i db db' -> keeps db db'.
Proof.
  intros (_ & Hr & Hi & Hs & _).
  assert (Hst : state_of <$> Tables.issues db' !! i = state_of <$> Tables.issues db !! i).
  { destruct Hs as [r Hr']. rewrite Hr'. rewrite Hi, decide_True in Hr' by done. destruct (Tables.issues db !! i) as [s|]; [|done].
    destruct (rollup_of _); cbn in Hr'; simplify_eq. done. }
  assert (Hall : forall j, state_of <$> Tables.issues db' !! j = state_of <$> Tables.issues db !! j).
  { intros j. destruct (decide (j = i)) as [->|Hne]; [done|]. by rewrite Hi, decide_False. }
  split_and!; [done| |]; intros j r Hj; specialize (Hall j); rewrite Hj in Hall; cbn in Hall.
  - apply fmap_Some in Hall as (r' & Hr' & Hs'). exists r'. split; [done|]. congruence.
  - destruct (Tables.issues db !! j); cbn in Hall; congruence.
Qed.

Lemma effect_states op db db' i r' : Effect op db db' -> Tables.issues db' !! i = Some r' -> Transition op db' i (prior db i) (state_of r').
Proof.
  intros [op' d|id at_ d Hd|random enabled id release g d a d' H|id stamp d|org p j d a d' H|now ans j payload d a d' H|ans j d a d' H] Hi.
  - rewrite (keeps_prior _ _ _ _ (keeps_refl d) Hi). apply Same.
  - rewrite (keeps_prior d d i r' (keeps_refl d) Hi). apply Same.
  - apply publish_grouping_states in H as (dm & Hk & [->|(j & Hy)]).
    + rewrite (keeps_prior _ _ _ _ Hk Hi). apply Same.
    + by eapply transition_states.
  - rewrite (keeps_prior d d i r' (keeps_refl d) Hi). apply Same.
  - apply repair_issue_spec in H as (d1 & Hd & Ht & _). eapply transition_states; [done|by eapply refreshed_keeps|done].
  - apply resolve_issue_spec in H as (row & rel & z & -> & -> & _ & Hz & -> & _).
    apply set_resolution_states in Hi as [[-> ->] | ->]; [|apply Same].
    match goal with |- Transition ?op ?e _ _ _ => pose proof (Resolving op e j (prior d j) rel z now eq_refl Hz) as Hres;
      change (release_counts j e) with (release_counts j d) in Hres end.
    by destruct (provably_later (release_counts j d) z).
  - apply reopen_issue_spec in H as (row & -> & Hrow & -> & _ & Hy).
    apply set_resolution_states in Hi as [[-> ->] | ->]; [|apply Same]. unfold retained_regression_state in Hy.
    apply yields_bind in Hy as (c & e & _ & [Hs _]%yields_ret). rewrite Hs. apply Reopening; [done|by repeat case_match..].
Qed.

(** * What the states mean *)

(** C12: issues reopen for a reason.  When an operation opens a resolved issue, either it is the request of an
    authorized user to reopen this issue, and the resolution is gone, or the issue regressed: it keeps its
    resolution, or was just resolved in another release by a user, all releases of the issue have known build
    times, no two the same, and one of them was built strictly after the release that resolves the issue. *)
Theorem issues_reopen_for_a_reason op db db' i r r' :
  Ran op db db' -> Tables.issues db !! i = Some r -> Tables.issues db' !! i = Some r' ->
  Issue.status r = Status.Resolved -> Issue.status r' = Status.Open ->
  (op = Operation.Reopen (Ok tt) i /\ Issue.resolved_in r' = None)
  \/ (Issue.regression r' = Regression.Regressed
      /\ exists rel now z, Issue.resolved_in r' = Some (rel, now) /\ Tables.releases db' !! rel = Some (Some z)
         /\ (Issue.resolved_in r' = Issue.resolved_in r \/ op = Operation.Resolve now (Ok tt) i (Some rel))
         /\ chronological (evidence_of i db')
         /\ exists release z', ReleaseEvidence.Mk release (Some z') ∈ evidence_of i db' /\ (z < z')%Z).
Proof.
  intros Hs%ran_effect Hi Hi' Hst Hst'. pose proof (effect_states _ _ _ _ _ Hs Hi') as Ht. unfold prior in Ht. rewrite Hi in Ht. cbn in Ht.
  assert (Hlater : forall z, provably_later (release_counts i db') z = true -> chronological (evidence_of i db')
            /\ exists release z', ReleaseEvidence.Mk release (Some z') ∈ evidence_of i db' /\ (z < z')%Z).
  { intros z Hl. rewrite <-later_agrees in Hl. apply andb_true_iff in Hl as [Hv Hl].
    destruct (release_chronology_spec (evidence_of i db')) as [Hc Hlast]. destruct (Hlast Hv) as (_ & z' & Hz' & Hin & _).
    rewrite Hz' in Hl. split; [by apply Hc|]. unfold stamps in Hin. apply list_elem_of_omap in Hin as ([release stamp] & Hin & [= ->]).
    exists release, z'. split; [done|by apply Z.ltb_lt]. }
  change (Issue.status r) with (state_of r).1.1 in Hst. change (Issue.status r') with (state_of r').1.1 in Hst'.
  change (Issue.resolved_in r') with (state_of r').2. change (Issue.regression r') with (state_of r').1.2.
  change (Issue.resolved_in r) with (state_of r).2.
  revert Hst Hst'. destruct Ht as [|s next Hsp Hn|rel z now Hop Hz|g Hop H1 H2]; intros Hst Hst'; cbn [fst snd] in *.
  - congruence.
  - right. rewrite <-Hsp in Hst |- *. cbn [state_of fst snd] in *. subst next. unfold next_transition in *. rewrite Hst in *.
    destruct (Issue.resolved_in s) as [[rel now]|] eqn:Er; cbn in *; [|by destruct (ReleaseChronology.valid _)].
    destruct (Tables.releases db' !! rel) as [[z|]|] eqn:Ez; cbn in *; try (by rewrite ?andb_false_r in Hst').
    rewrite later_agrees in *. destruct (provably_later (release_counts i db') z) eqn:El; [|done].
    split; [done|]. exists rel, now, z. destruct (Hlater z El) as [Hc He]. split_and!; [done|done|by left|done|done].
  - destruct (provably_later (release_counts i db') z) eqn:El; [|done]. right. split; [done|]. exists rel, now, z. cbn.
    destruct (Hlater z El) as [Hc He]. split_and!; [done|done|by right|done|done].
  - by left.
Qed.

(** C24: a repair restores the rollups.  Whatever the rows of an issue were, after its repair they are the
    aggregates of its crashes and the report counts them; neither crashes nor the rows of other issues changed.
    The issue keeps its title, fingerprint and resolution, and gets the state and the first and last release that
    follow from its releases as they are counted now.  When the rollups were right already, the row of the issue,
    with these, is all that may have changed. *)
Theorem repair_restores_the_rollups org p i o db report db' o' :
  repair_issue org p i o db = (Ok report, db', o') ->
  Tables.events db' = Tables.events db
  /\ Issue.rollup <$> Tables.issues db' !! i = rollup_of (members (in_issue i) db)
  /\ (forall v, Tables.variants db' !! (i, v) = rollup_of (members (in_variant (i, v)) db))
  /\ (forall r, Tables.issue_releases db' !! (i, r) = rollup_of (members (in_release (i, r)) db))
  /\ RepairIssueReport.events report = Z.of_nat (size (members (in_issue i) db))
  /\ (forall j, j <> i -> Tables.issues db' !! j = Tables.issues db !! j
        /\ forall k, Tables.variants db' !! (j, k) = Tables.variants db !! (j, k)
             /\ Tables.issue_releases db' !! (j, k) = Tables.issue_releases db !! (j, k))
  /\ (consistent db -> Tables.variants db' = Tables.variants db /\ Tables.issue_releases db' = Tables.issue_releases db)
  /\ exists r r', Tables.issues db !! i = Some r /\ Tables.issues db' !! i = Some r'
     /\ (let c := release_chronology (evidence_of i db') in
         let next := next_transition r c (rel ← Issue.resolved_in r; mjoin (Tables.releases db !! rel.1)) in
         r' = Issue.set_chronology (ReleaseChronology.first c) (ReleaseChronology.last c) next.1 next.2 (Issue.set_rollup (Issue.rollup r') r))
     /\ (consistent db -> Issue.rollup r' = Issue.rollup r /\ db' = Tables.set_issues <[i := r']> db).
Proof.
  intros H. assert (Hy : yields (repair_issue org p i) db report db') by (by exists o, o'). clear H.
  apply repair_issue_spec in Hy as (d & Hd & Ht & (row & Hrow & Hev) & _ & _).
  apply update_issue_transitions_spec in Ht as (r & Hr & ->). cbn zeta in Hrow. cbn in Hrow. rewrite lookup_insert_eq in Hrow.
  injection Hrow as <-. cbn in Hev. pose proof Hd as (He & Hrs & Hi & _ & Hv & Hrel).
  assert (exists s t, Tables.issues db !! i = Some s /\ rollup_of (members (in_issue i) db) = Some t /\ r = Issue.set_rollup t s)
    as (s & t & Hs & Hroll & ->).
  { rewrite Hi, decide_True in Hr by done. destruct (Tables.issues db !! i) as [s|]; [|done].
    destruct (rollup_of (members (in_issue i) db)) as [t|]; cbn in Hr; simplify_eq. by exists s, t. }
  cbn [Tables.set_issues Tables.events Tables.issues Tables.variants Tables.issue_releases]. split_and!.
  - done.
  - by rewrite lookup_insert_eq, Hroll.
  - intros v. by rewrite Hv, decide_True.
  - intros k. by rewrite Hrel, decide_True.
  - rewrite Hev. cbn. by apply rollup_of_summarises in Hroll as (_ & _ & ->).
  - intros j Hj. rewrite lookup_insert_ne by done. rewrite Hi, decide_False by done. split; [done|].
    intros k. by rewrite Hv, Hrel, !decide_False.
  - intros Hc. by rewrite (refreshed_consistent i db d Hc Hd).
  - eexists s, _. split; [done|]. split; [by rewrite lookup_insert_eq|]. split; [by rewrite Hrs|].
    intros Hc. rewrite (refreshed_consistent i db d Hc Hd). split; [|done]. destruct Hc as [[Hci _ _ _] _]. specialize (Hci i).
    rewrite Hs, Hroll in Hci. cbn in Hci. injection Hci as Hci. by rewrite Hci.
Qed.

(** * Samples *)

(** Two crashes of two releases with one fingerprint, published one after the other; the issue is resolved
    in the first release in between. *)
Definition an_event (at_ : Z) : Event.t := Event.Mk at_ Mapping.Pending EventGrouping.Pending.
Definition two_crashes : Tables.t :=
  Tables.Mk {[txt "a" := an_event 10; txt "b" := an_event 20]} ∅ ∅ ∅ {[txt "00000000-0000-0000-0000-000000000001" := Some 5%Z; txt "s" := Some 9%Z]}.
Definition release_one : text := txt "00000000-0000-0000-0000-000000000001".
Definition issue_one : text := txt "00000000-0000-0000-0000-000000000002".
Definition a_fingerprint (q : Z) : GroupingPublication.t :=
  GroupingPublication.Grouped {| Fingerprint.issue_fingerprint := txt "f"; Fingerprint.variant_fingerprint := txt "v";
    Fingerprint.title := txt "t"; Fingerprint.grouping_quality := q |}.
Definition publication (id release : text) (q : Z) : itx (option text) :=
  transaction database_unavailable (publish_grouping (Some issue_one) true id {| ReleaseResolution.candidates := [release] |} (a_fingerprint q)).
Definition one_published : Tables.t := (publication (txt "a") release_one 1 [] two_crashes).1.2.
Definition one_resolved : Tables.t := (resolve_issue 30 (Ok tt) issue_one (Some release_one) [] one_published).1.2.
Definition both_published : Tables.t := (publication (txt "b") (txt "s") 2 [] one_resolved).1.2.

Lemma run_state {S E A} (m : tx S E A) o (s : S) : m o s = ((m o s).1.1, (m o s).1.2, (m o s).2).
Proof. by destruct (m o s) as [[r t] o']. Qed.
Lemma run_result {S E A} (m : tx S E A) o (s : S) r : (m o s).1.1 = r -> m o s = (r, (m o s).1.2, (m o s).2).
Proof. intros <-. apply run_state. Qed.
Lemma run_yields {S E A} (m : tx S E A) (s : S) a : (m [] s).1.1 = Ok a -> yields m s a (m [] s).1.2.
Proof. intros H. exists [], (m [] s).2. by apply run_result. Qed.

Lemma sample_steps : rtc (Step (fun _ _ => True)) two_crashes both_published.
Proof.
  eapply rtc_l; [eexists; split; [|eapply Publish, run_state]; exact I|].
  eapply rtc_l; [eexists; split; [|eapply Resolve, run_state]; exact I|].
  eapply rtc_l; [eexists; split; [|eapply Publish, run_state]; exact I|]. apply rtc_refl.
Qed.

Lemma two_crashes_ungrouped id e : Tables.events two_crashes !! id = Some e -> Event.grouped e = false.
Proof.
  cbn. intros [[<- <-]|[_ H]]%lookup_insert_Some; [done|]. by apply lookup_singleton_Some in H as [<- <-].
Qed.

Lemma rollups_are_exact_witness :
  rollup_of (members (in_issue issue_one) both_published)
  = Some {| Rollup.first_seen_at := 10; Rollup.last_seen_at := 20; Rollup.event_count := 2; Rollup.representative := txt "b" |}.
Proof.
  destruct (rollups_are_exact _ two_crashes both_published eq_refl eq_refl eq_refl two_crashes_ungrouped sample_steps) as [H _].
  rewrite <-H. vm_compute. reflexivity.
Defined.

Lemma issues_reopen_for_a_reason_witness :
  exists r', Tables.issues both_published !! issue_one = Some r' /\ Issue.regression r' = Regression.Regressed
    /\ exists rel now z, Issue.resolved_in r' = Some (rel, now) /\ Tables.releases both_published !! rel = Some (Some z)
       /\ chronological (evidence_of issue_one both_published).
Proof.
  destruct (Tables.issues one_resolved !! issue_one) as [r|] eqn:E; [|vm_compute in E; discriminate].
  destruct (Tables.issues both_published !! issue_one) as [r'|] eqn:E'; [|vm_compute in E'; discriminate].
  exists r'. split; [done|].
  destruct (issues_reopen_for_a_reason
      (Operation.Publish (Some issue_one) true (txt "b") {| ReleaseResolution.candidates := [txt "s"] |} (a_fingerprint 2))
      one_resolved both_published issue_one r r') as [[Hop _]|[Hreg (rel & now & z & H1 & H2 & _ & H3 & _)]];
    [eapply Publish, run_state|done|done| | |discriminate Hop|].
  - vm_compute in E. injection E as <-. reflexivity.
  - vm_compute in E'. injection E' as <-. reflexivity.
  - split; [exact Hreg|]. exists rel, now, z. split; [exact H1|]. split; [exact H2|exact H3].
Defined.

(** Tables whose rollups were lost. *)
Definition damaged : Tables.t := Tables.set_issue_releases (fun _ => ∅) (Tables.set_variants (fun _ => ∅) both_published).

Lemma repair_restores_the_rollups_witness :
  Tables.variants (repair_issue release_one release_one issue_one [] damaged).1.2 !! (issue_one, txt "v")
  = Some {| Rollup.first_seen_at := 10; Rollup.last_seen_at := 20; Rollup.event_count := 2; Rollup.representative := txt "b" |}.
Proof.
  destruct (repair_restores_the_rollups release_one release_one issue_one [] damaged {| RepairIssueReport.events := 2; RepairIssueReport.variants := 1; RepairIssueReport.releases := 2 |}
    (repair_issue release_one release_one issue_one [] damaged).1.2 (repair_issue release_one release_one issue_one [] damaged).2) as (_ & _ & Hv & _).
  - apply run_result. vm_compute. reflexivity.
  - rewrite Hv. vm_compute. reflexivity.
Defined.

Lemma handlers_agree_with_publication_witness :
  exists r, Tables.issues (update_issue_transitions issue_one true [] one_resolved).1.2 !! issue_one = Some r
    /\ Issue.status r = Status.Resolved /\ Issue.regression r = Regression.Resolved /\ Issue.resolved_in r = Some (release_one, 30%Z).
Proof.
  apply (handlers_agree_with_publication issue_one one_published
    (ResolutionView.Mk issue_one Status.Resolved Regression.Resolved (Some (release_one, 30%Z))) one_resolved tt).
  - left. exists 30%Z, (Ok tt), (Some release_one). apply run_yields. vm_compute. reflexivity.
  - apply run_yields. vm_compute. reflexivity.
Defined.
