(* ===== verification/Checks.v ===== *)
(** The checks of the tables of issues ([migrations/20260814170000_crash_grouping.sql]) and why no statement of
    the workers, the repair or the handlers violates one.  An interrupted run of the statements of a transaction
    ends in the tables that the transaction had then, so a check that holds wherever a run is interrupted
    holds after every statement. *)

From S2P Require Import Prelude Text Json Identifiers Auth Grouping Store Jobs Issues Rollups Publications Resolution Lifecycle Fingerprints.

(** * The checks *)

(** [^[a-f0-9]{64}$] and [^[a-z][a-z0-9_]{0,31}$]. *)
Definition lower_hex_char (c : char) : bool := ((48 <=? c) && (c <=? 57) || (97 <=? c) && (c <=? 102))%N.
Definition is_sha256_hex (s : text) : bool := (length s =? 64)%nat && forallb lower_hex_char s.
Definition lower_letter (c : char) : bool := ((97 <=? c) && (c <=? 122))%N.
Definition is_algorithm (s : text) : bool :=
  match s with
  | [] => false
  | c :: s => lower_letter c && (length s <=? 31)%nat
              && forallb (fun c => lower_letter c || (48 <=? c)%N && (c <=? 57)%N || (c =? 95)%N) s
  end.

Definition rollup_checks (r : Rollup.t) : bool :=
  (0 <? Rollup.event_count r)%Z && (Rollup.first_seen_at r <=? Rollup.last_seen_at r)%Z.

(** The columns of a resolution are set together, by their type. *)
Definition resolution_checks (s : Status.t) (g : Regression.t) (resolved_in : option (text * Z)) : bool :=
  (negb (bool_decide (s = Status.Resolved)) || negb (is_none resolved_in))
  && (negb (bool_decide (g = Regression.Resolved)) || bool_decide (s = Status.Resolved))
  && (negb (bool_decide (g = Regression.Regressed)) || bool_decide (s = Status.Open) && negb (is_none resolved_in)).
Definition title_checks (title : text) : bool := (1 <=? length title)%nat && (length title <=? 200)%nat.
Definition issue_checks (i : Issue.t) : bool :=
  is_algorithm (Issue.fingerprint_algorithm i) && (0 <? Issue.fingerprint_version i)%Z && is_sha256_hex (Issue.fingerprint i)
  && title_checks (Issue.title i) && rollup_checks (Issue.rollup i)
  && resolution_checks (Issue.status i) (Issue.regression i) (Issue.resolved_in i).
Definition grouping_checks (g : EventGrouping.t) : bool :=
  match g with
  | EventGrouping.Grouped _ f v q => is_sha256_hex f && is_sha256_hex v && (0 <=? q)%Z
  | _ => true
  end.

Record checks (db : Tables.t) : Prop := {
  check_issues i r : Tables.issues db !! i = Some r -> issue_checks r = true;
  check_events id e : Tables.events db !! id = Some e -> grouping_checks (Event.grouping e) = true;
  check_variants k r : Tables.variants db !! k = Some r -> is_sha256_hex k.2 = true /\ rollup_checks r = true;
  check_releases k r : Tables.issue_releases db !! k = Some r -> rollup_checks r = true }.

(** ** Groups of results *)

Definition label_checks (f : Fingerprint.t) : bool :=
  is_sha256_hex (Fingerprint.issue_fingerprint f) && is_sha256_hex (Fingerprint.variant_fingerprint f)
  && title_checks (Fingerprint.title f) && (0 <=? Fingerprint.grouping_quality f)%Z.
Definition publishable (g : GroupingPublication.t) : Prop :=
  match g with GroupingPublication.Grouped f => label_checks f = true | _ => True end.

Section results.
Context {U : Unicode} {H : Sha256}.

(** The groupings that the worker publishes come from results. *)
Definition from_results (enabled : bool) (g : GroupingPublication.t) : Prop := exists v, grouping_publication enabled v = Ok g.

Lemma hex2_lower b : forallb lower_hex_char (hex2 false b) = true.
Proof. destruct b; vm_compute; reflexivity. Qed.
Lemma hex2s_lower bs : forallb lower_hex_char (hex2s false bs) = true.
Proof. unfold hex2s. induction bs as [|b bs IH]; [done|]. cbn [map concat]. by rewrite forallb_app, hex2_lower, IH. Qed.
Lemma digest_checks domain c : (forall x, length (sha256 x) = 32%nat) -> is_sha256_hex (digest domain c) = true.
Proof. intros Hs. unfold is_sha256_hex, digest, lower_hex. by rewrite len_hex2s, Hs, hex2s_lower. Qed.

Lemma from_results_publishable enabled g : (forall x, length (sha256 x) = 32%nat) -> from_results enabled g -> publishable g.
Proof.
  intros Hs [v Hv]. unfold grouping_publication in Hv. destruct (negb enabled); [by injection Hv as <-|].
  destruct (fingerprint v) as [[f|]|] eqn:Ef; simplify_eq; try done. cbn.
  destruct (titles_are_safe v f Ef) as (Hne & Hlen & _). destruct (quality_ranks_the_evidence v f Ef) as (e & _ & Hq). cbn zeta in Hq.
  apply fingerprint_Grouped in Ef as (e' & _ & _ & E1 & E2 & _). unfold label_checks, title_checks, MAX_TITLE_CHARS in *.
  rewrite E1, E2, !digest_checks by done. cbn [andb]. rewrite !andb_true_iff, Z.leb_le, !Nat.leb_le.
  destruct (Fingerprint.title f); [done|]. cbn [length] in *. split_and!; [lia..|]. destruct Hq as [H1|[H1|[H1|H1]]]; lia.
Qed.
End results.

(** * Every statement keeps the checks *)

(** The tables where a run of the statements of an operation was interrupted, or ended. *)
Inductive Interrupted : Operation.t -> Tables.t -> Tables.t -> Prop :=
| in_receive id received_at db : Tables.events db !! id = None ->
    Interrupted (Operation.Receive id received_at) db (Tables.set_events <[id := Event.Mk received_at Mapping.Pending EventGrouping.Pending]> db)
| in_publish random enabled id release grouping o db :
    Interrupted (Operation.Publish random enabled id release grouping) db (publish_grouping random enabled id release grouping o db).1.2
| in_announce id stamp db :
    Interrupted (Operation.Announce id stamp) db
      (Tables.Mk (Tables.events db) (Tables.issues db) (Tables.variants db) (Tables.issue_releases db) (<[id := stamp]> (Tables.releases db)))
| in_repair organization_id project_id issue_id o db :
    Interrupted (Operation.Repair organization_id project_id issue_id) db (repair_statements issue_id o db).1.2
| in_resolve now answer issue_id release_id o db :
    Interrupted (Operation.Resolve now answer issue_id (Some release_id)) db (resolve_statements now issue_id release_id o db).1.2
| in_reopen answer issue_id o db :
    Interrupted (Operation.Reopen answer issue_id) db (reopen_statements issue_id o db).1.2.

Lemma preserves_run {S E A} (P : S -> Prop) (m : tx S E A) o s : preserves P m -> P s -> P (m o s).1.2.
Proof. intros Hm Hs. specialize (Hm o s Hs). by destruct (m o s) as [[[a|e] s'] o']. Qed.

Lemma checks_issue db i r : checks db -> issue_checks r = true -> checks (Tables.set_issues <[i := r]> db).
Proof. intros [H1 H2 H3 H4] Hr. split; cbn; [|done..]. intros j s [[_ <-]|[_ Hs]]%lookup_insert_Some; [done|by eapply H1]. Qed.
Lemma checks_event db i e : checks db -> grouping_checks (Event.grouping e) = true -> checks (Tables.set_events <[i := e]> db).
Proof. intros [H1 H2 H3 H4] Hr. split; cbn; [done| |done..]. intros j s [[_ <-]|[_ Hs]]%lookup_insert_Some; [done|by eapply H2]. Qed.
Lemma checks_variant db k r :
  checks db -> is_sha256_hex k.2 = true -> rollup_checks r = true -> checks (Tables.set_variants <[k := r]> db).
Proof. intros [H1 H2 H3 H4] Hk Hr. split; cbn; [done|done| |done]. intros j s [[<- <-]|[_ Hs]]%lookup_insert_Some; [done|by eapply H3]. Qed.
Lemma checks_release db k r : checks db -> rollup_checks r = true -> checks (Tables.set_issue_releases <[k := r]> db).
Proof. intros [H1 H2 H3 H4] Hr. split; cbn; [done..|]. intros j s [[_ <-]|[_ Hs]]%lookup_insert_Some; [done|by eapply H4]. Qed.
#[export] Hint Resolve checks_issue checks_event checks_variant checks_release : checks.

Lemma issue_checks_split i :
  issue_checks i = true <->
  (is_algorithm (Issue.fingerprint_algorithm i) && (0 <? Issue.fingerprint_version i)%Z && is_sha256_hex (Issue.fingerprint i)
    && title_checks (Issue.title i) = true)
  /\ rollup_checks (Issue.rollup i) = true /\ resolution_checks (Issue.status i) (Issue.regression i) (Issue.resolved_in i) = true.
Proof. unfold issue_checks. rewrite !andb_true_iff. tauto. Qed.
Lemma issue_checks_rollup r i : issue_checks i = true -> rollup_checks r = true -> issue_checks (Issue.set_rollup r i) = true.
Proof. rewrite !issue_checks_split. cbn. tauto. Qed.
Lemma issue_checks_chronology a b s g i :
  issue_checks i = true -> resolution_checks s g (Issue.resolved_in i) = true -> issue_checks (Issue.set_chronology a b s g i) = true.
Proof. rewrite !issue_checks_split. cbn. tauto. Qed.
Lemma issue_checks_resolution s g x i :
  issue_checks i = true -> resolution_checks s g x = true -> issue_checks (Issue.set_resolution s g x i) = true.
Proof. rewrite !issue_checks_split. cbn. tauto. Qed.

Lemma rollup_checks_iff r : rollup_checks r = true <-> (0 < Rollup.event_count r /\ Rollup.first_seen_at r <= Rollup.last_seen_at r)%Z.
Proof. unfold rollup_checks. by rewrite andb_true_iff, Z.ltb_lt, Z.leb_le. Qed.
Lemma entered_checks id e : rollup_checks (entered id e) = true.
Proof. apply rollup_checks_iff. cbn. lia. Qed.
Lemma rollup_of_checks g r : rollup_of g = Some r -> rollup_checks r = true.
Proof.
  intros (Hb & Hbd & Hc)%rollup_of_summarises. destruct Hbd as ((i & p & Hp & Hpa) & _ & Hall). apply rollup_checks_iff. split.
  - rewrite Hc. assert (size g <> 0%nat) by (intros H%map_size_empty_inv; subst g; by rewrite lookup_empty in Hp). lia.
  - specialize (Hall _ _ Hp). lia.
Qed.
Lemma bounds_of_le g a b : bounds_of g = Some (a, b) -> (a <= b)%Z.
Proof. intros ((i & p & Hp & <-) & _ & Hall)%bounds_of_bounded. specialize (Hall _ _ Hp). lia. Qed.
Lemma upserted_checks old new db r :
  upserted old new db = Ok r -> (forall o, old = Some o -> rollup_checks o = true) -> rollup_checks new = true -> rollup_checks r = true.
Proof.
  unfold upserted. destruct old as [old|]; [|by intros [= <-]]. intros Hu Hold Hnew. specialize (Hold old eq_refl).
  destruct (among _ db); [|done]. injection Hu as <-. rewrite rollup_checks_iff in *. cbn. lia.
Qed.

(** ** The statements of a publication *)

Lemma update_event_checks id p f :
  (forall e, grouping_checks (Event.grouping e) = true -> grouping_checks (Event.grouping (f e)) = true) -> preserves checks (update_event id p f).
Proof.
  intros Hf. apply preserves_statement. intros db a db' Hc E. destruct (Tables.events db !! id) as [e|] eqn:He; [|by simplify_eq].
  destruct (p e); simplify_eq; [|done]. apply checks_event; [done|]. by eapply Hf, check_events.
Qed.

Lemma record_release_mapping_checks id release : preserves checks (record_release_mapping id release).
Proof.
  unfold record_release_mapping, updated_or. apply preserves_bind; [by apply preserves_execute|intros _].
  apply preserves_bind; [apply preserves_if; [apply preserves_ret|by apply preserves_execute]|intros _].
  apply preserves_bind; [|intros ?; apply preserves_lift]. apply preserves_statement. intros db a db' Hc E.
  destruct (Tables.events db !! id) as [e|] eqn:He; [|by simplify_eq]. destruct (release_exists _ db); simplify_eq.
  apply checks_event; [done|]. cbn. by eapply check_events.
Qed.

Lemma label_checks_split f :
  label_checks f = true -> is_sha256_hex (Fingerprint.issue_fingerprint f) = true /\ is_sha256_hex (Fingerprint.variant_fingerprint f) = true
  /\ title_checks (Fingerprint.title f) = true /\ (0 <=? Fingerprint.grouping_quality f)%Z = true.
Proof. unfold label_checks. rewrite !andb_true_iff. tauto. Qed.

Lemma insert_issue_checks i id f : label_checks f = true -> preserves checks (insert_issue i id f).
Proof.
  intros (H1 & H2 & H3 & H4)%label_checks_split. apply preserves_statement. intros db a db' Hc E.
  destruct (Tables.events db !! id) as [e|]; [|by simplify_eq]. destruct (issue_with _ db); [by simplify_eq|].
  destruct (is_none _); simplify_eq. apply checks_issue; [done|]. apply issue_checks_split. unfold new_issue.
  cbn [Issue.fingerprint_algorithm Issue.fingerprint_version Issue.fingerprint Issue.title Issue.rollup Issue.status Issue.regression Issue.resolved_in].
  rewrite H1, H3, entered_checks. split; [by vm_compute|done].
Qed.

Lemma enter_issue_checks id i : preserves checks (enter_issue id i).
Proof.
  apply preserves_statement. intros db a db' Hc E. destruct (Tables.events db !! id) as [e|]; [|by simplify_eq].
  destruct (Tables.issues db !! i) as [r|] eqn:Hr; cbv zeta in E; simplify_eq; [|done]. pose proof (check_issues _ Hc _ _ Hr) as Hi.
  apply checks_issue, issue_checks_rollup; [done|done|]. apply issue_checks_split in Hi as (_ & Hi & _). rewrite rollup_checks_iff in *. cbn. lia.
Qed.

Lemma enter_variant_checks id : preserves checks (enter_variant id).
Proof.
  apply preserves_statement. intros db a db' Hc E. destruct (Tables.events db !! id) as [e|] eqn:He; [|by simplify_eq].
  pose proof (check_events _ Hc _ _ He) as Hg. apply bind_Ok in E as (k & Hk%ok_or_Ok & E). apply bind_Ok in E as (r & Hr & E). simplify_eq.
  unfold Event.issue_id, Event.variant in Hk. destruct (Event.grouping e) as [| | |i f v q]; try done. cbn in Hk. injection Hk as <-.
  cbn in Hg. rewrite !andb_true_iff in Hg. apply checks_variant; [done|tauto|]. eapply upserted_checks; [exact Hr| |apply entered_checks].
  intros x Hx. by eapply check_variants.
Qed.

Lemma assign_issue_checks random id f at_ : label_checks f = true -> preserves checks (assign_issue random id f at_).
Proof.
  intros Hf. unfold assign_issue, updated_or, raise.
  repeat first [by apply insert_issue_checks | apply update_event_checks; intros e _ | apply enter_issue_checks | apply enter_variant_checks | preserve_step].
  apply label_checks_split in Hf as (H1 & H2 & _ & H4). cbn -[is_sha256_hex]. by rewrite H1, H2, H4.
Qed.

Lemma apply_grouping_checks random id x g : publishable g -> preserves checks (apply_grouping random id x g).
Proof.
  intros Hg. unfold apply_grouping, updated_or. case_decide; [preserve|].
  destruct g; [| |by apply assign_issue_checks]; repeat first [apply update_event_checks; by intros | preserve_step].
Qed.

Lemma add_release_membership_checks id i r : preserves checks (add_release_membership id i r).
Proof.
  unfold add_release_membership, updated_or. apply preserves_bind; [|intros ?; apply preserves_lift].
  apply preserves_statement. intros db a db' Hc E. destruct (Tables.events db !! id) as [e|]; [|by simplify_eq].
  destruct (in_release _ e); [|by simplify_eq]. apply bind_Ok in E as (x & Hx & E). simplify_eq. apply checks_release; [done|].
  eapply upserted_checks; [exact Hx| |apply entered_checks]. intros y Hy. by eapply check_releases.
Qed.

Lemma delete_single_checks k : preserves checks (delete_single k).
Proof.
  apply preserves_statement. intros db a db' Hc E. destruct (Tables.issue_releases db !! k) as [r|]; [|by simplify_eq].
  destruct (_ =? _)%Z; simplify_eq; [|done]. destruct Hc as [H1 H2 H3 H4]. split; cbn; [done..|].
  intros j s [_ Hs]%lookup_delete_Some. by eapply H4.
Qed.

Definition ordered (r : Rollup.t) : Prop := (Rollup.first_seen_at r <= Rollup.last_seen_at r)%Z.
Lemma decrement_checks k :
  triple checks (decrement k) (fun row db => checks db /\ forall r, row = Some r -> ordered r) (fun _ => checks).
Proof.
  apply triple_statement; [done| |done]. intros db a db' Hc E. destruct (Tables.issue_releases db !! k) as [r|] eqn:Hr; [|by simplify_eq].
  pose proof (check_releases _ Hc _ _ Hr) as Hk%rollup_checks_iff. destruct (Z.ltb_spec 1 (Rollup.event_count r)); cbv zeta in E; simplify_eq; [|by split].
  split; [|intros ? [= <-]; unfold ordered; cbn; lia]. apply checks_release; [done|]. apply rollup_checks_iff. cbn. lia.
Qed.

Lemma remove_release_membership_checks id i r at_ : preserves checks (remove_release_membership id i r at_).
Proof.
  unfold remove_release_membership, updated_or. apply preserves_bind; [apply delete_single_checks|intros []; [apply preserves_ret|]].
  eapply triple_bind; [apply decrement_checks|intros row]. apply triple_pure. intros Hrow.
  eapply (triple_bind _ _ _ _ _ (fun r db => checks db /\ ordered r)).
  { apply triple_lift; [|done]. intros db x Hc ->%ok_or_Ok. auto. }
  intros x. apply triple_pure. intros Hx. cbv zeta. destruct (_ && _); [apply preserves_ret|].
  apply preserves_bind; [destruct (bool_decide _); preserve|intros replacement].
  eapply (triple_bind _ _ _ _ _ (fun b db => checks db /\ (b.1 <= b.2)%Z)).
  - destruct (_ || _); [|by apply triple_ret].
    apply (triple_bind _ _ _ _ _ (fun b db => checks db /\ forall c, b = Some c -> (c.1 <= c.2)%Z)).
    + apply triple_select; [done|]. intros db Hc. split; [done|]. intros [] Hb. by apply bounds_of_le in Hb.
    + intros b. apply triple_pure. intros Hb. apply triple_lift; [|done]. intros db c Hc ->%ok_or_Ok. auto.
  - intros b. apply triple_pure. intros Hb. apply preserves_bind; [|intros ?; apply preserves_lift]. apply preserves_statement.
    intros db a db' Hc E. destruct (Tables.issue_releases db !! _) as [y|] eqn:Hy; simplify_eq; [|done]. apply checks_release; [done|].
    pose proof (check_releases _ Hc _ _ Hy) as Hk. rewrite rollup_checks_iff in *. cbn. lia.
Qed.

Lemma apply_release_delta_checks id a r : preserves checks (apply_release_delta id a r).
Proof.
  unfold apply_release_delta. repeat first [apply remove_release_membership_checks | apply add_release_membership_checks | preserve_step].
Qed.

(** ** The state of an issue *)

Lemma next_transition_checks i c z :
  resolution_checks (Issue.status i) (Issue.regression i) (Issue.resolved_in i) = true ->
  resolution_checks (next_transition i c z).1 (next_transition i c z).2 (Issue.resolved_in i) = true.
Proof.
  intros Hi. unfold next_transition. destruct (Issue.status i) eqn:Es, (Issue.resolved_in i) as [[rel t]|] eqn:Er;
    repeat case_match; try (by vm_compute); by destruct (Issue.regression i).
Qed.

Definition issue_is (i : text) (r : Issue.t) (db : Tables.t) : Prop := checks db /\ Tables.issues db !! i = Some r.

Lemma update_issue_chronology_checks i r c s g :
  resolution_checks s g (Issue.resolved_in r) = true ->
  triple (issue_is i r) (update_issue_chronology i c s g) (fun _ => checks) (fun _ => checks).
Proof.
  intros Hr. unfold update_issue_chronology, updated_or. apply (triple_bind _ _ _ _ _ (fun _ => checks)); [|intros ?; apply preserves_lift].
  apply triple_statement; [by intros db []| |by intros db x []]. intros db a db' [Hc Hi] E. rewrite Hi in E. simplify_eq.
  apply checks_issue; [done|]. apply issue_checks_chronology; [|done]. by eapply check_issues.
Qed.

Lemma update_issue_transitions_checks i enabled : preserves checks (update_issue_transitions i enabled).
Proof.
  unfold update_issue_transitions.
  apply (triple_bind _ _ _ _ _ (fun row db => checks db /\ row = Tables.issues db !! i)); [by apply triple_select|intros row].
  apply (triple_bind _ _ _ _ _ (fun r db => issue_is i r db)); [apply triple_lift; [|by intros db e []]|intros r].
  { intros db r [Hc Hrow] ->%ok_or_Ok. by split. }
  apply (triple_bind _ _ _ _ _ (fun _ => issue_is i r)); [apply triple_select; [by intros db []|done]|intros c].
  assert (Hok : forall s g, (forall db, issue_is i r db -> resolution_checks s g (Issue.resolved_in r) = true) ->
            triple (issue_is i r) (update_issue_chronology i c s g) (fun _ => checks) (fun _ => checks)).
  { intros s g Hs o db Hdb. by apply (update_issue_chronology_checks i r c s g (Hs db Hdb)). }
  assert (Hr : forall db, issue_is i r db -> resolution_checks (Issue.status r) (Issue.regression r) (Issue.resolved_in r) = true).
  { intros db [Hc Hi]. by eapply issue_checks_split, check_issues. }
  destruct enabled; cbn [negb]; [|by apply Hok].
  apply (triple_bind _ _ _ _ _ (fun _ => issue_is i r)).
  { destruct (Issue.resolved_in r) as [[rel t]|]; [apply triple_select; [by intros db []|done]|by apply triple_ret]. }
  intros z. pose proof (next_transition_checks r c z) as Hn. destruct (next_transition r c z) as [s g]. apply Hok. intros db Hdb. by apply Hn, (Hr db).
Qed.

Lemma publish_grouping_checks random enabled id release g : publishable g -> preserves checks (publish_grouping random enabled id release g).
Proof.
  intros Hg. unfold publish_grouping, lock_event.
  repeat first [apply record_release_mapping_checks | by apply apply_grouping_checks | apply apply_release_delta_checks
               | apply update_issue_transitions_checks | preserve_step].
Qed.

(** ** Repair, resolution and the handlers *)

Lemma in_variant_checks db k id e : checks db -> Tables.events db !! id = Some e -> in_variant k e = true -> is_sha256_hex k.2 = true.
Proof.
  intros Hc He Hk. pose proof (check_events _ Hc _ _ He) as Hg.
  unfold in_variant, Event.variant in Hk. apply andb_true_iff in Hk as [_ Hk%bool_decide_eq_true].
  destruct (Event.grouping e) as [| | |i f v q]; try done. injection Hk as <-. cbn in Hg. rewrite !andb_true_iff in Hg. tauto.
Qed.

Lemma grouped_variant_checks db i k r :
  checks db -> groups i Event.variant in_variant db !! k = Some r -> is_sha256_hex k.2 = true /\ rollup_checks r = true.
Proof.
  intros Hc Hk. rewrite groups_lookup in Hk by apply in_variant_key. destruct (decide (k.1 = i)) as [_|]; [|done]. split; [|by eapply rollup_of_checks].
  apply rollup_of_summarises in Hk as (_ & ((id & p & Hp & _) & _) & _). apply members_Some in Hp as (e & He & Hv & _).
  by eapply (in_variant_checks db (i, k.2)).
Qed.
Lemma grouped_release_checks db i k r : groups i Event.release_id in_release db !! k = Some r -> rollup_checks r = true.
Proof. intros Hk. rewrite groups_lookup in Hk by apply in_release_key. destruct (decide (k.1 = i)); [by eapply rollup_of_checks|done]. Qed.

Lemma refresh_issue_memberships_checks i : preserves checks (refresh_issue_memberships i).
Proof.
  unfold refresh_issue_memberships, updated_or. repeat (apply preserves_bind; [|intros _]); [..|apply preserves_bind; [|intros ?; apply preserves_lift]].
  - apply preserves_execute. intros db [H1 H2 H3 H4]. split; cbn; [done..| |done]. intros k r [Hk _]%map_lookup_filter_Some. by eapply H3.
  - apply preserves_execute. intros db Hc. pose proof Hc as [H1 H2 H3 H4]. split; cbn; [done..| |done].
    intros k r [Hk|[_ Hk]]%lookup_union_Some_raw; [by eapply grouped_variant_checks|by eapply H3].
  - apply preserves_execute. intros db [H1 H2 H3 H4]. split; cbn; [done..|]. intros k r [Hk _]%map_lookup_filter_Some. by eapply H4.
  - apply preserves_execute. intros db Hc. pose proof Hc as [H1 H2 H3 H4]. split; cbn; [done..|].
    intros k r [Hk|[_ Hk]]%lookup_union_Some_raw; [by eapply grouped_release_checks|by eapply H4].
  - apply preserves_statement. intros db x db' Hc E. destruct (rollup_of (members (in_issue i) db)) as [t|] eqn:Ht; [|by simplify_eq].
    destruct (Tables.issues db !! i) as [r|] eqn:Hr; simplify_eq; [|done]. apply checks_issue, issue_checks_rollup; [done| |].
    + by eapply check_issues.
    + by eapply rollup_of_checks.
Qed.

Lemma repair_statements_checks i : preserves checks (repair_statements i).
Proof.
  unfold repair_statements.
  repeat first [apply refresh_issue_memberships_checks | apply update_issue_transitions_checks | preserve_step].
Qed.

Lemma set_resolution_checks i s g x : resolution_checks s g x = true -> preserves checks (set_resolution i s g x).
Proof.
  intros Hr. apply preserves_statement. intros db a db' Hc E. destruct (Tables.issues db !! i) as [r|] eqn:Hi; simplify_eq.
  apply checks_issue; [done|]. apply issue_checks_resolution; [by eapply check_issues|done].
Qed.
Lemma resolve_statements_checks now i release : preserves checks (resolve_statements now i release).
Proof.
  unfold resolve_statements, lock_issue, has_provably_later_release. repeat (apply preserves_bind; [repeat preserve_step|intros ?]).
  by match goal with |- context [if ?b then _ else _] => destruct b end; apply set_resolution_checks.
Qed.
Lemma reopen_statements_checks i : preserves checks (reopen_statements i).
Proof.
  unfold reopen_statements, lock_issue. apply preserves_bind; [repeat preserve_step|intros _].
  apply (triple_bind _ _ _ _ _ (fun g db => checks db /\ resolution_checks Status.Open g None = true)).
  - unfold retained_regression_state. apply (triple_bind _ _ _ _ _ (fun _ => checks)); [by apply triple_select|intros c].
    apply triple_ret. intros db Hc. split; [done|]. by repeat case_match.
  - intros g. apply triple_pure. intros Hg. by apply set_resolution_checks.
Qed.

Lemma interrupted_checks op db db' : Interrupted op db db' -> admitted (fun _ g => publishable g) op -> checks db -> checks db'.
Proof.
  intros [id at_ d Hd|random enabled id release g o d|id stamp d|org p i o d|now ans i release o d|ans i o d] Hop Hc.
  - by apply checks_event.
  - apply preserves_run; [by apply publish_grouping_checks|done].
  - by destruct Hc.
  - apply preserves_run; [apply repair_statements_checks|done].
  - apply preserves_run; [apply resolve_statements_checks|done].
  - apply preserves_run; [apply reopen_statements_checks|done].
Qed.

Lemma preserves_of_transaction {S E A} (P : S -> Prop) e (body : tx S E A) : preserves P body -> preserves P (transaction e body).
Proof. intros Hb. apply preserves_transaction. by apply preserves_triple. Qed.

Lemma step_checks publishes db db' :
  (forall enabled g, publishes enabled g -> publishable g) -> Step publishes db db' -> checks db -> checks db'.
Proof.
  intros Hp (op & Hop & Hr) Hc. destruct Hr as [id at_ d Hd|random enabled id release g o d r d' o' H|id stamp d|org p i o d r d' o' H
    |now ans i payload o d r d' o' H|ans i o d r d' o' H].
  - by apply checks_event.
  - eapply preserves_run in Hc; [rewrite H in Hc; exact Hc|]. apply preserves_of_transaction, publish_grouping_checks. by eapply Hp.
  - by destruct Hc.
  - eapply preserves_run in Hc; [rewrite H in Hc; exact Hc|]. apply preserves_bind; [apply preserves_lift|intros _].
    apply preserves_of_transaction, repair_statements_checks.
  - eapply preserves_run in Hc; [rewrite H in Hc; exact Hc|]. repeat (apply preserves_bind; [apply preserves_lift|intros ?]).
    apply preserves_of_transaction, resolve_statements_checks.
  - eapply preserves_run in Hc; [rewrite H in Hc; exact Hc|]. repeat (apply preserves_bind; [apply preserves_lift|intros ?]).
    apply preserves_of_transaction, reopen_statements_checks.
Qed.

(** C11: the rows of issues are well formed, after every statement.  From tables that satisfy their checks,
    whatever arrives, is published, repaired, resolved or reopened, in whatever order and with any failures,
    where the published groups are those of results: wherever the statements of a further operation are
    interrupted, and so after every one of them, the checks of the issues, their variants and releases and
    of the grouping of crashes hold.  Fingerprints are 64 hexadecimal digits, titles have 1 to 200
    characters, every row counts at least one crash, between its first and its last time, a resolved issue names
    the release that resolves it, only a resolved issue has the resolved regression state, and a regressed issue is
    open and keeps the resolution that it broke.  SHA-256 digests have 32 bytes. *)
Theorem issue_rows_are_well_formed {U : Unicode} {H : Sha256} db db1 op db' :
  (forall x, length (sha256 x) = 32%nat) -> checks db -> rtc (Step from_results) db db1 ->
  admitted from_results op -> Interrupted op db1 db' -> checks db1 /\ checks db'.
Proof.
  intros Hs Hc Hsteps Hop Hi.
  assert (Hpub : forall enabled g, from_results enabled g -> publishable g) by (intros; by eapply from_results_publishable).
  assert (Hc1 : checks db1) by (clear Hi; induction Hsteps as [|d1 d2 d3 Hstep _ IH]; [done|apply IH; by eapply step_checks]).
  split; [done|]. eapply interrupted_checks; [done| |done]. destruct op; try done. cbn in *. by eapply Hpub.
Qed.

(** * A sample *)

(** The publication of a result, interrupted after its crash was assigned and before the variant was counted. *)
#[local] Instance ascii_only : Unicode := {| unicode_alphanumeric := fun _ => false |}.
#[local] Instance short_digest : Sha256 := {| sha256 := fun x => take 32 (x ++ repeat Byte.x00 32) |}.
Lemma short_digest_length x : length (sha256 x) = 32%nat.
Proof. unfold sha256, short_digest. rewrite length_take, length_app, repeat_length. lia. Qed.

Definition tick_group : GroupingPublication.t := match grouping_publication true tick with Ok g => g | Err _ => GroupingPublication.Insufficient end.
Lemma tick_from_results : from_results true tick_group.
Proof. exists tick. by vm_compute. Qed.

Definition interrupted_tables : Tables.t :=
  (publish_grouping (Some issue_one) true (txt "a") {| ReleaseResolution.candidates := [] |} tick_group
     [false; false; false; false; false; true] two_crashes).1.2.

Lemma two_crashes_checks : checks two_crashes.
Proof.
  split; cbn; try (intros ? ? E; by rewrite lookup_empty in E).
  intros id e [[<- <-]|[_ E]]%lookup_insert_Some; [done|]. by apply lookup_singleton_Some in E as [<- <-].
Qed.

Lemma issue_rows_are_well_formed_witness :
  match Tables.issues interrupted_tables !! issue_one with Some r => issue_checks r = true | None => False end.
Proof.
  destruct (issue_rows_are_well_formed two_crashes two_crashes
    (Operation.Publish (Some issue_one) true (txt "a") {| ReleaseResolution.candidates := [] |} tick_group) interrupted_tables)
    as [_ [Hi _ _ _]].
  - exact short_digest_length.
  - exact two_crashes_checks.
  - apply rtc_refl.
  - exact tick_from_results.
  - apply in_publish.
  - destruct (Tables.issues interrupted_tables !! issue_one) as [r|] eqn:E; [exact (Hi _ _ E)|]. vm_compute in E. discriminate.
Defined.
