(* ===== verification/Usage.v ===== *)
(** Usage ([apps/server/src/usage.rs]): the policy of a project and its versions, the admission of
    crashes under it, the ledger and the counters of what was stored, and the settings.  The tables are the
    rows of one project, to which every statement is restricted, with the object store beside them.  The
    start of the billing month, which every operation asks the database for, is an argument. *)

From S2P Require Import Prelude Text Identifiers Auth Store Jobs.

Definition OVERAGE_BLOCK_EVENTS : Z := 100000.
Definition OVERAGE_BLOCK_CENTS : Z := 1500.
Definition RAW_RESERVOIR_RATE : Z := 100.

(** * Tables *)

Module UsagePolicy.
Record t : Type := Mk {
  version : Z; event_limit : Z; artifact_storage_limit_bytes : Z; project_limit : Z;
  normalized_retention_limit_days : Z; raw_retention_limit_days : Z; normalized_retention_days : Z;
  raw_retention_days : Z; courtesy_percent : Z; spend_cap_cents : option Z; retain_all_raw : bool }.
(** The defaults of the table. *)
Definition default : t := Mk 1 10000 25000000000 1 30 7 30 7 20 None false.
(** The checks of the table. *)
Definition valid (p : t) : bool :=
  ((0 <? version p) && is_i64 (version p) && (0 <? event_limit p) && is_i64 (event_limit p)
  && (0 <? artifact_storage_limit_bytes p) && (0 <? project_limit p)
  && (1 <=? normalized_retention_days p) && (normalized_retention_days p <=? normalized_retention_limit_days p)
  && (normalized_retention_limit_days p <=? 3650)
  && (1 <=? raw_retention_days p) && (raw_retention_days p <=? raw_retention_limit_days p)
  && (raw_retention_limit_days p <=? 3650) && (0 <=? courtesy_percent p) && (courtesy_percent p <=? 100)
  && is_none_or (spend_cap_cents p) (fun c => (1500 <=? c) && (c <=? 10000000)))%Z.
End UsagePolicy.

Module Outcome.
Inductive t : Type := Standard | Courtesy | Overage | Sampling.
Definition text_of (o : t) : text :=
  match o with Standard => txt "standard" | Courtesy => txt "courtesy" | Overage => txt "overage" | Sampling => txt "sampling" end.
End Outcome.
#[export] Instance Outcome_eq_dec : EqDecision Outcome.t.
Proof. solve_decision. Defined.

Module RetentionClass.
Inductive t : Type :=
| Pending | Standard | Novel | Representative | Recent | Variant | Reservoir | Deleting | Discarded | Expired.
End RetentionClass.
#[export] Instance RetentionClass_eq_dec : EqDecision RetentionClass.t.
Proof. solve_decision. Defined.

(** The columns of a crash that say how it was admitted, and what becomes of its upload. *)
Module Admittance.
Record t : Type := Mk {
  cycle_start : text; policy_version : Z; outcome : Outcome.t; counted : bool; estimated : bool; accepted_events : Z;
  sampling_rate : Z }.
Definition default (cycle_start : text) : t := Mk cycle_start 1 Outcome.Standard false false 0 1.
End Admittance.
Module CrashEvent.
Record t : Type := Mk {
  received_at : Z; raw_object_id : text; crash_guid : option text; environment : text; usage : Admittance.t;
  class : RetentionClass.t; issue_id : option text; release_id : option text; variant_fingerprint : option text }.
Definition set_usage u c e := Mk (received_at e) (raw_object_id e) (crash_guid e) (environment e) u c (issue_id e) (release_id e) (variant_fingerprint e).
Definition set_class c e := set_usage (usage e) c e.
Definition set_grouping i r v e := Mk (received_at e) (raw_object_id e) (crash_guid e) (environment e) (usage e) (class e) i r v.
End CrashEvent.

Inductive Lifecycle : Type := Stored | Orphaned | Deleting | Discarded.
#[export] Instance Lifecycle_eq_dec : EqDecision Lifecycle.
Proof. solve_decision. Defined.
Module RawObject.
Record t : Type := Mk {
  object_key : text; checksum : bytes; byte_size : Z; lifecycle_state : Lifecycle; raw_delete_after : option Z }.
Definition set_state s o := Mk (object_key o) (checksum o) (byte_size o) s (raw_delete_after o).
Definition set_delete_after d o := Mk (object_key o) (checksum o) (byte_size o) (lifecycle_state o) d.
(** The bytes that a project pays for. *)
Definition retained (o : t) : bool := match lifecycle_state o with Stored | Deleting => true | _ => false end.
End RawObject.

Module Cycle.
Record t : Type := Mk {
  accepted_events : Z; accepted_raw_bytes : Z; accepted_symbol_bytes : Z; deleted_raw_bytes : Z;
  sampled_raw_events : Z; estimated_represented_events : Z }.
Definition zero : t := Mk 0 0 0 0 0 0.
Definition add (a b : t) : t :=
  Mk (accepted_events a + accepted_events b) (accepted_raw_bytes a + accepted_raw_bytes b)
     (accepted_symbol_bytes a + accepted_symbol_bytes b) (deleted_raw_bytes a + deleted_raw_bytes b)
     (sampled_raw_events a + sampled_raw_events b) (estimated_represented_events a + estimated_represented_events b).
Definition counts (c : t) : list Z :=
  [accepted_events c; accepted_raw_bytes c; accepted_symbol_bytes c; deleted_raw_bytes c; sampled_raw_events c;
   estimated_represented_events c].
Definition valid (c : t) : bool := forallb (fun z => (0 <=? z)%Z && is_i64 z) (counts c).
End Cycle.

Module LedgerKind.
Inductive t : Type := AcceptedEvent | RawStored | RawDeleted | SymbolStored.
End LedgerKind.
#[export] Instance LedgerKind_eq_dec : EqDecision LedgerKind.t.
Proof. solve_decision. Defined.
#[export] Instance LedgerKind_countable : Countable LedgerKind.t.
Proof.
  refine (inj_countable'
    (fun k => match k with LedgerKind.AcceptedEvent => 0 | LedgerKind.RawStored => 1 | LedgerKind.RawDeleted => 2 | LedgerKind.SymbolStored => 3 end)
    (fun n => match n with 0 => LedgerKind.AcceptedEvent | 1 => LedgerKind.RawStored | 2 => LedgerKind.RawDeleted | _ => LedgerKind.SymbolStored end) _).
  by intros [].
Defined.

Module StorageCounter.
Record t : Type := Mk { retained_raw_bytes : Z; retained_symbol_bytes : Z; reconciled_at : option Z }.
End StorageCounter.

(** A declared artifact of a release, when it is available with its debug image; and a symbol file. *)
Module ManifestArtifact.
Record t : Type := Mk { debug_image_id : option text; available : bool }.
End ManifestArtifact.
Module SymbolObject.
Record t : Type := Mk { byte_size : Z; lifecycle_state : Lifecycle }.
End SymbolObject.

(** What retention asks of an issue. *)
Module IssueCounts.
Record t : Type := Mk { event_count : Z; representative_event_id : option text }.
End IssueCounts.

(** An upload that is not accepted yet, or that is left over: when it was registered, and how often it
    could not be deleted. *)
Module Orphan.
Record t : Type := Mk { attempts : Z; created_at : Z; last_error_at : Z }.
End Orphan.

(** The requests that a project or an address made in a minute. *)
Module RateLimit.
Record t : Type := Mk { requests : Z; expires_at : Z }.
End RateLimit.

(** The ledger is keyed by kind and source; the limits by scope, hash of the subject and start of the minute; [job_keys] is the column of the jobs by which each is created
    once; [bucket] is the object store. *)
Module Project.
Record t : Type := Mk {
  policy : option UsagePolicy.t;
  versions : gmap Z UsagePolicy.t;
  cycles : gmap text Cycle.t;
  ledger : gmap (LedgerKind.t * text) (text * Z);
  storage : option StorageCounter.t;
  events : gmap text CrashEvent.t;
  objects : gmap text RawObject.t;
  issues : gmap text IssueCounts.t;
  manifest : gmap text ManifestArtifact.t;
  images : gmap text text;
  symbols : gmap text SymbolObject.t;
  queue : Queue.t;
  job_keys : gmap text text;
  orphans : gmap text Orphan.t;
  limits : gmap (text * list N * Z) RateLimit.t;
  bucket : gmap text bytes }.
Definition set_policy x s := Mk x (versions s) (cycles s) (ledger s) (storage s) (events s) (objects s) (issues s) (manifest s) (images s) (symbols s) (queue s) (job_keys s) (orphans s) (limits s) (bucket s).
Definition set_versions f s := Mk (policy s) (f (versions s)) (cycles s) (ledger s) (storage s) (events s) (objects s) (issues s) (manifest s) (images s) (symbols s) (queue s) (job_keys s) (orphans s) (limits s) (bucket s).
Definition set_cycles f s := Mk (policy s) (versions s) (f (cycles s)) (ledger s) (storage s) (events s) (objects s) (issues s) (manifest s) (images s) (symbols s) (queue s) (job_keys s) (orphans s) (limits s) (bucket s).
Definition set_ledger f s := Mk (policy s) (versions s) (cycles s) (f (ledger s)) (storage s) (events s) (objects s) (issues s) (manifest s) (images s) (symbols s) (queue s) (job_keys s) (orphans s) (limits s) (bucket s).
Definition set_storage x s := Mk (policy s) (versions s) (cycles s) (ledger s) x (events s) (objects s) (issues s) (manifest s) (images s) (symbols s) (queue s) (job_keys s) (orphans s) (limits s) (bucket s).
Definition set_events f s := Mk (policy s) (versions s) (cycles s) (ledger s) (storage s) (f (events s)) (objects s) (issues s) (manifest s) (images s) (symbols s) (queue s) (job_keys s) (orphans s) (limits s) (bucket s).
Definition set_objects f s := Mk (policy s) (versions s) (cycles s) (ledger s) (storage s) (events s) (f (objects s)) (issues s) (manifest s) (images s) (symbols s) (queue s) (job_keys s) (orphans s) (limits s) (bucket s).
Definition set_issues f s := Mk (policy s) (versions s) (cycles s) (ledger s) (storage s) (events s) (objects s) (f (issues s)) (manifest s) (images s) (symbols s) (queue s) (job_keys s) (orphans s) (limits s) (bucket s).
Definition set_manifest f s := Mk (policy s) (versions s) (cycles s) (ledger s) (storage s) (events s) (objects s) (issues s) (f (manifest s)) (images s) (symbols s) (queue s) (job_keys s) (orphans s) (limits s) (bucket s).
Definition set_images f s := Mk (policy s) (versions s) (cycles s) (ledger s) (storage s) (events s) (objects s) (issues s) (manifest s) (f (images s)) (symbols s) (queue s) (job_keys s) (orphans s) (limits s) (bucket s).
Definition set_symbols f s := Mk (policy s) (versions s) (cycles s) (ledger s) (storage s) (events s) (objects s) (issues s) (manifest s) (images s) (f (symbols s)) (queue s) (job_keys s) (orphans s) (limits s) (bucket s).
Definition set_queue x s := Mk (policy s) (versions s) (cycles s) (ledger s) (storage s) (events s) (objects s) (issues s) (manifest s) (images s) (symbols s) x (job_keys s) (orphans s) (limits s) (bucket s).
Definition set_job_keys f s := Mk (policy s) (versions s) (cycles s) (ledger s) (storage s) (events s) (objects s) (issues s) (manifest s) (images s) (symbols s) (queue s) (f (job_keys s)) (orphans s) (limits s) (bucket s).
Definition set_orphans f s := Mk (policy s) (versions s) (cycles s) (ledger s) (storage s) (events s) (objects s) (issues s) (manifest s) (images s) (symbols s) (queue s) (job_keys s) (f (orphans s)) (limits s) (bucket s).
Definition set_limits f s := Mk (policy s) (versions s) (cycles s) (ledger s) (storage s) (events s) (objects s) (issues s) (manifest s) (images s) (symbols s) (queue s) (job_keys s) (orphans s) (f (limits s)) (bucket s).
Definition set_bucket f s := Mk (policy s) (versions s) (cycles s) (ledger s) (storage s) (events s) (objects s) (issues s) (manifest s) (images s) (symbols s) (queue s) (job_keys s) (orphans s) (limits s) (f (bucket s)).
End Project.

(** The row of the project itself is there: this is about the rows of a project. *)

Module UsageError.
Inductive t : Type := InvalidRequest | Unauthorized | Forbidden | NotFound | Unavailable | Internal.
(** [UsageError::into_response]. *)
Definition response (e : t) : N * text * text :=
  match e with
  | InvalidRequest => (400%N, txt "invalid_request", txt "request is invalid")
  | Unauthorized => (401%N, txt "unauthorized", txt "authentication is required")
  | Forbidden => (403%N, txt "forbidden", txt "operation is not allowed")
  | NotFound => (404%N, txt "not_found", txt "resource was not found")
  | Unavailable => (503%N, txt "service_unavailable", txt "service is unavailable")
  | Internal => (500%N, txt "internal_error", txt "request could not be completed")
  end.
End UsageError.

Abbreviation utx := (tx Project.t UsageError.t).

(** * Admission *)

(** [courtesy_limit], [policy_outcome], [admission_outcome] and [threshold]. *)
Definition courtesy_limit (p : UsagePolicy.t) : Z :=
  saturating_add_i64 (UsagePolicy.event_limit p)
    (saturating_mul_i64 (UsagePolicy.event_limit p) (UsagePolicy.courtesy_percent p) `quot` 100).
Definition overage_limit (p : UsagePolicy.t) (cap : Z) : Z :=
  saturating_add_i64 (UsagePolicy.event_limit p) (saturating_mul_i64 (cap `quot` OVERAGE_BLOCK_CENTS) OVERAGE_BLOCK_EVENTS).
Definition policy_outcome (events : Z) (p : UsagePolicy.t) : Outcome.t :=
  if (events <=? UsagePolicy.event_limit p)%Z then Outcome.Standard
  else if is_some_and (UsagePolicy.spend_cap_cents p) (fun cap => (events <=? overage_limit p cap)%Z) then Outcome.Overage
  else if (events <=? courtesy_limit p)%Z then Outcome.Courtesy
  else Outcome.Sampling.
Definition admission_outcome (events : Z) (p : UsagePolicy.t) (enforcement_enabled : bool) : Outcome.t :=
  if enforcement_enabled then policy_outcome events p else Outcome.Standard.
Definition threshold (events : Z) (p : UsagePolicy.t) (outcome : Outcome.t) : option text :=
  if decide (outcome = Outcome.Sampling) then Some (txt "courtesy_exhausted")
  else let percent := ((events * 100) `quot` UsagePolicy.event_limit p)%Z in
       if (100 <=? percent)%Z then Some (txt "100")
       else if (90 <=? percent)%Z then Some (txt "90")
       else if (70 <=? percent)%Z then Some (txt "70")
       else None.

(** [stable_outcome]. *)
Definition stable_outcome (value : text) : result UsageError.t Outcome.t :=
  if decide (value = txt "standard") then Ok Outcome.Standard
  else if decide (value = txt "courtesy") then Ok Outcome.Courtesy
  else if decide (value = txt "overage") then Ok Outcome.Overage
  else if decide (value = txt "sampling") then Ok Outcome.Sampling
  else Err UsageError.Internal.

(** [enforcement_from_env] and [retention_v2_from_env]. *)
Definition enforcement_from_env (value : option text) : bool := is_some_and value (eq_ignore_ascii_case (txt "true")).
Definition retention_v2_from_env (value : option text) : bool := is_some_and value (eq_ignore_ascii_case (txt "true")).

Module Admission.
Record t : Type := Mk {
  cycle_start : text; policy_version : Z; outcome : Outcome.t; threshold : option text; accepted_events : Z;
  event_limit : Z; courtesy_limit : Z; usage_counted : bool; estimated : bool }.
End Admission.

(** * Statements *)

(** [UPDATE] of one row: whether a row was updated. *)
Definition update_one {V} (get : Project.t -> gmap text V) (set : (gmap text V -> gmap text V) -> Project.t -> Project.t)
    (k : text) (p : V -> bool) (f : V -> V) : utx bool :=
  statement UsageError.Unavailable (fun db =>
    match get db !! k with
    | Some r => if p r then Ok (true, set <[k := f r]> db) else Ok (false, db)
    | None => Ok (false, db)
    end).
Definition update_event : text -> (CrashEvent.t -> bool) -> (CrashEvent.t -> CrashEvent.t) -> utx bool :=
  update_one Project.events Project.set_events.
Definition update_object : text -> (RawObject.t -> bool) -> (RawObject.t -> RawObject.t) -> utx bool :=
  update_one Project.objects Project.set_objects.
Definition any {A} (_ : A) : bool := true.

(** [insert_current_policy_version] and [lock_policy]. *)
Definition insert_current_policy_version : utx () :=
  execute UsageError.Unavailable (fun db =>
    match Project.policy db with
    | Some p => Project.set_versions (fun vs => if is_none (vs !! UsagePolicy.version p) then <[UsagePolicy.version p := p]> vs else vs) db
    | None => db
    end).
Definition lock_policy : utx UsagePolicy.t :=
  _ ← execute UsageError.Unavailable (fun db =>
    if is_none (Project.policy db) then Project.set_policy (Some UsagePolicy.default) db else db);
  _ ← insert_current_policy_version;
  row ← select UsageError.Unavailable Project.policy;
  lift (ok_or UsageError.NotFound row).
Definition ensure_policy_snapshot : utx () := _ ← lock_policy; mret ().

(** A line of the ledger, of which there is one for a kind and a source. *)
Definition ledger_row (kind : LedgerKind.t) (source_id cycle_start : text) (quantity : Z) (db : Project.t) : option Project.t :=
  if (0 <? quantity)%Z && is_none (Project.ledger db !! (kind, source_id))
  then Some (Project.set_ledger <[(kind, source_id) := (cycle_start, quantity)]> db) else None.
Definition insert_ledger (kind : LedgerKind.t) (source_id cycle_start : text) (quantity : Z) : utx () :=
  statement UsageError.Unavailable (fun db =>
    db ← ok_or UsageError.Unavailable (ledger_row kind source_id cycle_start quantity db); Ok (tt, db)).
Definition insert_ledger_once (kind : LedgerKind.t) (source_id cycle_start : text) (quantity : Z) : utx bool :=
  statement UsageError.Unavailable (fun db =>
    if (quantity <=? 0)%Z then Err UsageError.Unavailable
    else match ledger_row kind source_id cycle_start quantity db with Some db => Ok (true, db) | None => Ok (false, db) end).

(** The counters of a month with more added, which must stay valid. *)
Definition cycle (db : Project.t) (cycle_start : text) : Cycle.t := default Cycle.zero (Project.cycles db !! cycle_start).
Definition count (cycle_start : text) (more : Cycle.t) : utx () :=
  statement UsageError.Unavailable (fun db =>
    let c := Cycle.add (cycle db cycle_start) more in
    if Cycle.valid c then Ok (tt, Project.set_cycles <[cycle_start := c]> db) else Err UsageError.Unavailable).

(** [apply_storage_delta]: a counter that is not reconciled yet stays as it is. *)
Definition storage_with (raw_delta symbol_delta : Z) (c : StorageCounter.t) : option StorageCounter.t :=
  match StorageCounter.reconciled_at c with
  | None => Some c
  | Some _ =>
      let raw := (StorageCounter.retained_raw_bytes c + raw_delta)%Z in
      let symbols := (StorageCounter.retained_symbol_bytes c + symbol_delta)%Z in
      if (0 <=? raw)%Z && (0 <=? symbols)%Z && is_i64 raw && is_i64 symbols
      then Some (StorageCounter.Mk raw symbols (StorageCounter.reconciled_at c)) else None
  end.
Definition apply_storage_delta (raw_delta symbol_delta : Z) : utx () :=
  statement UsageError.Unavailable (fun db =>
    c ← ok_or UsageError.Unavailable (c ← Project.storage db; storage_with raw_delta symbol_delta c);
    Ok (tt, Project.set_storage (Some c) db)).

(** [set_raw_delete_after]: an upload has one deadline, the first it was given. *)
Definition set_raw_delete_after (event_id object_id : text) (retention_days : Z) : utx () :=
  updated ← statement UsageError.Unavailable (fun db =>
    match Project.events db !! event_id, Project.objects db !! object_id with
    | Some e, Some o =>
        if bool_decide (CrashEvent.raw_object_id e = object_id) && is_none (RawObject.raw_delete_after o)
        then Ok (true, Project.set_objects <[object_id :=
               RawObject.set_delete_after (Some (CrashEvent.received_at e + days retention_days)%Z) o]> db)
        else Ok (false, db)
    | _, _ => Ok (false, db)
    end);
  lift (fail_if (negb updated) UsageError.Unavailable).

(** * Acceptance *)

Definition month (cycle_start : text) : utx text := select UsageError.Unavailable (fun _ => cycle_start).
Definition admitted (cycle_start : text) (version : Z) (outcome : Outcome.t) (next : Z) : Admittance.t :=
  {| Admittance.cycle_start := cycle_start; Admittance.policy_version := version; Admittance.outcome := outcome;
     Admittance.counted := true; Admittance.estimated := bool_decide (outcome = Outcome.Sampling);
     Admittance.accepted_events := next;
     Admittance.sampling_rate := if decide (outcome = Outcome.Sampling) then RAW_RESERVOIR_RATE else 1 |}.
Definition class_of (outcome : Outcome.t) : RetentionClass.t :=
  if decide (outcome = Outcome.Sampling) then RetentionClass.Pending else RetentionClass.Standard.

(** [record_acceptance].  The version of a crash must exist. *)
Definition record_acceptance (now_month event_id object_id : text) (raw_bytes : Z) (enforcement_enabled : bool) : utx Admission.t :=
  policy ← lock_policy;
  cycle_start ← month now_month;
  _ ← execute UsageError.Unavailable (fun db => Project.set_cycles (fun cs =>
    if is_none (cs !! cycle_start) then <[cycle_start := Cycle.zero]> cs else cs) db);
  row ← select UsageError.Unavailable (fun db => Cycle.accepted_events <$> (Project.cycles db !! cycle_start));
  accepted ← lift (ok_or UsageError.Unavailable row);
  next ← lift (ok_or UsageError.Internal (checked_add_i64 accepted 1));
  let outcome := admission_outcome next policy enforcement_enabled in
  _ ← count cycle_start (Cycle.Mk 1 raw_bytes 0 0 0 0);
  _ ← insert_ledger LedgerKind.AcceptedEvent event_id cycle_start 1;
  _ ← insert_ledger LedgerKind.RawStored object_id cycle_start raw_bytes;
  _ ← set_raw_delete_after event_id object_id (UsagePolicy.raw_retention_days policy);
  _ ← apply_storage_delta raw_bytes 0;
  _ ← statement UsageError.Unavailable (fun db =>
    match Project.events db !! event_id with
    | Some e =>
        if is_none (Project.versions db !! UsagePolicy.version policy) then Err UsageError.Unavailable
        else Ok (tt, Project.set_events <[event_id :=
               CrashEvent.set_usage (admitted cycle_start (UsagePolicy.version policy) outcome next) (class_of outcome) e]> db)
    | None => Ok (tt, db)
    end);
  mret {| Admission.cycle_start := cycle_start; Admission.policy_version := UsagePolicy.version policy;
          Admission.outcome := outcome; Admission.threshold := threshold next policy outcome;
          Admission.accepted_events := next; Admission.event_limit := UsagePolicy.event_limit policy;
          Admission.courtesy_limit := courtesy_limit policy; Admission.usage_counted := true;
          Admission.estimated := bool_decide (outcome = Outcome.Sampling) |}.

(** [admission_for_event]: what was answered for a crash, from the version it was admitted under. *)
Definition admission_for_event (event_id : text) (counted : bool) : utx Admission.t :=
  row ← select UsageError.Unavailable (fun db =>
    e ← Project.events db !! event_id;
    p ← Project.versions db !! Admittance.policy_version (CrashEvent.usage e);
    Some (CrashEvent.usage e, p));
  row ← lift (ok_or UsageError.NotFound row);
  let '(u, p) := row : Admittance.t * UsagePolicy.t in
  let policy := UsagePolicy.Mk (Admittance.policy_version u) (UsagePolicy.event_limit p) 1 1 1 1 1 1
                  (UsagePolicy.courtesy_percent p) (UsagePolicy.spend_cap_cents p) false in
  outcome ← lift (stable_outcome (Outcome.text_of (Admittance.outcome u)));
  mret {| Admission.cycle_start := Admittance.cycle_start u; Admission.policy_version := UsagePolicy.version policy;
          Admission.outcome := outcome; Admission.threshold := threshold (Admittance.accepted_events u) policy outcome;
          Admission.accepted_events := Admittance.accepted_events u; Admission.event_limit := UsagePolicy.event_limit policy;
          Admission.courtesy_limit := courtesy_limit policy; Admission.usage_counted := counted;
          Admission.estimated := Admittance.estimated u |}.

(** [record_symbol_stored]: the bytes of a symbol file count once for a project. *)
Definition record_symbol_stored (now_month object_id : text) (byte_size : Z) : utx () :=
  cycle_start ← month now_month;
  inserted ← insert_ledger_once LedgerKind.SymbolStored object_id cycle_start byte_size;
  if inserted : bool then
    _ ← count cycle_start (Cycle.Mk 0 0 byte_size 0 0 0);
    apply_storage_delta 0 byte_size
  else mret ().

(** * Settings *)

(** The sums over the uploads and over the symbol files of a project, each once. *)
Definition sum_with {K V} `{Countable K} (f : K -> V -> Z) (m : gmap K V) : Z := map_fold (fun k v z => f k v + z)%Z 0%Z m.
Definition raw_bytes_of (o : RawObject.t) : Z := if RawObject.retained o then RawObject.byte_size o else 0%Z.
Definition retained_raw (db : Project.t) : Z := sum_with (fun _ => raw_bytes_of) (Project.objects db).
Definition refers_to (object_id : text) (db : Project.t) (m : ManifestArtifact.t) : bool :=
  ManifestArtifact.available m && bool_decide ((i ← ManifestArtifact.debug_image_id m; Project.images db !! i) = Some object_id).
Definition symbol_storage (db : Project.t) : Z :=
  sum_with (fun k o =>
    if bool_decide (SymbolObject.lifecycle_state o = Stored)
       && existsb (fun kv : text * ManifestArtifact.t => refers_to k db kv.2) (map_to_list (Project.manifest db))
    then SymbolObject.byte_size o else 0%Z) (Project.symbols db).
Definition as_bigint {E} (e : E) (z : Z) : result E Z := if is_i64 z then Ok z else Err e.

(** [retained_artifact_bytes]. *)
Definition retained_artifact_bytes (retention_v2 : bool) : utx Z :=
  if retention_v2 then
    row ← select UsageError.Internal (fun db =>
      c ← Project.storage db;
      _ ← StorageCounter.reconciled_at c;
      Some (StorageCounter.retained_raw_bytes c + StorageCounter.retained_symbol_bytes c)%Z);
    retained ← lift (ok_or UsageError.Unavailable row);
    lift (as_bigint UsageError.Internal retained)
  else
    statement UsageError.Internal (fun db =>
      raw ← as_bigint UsageError.Internal (retained_raw db);
      symbols ← as_bigint UsageError.Internal (symbol_storage db);
      z ← as_bigint UsageError.Internal (raw + symbols)%Z;
      Ok (z, db)).

(** [UsageView]: what [load_usage_view] answers; the columns of the policy are those of its row, and the number
    of projects and the end of the month, which other tables and the clock give, are left out. *)
Module UsageView.
Record t : Type := Mk {
  enforcement_enabled : bool; policy : UsagePolicy.t; policy_state : Outcome.t; threshold : option text;
  cycle_start : text; courtesy_limit : Z; counters : Cycle.t; estimates_present : bool; retained_raw_bytes : Z;
  symbol_storage_bytes : Z; artifact_storage_bytes : Z; paid_overages_enabled : bool; can_edit : bool }.
End UsageView.
Definition load_usage_view (now_month : text) (enforcement_enabled can_edit : bool) : utx UsageView.t :=
  row ← statement UsageError.Internal (fun db =>
    raw ← as_bigint UsageError.Internal (retained_raw db);
    symbols ← as_bigint UsageError.Internal (symbol_storage db);
    Ok (p ← Project.policy db; Some (p, cycle db now_month, raw, symbols), db));
  row ← lift (ok_or UsageError.NotFound row);
  let '(policy, counters, retained_raw_bytes, symbol_storage_bytes) := row : UsagePolicy.t * Cycle.t * Z * Z in
  let state := admission_outcome (Cycle.accepted_events counters) policy enforcement_enabled in
  mret {| UsageView.enforcement_enabled := enforcement_enabled; UsageView.policy := policy; UsageView.policy_state := state;
          UsageView.threshold := threshold (Cycle.accepted_events counters) policy state; UsageView.cycle_start := now_month;
          UsageView.courtesy_limit := courtesy_limit policy; UsageView.counters := counters;
          UsageView.estimates_present := (0 <? Cycle.estimated_represented_events counters)%Z;
          UsageView.retained_raw_bytes := retained_raw_bytes; UsageView.symbol_storage_bytes := symbol_storage_bytes;
          UsageView.artifact_storage_bytes := saturating_add_i64 retained_raw_bytes symbol_storage_bytes;
          UsageView.paid_overages_enabled := negb (is_none (UsagePolicy.spend_cap_cents policy)); UsageView.can_edit := can_edit |}.

(** [authorize], of the answer of [Auth.authorize_project]. *)
Definition authorize {A} (answer : result AuthorizationError A) : result UsageError.t A :=
  map_err (fun e => match e with
                    | AuthUnauthorized => UsageError.Unauthorized
                    | AuthForbidden => UsageError.Forbidden
                    | AuthUnavailable => UsageError.Unavailable
                    | AuthNotFound => UsageError.NotFound
                    end) answer.

(** [get_usage]: the answer says whether the actor manages usage. *)
Definition get_usage (now_month : text) (enforcement_enabled : bool) (answer : result AuthorizationError bool) : utx UsageView.t :=
  can_edit ← lift (authorize answer);
  transaction UsageError.Internal (load_usage_view now_month enforcement_enabled can_edit).

(** [update_usage]: a change of the settings is a new version of the policy. *)
Module UpdateUsageSettings.
Record t : Type := Mk {
  spend_cap_cents : option Z; retain_all_raw : bool; normalized_retention_days : Z; raw_retention_days : Z }.
End UpdateUsageSettings.
Definition out_of_range (body : UpdateUsageSettings.t) : bool :=
  (is_some_and (UpdateUsageSettings.spend_cap_cents body)
    (fun value => negb ((OVERAGE_BLOCK_CENTS <=? value) && (value <=? 10000000)))
  || negb ((1 <=? UpdateUsageSettings.normalized_retention_days body) && (UpdateUsageSettings.normalized_retention_days body <=? 3650))
  || negb ((1 <=? UpdateUsageSettings.raw_retention_days body) && (UpdateUsageSettings.raw_retention_days body <=? 3650)))%Z.
Definition changes (p : UsagePolicy.t) (body : UpdateUsageSettings.t) : bool :=
  negb (bool_decide (UsagePolicy.spend_cap_cents p = UpdateUsageSettings.spend_cap_cents body))
  || negb (Bool.eqb (UsagePolicy.retain_all_raw p) (UpdateUsageSettings.retain_all_raw body))
  || negb (UsagePolicy.normalized_retention_days p =? UpdateUsageSettings.normalized_retention_days body)%Z
  || negb (UsagePolicy.raw_retention_days p =? UpdateUsageSettings.raw_retention_days body)%Z.
Definition with_settings (body : UpdateUsageSettings.t) (p : UsagePolicy.t) : UsagePolicy.t :=
  UsagePolicy.Mk (UsagePolicy.version p + 1) (UsagePolicy.event_limit p) (UsagePolicy.artifact_storage_limit_bytes p)
    (UsagePolicy.project_limit p) (UsagePolicy.normalized_retention_limit_days p) (UsagePolicy.raw_retention_limit_days p)
    (UpdateUsageSettings.normalized_retention_days body) (UpdateUsageSettings.raw_retention_days body)
    (UsagePolicy.courtesy_percent p) (UpdateUsageSettings.spend_cap_cents body) (UpdateUsageSettings.retain_all_raw body).
Definition update_policy (version : Z) (body : UpdateUsageSettings.t) : utx bool :=
  statement UsageError.Internal (fun db =>
    match Project.policy db with
    | Some p =>
        if (UsagePolicy.version p =? version)%Z then
          if UsagePolicy.valid (with_settings body p) then Ok (true, Project.set_policy (Some (with_settings body p)) db)
          else Err UsageError.Internal
        else Ok (false, db)
    | None => Ok (false, db)
    end).

(** The line in the audit log, which nothing reads here, is a statement without effect. *)
Definition update_usage (edits_enabled : option text) (now_month : text) (retention_v2 enforcement_enabled : bool)
    (answer : result AuthorizationError ()) (payload : option UpdateUsageSettings.t) : utx UsageView.t :=
  _ ← lift (fail_if (is_some_and edits_enabled (eq_ignore_ascii_case (txt "false"))) UsageError.NotFound);
  _ ← lift (authorize answer);
  body ← lift (ok_or UsageError.InvalidRequest payload);
  _ ← lift (fail_if (out_of_range body) UsageError.InvalidRequest);
  transaction UsageError.Internal
    (policy ← lock_policy;
     _ ← lift (fail_if ((UsagePolicy.normalized_retention_limit_days policy <? UpdateUsageSettings.normalized_retention_days body)%Z
            || (UsagePolicy.raw_retention_limit_days policy <? UpdateUsageSettings.raw_retention_days body)%Z)
          UsageError.InvalidRequest);
     _ ← (if UpdateUsageSettings.retain_all_raw body then
            retained ← retained_artifact_bytes retention_v2;
            lift (fail_if (UsagePolicy.artifact_storage_limit_bytes policy <=? retained)%Z UsageError.InvalidRequest)
          else mret ());
     _ ← (if changes policy body then
            updated ← update_policy (UsagePolicy.version policy) body;
            _ ← lift (fail_if (negb updated) UsageError.Unavailable);
            _ ← insert_current_policy_version;
            execute UsageError.Internal id
          else mret ());
     load_usage_view now_month enforcement_enabled true).

(** * Composition with the queue *)

(** A program on the queue, as a program on the project. *)
Definition on_queue {A} (m : tx Queue.t JobError A) : tx Project.t JobError A := fun o db =>
  let '(r, q, o) := m o (Project.queue db) in (r, Project.set_queue q db, o).
