(* ===== verification/Retention.v ===== *)
(** Retention of raw uploads ([apps/server/src/usage.rs], and the job of [worker.rs] that deletes one):
    which uploads of the crashes beyond a quota are kept, which expire, how they are deleted, and the
    reconciliation of the storage counters.  The scheduler works on all projects at once; here it is about
    the rows of one. *)

From S2P Require Import Prelude Text Identifiers Store Jobs Usage.

Definition RETENTION_BATCH_SIZE : N := 5000.
Definition STORAGE_RECONCILE_BATCH_SIZE : N := 5000.

(** * Deleting jobs *)

(** A new job of the project, with the defaults of the table. *)
Definition delete_job (organization_id project_id event_id : text) (now : Z) : JobRow.t :=
  JobRow.Mk organization_id project_id (Some event_id) None None (txt "delete_raw") Jobs.Pending 50 0 5 0 now now None.
Definition delete_key (object_id : text) : text := txt "delete_raw:" ++ object_id.
Definition add_job (idempotency_key job_id : text) (r : JobRow.t) (db : Project.t) : option Project.t :=
  if is_none (Queue.jobs (Project.queue db) !! job_id)
  then Some (Project.set_job_keys <[idempotency_key := job_id]>
               (Project.set_queue (Queue.set_jobs <[job_id := r]> (Project.queue db)) db))
  else None.

(** [set_retention_class]. *)
Definition set_retention_class (event_id : text) (class : RetentionClass.t) : utx () :=
  _ ← update_event event_id any (CrashEvent.set_class class); mret ().

(** [enqueue_raw_deletion]; the time and the id of the job are those the database generates. *)
Definition enqueue_raw_deletion (now : Z) (job_id organization_id project_id event_id object_id : text)
    (class : RetentionClass.t) : utx () :=
  updated ← update_object object_id (fun o => bool_decide (RawObject.lifecycle_state o = Stored)) (RawObject.set_state Deleting);
  if updated : bool then
    _ ← set_retention_class event_id class;
    statement UsageError.Unavailable (fun db =>
      if is_none (Project.job_keys db !! delete_key object_id)
      then db ← ok_or UsageError.Unavailable (add_job (delete_key object_id) job_id (delete_job organization_id project_id event_id now) db);
           Ok (tt, db)
      else Ok (tt, db))
  else mret ().

(** * Sampling *)

(** [reservoir_selected]. *)
Definition reservoir_selected {H : Sha256} (event_id : text) : bool :=
  match map Byte.to_N (sha256 (as_bytes event_id)) with
  | b0 :: b1 :: _ => ((b0 * 256 + b1) mod Z.to_N RAW_RESERVOIR_RATE =? 0)%N
  | _ => false
  end.

(** Crashes in the order they were received: [(received_at, id) < (received_at, id)]. *)
Definition received_before (a b : text * Z) : bool :=
  (a.2 <? b.2)%Z || (a.2 =? b.2)%Z && text_leb a.1 b.1 && negb (bool_decide (a.1 = b.1)).
Definition received (kv : text * CrashEvent.t) : text * Z := (kv.1, CrashEvent.received_at kv.2).

(** The first crash of its variant: no crash of the issue with the same variant was received before. *)
Definition variant_first (event_id issue_id : text) (variant : option text) (db : Project.t) : option bool :=
  current ← Project.events db !! event_id;
  Some (negb (existsb (fun prior : text * CrashEvent.t =>
    bool_decide (CrashEvent.issue_id prior.2 = Some issue_id)
    && match CrashEvent.variant_fingerprint prior.2, variant with Some v, Some v' => bool_decide (v = v') | _, _ => false end
    && received_before (received prior) (event_id, CrashEvent.received_at current))
    (map_to_list (Project.events db)))).

(** The three last crashes of the issue and the release that are kept as recent, the last first. *)
Definition is_recent (issue_id : text) (release_id : option text) (db : Project.t) (kv : text * CrashEvent.t) : bool :=
  bool_decide (CrashEvent.issue_id kv.2 = Some issue_id) && bool_decide (CrashEvent.release_id kv.2 = release_id)
  && bool_decide (CrashEvent.class kv.2 = RetentionClass.Recent)
  && bool_decide (RawObject.lifecycle_state <$> (Project.objects db !! CrashEvent.raw_object_id kv.2) = Some Stored).
Definition later (a b : text * CrashEvent.t) : bool := negb (received_before (received a) (received b)).
Definition recent (issue_id : text) (release_id : option text) (db : Project.t) : list (text * CrashEvent.t) :=
  take 3 (sort later (filter (fun kv => is_recent issue_id release_id db kv = true) (map_to_list (Project.events db)))).

(** The row of [RETENTION_EVENT_QUERY]. *)
Module RetentionRow.
Record t : Type := Mk {
  event : CrashEvent.t; raw_lifecycle_state : Lifecycle; retain_all_raw : bool; artifact_storage_limit_bytes : Z }.
End RetentionRow.
Definition retention_row (event_id : text) (db : Project.t) : option RetentionRow.t :=
  e ← Project.events db !! event_id;
  o ← Project.objects db !! CrashEvent.raw_object_id e;
  p ← Project.policy db;
  Some (RetentionRow.Mk e (RawObject.lifecycle_state o) (UsagePolicy.retain_all_raw p) (UsagePolicy.artifact_storage_limit_bytes p)).

(** [schedule_raw_retention_with_enforcement]. *)
Definition schedule_raw_retention_with_enforcement {H : Sha256} (retention_v2 : bool) (now : Z) (job_id organization_id project_id event_id : text)
    (enforce : bool) : utx () :=
  row ← select UsageError.Unavailable (retention_row event_id);
  row ← lift (ok_or UsageError.NotFound row);
  let e := RetentionRow.event row in
  if negb (bool_decide (RetentionRow.raw_lifecycle_state row = Stored)) then mret ()
  else if negb (bool_decide (CrashEvent.class e = RetentionClass.Pending)) then mret ()
  else if negb enforce || negb (bool_decide (Admittance.outcome (CrashEvent.usage e) = Outcome.Sampling))
  then set_retention_class event_id RetentionClass.Standard
  else
    keep_all ← (if RetentionRow.retain_all_raw row
                then retained ← retained_artifact_bytes retention_v2;
                     mret (retained <=? RetentionRow.artifact_storage_limit_bytes row)%Z
                else mret false);
    if keep_all : bool then set_retention_class event_id RetentionClass.Standard
    else match CrashEvent.issue_id e with
    | None => set_retention_class event_id RetentionClass.Novel
    | Some issue_id =>
      issue ← select UsageError.Unavailable (fun db => Project.issues db !! issue_id);
      issue ← lift (ok_or UsageError.Unavailable issue);
      if (IssueCounts.event_count issue <=? 1)%Z then set_retention_class event_id RetentionClass.Novel
      else if bool_decide (IssueCounts.representative_event_id issue = Some event_id)
      then set_retention_class event_id RetentionClass.Representative
      else
        first ← select UsageError.Unavailable (variant_first event_id issue_id (CrashEvent.variant_fingerprint e));
        first ← lift (ok_or UsageError.Unavailable first);
        if first : bool then set_retention_class event_id RetentionClass.Variant
        else
          recent ← select UsageError.Unavailable (recent issue_id (CrashEvent.release_id e));
          if (length recent <? 3)%nat then set_retention_class event_id RetentionClass.Recent
          else
            oldest ← lift (ok_or UsageError.Internal (last recent));
            newer ← select UsageError.Unavailable (fun db =>
              current ← Project.events db !! event_id;
              o ← Project.events db !! oldest.1;
              Some (received_before (oldest.1, CrashEvent.received_at o) (event_id, CrashEvent.received_at current)));
            current_is_newer ← lift (ok_or UsageError.Unavailable newer);
            let '(aged_event_id, aged_object_id) :=
              if current_is_newer : bool then (oldest.1, CrashEvent.raw_object_id oldest.2) else (event_id, CrashEvent.raw_object_id e) in
            _ ← (if reservoir_selected aged_event_id
                 then set_retention_class aged_event_id RetentionClass.Reservoir
                 else enqueue_raw_deletion now job_id organization_id project_id aged_event_id aged_object_id RetentionClass.Deleting);
            if current_is_newer then set_retention_class event_id RetentionClass.Recent else mret ()
    end.

(** * Expiry *)

Inductive SchedulerError : Type := SchedulerConfiguration | SchedulerDatabase.
Abbreviation stx := (tx Project.t SchedulerError).

(** The crash with an upload. *)
Definition event_of (object_id : text) (db : Project.t) : option (text * CrashEvent.t) :=
  head (filter (fun kv => CrashEvent.raw_object_id kv.2 = object_id) (map_to_list (Project.events db))).

(** [schedule_expired_raw_legacy]: the crashes older than the policy of today allows, a hundred at once. *)
Definition by_received (a b : text * CrashEvent.t) : bool := negb (received_before (received b) (received a)).
Definition outlived (now : Z) (db : Project.t) (kv : text * CrashEvent.t) : bool :=
  match Project.objects db !! CrashEvent.raw_object_id kv.2, Project.policy db with
  | Some o, Some p =>
      bool_decide (RawObject.lifecycle_state o = Stored)
      && (CrashEvent.received_at kv.2 <? now - days (UsagePolicy.raw_retention_days p))%Z
  | _, _ => false
  end.
Definition outlived_events (now : Z) (db : Project.t) : list (text * CrashEvent.t) :=
  take 100 (sort by_received (filter (fun kv => outlived now db kv = true) (map_to_list (Project.events db)))).
Fixpoint each {S E A} (f : A -> tx S E ()) (l : list A) : tx S E () :=
  match l with [] => mret () | x :: l => _ ← f x; each f l end.
Definition schedule_expired_raw_legacy (now : Z) (job_ids : text -> text) (organization_id project_id : text) : stx () :=
  transaction SchedulerDatabase
    (rows ← select SchedulerDatabase (outlived_events now);
     each (fun row : text * CrashEvent.t => map_error (fun _ => SchedulerDatabase)
       (enqueue_raw_deletion now (job_ids row.1) organization_id project_id row.1 (CrashEvent.raw_object_id row.2) RetentionClass.Expired)) rows).

(** [schedule_expired_raw_v2_batch]: the uploads past their deadline, the first due first, in one statement;
    a job that is over is queued again. *)
Definition due (now : Z) (o : RawObject.t) : bool :=
  bool_decide (RawObject.lifecycle_state o = Stored) && is_some_and (RawObject.raw_delete_after o) (fun d => d <=? now)%Z.
Definition deadline_leb (a b : text * RawObject.t) : bool :=
  let d (o : RawObject.t) := default 0%Z (RawObject.raw_delete_after o) in
  if (d a.2 =? d b.2)%Z then text_leb a.1 b.1 else (d a.2 <? d b.2)%Z.
Definition due_objects (now : Z) (batch_size : N) (db : Project.t) : list (text * RawObject.t) :=
  take (N.to_nat batch_size) (sort deadline_leb (filter (fun kv => due now kv.2 = true) (map_to_list (Project.objects db)))).
Definition is_reconciled (db : Project.t) : bool :=
  is_some_and (Project.storage db) (fun c => negb (is_none (StorageCounter.reconciled_at c))).
Definition queued_again (now : Z) (r : JobRow.t) : JobRow.t :=
  JobRow.set_state Jobs.Pending (JobRow.set_attempt 0 (JobRow.set_available_at now r)).
Definition queue_deletion (now : Z) (job_id organization_id project_id event_id object_id : text) (db : Project.t) : option Project.t :=
  match Project.job_keys db !! delete_key object_id with
  | None => add_job (delete_key object_id) job_id (delete_job organization_id project_id event_id now) db
  | Some id =>
      match Queue.jobs (Project.queue db) !! id with
      | Some r =>
          if bool_decide (JobRow.event_id r = Some event_id) && is_terminal (JobRow.state r)
          then Some (Project.set_queue (Queue.set_jobs <[id := queued_again now r]> (Project.queue db)) db)
          else Some db
      | None => Some db
      end
  end.
Definition expire (now : Z) (job_ids : text -> text) (organization_id project_id : text) (db : Project.t) (row : text * RawObject.t)
    : option Project.t :=
  match event_of row.1 db with
  | None => Some db
  | Some (event_id, e) =>
      queue_deletion now (job_ids row.1) organization_id project_id event_id row.1
        (Project.set_events <[event_id := CrashEvent.set_class RetentionClass.Expired e]>
          (Project.set_objects <[row.1 := RawObject.set_state Deleting row.2]> db))
  end.
Fixpoint expire_all (now : Z) (job_ids : text -> text) (organization_id project_id : text) (rows : list (text * RawObject.t))
    (db : Project.t) : option Project.t :=
  match rows with
  | [] => Some db
  | row :: rows => db ← expire now job_ids organization_id project_id db row; expire_all now job_ids organization_id project_id rows db
  end.
Definition claimed (now : Z) (batch_size : N) (db : Project.t) : list (text * RawObject.t) :=
  if is_reconciled db
  then filter (fun row => is_none (event_of row.1 db) = false) (due_objects now batch_size db) else [].
Definition schedule_expired_raw_v2_batch (now : Z) (job_ids : text -> text) (organization_id project_id : text) (batch_size : N) : stx N :=
  statement SchedulerDatabase (fun db =>
    let rows := claimed now batch_size db in
    db ← ok_or SchedulerDatabase (expire_all now job_ids organization_id project_id rows db);
    Ok (len rows, db)).

(** [drain_expired_raw_v2]: one pass per batch for which the time budget lasts, each with its own time and
    new ids. *)
Fixpoint drain (passes : list (Z * (text -> text))) (organization_id project_id : text) (scheduled : N) : stx N :=
  match passes with
  | [] => mret scheduled
  | (now, job_ids) :: passes =>
      claimed ← schedule_expired_raw_v2_batch now job_ids organization_id project_id RETENTION_BATCH_SIZE;
      if (claimed <? RETENTION_BATCH_SIZE)%N then mret (scheduled + claimed)%N
      else drain passes organization_id project_id (scheduled + claimed)%N
  end.
Definition drain_expired_raw_v2 (passes : list (Z * (text -> text))) (organization_id project_id : text) : stx N :=
  unreconciled ← select SchedulerDatabase (fun db =>
    is_some_and (Project.storage db) (fun c => is_none (StorageCounter.reconciled_at c)));
  if unreconciled : bool then mret 0%N else drain passes organization_id project_id 0.

(** * Deletion *)

(** [record_raw_deleted]: the deletion of an upload is counted once. *)
Definition was_sampled (e : CrashEvent.t) : bool :=
  bool_decide (Admittance.outcome (CrashEvent.usage e) = Outcome.Sampling)
  && negb (bool_decide (CrashEvent.class e = RetentionClass.Expired)).
Definition discarded_class (e : CrashEvent.t) : RetentionClass.t :=
  if decide (CrashEvent.class e = RetentionClass.Expired) then RetentionClass.Expired else RetentionClass.Discarded.
Definition record_raw_deleted (now_month event_id object_id : text) (byte_size : Z) : utx () :=
  row ← select UsageError.Unavailable (fun db => Project.events db !! event_id);
  event ← lift (ok_or UsageError.NotFound row);
  let sampled := was_sampled event in
  let represented := if sampled then Admittance.sampling_rate (CrashEvent.usage event) else 0%Z in
  cycle_start ← month now_month;
  inserted ← insert_ledger_once LedgerKind.RawDeleted object_id cycle_start byte_size;
  _ ← (if inserted : bool then
         _ ← count cycle_start (Cycle.Mk 0 0 0 byte_size (if sampled then 1 else 0) represented);
         apply_storage_delta (- byte_size) 0
       else mret ());
  _ ← update_object object_id
        (fun o => bool_decide (RawObject.lifecycle_state o = Deleting) || bool_decide (RawObject.lifecycle_state o = Discarded))
        (RawObject.set_state Discarded);
  _ ← update_event event_id any (fun e => CrashEvent.set_class (discarded_class e) e);
  mret ().

(** [map_usage_error] of the worker. *)
Definition map_usage_error (e : UsageError.t) : JobError :=
  match e with
  | UsageError.NotFound => Deterministic (txt "usage_state_missing")
  | UsageError.InvalidRequest | UsageError.Unauthorized | UsageError.Forbidden => Deterministic (txt "usage_policy_invalid")
  | UsageError.Unavailable | UsageError.Internal => Transient (txt "database_unavailable")
  end.

Abbreviation wtx := (tx Project.t JobError).

(** [delete_object_checked]: when the store does not answer, the object may be gone all the same. *)
Definition delete_object_checked (key : text) : wtx bool := fun o db =>
  let '(failed, o) := next_outcome o in
  let gone := Project.set_bucket (delete key) db in
  if failed then let '(lost, o) := next_outcome o in (Ok false, (if lost then gone else db), o)
  else (Ok true, gone, o).

(** The row of a crash with its upload. *)
Module RawRow.
Record t : Type := Mk { object_id : text; object : RawObject.t; class : RetentionClass.t }.
End RawRow.
Definition raw_row (event_id : text) (db : Project.t) : option RawRow.t :=
  e ← Project.events db !! event_id;
  o ← Project.objects db !! CrashEvent.raw_object_id e;
  Some (RawRow.Mk (CrashEvent.raw_object_id e) o (CrashEvent.class e)).
Definition is_deleting (r : RawRow.t) : bool := bool_decide (RawObject.lifecycle_state (RawRow.object r) = Deleting).

(** [delete_raw].  When sampling is no longer enforced an upload is kept after all. *)
Definition restore_raw (now : Z) (worker : text) (job : Job.t) (event_id object_id : text) : wtx bool :=
  transaction_if id database_unavailable
    (_ ← on_queue (lock_lease now worker job);
     restored ← statement database_unavailable (fun db =>
       match Project.events db !! event_id, Project.objects db !! object_id with
       | Some e, Some o =>
           if bool_decide (CrashEvent.raw_object_id e = object_id) && bool_decide (RawObject.lifecycle_state o = Deleting)
              && bool_decide (CrashEvent.class e = RetentionClass.Deleting)
           then Ok (true, Project.set_objects <[object_id := RawObject.set_state Stored o]> db) else Ok (false, db)
       | _, _ => Ok (false, db)
       end);
     if restored : bool then
       _ ← map_error (fun _ => database_unavailable)
             (update_event event_id (fun e => bool_decide (CrashEvent.class e = RetentionClass.Deleting)) (CrashEvent.set_class RetentionClass.Standard));
       _ ← on_queue (complete_job worker job None);
       mret true
     else mret false).
Definition finish_deletion (now : Z) (now_month worker : text) (job : Job.t) (event_id : text) : wtx () :=
  transaction database_unavailable
    (_ ← on_queue (lock_lease now worker job);
     row ← select database_unavailable (raw_row event_id);
     current ← lift (ok_or (Deterministic (txt "raw_object_missing")) row);
     _ ← (if is_deleting current
          then map_error map_usage_error
                 (record_raw_deleted now_month event_id (RawRow.object_id current) (RawObject.byte_size (RawRow.object current)))
          else mret ());
     on_queue (complete_job worker job None)).
Definition delete_raw (now : Z) (now_month worker : text) (enforcement_enabled : bool) (job : Job.t) : wtx () :=
  event_id ← lift (ok_or (Deterministic (txt "missing_event")) (Job.event_id job));
  row ← select database_unavailable (raw_row event_id);
  raw ← lift (ok_or (Deterministic (txt "raw_object_missing")) row);
  restored ← (if is_deleting raw && negb (bool_decide (RawRow.class raw = RetentionClass.Expired)) && negb enforcement_enabled
              then restore_raw now worker job event_id (RawRow.object_id raw) else mret false);
  if restored : bool then mret ()
  else
    _ ← (if is_deleting raw
         then deleted ← delete_object_checked (RawObject.object_key (RawRow.object raw));
              lift (fail_if (negb deleted) (Transient (txt "object_store_unavailable")))
         else mret ());
    finish_deletion now now_month worker job event_id.

(** * Reconciliation *)

Inductive StorageReconcileError : Type := ReconcileInvalidIdentifier | ReconcileNotFound | ReconcileDatabase.
Abbreviation ctx := (tx Project.t StorageReconcileError).

Module StorageReconciliationReport.
Record t : Type := Mk {
  deadlines_backfilled : Z; missing_deadlines : Z; previous_raw_bytes : Z; retained_raw_bytes : Z; raw_byte_drift : Z;
  previous_symbol_bytes : Z; retained_symbol_bytes : Z; symbol_byte_drift : Z }.
End StorageReconciliationReport.

(** [backfill_raw_delete_after]: the uploads without a deadline get the one of the policy their crash was
    accepted under. *)
Definition missing_deadline (o : RawObject.t) : bool := is_none (RawObject.raw_delete_after o).
Definition deadline_of (object_id : text) (db : Project.t) : option Z :=
  '(_, e) ← event_of object_id db;
  p ← Project.versions db !! Admittance.policy_version (CrashEvent.usage e);
  Some (CrashEvent.received_at e + days (UsagePolicy.raw_retention_days p))%Z.
Definition object_id_leb (a b : text * RawObject.t) : bool := text_leb a.1 b.1.
Definition backfill_batch (db : Project.t) : list (text * RawObject.t) :=
  take (N.to_nat STORAGE_RECONCILE_BATCH_SIZE)
    (sort object_id_leb (filter (fun kv => missing_deadline kv.2 && negb (is_none (deadline_of kv.1 db)) = true) (map_to_list (Project.objects db)))).
Definition set_deadline (db : Project.t) (row : text * RawObject.t) : Project.t :=
  Project.set_objects <[row.1 := RawObject.set_delete_after (deadline_of row.1 db) row.2]> db.
Fixpoint backfill (fuel : nat) (total : Z) : ctx Z :=
  match fuel with
  | O => mret total
  | S fuel =>
      updated ← statement ReconcileDatabase (fun db =>
        let rows := backfill_batch db in Ok (len rows, foldl set_deadline db rows));
      let total := saturating_add_i64 total (Z.of_N updated) in
      if (updated <? STORAGE_RECONCILE_BATCH_SIZE)%N then mret total else backfill fuel total
  end.
(** Every full batch leaves fewer uploads without a deadline. *)
Definition backfill_fuel (db : Project.t) : nat := S (size (filter (fun kv : text * RawObject.t => missing_deadline kv.2 = true) (Project.objects db))).
Definition backfill_raw_delete_after : ctx Z := fun o db => backfill (backfill_fuel db) 0 o db.

(** [reconcile_storage]. *)
Definition reconcile_storage (now : Z) (organization_id project_id : text) : ctx StorageReconciliationReport.t :=
  _ ← lift (fail_if (negb (valid_uuid organization_id) || negb (valid_uuid project_id)) ReconcileInvalidIdentifier);
  _ ← execute ReconcileDatabase id;
  deadlines_backfilled ← backfill_raw_delete_after;
  '(previous, missing_deadlines, retained_raw_bytes, retained_symbol_bytes) ← transaction ReconcileDatabase
    (policy ← select ReconcileDatabase Project.policy;
     _ ← lift (ok_or ReconcileNotFound policy);
     row ← select ReconcileDatabase Project.storage;
     previous ← lift (ok_or ReconcileNotFound row);
     '(raw, symbols, missing) ← statement ReconcileDatabase (fun db =>
       raw ← as_bigint ReconcileDatabase (retained_raw db);
       symbols ← as_bigint ReconcileDatabase (symbol_storage db);
       Ok ((raw, symbols, Z.of_nat (size (filter (fun kv : text * RawObject.t => missing_deadline kv.2 = true) (Project.objects db)))), db));
     _ ← lift (fail_if (negb (missing =? 0)%Z) ReconcileDatabase);
     _ ← execute ReconcileDatabase (Project.set_storage (Some (StorageCounter.Mk raw symbols (Some now))));
     mret (previous, missing, raw, symbols));
  let previous : StorageCounter.t := previous in
  mret {| StorageReconciliationReport.deadlines_backfilled := deadlines_backfilled;
          StorageReconciliationReport.missing_deadlines := missing_deadlines;
          StorageReconciliationReport.previous_raw_bytes := StorageCounter.retained_raw_bytes previous;
          StorageReconciliationReport.retained_raw_bytes := retained_raw_bytes;
          StorageReconciliationReport.raw_byte_drift := saturating_sub_i64 retained_raw_bytes (StorageCounter.retained_raw_bytes previous);
          StorageReconciliationReport.previous_symbol_bytes := StorageCounter.retained_symbol_bytes previous;
          StorageReconciliationReport.retained_symbol_bytes := retained_symbol_bytes;
          StorageReconciliationReport.symbol_byte_drift := saturating_sub_i64 retained_symbol_bytes (StorageCounter.retained_symbol_bytes previous) |}.
