(* ===== verification/Ingest.v ===== *)
(** Ingestion of crashes ([apps/server/src/crash_ingest.rs]): the checks of a request, its rate limits, the
    upload that is stored while it arrives, the crash that is recorded once, and the uploads that are left
    over. *)

From S2P Require Import Prelude Text Domain CrashContext CrashRequest Identifiers Store Jobs Usage Retention.

Definition MAX_COMPRESSED_BYTES : N := 64 * 1024 * 1024.
Definition MULTIPART_CHUNK_BYTES : N := 8 * 1024 * 1024.
Definition MAX_UPLOAD_SECONDS : Z := 120.
Definition MAX_QUERY_BYTES : N := 2048.
Definition MAX_GUID_BYTES : N := 128.
Definition MAX_RELEASE_CANDIDATES : nat := 100.
Definition RATE_LIMIT_PROJECT : text := txt "project".
Definition RATE_LIMIT_IP : text := txt "ip".

(** Addresses and networks, the parser of queries and the keyed digest, which other packages give. *)
Class Network : Type := {
  address : Type; network : Type; address_eq_dec :: EqDecision address;
  parse_address : text -> option address; show_address : address -> text;
  contains : network -> address -> bool }.
Class FormUrlEncoded : Type := { form_pairs : bytes -> list (text * text) }.
Class HmacSha256 : Type := { hmac_sha256 : bytes -> bytes -> bytes }.

Module IngestError.
Inductive t : Type :=
| NotFound | InvalidRequest | RequestTooLarge | RateLimited (limit remaining : Z) | Unavailable | CommitUncertain | Internal.
(** [IngestError::into_response]: status, code, message and whether to try again. *)
Definition response (e : t) : N * text * text * bool :=
  match e with
  | NotFound => (404%N, txt "not_found", txt "resource was not found", false)
  | InvalidRequest => (400%N, txt "invalid_crash_request", txt "crash request is invalid", false)
  | RequestTooLarge => (413%N, txt "request_too_large", txt "crash request exceeds the configured limit", false)
  | RateLimited _ _ => (429%N, txt "rate_limited", txt "crash request rate limit exceeded", true)
  | Unavailable | CommitUncertain => (503%N, txt "ingest_unavailable", txt "crash ingestion is temporarily unavailable", true)
  | Internal => (500%N, txt "internal_error", txt "request could not be completed", true)
  end.
End IngestError.

Abbreviation ntx := (tx Project.t IngestError.t).
Definition call (e : IngestError.t) : ntx () := ok ← remote; lift (fail_if (negb ok) e).

(** * Requests *)

(** The value of a header: absent, or its text when it can be read as one. *)
Definition headers : Type := text -> option (option text).
Definition header_text (h : headers) (name : text) : option text := mjoin (h name).

(** [UnrealQuery::parse]. *)
Module UnrealQuery.
Record t : Type := Mk { app_id : text; app_version : text; app_environment : text; upload_type : text; user_id : text }.
Definition empty : t := Mk [] [] [] [] [].
Definition set (name value : text) (q : t) : option t :=
  if decide (name = txt "AppID") then Some (Mk value (app_version q) (app_environment q) (upload_type q) (user_id q))
  else if decide (name = txt "AppVersion") then Some (Mk (app_id q) value (app_environment q) (upload_type q) (user_id q))
  else if decide (name = txt "AppEnvironment") then Some (Mk (app_id q) (app_version q) value (upload_type q) (user_id q))
  else if decide (name = txt "UploadType") then Some (Mk (app_id q) (app_version q) (app_environment q) value (user_id q))
  else if decide (name = txt "UserID") then Some (Mk (app_id q) (app_version q) (app_environment q) (upload_type q) value)
  else None.
Fixpoint fill (seen : list text) (q : t) (pairs : list (text * text)) : option t :=
  match pairs with
  | [] => Some q
  | (name, value) :: pairs => if decide (name ∈ seen) then None else q ← set name value q; fill (name :: seen) q pairs
  end.
Definition parse {F : FormUrlEncoded} (raw : option text) : result IngestError.t t :=
  raw ← ok_or IngestError.InvalidRequest raw;
  _ ← fail_if (MAX_QUERY_BYTES <? str_len raw)%N IngestError.InvalidRequest;
  ok_or IngestError.InvalidRequest (fill [] empty (form_pairs (as_bytes raw))).
End UnrealQuery.

(** [u64::from_str]: an optional plus sign and decimal digits that fit. *)
Fixpoint decimal_digits (acc : N) (s : text) : option N :=
  match s with
  | [] => Some acc
  | c :: s =>
      if is_ascii_digit c then
        let acc := (acc * 10 + (c - 48))%N in
        if (acc <=? u64_max)%N then decimal_digits acc s else None
      else None
  end.
Definition parse_u64 (s : text) : option N :=
  match s with
  | [] => None
  | c :: s' => if (c =? 43)%N then match s' with [] => None | _ => decimal_digits 0 s' end else decimal_digits 0 s
  end.

(** [validate_request_headers]. *)
Definition validate_request_headers (h : headers) (q : UnrealQuery.t) : result IngestError.t () :=
  _ ← fail_if (negb (bool_decide (header_text h (txt "content-type") = Some (txt "application/octet-stream")))
               || negb (bool_decide (UnrealQuery.upload_type q = txt "crashreports"))) IngestError.InvalidRequest;
  _ ← fail_if (MAX_QUERY_BYTES <? str_len (UnrealQuery.app_id q) + str_len (UnrealQuery.app_version q)
                 + str_len (UnrealQuery.app_environment q) + str_len (UnrealQuery.upload_type q)
                 + str_len (UnrealQuery.user_id q))%N IngestError.InvalidRequest;
  match h (txt "content-length") with
  | None => Ok tt
  | Some value =>
      length ← ok_or IngestError.InvalidRequest (value ≫= parse_u64);
      fail_if (MAX_COMPRESSED_BYTES <? length)%N IngestError.RequestTooLarge
  end.

(** [source_ip]: the last address of the chain that is not one of the trusted proxies. *)
Definition trusted {N : Network} (proxies : list network) (a : address) : bool := existsb (fun n => contains n a) proxies.
Definition source_ip {N : Network} (peer : address) (h : headers) (proxies : list network) : result IngestError.t address :=
  if negb (trusted proxies peer) then Ok peer
  else
    forwarded ← ok_or IngestError.InvalidRequest (header_text h (txt "x-forwarded-for"));
    chain ← ok_or IngestError.InvalidRequest (mapM (fun value => parse_address (trim value)) (split_on (N.eqb 44) forwarded));
    _ ← fail_if (bool_decide (chain = []) || (16 <? len chain)%N) IngestError.InvalidRequest;
    ok_or IngestError.InvalidRequest (List.find (fun a => negb (trusted proxies a)) (reverse (chain ++ [peer]))).

(** [usable_crash_guid]. *)
Definition guid_byte (b : Byte.byte) : bool :=
  let c := Byte.to_N b in is_ascii_alphanumeric c || (c =? 45)%N || (c =? 95)%N.
Definition usable_crash_guid (directory archive : text) : option text :=
  if starts_with directory (txt "UECC-") && (str_len directory <=? MAX_GUID_BYTES)%N && forallb guid_byte (as_bytes directory)
     && bool_decide (archive = directory ++ txt ".uecrash")
  then Some directory else None.

(** [random_uuid]: version 4. *)
Definition set_bits (index : nat) (mask bits : N) (bs : bytes) : bytes :=
  alter (fun b => byte_of (N.lor (N.land (Byte.to_N b) mask) bits)) index bs.
Definition uuid_of (bs : bytes) : text :=
  hex2s false (take 4 bs) ++ txt "-" ++ hex2s false (take 2 (drop 4 bs)) ++ txt "-" ++ hex2s false (take 2 (drop 6 bs))
  ++ txt "-" ++ hex2s false (take 2 (drop 8 bs)) ++ txt "-" ++ hex2s false (take 6 (drop 10 bs)).
Definition random_uuid (random : option bytes) : result IngestError.t text :=
  bs ← ok_or IngestError.Internal random;
  Ok (uuid_of (set_bits 8 63 128 (set_bits 6 15 64 bs))).

(** [parse_limit], of the value of the variable. *)
Definition parse_limit (value : option text) (default : N) : option N :=
  match value with
  | None => Some default
  | Some value => n ← parse_u64 value; if (n <=? u32_max)%N && negb (n =? 0)%N then Some n else None
  end.

(** * Rate limits *)

Module KeyScope.
Record t {N : Network} : Type := Mk {
  key_id : text; organization_id : text; project_id : text; environment : text; allowed_cidrs : list network }.
Arguments t : clear implicits.
End KeyScope.
Module CrashIngest.
Record t {N : Network} : Type := Mk {
  rate_secret : bytes; trusted_proxies : list network; project_limit : Z; ip_limit : Z;
  usage_enforcement_enabled : bool; enabled : bool }.
Arguments t : clear implicits.
End CrashIngest.
Module RateResult.
Record t : Type := Mk { limit : Z; remaining : Z }.
End RateResult.

Definition bucket_start (now : Z) : Z := (now `div` minutes 1 * 60)%Z.
Definition to_le_bytes (z : Z) : bytes :=
  map (fun i => byte_of (Z.to_N (Z.shiftr z (8 * Z.of_nat i) mod 256))) (seq 0 8).
Definition subject (bs : bytes) : list N := map Byte.to_N bs.

(** [increment_rate]. *)
Definition increment_rate (scope : text) (subject_hash : bytes) (bucket : Z) : ntx Z :=
  statement IngestError.Unavailable (fun db =>
    let k := (scope, subject subject_hash, bucket) in
    let r := match Project.limits db !! k with
             | Some r => RateLimit.Mk (RateLimit.requests r + 1) (RateLimit.expires_at r)
             | None => RateLimit.Mk 1 (seconds bucket + minutes 2)
             end in
    if (RateLimit.requests r <=? 2147483647)%Z
    then Ok (RateLimit.requests r, Project.set_limits <[k := r]> db) else Err IngestError.Unavailable).

(** The rows that have expired, at most 128 at once, the first to expire first. *)
Definition limit_leb (a b : (text * list N * Z) * RateLimit.t) : bool := (RateLimit.expires_at a.2 <=? RateLimit.expires_at b.2)%Z.
Definition expired_limits (now : Z) (db : Project.t) : list ((text * list N * Z) * RateLimit.t) :=
  take 128 (sort limit_leb (filter (fun kv => (RateLimit.expires_at kv.2 <= now)%Z) (map_to_list (Project.limits db)))).
Definition drop_limits (now : Z) (db : Project.t) : Project.t :=
  Project.set_limits (fun m => foldl (fun m kv => delete kv.1 m) m (expired_limits now db)) db.

(** [apply_rate_limits]: a request beyond a limit is not counted. *)
Definition apply_rate_limits {N : Network} {S : Sha256} {H : HmacSha256} (ingest : CrashIngest.t N) (scope : KeyScope.t N)
    (source_ip : address) (now : Z) : ntx RateResult.t :=
  r ← transaction_if (fun r => match r with Ok _ => true | Err _ => false end) IngestError.Unavailable
    (bucket ← select IngestError.Unavailable (fun _ => bucket_start now);
     let ip_hash := hmac_sha256 (CrashIngest.rate_secret ingest) (as_bytes (show_address source_ip) ++ to_le_bytes bucket) in
     let project_hash := sha256 (as_bytes (KeyScope.project_id scope)) in
     _ ← execute IngestError.Unavailable (drop_limits now);
     project_count ← increment_rate RATE_LIMIT_PROJECT project_hash bucket;
     ip_count ← increment_rate RATE_LIMIT_IP ip_hash bucket;
     let limit := Z.min (CrashIngest.project_limit ingest) (CrashIngest.ip_limit ingest) in
     if (CrashIngest.project_limit ingest <? project_count)%Z || (CrashIngest.ip_limit ingest <? ip_count)%Z then
       _ ← call IngestError.Unavailable;
       mret (Err (IngestError.RateLimited limit 0))
     else mret (Ok (RateResult.Mk limit
       (Z.min (Z.max 0 (CrashIngest.project_limit ingest - project_count)) (Z.max 0 (CrashIngest.ip_limit ingest - ip_count))))));
  lift r.

(** * Storing an upload *)

(** What arrives of a body: a chunk, a failure of the connection, or nothing before the deadline. *)
Inductive BodyItem : Type := Chunk (c : bytes) | Broken | TimedOut.
Module StoredRequest.
Record t : Type := Mk { checksum : bytes; byte_size : N }.
End StoredRequest.

(** The multipart upload: the bytes that were digested and spooled, the part being filled, and the parts
    that were put. *)
Module Upload.
Record t : Type := Mk { digested : bytes; byte_size : N; part : bytes; parts : list bytes }.
Definition empty : t := Mk [] 0 [] [].
End Upload.

(** [upload.abort()], whose outcome is dropped, and the error that follows. *)
Definition abort {A} (e : IngestError.t) : ntx A := _ ← remote; raise e.
Definition put_part : ntx () := ok ← remote; if ok : bool then mret () else abort IngestError.Unavailable.

(** The loop over the bytes of a chunk: every part is filled before it is put. *)
Fixpoint push (fuel : nat) (remaining : bytes) (u : Upload.t) : ntx Upload.t :=
  match fuel, remaining with
  | S fuel, _ :: _ =>
      let count := N.min (MULTIPART_CHUNK_BYTES - len (Upload.part u)) (len remaining) in
      let part := Upload.part u ++ take (N.to_nat count) remaining in
      let remaining := drop (N.to_nat count) remaining in
      if (len part =? MULTIPART_CHUNK_BYTES)%N then
        _ ← put_part;
        push fuel remaining (Upload.Mk (Upload.digested u) (Upload.byte_size u) [] (Upload.parts u ++ [part]))
      else push fuel remaining (Upload.Mk (Upload.digested u) (Upload.byte_size u) part (Upload.parts u))
  | _, _ => mret u
  end.

(** The loop over the chunks. *)
Fixpoint receive (body : list BodyItem) (u : Upload.t) : ntx Upload.t :=
  match body with
  | [] => mret u
  | TimedOut :: _ => abort IngestError.Unavailable
  | Broken :: _ => abort IngestError.InvalidRequest
  | Chunk c :: body =>
      match checked_add (Upload.byte_size u) (len c) with
      | None => abort IngestError.RequestTooLarge
      | Some next_size =>
          if (MAX_COMPRESSED_BYTES <? next_size)%N then abort IngestError.RequestTooLarge
          else
            spooled ← remote;
            if negb spooled then abort IngestError.Unavailable
            else
              u ← push (length c) c (Upload.Mk (Upload.digested u ++ c) next_size (Upload.part u) (Upload.parts u));
              receive body u
      end
  end.

(** [upload.complete()]: when the store does not answer, the object may be there all the same. *)
Definition complete_upload (object_key : text) (contents : bytes) : ntx bool := fun o db =>
  let '(failed, o) := next_outcome o in
  let stored := Project.set_bucket <[object_key := contents]> db in
  if failed then let '(applied, o) := next_outcome o in (Ok false, (if applied : bool then stored else db), o)
  else (Ok true, stored, o).

(** [store_request]. *)
Definition store_request {S : Sha256} (object_key : text) (body : list BodyItem) : ntx StoredRequest.t :=
  _ ← call IngestError.Unavailable;
  _ ← call IngestError.Unavailable;
  u ← receive body Upload.empty;
  if (Upload.byte_size u =? 0)%N then abort IngestError.InvalidRequest
  else
    synced ← remote;
    if negb synced then abort IngestError.Unavailable
    else
      parts ← (if bool_decide (Upload.part u = []) then mret (Upload.parts u)
               else _ ← put_part; mret (Upload.parts u ++ [Upload.part u]));
      completed ← complete_upload object_key (concat parts);
      if negb completed then abort IngestError.Unavailable
      else mret (StoredRequest.Mk (sha256 (Upload.digested u)) (Upload.byte_size u)).

(** * Left-over uploads *)

(** [register_pending_object] and [clear_orphan]. *)
Definition register_pending_object (now : Z) (object_key : text) : ntx () :=
  statement IngestError.Unavailable (fun db =>
    if is_none (Project.orphans db !! object_key)
    then Ok (tt, Project.set_orphans <[object_key := Orphan.Mk 0 now now]> db) else Err IngestError.Unavailable).
Definition clear_orphan (object_key : text) : ntx () :=
  ignoring (execute IngestError.Unavailable (Project.set_orphans (delete object_key))).

(** [objects.delete]. *)
Definition delete_object (object_key : text) : ntx bool := map_error (fun _ => IngestError.Unavailable) (delete_object_checked object_key).

(** [cleanup_object]. *)
Definition failed_once (now : Z) (old : option Orphan.t) : Orphan.t :=
  match old with
  | Some r => Orphan.Mk (Orphan.attempts r + 1) (Orphan.created_at r) now
  | None => Orphan.Mk 1 now now
  end.
Definition cleanup_object (now : Z) (object_key : text) : ntx () :=
  deleted ← delete_object object_key;
  if deleted : bool then clear_orphan object_key
  else ignoring (execute IngestError.Unavailable (fun db =>
    Project.set_orphans <[object_key := failed_once now (Project.orphans db !! object_key)]> db)).

(** [reconcile_orphans]. *)
Definition orphan_leb (a b : text * Orphan.t) : bool :=
  if (Orphan.last_error_at a.2 =? Orphan.last_error_at b.2)%Z then text_leb a.1 b.1
  else (Orphan.last_error_at a.2 <? Orphan.last_error_at b.2)%Z.
Definition abandoned (now : Z) (r : Orphan.t) : bool := (0 <? Orphan.attempts r)%Z || (Orphan.created_at r <? now - minutes 60)%Z.
Definition abandoned_objects (now : Z) (db : Project.t) : list (text * Orphan.t) :=
  take 16 (sort orphan_leb (filter (fun kv => abandoned now kv.2 = true) (map_to_list (Project.orphans db)))).
Definition remove_orphan (now : Z) (row : text * Orphan.t) : ntx () :=
  deleted ← delete_object row.1;
  if deleted : bool then ignoring (execute IngestError.Unavailable (Project.set_orphans (delete row.1)))
  else ignoring (execute IngestError.Unavailable (Project.set_orphans (alter (fun r => Orphan.Mk (Orphan.attempts r + 1) (Orphan.created_at r) now) row.1))).
Definition reconcile_orphans (now : Z) : ntx () :=
  ignoring (rows ← select IngestError.Unavailable (abandoned_objects now); each (remove_orphan now) rows).

(** [get_raw_object]: the bytes of an upload, of the size that was recorded. *)
Inductive RawObjectError : Type := RawUnavailable | RawMissing | RawInvalid.
Definition get_raw_object (key : text) (expected_size : N) : tx Project.t RawObjectError bytes :=
  contents ← select RawUnavailable (fun db => Project.bucket db !! key);
  contents ← lift (ok_or RawMissing contents);
  _ ← lift (fail_if (negb (len contents =? expected_size)%N || (MAX_COMPRESSED_BYTES <? len contents)%N) RawInvalid);
  mret contents.

(** * Recording a crash *)

Module AcceptedCrash.
Record t : Type := Mk {
  event_id : text; state : ProcessingState.t; deduplicated : bool; received_at : Z; status_path : text; usage : Admission.t }.
End AcceptedCrash.

(** [map_usage_error], [processing_state] and [accepted_response]. *)
Definition map_usage_error (e : UsageError.t) : IngestError.t :=
  match e with UsageError.Internal => IngestError.Internal | _ => IngestError.Unavailable end.
Definition processing_states : list ProcessingState.t :=
  [ProcessingState.Received; ProcessingState.Stored; ProcessingState.Parsed; ProcessingState.AwaitingSymbols;
   ProcessingState.Symbolicating; ProcessingState.Processed; ProcessingState.Failed; ProcessingState.Quarantined].
Definition processing_state (value : text) : result IngestError.t ProcessingState.t :=
  ok_or IngestError.Internal (List.find (fun s => bool_decide (ProcessingState.name s = value)) processing_states).
Definition accepted_response (event_id : text) (state : ProcessingState.t) (received_at : Z) (deduplicated : bool)
    (project_id : text) (usage : Admission.t) : AcceptedCrash.t :=
  AcceptedCrash.Mk event_id state deduplicated received_at
    (txt "/api/v1/projects/" ++ project_id ++ txt "/events/" ++ event_id) usage.
Definition bounded_candidate_release_ids (candidates : list text) : list text * bool :=
  (take MAX_RELEASE_CANDIDATES candidates, (MAX_RELEASE_CANDIDATES <? length candidates)%nat).

(** The crash of the project with a GUID, and the state it is in. *)
Definition scope_key {N : Network} (scope : KeyScope.t N) (event_id : text) : Jobs.key :=
  (KeyScope.organization_id scope, KeyScope.project_id scope, event_id).
Definition with_guid (guid : text) (db : Project.t) : option (text * CrashEvent.t) :=
  head (filter (fun kv => CrashEvent.crash_guid kv.2 = Some guid) (map_to_list (Project.events db))).
Definition existing_crash {N : Network} (scope : KeyScope.t N) (guid : text) (db : Project.t) : option (text * text * Z) :=
  '(id, e) ← with_guid guid db;
  row ← Queue.events (Project.queue db) !! scope_key scope id;
  Some (id, EventRow.processing_state row, CrashEvent.received_at e).

(** The rows that a new crash adds. *)
Definition insert_object (object_id object_key : text) (checksum : bytes) (byte_size : N) : ntx () :=
  statement IngestError.Unavailable (fun db =>
    if is_none (Project.objects db !! object_id)
       && forallb (fun kv : text * RawObject.t => negb (bool_decide (RawObject.object_key kv.2 = object_key))) (map_to_list (Project.objects db))
       && (len checksum =? 32)%N && (0 <? byte_size)%N
    then Ok (tt, Project.set_objects <[object_id := RawObject.Mk object_key checksum (Z.of_N byte_size) Stored None]> db)
    else Err IngestError.Unavailable).
Definition new_event (now : Z) (now_month object_id : text) (crash_guid : option text) (environment : text) : CrashEvent.t :=
  CrashEvent.Mk now object_id crash_guid environment (Admittance.default now_month) RetentionClass.Pending None None None.
Definition new_event_row : EventRow.t := EventRow.Mk (txt "stored") None false None None 0 0.
Definition insert_event {N : Network} (scope : KeyScope.t N) (now : Z) (now_month event_id object_id : text) (crash_guid : option text)
    : ntx (option Z) :=
  statement IngestError.Unavailable (fun db =>
    if is_some_and crash_guid (fun guid => negb (is_none (with_guid guid db))) then Ok (None, db)
    else if is_none (Project.events db !! event_id) && is_none (event_of object_id db)
            && negb (is_none (Project.objects db !! object_id))
            && negb (is_none (Project.versions db !! 1%Z))
         then Ok (Some now,
                Project.set_queue (Queue.set_events <[scope_key scope event_id := new_event_row]> (Project.queue db))
                  (Project.set_events <[event_id := new_event now now_month object_id crash_guid (KeyScope.environment scope)]> db))
         else Err IngestError.Unavailable).
Definition process_key (event_id : text) : text := txt "process_crash:" ++ event_id.
Definition insert_process_job {N : Network} (scope : KeyScope.t N) (now : Z) (job_id event_id : text) : ntx () :=
  statement IngestError.Unavailable (fun db =>
    if is_none (Project.job_keys db !! process_key event_id)
    then db ← ok_or IngestError.Unavailable (add_job (process_key event_id) job_id
           (JobRow.Mk (KeyScope.organization_id scope) (KeyScope.project_id scope) (Some event_id) None None
              (txt "process_crash") Jobs.Pending 100 0 5 0 now now None) db);
         Ok (tt, db)
    else Err IngestError.Unavailable).

(** [persist_event]: a crash that the project has is answered from what it was; a new one is recorded with
    its upload, its admission and its job, and is no longer left over. *)
Inductive Persisted : Type := Existing (a : AcceptedCrash.t) | Conflicting | Recorded (a : AcceptedCrash.t).
Definition is_recorded (p : Persisted) : bool := match p with Recorded _ => true | _ => false end.
Definition existing_response {N : Network} (scope : KeyScope.t N) (row : text * text * Z) (usage : Admission.t) : result IngestError.t AcceptedCrash.t :=
  state ← processing_state row.1.2;
  Ok (accepted_response row.1.1 state row.2 true (KeyScope.project_id scope) usage).
Definition admission_of (event_id : text) : ntx Admission.t := map_error map_usage_error (admission_for_event event_id false).
Definition record_event {N : Network} (ingest : CrashIngest.t N) (scope : KeyScope.t N) (now : Z) (now_month event_id object_id object_key : text)
    (stored : StoredRequest.t) (crash_guid : option text) (job_random : option bytes) : ntx Persisted :=
  _ ← map_error map_usage_error ensure_policy_snapshot;
  _ ← lift (fail_if (negb (is_i64 (Z.of_N (StoredRequest.byte_size stored)))) IngestError.RequestTooLarge);
  _ ← insert_object object_id object_key (StoredRequest.checksum stored) (StoredRequest.byte_size stored);
  row ← insert_event scope now now_month event_id object_id crash_guid;
  match row with
  | None => _ ← call IngestError.Unavailable; mret Conflicting
  | Some received_at =>
      usage ← map_error map_usage_error (record_acceptance now_month event_id object_id (Z.of_N (StoredRequest.byte_size stored))
                                           (CrashIngest.usage_enforcement_enabled ingest));
      job_id ← lift (random_uuid job_random);
      _ ← insert_process_job scope now job_id event_id;
      _ ← execute IngestError.Unavailable (Project.set_orphans (delete object_key));
      mret (Recorded (accepted_response event_id ProcessingState.Stored received_at false (KeyScope.project_id scope) usage))
  end.
Definition persist_event {N : Network} (ingest : CrashIngest.t N) (scope : KeyScope.t N) (now : Z) (now_month event_id object_id object_key : text)
    (stored : StoredRequest.t) (crash_guid : option text) (job_random : option bytes) : ntx AcceptedCrash.t :=
  persisted ← transaction_uncertain is_recorded IngestError.Unavailable IngestError.CommitUncertain
    (row ← match crash_guid with
           | Some guid => select IngestError.Unavailable (existing_crash scope guid)
           | None => mret None
           end;
     match row with
     | Some row =>
         usage ← admission_of row.1.1;
         _ ← call IngestError.Unavailable;
         response ← lift (existing_response scope row usage);
         mret (Existing response)
     | None => record_event ingest scope now now_month event_id object_id object_key stored crash_guid job_random
     end);
  match persisted with
  | Existing a | Recorded a => mret a
  | Conflicting =>
      guid ← lift (ok_or IngestError.Internal crash_guid);
      row ← select IngestError.Unavailable (existing_crash scope guid);
      row ← lift (ok_or IngestError.Unavailable row);
      usage ← transaction IngestError.Unavailable (admission_of row.1.1);
      lift (existing_response scope row usage)
  end.

(** * Submission *)

(** What a request brings along: the times of its database calls, and random bytes for the crash, the upload
    and the job. *)
Module Arrival.
Record t {N : Network} : Type := Mk {
  peer : address; raw_query : option text; request_headers : headers; body : list BodyItem;
  limited_at : Z; registered_at : Z; recorded_at : Z; month : text; cleaned_at : Z;
  event_random : option bytes; object_random : option bytes; job_random : option bytes }.
Arguments t : clear implicits.
End Arrival.
Definition object_key_of {N : Network} (scope : KeyScope.t N) (event_id : text) : text :=
  txt "org/" ++ KeyScope.organization_id scope ++ txt "/project/" ++ KeyScope.project_id scope ++ txt "/events/" ++ event_id ++ txt "/raw.bundle".

(** The first half of [submit_crash]: everything that is checked before an upload is registered. *)
Definition admit_request {N : Network} {F : FormUrlEncoded} {S : Sha256} {H : HmacSha256} (ingest : CrashIngest.t N)
    (answer : result () (option (KeyScope.t N))) (a : Arrival.t N) : ntx (KeyScope.t N * RateResult.t * text * text) :=
  scope ← lift (map_err (fun _ => IngestError.Internal) answer);
  scope ← lift (ok_or IngestError.NotFound scope);
  _ ← lift (fail_if (negb (CrashIngest.enabled ingest)) IngestError.Unavailable);
  ip ← lift (source_ip (Arrival.peer a) (Arrival.request_headers a) (CrashIngest.trusted_proxies ingest));
  _ ← lift (fail_if (negb (bool_decide (length (KeyScope.allowed_cidrs scope) = 0%nat))
                     && negb (existsb (fun n => contains n ip) (KeyScope.allowed_cidrs scope))) IngestError.NotFound);
  rate ← apply_rate_limits ingest scope ip (Arrival.limited_at a);
  query ← lift (UnrealQuery.parse (Arrival.raw_query a));
  _ ← lift (validate_request_headers (Arrival.request_headers a) query);
  event_id ← lift (random_uuid (Arrival.event_random a));
  object_id ← lift (random_uuid (Arrival.object_random a));
  mret (scope, rate, event_id, object_id).

(** [let x = m; if x.is_err() { cleanup }; x?]. *)
Definition or_else {A} (m : ntx A) (cleanup : IngestError.t -> ntx ()) : ntx A := fun o db =>
  match m o db with
  | (Ok a, db, o) => (Ok a, db, o)
  | (Err e, db, o) => let '(_, db, o) := cleanup e o db in (Err e, db, o)
  end.

(** [inspect_spool] reads the bytes that were spooled, or fails to. *)
Definition inspect_spool {Z : Zlib} {X : Roxmltree} (spool : bytes) : ntx CrashRequestManifest.t :=
  _ ← call IngestError.Unavailable;
  lift (map_err (fun _ => IngestError.InvalidRequest) (inspect_crash_envelope spool CrashRequestLimits.default)).
Definition body_bytes (body : list BodyItem) : bytes :=
  concat (map (fun i => match i with Chunk c => c | _ => [] end) body).

(** [submit_crash]. *)
Definition unless_uncertain (cleanup : ntx ()) (e : IngestError.t) : ntx () :=
  match e with IngestError.CommitUncertain => mret () | _ => cleanup end.
Definition submit_crash {N : Network} {F : FormUrlEncoded} {S : Sha256} {H : HmacSha256} {Z : Zlib} {X : Roxmltree}
    (ingest : CrashIngest.t N) (answer : result () (option (KeyScope.t N))) (a : Arrival.t N) : ntx (AcceptedCrash.t * RateResult.t) :=
  '(scope, rate, event_id, object_id) ← admit_request ingest answer a;
  let object_key := object_key_of scope event_id in
  let cleanup := cleanup_object (Arrival.cleaned_at a) object_key in
  _ ← register_pending_object (Arrival.registered_at a) object_key;
  stored ← or_else (store_request object_key (Arrival.body a)) (fun _ => cleanup);
  manifest ← or_else (inspect_spool (body_bytes (Arrival.body a))) (fun _ => cleanup);
  accepted ← or_else
    (persist_event ingest scope (Arrival.recorded_at a) (Arrival.month a) event_id object_id object_key stored
       (usable_crash_guid (CrashRequestManifest.directory_name manifest) (CrashRequestManifest.archive_name manifest))
       (Arrival.job_random a))
    (unless_uncertain cleanup);
  _ ← (if AcceptedCrash.deduplicated accepted then cleanup else mret ());
  mret (accepted, rate).
