(* ===== verification/Quotas.v ===== *)
(** Quotas: what the outcome of an admission means for the numbers of a month and for what a project pays. *)

From S2P Require Import Prelude Text Usage.

#[local] Open Scope Z_scope.

(** ** Arithmetic that saturates *)

Lemma clamp_le z : i64_min <= z -> clamp_i64 z <= z.
Proof. unfold clamp_i64, i64_min. lia. Qed.
Lemma clamp_mono a b : a <= b -> clamp_i64 a <= clamp_i64 b.
Proof. unfold clamp_i64. lia. Qed.
Lemma clamp_exact n b : n <= i64_max -> n <= clamp_i64 b <-> n <= b \/ n <= i64_min.
Proof. unfold clamp_i64, i64_min, i64_max. lia. Qed.

(** The numbers that the limits mean.  The product of the courtesy stops at the largest machine integer. *)
Definition overage_events (cap : Z) : Z := cap / 1500 * 100000.
Definition courtesy_events (p : UsagePolicy.t) : Z :=
  Z.min (UsagePolicy.event_limit p * UsagePolicy.courtesy_percent p) i64_max / 100.

Lemma valid_policy p :
  UsagePolicy.valid p = true ->
  0 < UsagePolicy.event_limit p <= i64_max /\ 0 <= UsagePolicy.courtesy_percent p <= 100
  /\ (forall cap, UsagePolicy.spend_cap_cents p = Some cap -> 1500 <= cap <= 10000000).
Proof.
  unfold UsagePolicy.valid. rewrite !andb_true_iff, !Z.leb_le, !Z.ltb_lt, !is_i64_true.
  intros H. split_and!; try lia. intros cap Hcap.
  destruct H as [_ H]. rewrite Hcap in H. cbn in H. rewrite andb_true_iff, !Z.leb_le in H. lia.
Qed.

Lemma overage_limit_exact n p cap :
  UsagePolicy.valid p = true -> UsagePolicy.spend_cap_cents p = Some cap -> 0 <= n <= i64_max ->
  n <= overage_limit p cap <-> n <= UsagePolicy.event_limit p + overage_events cap.
Proof.
  intros (Hl & _ & Hcap)%valid_policy Ec Hn. specialize (Hcap _ Ec).
  unfold overage_limit, saturating_add_i64, saturating_mul_i64, overage_events, OVERAGE_BLOCK_CENTS, OVERAGE_BLOCK_EVENTS.
  rewrite Z.quot_div_nonneg by lia.
  assert (0 <= cap / 1500 <= 6667) by (split; [apply Z.div_pos; lia|apply Z.div_le_upper_bound; lia]).
  assert (clamp_i64 (cap / 1500 * 100000) = cap / 1500 * 100000) as -> by (unfold clamp_i64, i64_min, i64_max; lia).
  rewrite clamp_exact by lia. unfold i64_min. lia.
Qed.

Lemma courtesy_events_range p : UsagePolicy.valid p = true -> 0 <= courtesy_events p <= i64_max.
Proof.
  intros (Hl & Hp & _)%valid_policy. unfold courtesy_events.
  assert (0 <= UsagePolicy.event_limit p * UsagePolicy.courtesy_percent p) by nia. unfold i64_max in *.
  split; [apply Z.div_pos; lia|apply Z.div_le_upper_bound; lia].
Qed.
Lemma courtesy_limit_exact n p :
  UsagePolicy.valid p = true -> 0 <= n <= i64_max -> n <= courtesy_limit p <-> n <= UsagePolicy.event_limit p + courtesy_events p.
Proof.
  intros Hv Hn. pose proof (valid_policy p Hv) as (Hl & Hp & _). pose proof (courtesy_events_range p Hv).
  unfold courtesy_limit, saturating_add_i64, saturating_mul_i64.
  assert (clamp_i64 (UsagePolicy.event_limit p * UsagePolicy.courtesy_percent p)
          = Z.min (UsagePolicy.event_limit p * UsagePolicy.courtesy_percent p) i64_max) as ->.
  { assert (0 <= UsagePolicy.event_limit p * UsagePolicy.courtesy_percent p) by nia. unfold clamp_i64, i64_min, i64_max in *. lia. }
  rewrite Z.quot_div_nonneg by (unfold i64_max; nia). fold (courtesy_events p). rewrite clamp_exact by lia. unfold i64_min. lia.
Qed.
Lemma courtesy_limit_le p : UsagePolicy.valid p = true -> courtesy_limit p <= UsagePolicy.event_limit p + courtesy_events p.
Proof.
  intros Hv. pose proof (valid_policy p Hv) as (Hl & _). pose proof (courtesy_events_range p Hv).
  assert (courtesy_limit p <= i64_max) by (unfold courtesy_limit, saturating_add_i64, clamp_i64, i64_min, i64_max; lia).
  destruct (Z.le_gt_cases 0 (courtesy_limit p)); [by apply courtesy_limit_exact|lia].
Qed.

(** ** Outcomes *)

(** From what is included to what is only sampled. *)
Definition rank (o : Outcome.t) : Z :=
  match o with Outcome.Standard => 0 | Outcome.Overage => 1 | Outcome.Courtesy => 2 | Outcome.Sampling => 3 end.

(** Overages are paid in blocks of events. *)
Definition billed_cents (n : Z) (p : UsagePolicy.t) : Z :=
  (n - UsagePolicy.event_limit p + 99999) / 100000 * 1500.

Lemma outcome_cases n p :
  (policy_outcome n p = Outcome.Standard /\ n <= UsagePolicy.event_limit p)
  \/ (policy_outcome n p = Outcome.Overage /\ UsagePolicy.event_limit p < n
      /\ exists cap, UsagePolicy.spend_cap_cents p = Some cap /\ n <= overage_limit p cap)
  \/ (policy_outcome n p = Outcome.Courtesy /\ UsagePolicy.event_limit p < n /\ n <= courtesy_limit p
      /\ forall cap, UsagePolicy.spend_cap_cents p = Some cap -> overage_limit p cap < n)
  \/ (policy_outcome n p = Outcome.Sampling /\ UsagePolicy.event_limit p < n /\ courtesy_limit p < n
      /\ forall cap, UsagePolicy.spend_cap_cents p = Some cap -> overage_limit p cap < n).
Proof.
  unfold policy_outcome. destruct (Z.leb_spec n (UsagePolicy.event_limit p)) as [H|H]; [by left|right].
  destruct (UsagePolicy.spend_cap_cents p) as [cap|]; cbn [is_some_and].
  - destruct (Z.leb_spec n (overage_limit p cap)) as [Ho|Ho]; [left; naive_solver|right].
    destruct (Z.leb_spec n (courtesy_limit p)) as [Hc|Hc]; [left|right]; naive_solver.
  - right. destruct (Z.leb_spec n (courtesy_limit p)) as [Hc|Hc]; [left|right]; naive_solver.
Qed.

Lemma included_standard n p : n <= UsagePolicy.event_limit p -> policy_outcome n p = Outcome.Standard.
Proof. intros H. unfold policy_outcome. by apply Z.leb_le in H as ->. Qed.

(** What a number with an outcome is at most; a limit beyond every machine integer is one as well. *)
Lemma overage_limit_le n p cap :
  UsagePolicy.valid p = true -> UsagePolicy.spend_cap_cents p = Some cap -> 0 <= n -> n <= overage_limit p cap ->
  n <= UsagePolicy.event_limit p + overage_events cap.
Proof.
  intros Hv Hcap Hn Ho. apply (overage_limit_exact n p cap); [done|done| |done]. split; [done|].
  etrans; [exact Ho|]. apply Z.le_min_r || (unfold overage_limit, saturating_add_i64, clamp_i64, i64_max, i64_min; lia).
Qed.
Lemma outcome_bound n p :
  UsagePolicy.valid p = true ->
  match policy_outcome n p with
  | Outcome.Standard => n <= UsagePolicy.event_limit p
  | Outcome.Overage => n <= UsagePolicy.event_limit p + from_option overage_events 0 (UsagePolicy.spend_cap_cents p)
  | Outcome.Courtesy => n <= UsagePolicy.event_limit p + courtesy_events p
  | Outcome.Sampling => True
  end.
Proof.
  intros Hv. pose proof (valid_policy p Hv) as (Hl & _).
  destruct (outcome_cases n p) as [(-> & ?)|[(-> & Hn & cap & Ecap & Ho)|[(-> & ? & Hn & _)|(-> & _)]]]; [done| | |done].
  - rewrite Ecap. apply (overage_limit_le n p cap); [done|done|lia|done].
  - etrans; [exact Hn|]. by apply courtesy_limit_le.
Qed.

Lemma rank_mono n m p : n <= m -> rank (policy_outcome n p) <= rank (policy_outcome m p).
Proof.
  intros H.
  destruct (outcome_cases n p) as [(-> & ?)|[(-> & ? & cap & Hcap & ?)|[(-> & ? & ? & Hn)|(-> & ? & ? & Hn)]]];
  destruct (outcome_cases m p) as [(-> & ?)|[(-> & ? & cap' & Hcap' & ?)|[(-> & ? & ? & Hm)|(-> & ? & ? & Hm)]]];
  cbn [rank]; try lia.
  - specialize (Hn _ Hcap'). lia.
  - specialize (Hn _ Hcap'). lia.
Qed.

Lemma billed_within_cap n p cap :
  1500 <= cap -> n <= UsagePolicy.event_limit p + overage_events cap -> billed_cents n p <= cap.
Proof.
  intros Hcap Hn. unfold billed_cents, overage_events in *.
  assert ((n - UsagePolicy.event_limit p + 99999) / 100000 <= cap / 1500).
  { enough ((n - UsagePolicy.event_limit p + 99999) / 100000 < cap / 1500 + 1) by lia. apply Z.div_lt_upper_bound; lia. }
  pose proof (Z.mul_div_le cap 1500). nia.
Qed.

Lemma billed_beyond_cap n p cap :
  0 <= cap -> UsagePolicy.event_limit p + overage_events cap < n -> cap < billed_cents n p.
Proof.
  intros Hcap Hn. unfold billed_cents, overage_events in *.
  assert (cap / 1500 + 1 <= (n - UsagePolicy.event_limit p + 99999) / 100000) by (apply Z.div_le_lower_bound; lia).
  pose proof (Z.mul_succ_div_gt cap 1500). nia.
Qed.

(** C17: what the number of a crash within its month says about its admission: without a spend cap
    nothing is billed, and with one the blocks that the overages use never cost more than the cap; courtesy
    starts when the cap is used up and never exceeds its percentage of the limit (of which the product stops at the
    largest machine integer); crashes are sampled only beyond every limit: beyond what is included, beyond what
    the cap pays for and beyond the courtesy; and as the month goes on an admission never gets better. *)
Theorem quotas_are_respected n m p :
  UsagePolicy.valid p = true -> 0 < n -> n <= m -> m <= i64_max ->
  rank (policy_outcome n p) <= rank (policy_outcome m p)
  /\ match policy_outcome n p with
     | Outcome.Standard => n <= UsagePolicy.event_limit p
     | Outcome.Overage =>
         UsagePolicy.event_limit p < n
         /\ exists cap, UsagePolicy.spend_cap_cents p = Some cap /\ billed_cents n p <= cap
     | Outcome.Courtesy =>
         UsagePolicy.event_limit p < n <= UsagePolicy.event_limit p + courtesy_events p
         /\ forall cap, UsagePolicy.spend_cap_cents p = Some cap -> cap < billed_cents n p
     | Outcome.Sampling =>
         UsagePolicy.event_limit p + courtesy_events p < n
         /\ forall cap, UsagePolicy.spend_cap_cents p = Some cap -> cap < billed_cents n p
     end.
Proof.
  intros Hv Hn Hnm Hm. split; [by apply rank_mono|]. pose proof (valid_policy p Hv) as (Hl & Hp & Hc).
  assert (forall cap, UsagePolicy.spend_cap_cents p = Some cap -> overage_limit p cap < n -> cap < billed_cents n p) as Hbilled.
  { intros cap Hcap Hs. apply billed_beyond_cap; [specialize (Hc _ Hcap); lia|].
    apply Z.nle_gt. rewrite <- (overage_limit_exact n p cap) by (done || lia). lia. }
  destruct (outcome_cases n p) as [(-> & ?)|[(-> & ? & cap & Hcap & Ho)|[(-> & ? & Hcl & Hs)|(-> & ? & Hcl & Hs)]]]; [done|..].
  - split; [done|]. exists cap. split; [done|]. specialize (Hc _ Hcap). apply billed_within_cap; [lia|].
    apply overage_limit_exact in Ho; [done..|lia].
  - split; [|eauto]. split; [done|]. etransitivity; [exact Hcl|]. by apply courtesy_limit_le.
  - split; [|eauto]. apply Z.nle_gt. rewrite <- (courtesy_limit_exact n p) by (done || lia). lia.
Qed.

Lemma quotas_are_respected_witness :
  let p := UsagePolicy.Mk 1 10 100 1 30 7 30 7 20 (Some 1500) false in
  policy_outcome 100010 p = Outcome.Overage /\ billed_cents 100010 p <= 1500 /\ policy_outcome 100011 p = Outcome.Sampling.
Proof.
  cbv zeta. set (p := UsagePolicy.Mk 1 10 100 1 30 7 30 7 20 (Some 1500) false).
  assert (policy_outcome 100010 p = Outcome.Overage) as E by reflexivity.
  split; [done|]. split; [|reflexivity].
  pose proof (quotas_are_respected 100010 100011 p eq_refl ltac:(lia) ltac:(lia) ltac:(unfold i64_max; lia)) as [_ H].
  rewrite E in H. destruct H as (_ & cap & Hcap & H). injection Hcap as <-. exact H.
Defined.
