(* ===== verification/Accounting.v ===== *)
(** The runs of the operations on usage: what each leaves in the tables when it succeeds; and the sums that
    the counters keep. *)

From S2P Require Import Prelude Text Domain Identifiers Store Jobs Usage Retention Ingest.

#[local] Open Scope Z_scope.

(** * Sums over tables *)

Section sums.
Context {K V : Type} `{Countable K} (f : K -> V -> Z).

Lemma sum_with_empty : sum_with f ∅ = 0.
Proof. apply map_fold_empty. Qed.

Lemma sum_with_new k v (m : gmap K V) : m !! k = None -> sum_with f (<[k := v]> m) = f k v + sum_with f m.
Proof. intros Hk. unfold sum_with. rewrite map_fold_insert_L; [done|intros; lia|done]. Qed.

Lemma sum_with_update k v v' (m : gmap K V) :
  m !! k = Some v -> sum_with f (<[k := v']> m) = f k v' - f k v + sum_with f m.
Proof.
  intros Hk. rewrite <- (insert_delete_id m k v Hk) at 2. rewrite <- insert_delete_eq.
  rewrite !sum_with_new by apply lookup_delete_eq. lia.
Qed.

Lemma sum_with_same k v v' (m : gmap K V) :
  m !! k = Some v -> f k v' = f k v -> sum_with f (<[k := v']> m) = sum_with f m.
Proof. intros Hk Hf. rewrite (sum_with_update k v v' m Hk). lia. Qed.

Lemma sum_with_nonneg (m : gmap K V) : (forall k v, m !! k = Some v -> 0 <= f k v) -> 0 <= sum_with f m.
Proof.
  induction m as [|k v m Hk IH] using map_ind; intros Hf; [by rewrite sum_with_empty|].
  rewrite sum_with_new by done. pose proof (Hf k v (lookup_insert_eq _ _ _)).
  assert (0 <= sum_with f m); [|lia]. apply IH. intros k' v' Hk'. apply Hf. rewrite lookup_insert_ne; [done|congruence].
Qed.

Lemma sum_with_member k v (m : gmap K V) :
  (forall k v, m !! k = Some v -> 0 <= f k v) -> m !! k = Some v -> f k v <= sum_with f m.
Proof.
  intros Hf Hk. rewrite <- (insert_delete_id m k v Hk), sum_with_new by apply lookup_delete_eq.
  enough (0 <= sum_with f (delete k m)) by lia. apply sum_with_nonneg. intros k' v' [_ Hk']%lookup_delete_Some. by apply Hf in Hk'.
Qed.

End sums.

Lemma sum_with_ext {K V} `{Countable K} (f g : K -> V -> Z) (m : gmap K V) :
  (forall k v, m !! k = Some v -> f k v = g k v) -> sum_with f m = sum_with g m.
Proof.
  induction m as [|k v m Hk IH] using map_ind; intros Hf; [done|].
  rewrite !sum_with_new by done. rewrite (Hf k v) by apply lookup_insert_eq. f_equal. apply IH.
  intros k' v' Hk'. apply Hf. rewrite lookup_insert_ne; [done|congruence].
Qed.

Lemma sum_with_zero {K V} `{Countable K} (f : K -> V -> Z) (m : gmap K V) :
  (forall k v, m !! k = Some v -> f k v = 0) -> sum_with f m = 0.
Proof.
  intros Hf. rewrite (sum_with_ext f (fun _ _ => 0) m Hf). clear Hf. induction m as [|k v m Hk IH] using map_ind; [done|].
  by rewrite sum_with_new, IH.
Qed.

(** Two tables add up to the same when the rows of one that count are those of the other, under other keys. *)
Lemma sum_with_rekeyed {K L V W} `{Countable K} `{Countable L} (i : L -> W -> K) (f : K -> V -> Z) (g : L -> W -> Z)
    (m : gmap K V) (n : gmap L W) :
  (forall l l' w w', n !! l = Some w -> n !! l' = Some w' -> i l w = i l' w' -> l = l') ->
  (forall l w, n !! l = Some w -> exists v, m !! i l w = Some v /\ f (i l w) v = g l w) ->
  (forall k v, m !! k = Some v -> f k v = 0 \/ exists l w, k = i l w /\ n !! l = Some w) ->
  sum_with f m = sum_with g n.
Proof.
  revert m. induction n as [|l w n Hl IH] using map_ind; intros m Hi H1 H2.
  - rewrite sum_with_empty. apply sum_with_zero. intros k v Hk. destruct (H2 k v Hk) as [|(l & w & _ & Hl)]; [done|].
    by rewrite lookup_empty in Hl.
  - destruct (H1 l w) as (v & Hv & E); [apply lookup_insert_eq|]. rewrite sum_with_new by done.
    rewrite <- (insert_delete_id m (i l w) v Hv), sum_with_new by apply lookup_delete_eq. rewrite E. f_equal.
    assert (forall l' w', n !! l' = Some w' -> l' <> l) as Hne by (intros; congruence).
    assert (forall l' w', n !! l' = Some w' -> <[l := w]> n !! l' = Some w') as Hin.
    { intros l' w' Hl'. rewrite lookup_insert_ne; [done|]. intros <-. congruence. }
    apply IH.
    + intros l1 l2 w1 w2 E1%Hin E2%Hin. by apply Hi.
    + intros l' w' Hl'. destruct (H1 l' w' (Hin _ _ Hl')) as (v' & Hv' & E'). exists v'. split; [|done].
      rewrite lookup_delete_ne; [done|]. intros Heq. apply (Hne l' w' Hl'). symmetry.
      by apply (Hi l l' w w'); [apply lookup_insert_eq|apply Hin|].
    + intros k v' [Hk' Hk]%lookup_delete_Some. destruct (H2 k v' Hk) as [|(l' & w' & -> & Hl')]; [by left|right]. exists l', w'. split; [done|].
      destruct (decide (l' = l)) as [->|]; [|by rewrite lookup_insert_ne in Hl']. rewrite lookup_insert_eq in Hl'. by injection Hl' as ->.
Qed.

(** A row counts one. *)
Lemma sum_with_count {K V} `{Countable K} (P : K * V -> Prop) `{!forall x, Decision (P x)} (m : gmap K V) :
  sum_with (fun k v => if decide (P (k, v)) then 1 else 0) m = Z.of_nat (size (filter P m)).
Proof.
  induction m as [|k v m Hk IH] using map_ind; [done|]. rewrite sum_with_new, IH by done.
  rewrite map_filter_insert. case_decide.
  - rewrite map_size_insert_None by (rewrite map_lookup_filter_None; by left). lia.
  - rewrite delete_id; [lia|done].
Qed.

(** * Fields of a project *)

(** Reads the fields of a project through the operations that changed others. *)
Ltac fields :=
  cbn [Project.policy Project.versions Project.cycles Project.ledger Project.storage Project.events Project.objects
       Project.issues Project.manifest Project.images Project.symbols Project.queue Project.job_keys Project.orphans
       Project.limits Project.bucket Project.set_policy Project.set_versions Project.set_cycles Project.set_ledger
       Project.set_storage Project.set_events Project.set_objects Project.set_issues Project.set_manifest Project.set_images
       Project.set_symbols Project.set_queue Project.set_job_keys Project.set_orphans Project.set_limits Project.set_bucket] in *.

Lemma set_cycles_twice f g db : Project.set_cycles f (Project.set_cycles g db) = Project.set_cycles (fun x => f (g x)) db.
Proof. reflexivity. Qed.
Lemma set_ledger_twice f g db : Project.set_ledger f (Project.set_ledger g db) = Project.set_ledger (fun x => f (g x)) db.
Proof. reflexivity. Qed.

(** * Runs *)

(** The versions with the current policy among them. *)
Definition kept (p : UsagePolicy.t) (vs : gmap Z UsagePolicy.t) : gmap Z UsagePolicy.t :=
  if is_none (vs !! UsagePolicy.version p) then <[UsagePolicy.version p := p]> vs else vs.
Definition current (db : Project.t) : UsagePolicy.t := default UsagePolicy.default (Project.policy db).
Definition locked (db : Project.t) : Project.t := Project.set_versions (kept (current db)) (Project.set_policy (Some (current db)) db).

Lemma insert_current_policy_version_run db u db' :
  yields insert_current_policy_version db u db' ->
  db' = match Project.policy db with Some p => Project.set_versions (kept p) db | None => db end.
Proof. intros H. unfold insert_current_policy_version in H. by apply yields_execute in H. Qed.

Lemma lock_policy_run db p db' : yields lock_policy db p db' -> p = current db /\ db' = locked db.
Proof.
  intros H. unfold lock_policy in H. apply yields_bind in H as (u & db1 & H1 & H). apply yields_execute in H1.
  apply yields_bind in H as (u' & db2 & H2 & H). apply insert_current_policy_version_run in H2.
  apply yields_bind in H as (row & db3 & [-> ->]%yields_select & H). apply yields_lift in H as [Hp%ok_or_Ok ->].
  unfold locked, current. destruct db as [[pol|]]; subst db1 db2; fields; cbn [is_none] in *; fields; by simplify_eq.
Qed.

Lemma update_one_run {V} (get : Project.t -> gmap text V) set k p f db b db' :
  yields (update_one get set k p f) db b db' ->
  (b = true /\ exists r, get db !! k = Some r /\ p r = true /\ db' = set <[k := f r]> db)
  \/ (b = false /\ db' = db /\ forall r, get db !! k = Some r -> p r = false).
Proof.
  intros H. unfold update_one in H. apply yields_statement in H. destruct (get db !! k) as [r|] eqn:E; [|right; by simplify_eq].
  destruct (p r) eqn:Ep; [|right; simplify_eq; naive_solver]. left. simplify_eq. eauto.
Qed.

Lemma count_run m c db u db' :
  yields (count m c) db u db' ->
  Cycle.valid (Cycle.add (cycle db m) c) = true /\ db' = Project.set_cycles <[m := Cycle.add (cycle db m) c]> db.
Proof.
  intros H. unfold count in H. apply yields_statement in H. cbv zeta in H.
  destruct (Cycle.valid (Cycle.add (cycle db m) c)) eqn:E; [|done]. by simplify_eq.
Qed.

Lemma ledger_row_Some kind id m q db db' :
  ledger_row kind id m q db = Some db' ->
  0 < q /\ Project.ledger db !! (kind, id) = None /\ db' = Project.set_ledger <[(kind, id) := (m, q)]> db.
Proof.
  unfold ledger_row. destruct (Z.ltb_spec 0 q); [|done]. cbn [andb].
  destruct (Project.ledger db !! (kind, id)) eqn:E; [done|]. cbn. intros [= <-]. done.
Qed.

Lemma insert_ledger_run kind id m q db u db' :
  yields (insert_ledger kind id m q) db u db' ->
  0 < q /\ Project.ledger db !! (kind, id) = None /\ db' = Project.set_ledger <[(kind, id) := (m, q)]> db.
Proof.
  intros H. unfold insert_ledger in H. apply yields_statement in H. apply bind_Ok in H as (db1 & H1%ok_or_Ok & H).
  simplify_eq. by apply ledger_row_Some.
Qed.

Lemma insert_ledger_once_run kind id m q db b db' :
  yields (insert_ledger_once kind id m q) db b db' ->
  0 < q /\ ((b = true /\ Project.ledger db !! (kind, id) = None /\ db' = Project.set_ledger <[(kind, id) := (m, q)]> db)
            \/ (b = false /\ is_Some (Project.ledger db !! (kind, id)) /\ db' = db)).
Proof.
  intros H. unfold insert_ledger_once in H. apply yields_statement in H.
  destruct (Z.leb_spec q 0) as [|Hq]; [done|]. split; [lia|]. destruct (ledger_row kind id m q db) as [db1|] eqn:E; simplify_eq.
  - left. apply ledger_row_Some in E. naive_solver.
  - right. split; [done|]. split; [|done]. unfold ledger_row in E. rewrite (proj2 (Z.ltb_lt _ _) Hq) in E.
    destruct (Project.ledger db' !! (kind, id)); [eauto|done].
Qed.

Lemma apply_storage_delta_run raw sym db u db' :
  yields (apply_storage_delta raw sym) db u db' ->
  exists c c', Project.storage db = Some c /\ storage_with raw sym c = Some c' /\ db' = Project.set_storage (Some c') db.
Proof.
  intros H. unfold apply_storage_delta in H. apply yields_statement in H. apply bind_Ok in H as (c' & H1%ok_or_Ok & H).
  simplify_eq. destruct (Project.storage db) as [c|] eqn:Ec; [|done]. exists c, c'. done.
Qed.

Lemma set_raw_delete_after_run eid oid d db u db' :
  yields (set_raw_delete_after eid oid d) db u db' ->
  exists e o, Project.events db !! eid = Some e /\ Project.objects db !! oid = Some o /\ CrashEvent.raw_object_id e = oid
    /\ RawObject.raw_delete_after o = None
    /\ db' = Project.set_objects <[oid := RawObject.set_delete_after (Some (CrashEvent.received_at e + days d)) o]> db.
Proof.
  intros H. unfold set_raw_delete_after in H. apply yields_bind in H as (b & db1 & H1 & H). apply yields_statement in H1.
  apply yields_lift in H as [Hb%fail_if_Ok ->]. apply negb_false_iff in Hb. subst b.
  destruct (Project.events db !! eid) as [e|] eqn:Ee; [|done]. destruct (Project.objects db !! oid) as [o|] eqn:Eo; [|done].
  destruct (bool_decide (CrashEvent.raw_object_id e = oid) && is_none (RawObject.raw_delete_after o)) eqn:E; [|done].
  apply andb_true_iff in E as [E1%bool_decide_eq_true E2]. simplify_eq. exists e, o. destruct (RawObject.raw_delete_after o); done.
Qed.

(** What [record_acceptance] leaves. *)
Definition next_number (db : Project.t) (m : text) : Z := Cycle.accepted_events (cycle db m) + 1.
Definition outcome_at (db : Project.t) (m : text) (enforced : bool) : Outcome.t :=
  admission_outcome (next_number db m) (current db) enforced.
Definition admission_at (db : Project.t) (m : text) (enforced : bool) : Admission.t :=
  let outcome := outcome_at db m enforced in
  Admission.Mk m (UsagePolicy.version (current db)) outcome (threshold (next_number db m) (current db) outcome) (next_number db m)
    (UsagePolicy.event_limit (current db)) (courtesy_limit (current db)) true (bool_decide (outcome = Outcome.Sampling)).
Definition accepted_event (db : Project.t) (m : text) (enforced : bool) (e : CrashEvent.t) : CrashEvent.t :=
  CrashEvent.set_usage (admitted m (UsagePolicy.version (current db)) (outcome_at db m enforced) (next_number db m))
    (class_of (outcome_at db m enforced)) e.
Definition accepted_object (db : Project.t) (e : CrashEvent.t) (o : RawObject.t) : RawObject.t :=
  RawObject.set_delete_after (Some (CrashEvent.received_at e + days (UsagePolicy.raw_retention_days (current db)))) o.
Definition accepted (db : Project.t) (m eid oid : text) (bytes : Z) (enforced : bool) (e : CrashEvent.t) (o : RawObject.t)
    (c : StorageCounter.t) : Project.t :=
  Project.set_events <[eid := accepted_event db m enforced e]>
    (Project.set_storage (Some c)
      (Project.set_objects <[oid := accepted_object db e o]>
        (Project.set_ledger (fun l => <[(LedgerKind.RawStored, oid) := (m, bytes)]> (<[(LedgerKind.AcceptedEvent, eid) := (m, 1)]> l))
          (Project.set_cycles <[m := Cycle.add (cycle db m) (Cycle.Mk 1 bytes 0 0 0 0)]> (locked db))))).

Lemma record_acceptance_run m eid oid bytes enforced db a db' :
  yields (record_acceptance m eid oid bytes enforced) db a db' ->
  exists e o c c',
    Project.events db !! eid = Some e /\ Project.objects db !! oid = Some o /\ CrashEvent.raw_object_id e = oid
    /\ RawObject.raw_delete_after o = None /\ Project.storage db = Some c /\ storage_with bytes 0 c = Some c'
    /\ 0 < bytes /\ Project.ledger db !! (LedgerKind.AcceptedEvent, eid) = None
    /\ Project.ledger db !! (LedgerKind.RawStored, oid) = None
    /\ Cycle.valid (Cycle.add (cycle db m) (Cycle.Mk 1 bytes 0 0 0 0)) = true
    /\ a = admission_at db m enforced /\ db' = accepted db m eid oid bytes enforced e o c'.
Proof.
  intros H. unfold record_acceptance in H.
  apply yields_bind in H as (p & db1 & [-> ->]%lock_policy_run & H).
  apply yields_bind in H as (m' & db2 & [-> ->]%yields_select & H).
  apply yields_bind in H as (u & db3 & H3%yields_execute & H).
  apply yields_bind in H as (row & db4 & [-> ->]%yields_select & H).
  apply yields_bind in H as (n & db5 & [Hn%ok_or_Ok ->]%yields_lift & H).
  apply yields_bind in H as (next & db6 & [Hnext%ok_or_Ok ->]%yields_lift & H).
  apply checked_add_i64_Some in Hnext as [-> _].
  assert (n = Cycle.accepted_events (cycle db m) /\ cycle db3 m = cycle db m) as [-> Hcycle].
  { subst db3. unfold cycle, locked in *. fields. destruct (Project.cycles db !! m) as [c|] eqn:Ec; cbn [is_none] in *.
    - rewrite Ec in Hn |- *. cbn in *. by simplify_eq.
    - rewrite lookup_insert_eq in Hn |- *. cbn in *. by simplify_eq. }
  cbv zeta in H. change (Cycle.accepted_events (cycle db m) + 1) with (next_number db m) in H.
  apply yields_bind in H as (u1 & db7 & [Hvalid ->]%count_run & H). rewrite Hcycle in Hvalid, H.
  apply yields_bind in H as (u2 & db8 & (_ & Hl1 & ->)%insert_ledger_run & H).
  apply yields_bind in H as (u3 & db9 & (Hb & Hl2 & ->)%insert_ledger_run & H).
  apply yields_bind in H as (u4 & db10 & (e & o & He & Ho & Heo & Hd & ->)%set_raw_delete_after_run & H).
  apply yields_bind in H as (u5 & db11 & (c & c' & Hc & Hc' & ->)%apply_storage_delta_run & H).
  apply yields_bind in H as (u6 & db12 & H6%yields_statement & H).
  apply yields_ret in H as [-> ->].
  fields. rewrite H3 in He, Ho, Hc, Hl1, Hl2, H6. unfold locked in He, Ho, Hc, Hl1, Hl2, H6. fields.
  rewrite He in H6. destruct (is_none (kept (current db) (Project.versions db) !! UsagePolicy.version (current db))); [done|].
  rewrite lookup_insert_ne in Hl2 by done. injection H6 as <-.
  exists e, o, c, c'. split_and!; try done.
  rewrite <- H. unfold accepted. rewrite set_ledger_twice, set_cycles_twice. do 4 f_equal.
  unfold Project.set_cycles. fields. f_equal. destruct (is_none (Project.cycles db !! m)); [|done]. by rewrite insert_insert_eq.
Qed.

(** What [record_symbol_stored] leaves. *)
Lemma record_symbol_stored_run m oid bytes db u db' :
  yields (record_symbol_stored m oid bytes) db u db' ->
  (is_Some (Project.ledger db !! (LedgerKind.SymbolStored, oid)) /\ db' = db)
  \/ (0 < bytes /\ Project.ledger db !! (LedgerKind.SymbolStored, oid) = None /\ exists c c',
       Project.storage db = Some c /\ storage_with 0 bytes c = Some c'
       /\ Cycle.valid (Cycle.add (cycle db m) (Cycle.Mk 0 0 bytes 0 0 0)) = true
       /\ db' = Project.set_storage (Some c') (Project.set_cycles <[m := Cycle.add (cycle db m) (Cycle.Mk 0 0 bytes 0 0 0)]>
                  (Project.set_ledger <[(LedgerKind.SymbolStored, oid) := (m, bytes)]> db))).
Proof.
  intros H. unfold record_symbol_stored in H.
  apply yields_bind in H as (m' & db1 & [-> ->]%yields_select & H).
  apply yields_bind in H as (b & db2 & (Hb & H2)%insert_ledger_once_run & H).
  destruct H2 as [(-> & Hl & ->)|(-> & Hl & ->)].
  - right. apply yields_bind in H as (u1 & db3 & [Hv ->]%count_run & H).
    apply apply_storage_delta_run in H as (c & c' & Hc & Hc' & ->). fields. split_and!; [done..|]. exists c, c'.
    split_and!; done.
  - left. by apply yields_ret in H as [_ ->].
Qed.

(** What [record_raw_deleted] leaves of an upload that is being deleted, the first time. *)
Definition sampled_counts (e : CrashEvent.t) (bytes : Z) : Cycle.t :=
  Cycle.Mk 0 0 0 bytes (if was_sampled e then 1 else 0) (if was_sampled e then Admittance.sampling_rate (CrashEvent.usage e) else 0).
Definition deleted (db : Project.t) (m eid oid : text) (bytes : Z) (e : CrashEvent.t) (o : RawObject.t) (c : StorageCounter.t) : Project.t :=
  Project.set_events <[eid := CrashEvent.set_class (discarded_class e) e]>
    (Project.set_objects <[oid := RawObject.set_state Discarded o]>
      (Project.set_storage (Some c)
        (Project.set_cycles <[m := Cycle.add (cycle db m) (sampled_counts e bytes)]>
          (Project.set_ledger <[(LedgerKind.RawDeleted, oid) := (m, bytes)]> db)))).

(** The same without the line, which an earlier deletion wrote. *)
Definition discarded (db : Project.t) (eid oid : text) (e : CrashEvent.t) (o : RawObject.t) : Project.t :=
  Project.set_events <[eid := CrashEvent.set_class (discarded_class e) e]> (Project.set_objects <[oid := RawObject.set_state Discarded o]> db).

Lemma record_raw_deleted_run m eid oid bytes o db u db' :
  yields (record_raw_deleted m eid oid bytes) db u db' ->
  Project.objects db !! oid = Some o -> RawObject.lifecycle_state o = Deleting ->
  exists e, Project.events db !! eid = Some e
  /\ ((Project.ledger db !! (LedgerKind.RawDeleted, oid) = None /\ exists c c',
         Project.storage db = Some c /\ storage_with (- bytes) 0 c = Some c'
         /\ 0 < bytes /\ Cycle.valid (Cycle.add (cycle db m) (sampled_counts e bytes)) = true
         /\ db' = deleted db m eid oid bytes e o c')
      \/ (is_Some (Project.ledger db !! (LedgerKind.RawDeleted, oid)) /\ db' = discarded db eid oid e o)).
Proof.
  intros H Ho Hs. unfold record_raw_deleted in H.
  apply yields_bind in H as (row & db1 & [-> ->]%yields_select & H).
  apply yields_bind in H as (e & db2 & [He%ok_or_Ok ->]%yields_lift & H). cbv zeta in H.
  apply yields_bind in H as (m' & db3 & [-> ->]%yields_select & H).
  apply yields_bind in H as (b & db4 & (Hb & H4)%insert_ledger_once_run & H). exists e. split; [done|].
  apply yields_bind in H as (u1 & db5 & H5 & H).
  apply yields_bind in H as (b1 & db7 & H7 & H). apply yields_bind in H as (b2 & db8 & H8 & H).
  apply yields_ret in H as [_ ->].
  destruct H4 as [(-> & Hl & ->)|(-> & Hl & ->)]; [left|right]; (split; [done|]).
  - apply yields_bind in H5 as (u2 & db6 & [Hv ->]%count_run & (c & c' & Hc & Hc' & ->)%apply_storage_delta_run).
    apply update_one_run in H7 as [(_ & o' & Ho' & _ & ->)|(_ & -> & Hno)]; fields.
    2: { exfalso. specialize (Hno o Ho). by rewrite Hs in Hno. }
    apply update_one_run in H8 as [(_ & e' & He' & _ & ->)|(_ & -> & Hno)]; fields.
    2: { by specialize (Hno e He). }
    simplify_eq. exists c, c'. done.
  - apply yields_ret in H5 as [_ ->].
    apply update_one_run in H7 as [(_ & o' & Ho' & _ & ->)|(_ & -> & Hno)]; fields.
    2: { exfalso. specialize (Hno o Ho). by rewrite Hs in Hno. }
    apply update_one_run in H8 as [(_ & e' & He' & _ & ->)|(_ & -> & Hno)]; fields.
    2: { by specialize (Hno e He). }
    by simplify_eq.
Qed.

(** * Recording a crash *)

Lemma kept_twice p vs : kept p (kept p vs) = kept p vs.
Proof.
  unfold kept. destruct (vs !! UsagePolicy.version p) as [q|] eqn:E; cbn [is_none]; [by rewrite E|].
  by rewrite lookup_insert_eq.
Qed.

Lemma event_of_None oid db eid e : event_of oid db = None -> Project.events db !! eid = Some e -> CrashEvent.raw_object_id e <> oid.
Proof.
  intros H He Heq. apply head_None in H. enough ((eid, e) ∈ @nil (text * CrashEvent.t)) by set_solver.
  rewrite <- H. apply list_elem_of_filter. split; [done|]. by apply elem_of_map_to_list.
Qed.

Lemma event_of_Some oid db eid e : event_of oid db = Some (eid, e) -> Project.events db !! eid = Some e /\ CrashEvent.raw_object_id e = oid.
Proof.
  intros H%head_Some_elem_of. apply list_elem_of_filter in H as [H1 H2]. split; [by apply elem_of_map_to_list|done].
Qed.

Lemma with_guid_None guid db eid e : with_guid guid db = None -> Project.events db !! eid = Some e -> CrashEvent.crash_guid e <> Some guid.
Proof.
  intros H He Heq. apply head_None in H. enough ((eid, e) ∈ @nil (text * CrashEvent.t)) by set_solver.
  rewrite <- H. apply list_elem_of_filter. split; [done|]. by apply elem_of_map_to_list.
Qed.

Section recording.
Context {N : Network} (ingest : CrashIngest.t N) (scope : KeyScope.t N).

(** The rows of a crash that was recorded. *)
Definition recorded_event (db : Project.t) (now : Z) (m oid : text) (guid : option text) : CrashEvent.t :=
  accepted_event db m (CrashIngest.usage_enforcement_enabled ingest) (new_event now m oid guid (KeyScope.environment scope)).
Definition recorded_object (db : Project.t) (now : Z) (key : text) (stored : StoredRequest.t) : RawObject.t :=
  RawObject.Mk key (StoredRequest.checksum stored) (Z.of_N (StoredRequest.byte_size stored)) Stored
    (Some (now + days (UsagePolicy.raw_retention_days (current db)))).

Record recorded (db : Project.t) (now : Z) (m eid oid key : text) (stored : StoredRequest.t) (guid : option text)
    (a : AcceptedCrash.t) (db' : Project.t) : Prop := {
  recorded_new_event : Project.events db !! eid = None;
  recorded_new_object : Project.objects db !! oid = None;
  recorded_new_key id o : Project.objects db !! id = Some o -> RawObject.object_key o <> key;
  recorded_new_upload id e : Project.events db !! id = Some e -> CrashEvent.raw_object_id e <> oid;
  recorded_new_guid g id e : guid = Some g -> Project.events db !! id = Some e -> CrashEvent.crash_guid e <> Some g;
  recorded_size : (0 < StoredRequest.byte_size stored)%N;
  recorded_no_lines : Project.ledger db !! (LedgerKind.AcceptedEvent, eid) = None /\ Project.ledger db !! (LedgerKind.RawStored, oid) = None;
  recorded_answer : a = accepted_response eid ProcessingState.Stored now false (KeyScope.project_id scope)
                          (admission_at db m (CrashIngest.usage_enforcement_enabled ingest));
  recorded_policy : Project.policy db' = Some (current db);
  recorded_versions : Project.versions db' = kept (current db) (Project.versions db);
  recorded_cycles : Project.cycles db' = <[m := Cycle.add (cycle db m) (Cycle.Mk 1 (Z.of_N (StoredRequest.byte_size stored)) 0 0 0 0)]> (Project.cycles db);
  recorded_ledger : Project.ledger db' = <[(LedgerKind.RawStored, oid) := (m, Z.of_N (StoredRequest.byte_size stored))]>
                                          (<[(LedgerKind.AcceptedEvent, eid) := (m, 1)]> (Project.ledger db));
  recorded_storage : exists c c', Project.storage db = Some c /\ storage_with (Z.of_N (StoredRequest.byte_size stored)) 0 c = Some c'
                                  /\ Project.storage db' = Some c';
  recorded_events : Project.events db' = <[eid := recorded_event db now m oid guid]> (Project.events db);
  recorded_objects : Project.objects db' = <[oid := recorded_object db now key stored]> (Project.objects db);
  recorded_issues : Project.issues db' = Project.issues db;
  recorded_orphans : Project.orphans db' = delete key (Project.orphans db);
  recorded_limits : Project.limits db' = Project.limits db;
  recorded_bucket : Project.bucket db' = Project.bucket db }.

Lemma insert_object_run oid key cs n db u db' :
  yields (insert_object oid key cs n) db u db' ->
  Project.objects db !! oid = None /\ (forall id o, Project.objects db !! id = Some o -> RawObject.object_key o <> key)
  /\ (0 < n)%N /\ db' = Project.set_objects <[oid := RawObject.Mk key cs (Z.of_N n) Stored None]> db.
Proof.
  intros H. unfold insert_object in H. apply yields_statement in H.
  destruct (_ && _ && _ && _) eqn:E; [|done]. rewrite !andb_true_iff, N.ltb_lt, forallb_forall in E.
  destruct E as [[[E1 E2] _] E3]. simplify_eq. split_and!; [by destruct (Project.objects db !! oid)| |done|done].
  intros id o Ho Heq. specialize (E2 (id, o)). cbn in E2. rewrite negb_true_iff, bool_decide_eq_false in E2. apply E2; [|done].
  apply list_elem_of_In. by apply elem_of_map_to_list.
Qed.

Lemma insert_event_run now m eid oid guid db row db' :
  yields (insert_event scope now m eid oid guid) db (Some row) db' ->
  row = now /\ Project.events db !! eid = None /\ event_of oid db = None
  /\ (forall g, guid = Some g -> with_guid g db = None)
  /\ db' = Project.set_queue (Queue.set_events <[scope_key scope eid := new_event_row]> (Project.queue db))
             (Project.set_events <[eid := new_event now m oid guid (KeyScope.environment scope)]> db).
Proof.
  intros H. unfold insert_event in H. apply yields_statement in H.
  destruct (is_some_and guid _) eqn:Eg; [done|].
  destruct (_ && _ && _ && _) eqn:E; [|done]. rewrite !andb_true_iff in E. destruct E as [[[E1 E2] _] _].
  simplify_eq. split_and!; [done|by destruct (Project.events db !! eid)|by destruct (event_of oid db)| |done].
  intros g ->. cbn in Eg. by destruct (with_guid g db).
Qed.

Lemma insert_process_job_run now id eid db u db' :
  yields (insert_process_job scope now id eid) db u db' ->
  exists q f, db' = Project.set_job_keys f (Project.set_queue q db).
Proof.
  intros H. unfold insert_process_job in H. apply yields_statement in H.
  destruct (is_none _); [|done]. apply bind_Ok in H as (db1 & H1%ok_or_Ok & H). simplify_eq.
  unfold add_job in H1. destruct (is_none _); [|done]. injection H1 as <-. eauto.
Qed.

Lemma map_error_run {E F A} (f : E -> F) (m : tx Project.t E A) s a s' : yields (map_error f m) s a s' -> yields m s a s'.
Proof. apply yields_map_error. Qed.

Lemma record_event_run now m eid oid key stored guid random db p db' :
  yields (record_event ingest scope now m eid oid key stored guid random) db p db' ->
  p = Conflicting \/ exists a, p = Recorded a /\ recorded db now m eid oid key stored guid a db'.
Proof.
  intros H. unfold record_event in H.
  apply yields_bind in H as (u & db1 & H1%map_error_run & H).
  assert (db1 = locked db) as ->.
  { unfold ensure_policy_snapshot in H1. apply yields_bind in H1 as (p0 & db0 & [-> ->]%lock_policy_run & H1).
    by apply yields_ret in H1 as [_ ->]. }
  apply yields_bind in H as (u1 & db2 & [_ ->]%yields_lift & H).
  apply yields_bind in H as (u2 & db3 & (Hoid & Hkeys & Hn & ->)%insert_object_run & H).
  apply yields_bind in H as (row & db4 & H4 & H). destruct row as [row|].
  2: { left. apply yields_bind in H as (u3 & db5 & _ & H). by apply yields_ret in H as [-> _]. }
  apply insert_event_run in H4 as (-> & Heid & Hof & Hg & ->). right.
  apply yields_bind in H as (a & db5 & (e & o & c & c' & He & Ho & Heo & Hd & Hc & Hc' & Hb & Hl1 & Hl2 & Hv & -> & ->)%map_error_run%record_acceptance_run & H).
  apply yields_bind in H as (id & db6 & [_ ->]%yields_lift & H).
  apply yields_bind in H as (u4 & db7 & (q & f & ->)%insert_process_job_run & H).
  apply yields_bind in H as (u5 & db8 & ->%yields_execute & H). apply yields_ret in H as [-> ->].
  eexists. split; [reflexivity|]. unfold accepted, locked in *. fields.
  rewrite lookup_insert_eq in He. injection He as <-. rewrite lookup_insert_eq in Ho. injection Ho as <-.
  split; try done; fields.
  - intros id' e' He'. by eapply (event_of_None _ _ id' e' Hof).
  - intros g id' e' Hg' He'. specialize (Hg g Hg'). by apply (with_guid_None _ _ id' e' Hg).
  - by rewrite kept_twice.
  - by exists c, c'.
  - by rewrite insert_insert_eq.
  - by rewrite insert_insert_eq.
Qed.
End recording.
Arguments recorded_new_event {N ingest scope db now m eid oid key stored guid a db'} _.
Arguments recorded_new_object {N ingest scope db now m eid oid key stored guid a db'} _.
Arguments recorded_new_key {N ingest scope db now m eid oid key stored guid a db'} _.
Arguments recorded_new_upload {N ingest scope db now m eid oid key stored guid a db'} _.
Arguments recorded_new_guid {N ingest scope db now m eid oid key stored guid a db'} _.
Arguments recorded_size {N ingest scope db now m eid oid key stored guid a db'} _.
Arguments recorded_no_lines {N ingest scope db now m eid oid key stored guid a db'} _.
Arguments recorded_answer {N ingest scope db now m eid oid key stored guid a db'} _.
Arguments recorded_policy {N ingest scope db now m eid oid key stored guid a db'} _.
Arguments recorded_versions {N ingest scope db now m eid oid key stored guid a db'} _.
Arguments recorded_cycles {N ingest scope db now m eid oid key stored guid a db'} _.
Arguments recorded_ledger {N ingest scope db now m eid oid key stored guid a db'} _.
Arguments recorded_storage {N ingest scope db now m eid oid key stored guid a db'} _.
Arguments recorded_events {N ingest scope db now m eid oid key stored guid a db'} _.
Arguments recorded_objects {N ingest scope db now m eid oid key stored guid a db'} _.
Arguments recorded_issues {N ingest scope db now m eid oid key stored guid a db'} _.
Arguments recorded_orphans {N ingest scope db now m eid oid key stored guid a db'} _.
Arguments recorded_limits {N ingest scope db now m eid oid key stored guid a db'} _.
Arguments recorded_bucket {N ingest scope db now m eid oid key stored guid a db'} _.

(** A run of [persist_event] records the crash or leaves everything as it was; it has recorded it when it
    answers with a new crash, and may have when the commit was not answered. *)
Definition unchanging {E A} (m : tx Project.t E A) : Prop := forall db0, preserves (fun db => db = db0) m.
Lemma unchanging_run {E A} (m : tx Project.t E A) o db r db' o' : unchanging m -> m o db = (r, db', o') -> db' = db.
Proof. intros H Hm. specialize (H db o db eq_refl). rewrite Hm in H. by destruct r. Qed.
Lemma admission_of_unchanging eid : unchanging (admission_of eid).
Proof.
  intros db0. unfold admission_of, admission_for_event. apply preserves_map_error.
  apply preserves_bind; [apply preserves_select|intros r]. apply preserves_bind; [apply preserves_lift|intros [u p]].
  apply preserves_bind; [apply preserves_lift|intros; apply preserves_ret].
Qed.

Section persisting.
Context {N : Network} (ingest : CrashIngest.t N) (scope : KeyScope.t N).

Lemma persist_body_run now m eid oid key stored guid random db p db' :
  yields (row ← match guid with
                | Some guid => select IngestError.Unavailable (existing_crash scope guid)
                | None => mret None
                end;
          match row with
          | Some row => usage ← admission_of row.1.1; _ ← call IngestError.Unavailable;
                        response ← lift (existing_response scope row usage); mret (Existing response)
          | None => record_event ingest scope now m eid oid key stored guid random
          end) db p db' ->
  (exists a, p = Existing a /\ AcceptedCrash.deduplicated a = true) \/ p = Conflicting
  \/ exists a, p = Recorded a /\ recorded ingest scope db now m eid oid key stored guid a db'.
Proof.
  intros H. apply yields_bind in H as (row & db1 & H1 & H).
  assert (db1 = db) as ->. { destruct guid; [by apply yields_select in H1 as [_ ->]|by apply yields_ret in H1 as [_ ->]]. }
  destruct row as [row|]; [|right; by eapply record_event_run]. left.
  apply yields_bind in H as (u & db2 & _ & H). apply yields_bind in H as (v & db3 & _ & H).
  apply yields_bind in H as (w & db4 & [Hw _]%yields_lift & H). apply yields_ret in H as [-> _]. exists w. split; [done|].
  unfold existing_response in Hw. apply bind_Ok in Hw as (st & _ & Hw). by injection Hw as <-.
Qed.

Definition persisted (db0 : Project.t) (now : Z) (m eid oid key : text) (stored : StoredRequest.t) (guid : option text)
    (p : Persisted) (db : Project.t) : Prop :=
  match p with
  | Existing a => AcceptedCrash.deduplicated a = true /\ db = db0
  | Conflicting => db = db0
  | Recorded a => recorded ingest scope db0 now m eid oid key stored guid a db
  end.

Lemma persist_event_cases now m eid oid key stored guid random db0 :
  triple (fun db => db = db0) (persist_event ingest scope now m eid oid key stored guid random)
    (fun a db => if AcceptedCrash.deduplicated a then db = db0 else recorded ingest scope db0 now m eid oid key stored guid a db)
    (fun e db => db = db0 \/ e = IngestError.CommitUncertain /\ exists a, recorded ingest scope db0 now m eid oid key stored guid a db).
Proof.
  unfold persist_event. apply triple_bind with (I := persisted db0 now m eid oid key stored guid).
  - apply triple_transaction_uncertain; [by left|]. apply triple_yields. intros s p s' -> Hp%persist_body_run.
    destruct Hp as [(a & -> & Ha)|[->|(a & -> & Hrec)]]; cbn; [by intros|by intros|]. split; [done|]. right. eauto.
  - assert (forall a (r : result IngestError.t AcceptedCrash.t) (scope : KeyScope.t N) row u,
              existing_response scope row u = r -> (r = Ok a -> AcceptedCrash.deduplicated a = true) /\ r <> Err IngestError.CommitUncertain) as Hresp.
    { intros a r sc row u <-. unfold existing_response, processing_state. destruct (List.find _ _); [|done].
      split; [|done]. by intros [= <-]. }
    intros [a| |a]; cbn [persisted].
    + apply triple_ret. by intros s [-> ->].
    + apply triple_bind with (I := fun _ db => db = db0); [by apply triple_lift; [|left]|intros g].
      apply triple_bind with (I := fun _ db => db = db0); [by apply triple_select; [left|]|intros row].
      apply triple_bind with (I := fun _ db => db = db0); [by apply triple_lift; [|left]|intros row'].
      apply triple_bind with (I := fun _ db => db = db0).
      * apply triple_transaction; [by left|]. apply preserves_triple, admission_of_unchanging.
      * intros u. apply triple_lift; intros s x -> Hx; [|by left]. by destruct (Hresp x _ _ _ _ Hx) as [-> _].
    + apply triple_ret. intros s Hrec. assert (AcceptedCrash.deduplicated a = false) as ->; [|done]. by rewrite (recorded_answer Hrec).
Qed.
End persisting.
