(* ===== verification/Movements.v ===== *)
(** What can happen to the tables of a project, as a relation of small movements; and that every program of
    the server is a sequence of them, wherever it fails. *)

From S2P Require Import Prelude Text Domain Identifiers Store Jobs Usage Retention Ingest Accounting.

(** * Movements *)

(** [enforced] is the setting of the workers; an upload is put to deletion by sampling only when it is on,
    and is restored only when it is off.  [restorable] and [recordable] say which uploads may be restored and
    recorded. *)
Section movements.
Context {N : Network} (ingest : CrashIngest.t N) (scope : KeyScope.t N) (enforced : bool)
  (restorable : text -> Prop) (recordable : text -> StoredRequest.t -> Prop).

Inductive Move : Project.t -> Project.t -> Prop :=
| MQueue q f db : Move db (Project.set_job_keys f (Project.set_queue q db))
| MLimits f db : Move db (Project.set_limits f db)
| MIssues f db : Move db (Project.set_issues f db)
| MCatalog f g h db : Move db (Project.set_manifest f (Project.set_images g (Project.set_symbols h db)))
| MLock db : Move db (locked db)
| MSettings body p db :
    Project.policy db = Some p -> UsagePolicy.valid (with_settings body p) = true ->
    Move db (Project.set_versions (kept (with_settings body p)) (Project.set_policy (Some (with_settings body p)) db))
| MRecord now m eid oid key stored guid a db db' :
    recordable key stored -> recorded ingest scope db now m eid oid key stored guid a db' -> Move db db'
| MRegroup eid e i r v db :
    Project.events db !! eid = Some e -> Move db (Project.set_events <[eid := CrashEvent.set_grouping i r v e]> db)
| MClass eid e c db :
    Project.events db !! eid = Some e -> (c = RetentionClass.Deleting -> enforced = true) ->
    Move db (Project.set_events <[eid := CrashEvent.set_class c e]> db)
| MDeleting oid o db :
    Project.objects db !! oid = Some o -> RawObject.lifecycle_state o = Stored ->
    Move db (Project.set_objects <[oid := RawObject.set_state Deleting o]> db)
| MRestore eid e oid o db :
    Project.events db !! eid = Some e -> CrashEvent.class e = RetentionClass.Deleting -> enforced = false -> restorable oid ->
    CrashEvent.raw_object_id e = oid -> Project.objects db !! oid = Some o -> RawObject.lifecycle_state o = Deleting ->
    Move db (Project.set_events <[eid := CrashEvent.set_class RetentionClass.Standard e]>
              (Project.set_objects <[oid := RawObject.set_state Stored o]> db))
| MRemove oid o db :
    Project.objects db !! oid = Some o -> RawObject.lifecycle_state o = Deleting ->
    Move db (Project.set_bucket (delete (RawObject.object_key o)) db)
| MDiscard m eid e oid o c c' db :
    Project.events db !! eid = Some e -> CrashEvent.raw_object_id e = oid ->
    Project.objects db !! oid = Some o -> RawObject.lifecycle_state o = Deleting ->
    Project.bucket db !! RawObject.object_key o = None -> Project.ledger db !! (LedgerKind.RawDeleted, oid) = None ->
    Project.storage db = Some c -> storage_with (- RawObject.byte_size o) 0 c = Some c' ->
    Move db (deleted db m eid oid (RawObject.byte_size o) e o c')
| MDiscardAgain eid e oid o db :
    Project.events db !! eid = Some e -> CrashEvent.raw_object_id e = oid ->
    Project.objects db !! oid = Some o -> RawObject.lifecycle_state o = Deleting ->
    Project.bucket db !! RawObject.object_key o = None -> is_Some (Project.ledger db !! (LedgerKind.RawDeleted, oid)) ->
    Move db (discarded db eid oid e o)
| MSymbol m oid size c c' db :
    Project.ledger db !! (LedgerKind.SymbolStored, oid) = None -> Project.storage db = Some c ->
    storage_with 0 size c = Some c' ->
    Move db (Project.set_storage (Some c') (Project.set_cycles <[m := Cycle.add (cycle db m) (Cycle.Mk 0 0 size 0 0 0)]>
               (Project.set_ledger <[(LedgerKind.SymbolStored, oid) := (m, size)]> db)))
| MDeadline oid o d db :
    Project.objects db !! oid = Some o -> RawObject.raw_delete_after o = None -> deadline_of oid db = Some d ->
    Move db (Project.set_objects <[oid := RawObject.set_delete_after (Some d) o]> db)
| MReconcile sym now db :
    Move db (Project.set_storage (Some (StorageCounter.Mk (retained_raw db) sym (Some now))) db).

Abbreviation Moves := (rtc Move).

(** A program that only moves. *)
Definition moving {E A} (m : tx Project.t E A) : Prop := forall db0, preserves (Moves db0) m.

Lemma moved db0 db db' : Moves db0 db -> Move db db' -> Moves db0 db'.
Proof. intros H H1. etrans; [exact H|]. by apply rtc_once. Qed.

Lemma moving_statement {E A} e (f : Project.t -> result E (A * Project.t)) :
  (forall db a db', f db = Ok (a, db') -> Moves db db') -> moving (statement e f).
Proof. intros H db0. apply preserves_statement. intros s a s' Hs Hf. etrans; [exact Hs|]. by eapply H. Qed.

Lemma moving_execute {E} (e : E) f : (forall db, Moves db (f db)) -> moving (execute e f).
Proof. intros H db0. apply preserves_execute. intros s Hs. etrans; [exact Hs|]. apply H. Qed.

(** A transaction moves when its successful runs do. *)
Lemma moving_transaction {E A} (e : E) (body : tx Project.t E A) :
  (forall db a db', yields body db a db' -> Moves db db') -> moving (transaction e body).
Proof.
  intros H db0. apply preserves_transaction, triple_yields. intros s a s' Hs Hy. etrans; [exact Hs|]. by eapply H.
Qed.

Lemma moving_run {E A} (m : tx Project.t E A) o db r db' o' : moving m -> m o db = (r, db', o') -> Moves db db'.
Proof. intros H Hm. specialize (H db o db (rtc_refl _ _)). rewrite Hm in H. by destruct r. Qed.

Lemma moving_yields {E A} (m : tx Project.t E A) db a db' : moving m -> yields m db a db' -> Moves db db'.
Proof. intros H (o & o' & Hm). by eapply moving_run. Qed.

Lemma moving_bind {E A B} (m : tx Project.t E A) (f : A -> tx Project.t E B) : moving m -> (forall a, moving (f a)) -> moving (m ≫= f).
Proof. intros Hm Hf db0. apply preserves_bind; [apply Hm|intros a; apply Hf]. Qed.
Lemma moving_ret {E A} (a : A) : moving (mret a : tx Project.t E A).
Proof. intros db0. apply preserves_ret. Qed.
Lemma moving_lift {E A} (r : result E A) : moving (lift r : tx Project.t E A).
Proof. intros db0. apply preserves_lift. Qed.
Lemma moving_select {E A} (e : E) (f : Project.t -> A) : moving (select e f).
Proof. intros db0. apply preserves_select. Qed.
Lemma moving_if {E A} (c : bool) (m n : tx Project.t E A) : moving m -> moving n -> moving (if c then m else n).
Proof. by destruct c. Qed.
Lemma moving_map_error {E F A} (f : E -> F) (m : tx Project.t E A) : moving m -> moving (map_error f m).
Proof. intros H db0. apply preserves_map_error, H. Qed.
Lemma moving_inner {E A} (e : E) (m : tx Project.t E A) : moving m -> moving (transaction e m).
Proof. intros H. apply moving_transaction. intros db a db'. by apply moving_yields. Qed.
Lemma moving_on_queue {A} (m : tx Queue.t JobError A) : moving (on_queue m).
Proof.
  intros db0 o db H. unfold on_queue. destruct (m o (Project.queue db)) as [[r q] o'].
  assert (Moves db0 (Project.set_queue q db)). { eapply moved; [exact H|]. apply (MQueue q (fun x => x)). }
  by destruct r.
Qed.
End movements.

Create HintDb moving.
#[export] Hint Resolve moving_ret moving_lift moving_select moving_on_queue : moving.
Ltac moves :=
  repeat first
    [ progress (auto with moving nocore)
    | apply moving_bind; [|intros ?]
    | apply moving_if
    | apply moving_map_error
    | match goal with |- moving _ _ _ _ _ (match ?x with _ => _ end) => destruct x end
    | progress cbn beta iota zeta ].

(** ** What is restored *)

(** The uploads that were in deletion and are stored again. *)
Definition in_state (s : Lifecycle) (oid : text) (db : Project.t) : bool :=
  from_option (fun o => bool_decide (RawObject.lifecycle_state o = s)) false (Project.objects db !! oid).
Definition revived (db db' : Project.t) : gset text :=
  filter (fun oid => in_state Deleting oid db && in_state Stored oid db' = true) (dom (Project.objects db)).

Lemma elem_of_revived oid db db' : oid ∈ revived db db' <-> in_state Deleting oid db = true /\ in_state Stored oid db' = true.
Proof.
  unfold revived. rewrite elem_of_filter, andb_true_iff, elem_of_dom. split; [naive_solver|]. intros [H1 H2]. split; [done|].
  unfold in_state in H1. by destruct (Project.objects db !! oid).
Qed.

Lemma move_weaken {N : Network} (ingest : CrashIngest.t N) scope enforced (P Q : text -> Prop) R db db' :
  (forall oid, P oid -> Q oid) -> Move ingest scope enforced P R db db' -> Move ingest scope enforced Q R db db'.
Proof. intros HPQ []; solve [econstructor; eauto]. Qed.
Lemma moves_weaken {N : Network} (ingest : CrashIngest.t N) scope enforced (P Q : text -> Prop) R db db' :
  (forall oid, P oid -> Q oid) -> rtc (Move ingest scope enforced P R) db db' -> rtc (Move ingest scope enforced Q R) db db'.
Proof. intros HPQ. apply rtc_subrel. intros ? ?. by apply move_weaken. Qed.

(** * Programs *)

Section programs.
Context {N : Network} (ingest : CrashIngest.t N) (scope : KeyScope.t N) (enforced : bool)
  (restorable : text -> Prop) (recordable : text -> StoredRequest.t -> Prop).
Abbreviation Moves := (rtc (Move ingest scope enforced restorable recordable)).
Abbreviation moving := (moving ingest scope enforced restorable recordable).

Lemma moves_one db db' : Move ingest scope enforced restorable recordable db db' -> Moves db db'.
Proof. apply rtc_once. Qed.
Lemma queue_moves db q : Moves db (Project.set_queue q db).
Proof. apply moves_one. exact (MQueue _ _ _ _ _ q (fun x => x) db). Qed.

(** ** Retention *)

Lemma set_retention_class_moving eid c : (c = RetentionClass.Deleting -> enforced = true) -> moving (set_retention_class eid c).
Proof.
  intros Hc. unfold set_retention_class. apply moving_bind; [|intros; apply moving_ret]. apply moving_statement.
  intros db a db' H. destruct (Project.events db !! eid) as [e|] eqn:E; cbn [any] in H; simplify_eq; [|done]. by apply moves_one, MClass.
Qed.

Lemma add_job_moves k id r db db' : add_job k id r db = Some db' -> Moves db db'.
Proof. unfold add_job. destruct (is_none _); [|done]. intros [= <-]. apply moves_one, MQueue. Qed.

Lemma enqueue_raw_deletion_moving now id org proj eid oid c :
  (c = RetentionClass.Deleting -> enforced = true) -> moving (enqueue_raw_deletion now id org proj eid oid c).
Proof.
  intros Hc. unfold enqueue_raw_deletion. apply moving_bind; [|intros []].
  - apply moving_statement. intros db a db' H. destruct (Project.objects db !! oid) as [o|] eqn:E; [|by simplify_eq].
    case_bool_decide; simplify_eq; [|done]. by apply moves_one, MDeleting.
  - apply moving_bind; [by apply set_retention_class_moving|intros _]. apply moving_statement. intros db a db' H.
    destruct (is_none _); [|by simplify_eq]. apply bind_Ok in H as (db1 & H1%ok_or_Ok & H). simplify_eq. by eapply add_job_moves.
  - apply moving_ret.
Qed.

Lemma retained_artifact_bytes_moving v2 : moving (retained_artifact_bytes v2).
Proof.
  unfold retained_artifact_bytes. destruct v2; [by moves|]. apply moving_statement. intros db a db' H.
  apply bind_Ok in H as (x & _ & H). apply bind_Ok in H as (y & _ & H). apply bind_Ok in H as (z & _ & H). by simplify_eq.
Qed.

Lemma schedule_moving {H : Sha256} v2 now id org proj eid : moving (schedule_raw_retention_with_enforcement v2 now id org proj eid enforced).
Proof.
  assert (forall e c, c <> RetentionClass.Deleting -> moving (set_retention_class e c)) as Hset.
  { intros e c Hc. by apply set_retention_class_moving. }
  unfold schedule_raw_retention_with_enforcement.
  apply moving_bind; [apply moving_select|intros row]. apply moving_bind; [apply moving_lift|intros r]. cbv zeta.
  destruct (negb _); [apply moving_ret|]. destruct (negb _); [apply moving_ret|].
  destruct (negb enforced || _) eqn:He; [by apply Hset|].
  apply orb_false_iff in He as [He _]. apply negb_false_iff in He.
  apply moving_bind.
  { destruct (RetentionRow.retain_all_raw r); [|apply moving_ret].
    apply moving_bind; [apply retained_artifact_bytes_moving|intros; apply moving_ret]. }
  intros []; [by apply Hset|]. destruct (CrashEvent.issue_id (RetentionRow.event r)) as [i|]; [|by apply Hset].
  apply moving_bind; [apply moving_select|intros row2]. apply moving_bind; [apply moving_lift|intros issue].
  destruct (_ <=? 1)%Z; [by apply Hset|]. destruct (bool_decide _); [by apply Hset|].
  apply moving_bind; [apply moving_select|intros row3]. apply moving_bind; [apply moving_lift|intros []]; [by apply Hset|].
  apply moving_bind; [apply moving_select|intros l]. destruct (length l <? 3)%nat; [by apply Hset|].
  apply moving_bind; [apply moving_lift|intros oldest]. apply moving_bind; [apply moving_select|intros row4].
  apply moving_bind; [apply moving_lift|intros newer].
  destruct (if newer then _ else _) as [aged aged_object]. apply moving_bind.
  { destruct (reservoir_selected aged); [by apply Hset|by apply enqueue_raw_deletion_moving]. }
  intros _. destruct newer; [by apply Hset|apply moving_ret].
Qed.

Lemma each_moving {E A} (f : A -> tx Project.t E ()) l : (forall x, moving (f x)) -> moving (each f l).
Proof. intros Hf. induction l as [|x l IH]; [apply moving_ret|]. apply moving_bind; [apply Hf|intros _; exact IH]. Qed.

Lemma schedule_expired_raw_legacy_moving now ids org proj : moving (schedule_expired_raw_legacy now ids org proj).
Proof.
  apply moving_inner. apply moving_bind; [apply moving_select|intros rows]. apply each_moving. intros row.
  apply moving_map_error. by apply enqueue_raw_deletion_moving.
Qed.

(** ** Expiry *)

Lemma queue_deletion_moves now id org proj eid oid db db' : queue_deletion now id org proj eid oid db = Some db' -> Moves db db'.
Proof.
  unfold queue_deletion. destruct (Project.job_keys db !! delete_key oid) as [i|]; [|by apply add_job_moves].
  destruct (Queue.jobs (Project.queue db) !! i) as [r|]; [|by intros [= <-]].
  destruct (_ && _); intros [= <-]; [|done]. apply moves_one. apply (MQueue _ _ _ _ _ _ (fun x => x)).
Qed.

Lemma expire_moves now ids org proj db row db' :
  expire now ids org proj db row = Some db' -> Project.objects db !! row.1 = Some row.2 -> RawObject.lifecycle_state row.2 = Stored ->
  Moves db db'.
Proof.
  unfold expire. intros H Ho Hs. destruct (event_of row.1 db) as [[eid e]|] eqn:E; [|by injection H as <-].
  apply event_of_Some in E as [He _]. apply queue_deletion_moves in H. etrans; [apply moves_one; by eapply MDeleting|].
  etrans; [|exact H]. apply moves_one. by apply MClass.
Qed.

Lemma queue_deletion_fields now id org proj eid oid db db' :
  queue_deletion now id org proj eid oid db = Some db' -> exists f q, db' = Project.set_job_keys f (Project.set_queue q db).
Proof.
  unfold queue_deletion, add_job. destruct (Project.job_keys db !! delete_key oid) as [i|].
  - destruct (Queue.jobs (Project.queue db) !! i) as [r|].
    + destruct (_ && _); intros [= <-]; [exists (fun x => x); eauto|]. exists (fun x => x), (Project.queue db). by destruct db.
    + intros [= <-]. exists (fun x => x), (Project.queue db). by destruct db.
  - destruct (is_none _); [|done]. intros [= <-]. eauto.
Qed.

Lemma expire_objects now ids org proj db row db' id :
  expire now ids org proj db row = Some db' -> id <> row.1 -> Project.objects db' !! id = Project.objects db !! id.
Proof.
  unfold expire. intros H Hid. destruct (event_of row.1 db) as [[eid e]|]; [|by injection H as <-].
  apply queue_deletion_fields in H as (f & q & ->). fields. by rewrite lookup_insert_ne.
Qed.

Lemma expire_all_moves now ids org proj rows db db' :
  expire_all now ids org proj rows db = Some db' -> NoDup rows.*1 ->
  (forall row, row ∈ rows -> Project.objects db !! row.1 = Some row.2 /\ RawObject.lifecycle_state row.2 = Stored) -> Moves db db'.
Proof.
  revert db. induction rows as [|row rows IH]; intros db H Hnd Hrows; cbn in H; [by injection H as <-|].
  apply bind_Some in H as (db1 & H1 & H). rewrite fmap_cons, NoDup_cons in Hnd. destruct Hnd as [Hn Hnd].
  destruct (Hrows row) as [Ho Hs]; [set_solver|]. etrans; [by eapply expire_moves|]. apply (IH db1); [done..|].
  intros r Hr. destruct (Hrows r) as [Ho' Hs']; [set_solver|]. split; [|done]. rewrite <- Ho'.
  eapply expire_objects; [exact H1|]. intros E. apply Hn. rewrite <- E. by apply list_elem_of_fmap_2.
Qed.

Lemma claimed_spec now n db row : row ∈ claimed now n db -> Project.objects db !! row.1 = Some row.2 /\ due now row.2 = true.
Proof.
  unfold claimed, due_objects. destruct (is_reconciled db); [|set_solver].
  intros [_ Hr]%list_elem_of_filter. apply (subseteq_take (N.to_nat n)) in Hr.
  rewrite sort_perm, list_elem_of_filter in Hr. destruct Hr as [Hd Hr]. destruct row as [id o]. by apply elem_of_map_to_list in Hr.
Qed.

Lemma claimed_nodup now n db : NoDup (claimed now n db).*1.
Proof. unfold claimed, due_objects. destruct (is_reconciled db); [|constructor]. apply nodup_filter, nodup_rows. Qed.

Lemma batch_moving now ids org proj n : moving (schedule_expired_raw_v2_batch now ids org proj n).
Proof.
  apply moving_statement. intros db a db' H. apply bind_Ok in H as (db1 & H1%ok_or_Ok & H). simplify_eq.
  eapply expire_all_moves; [exact H1|apply claimed_nodup|]. intros row [Ho Hd]%claimed_spec. split; [done|].
  unfold due in Hd. apply andb_true_iff in Hd as [Hd _]. by apply bool_decide_eq_true in Hd.
Qed.

Lemma drain_moving passes org proj n : moving (drain passes org proj n).
Proof.
  revert n. induction passes as [|[now ids] passes IH]; intros n; cbn [drain]; [apply moving_ret|].
  apply moving_bind; [apply batch_moving|intros c]. destruct (c <? RETENTION_BATCH_SIZE)%N; [apply moving_ret|apply IH].
Qed.
Lemma drain_expired_raw_v2_moving passes org proj : moving (drain_expired_raw_v2 passes org proj).
Proof. apply moving_bind; [apply moving_select|intros []]; [apply moving_ret|apply drain_moving]. Qed.

(** ** Deletion *)

Lemma on_queue_run {A} (m : tx Queue.t JobError A) db a db' : yields (on_queue m) db a db' -> exists q, db' = Project.set_queue q db.
Proof. intros (o & o' & H). unfold on_queue in H. destruct (m o (Project.queue db)) as [[r q] o1]. injection H as _ <- _. eauto. Qed.

Lemma restore_raw_cases now worker job eid oid o db r db' o' :
  enforced = false -> restorable oid -> restore_raw now worker job eid oid o db = (r, db', o') ->
  (r <> Ok true /\ db' = db) \/ (r = Ok true /\ oid ∈ revived db db' /\ Moves db db').
Proof.
  intros Hen Hoid H. destruct r as [b|x]; [|by apply transaction_if_Err in H as ->; left].
  apply transaction_if_Ok in H as (o1 & s1 & o2 & Hb & ->). destruct b; [|by left]. right. cbn [id].
  assert (yields _ db true s1) as Hy by (by exists o1, o2). clear Hb.
  apply yields_bind in Hy as (u & db1 & (q & ->)%on_queue_run & Hy). apply yields_bind in Hy as (b & db2 & H2%yields_statement & Hy).
  fields. destruct (Project.events db !! eid) as [e|] eqn:Ee; [|by simplify_eq; apply yields_ret in Hy as [? _]].
  destruct (Project.objects db !! oid) as [x|] eqn:Eo; [|by simplify_eq; apply yields_ret in Hy as [? _]].
  destruct (_ && _ && _) eqn:Ec; [|by simplify_eq; apply yields_ret in Hy as [? _]].
  rewrite !andb_true_iff, !bool_decide_eq_true in Ec. destruct Ec as [[E1 E2] E3]. injection H2 as <- <-.
  apply yields_bind in Hy as (b1 & db3 & H3%yields_map_error & Hy). apply update_one_run in H3 as [(_ & e' & He' & _ & ->)|(_ & -> & Hno)]; fields.
  2: { specialize (Hno e Ee). by rewrite bool_decide_eq_true_2 in Hno. }
  rewrite Ee in He'. injection He' as <-.
  apply yields_bind in Hy as (u1 & db4 & (q' & ->)%on_queue_run & [_ ->]%yields_ret). split_and!; [done| |].
  - apply elem_of_revived. unfold in_state. fields. rewrite Eo, lookup_insert_eq. cbn. by rewrite E2.
  - etrans; [apply (queue_moves db q)|]. etrans; [|apply queue_moves]. apply moves_one. by eapply MRestore.
Qed.

(** The second transaction, when the object is gone from the store. *)
Definition absent (eid : text) (db : Project.t) : Prop :=
  forall r, raw_row eid db = Some r -> is_deleting r = true -> Project.bucket db !! RawObject.object_key (RawRow.object r) = None.

Lemma raw_row_Some eid db r :
  raw_row eid db = Some r ->
  exists e, Project.events db !! eid = Some e /\ CrashEvent.raw_object_id e = RawRow.object_id r
    /\ Project.objects db !! RawRow.object_id r = Some (RawRow.object r) /\ RawRow.class r = CrashEvent.class e.
Proof.
  unfold raw_row. intros H. apply bind_Some in H as (e & He & H). apply bind_Some in H as (o & Ho & H). injection H as <-.
  exists e. done.
Qed.

Lemma finish_deletion_moving now m worker job eid db0 :
  triple (fun db => Moves db0 db /\ absent eid db) (finish_deletion now m worker job eid) (fun _ db => Moves db0 db) (fun _ db => Moves db0 db).
Proof.
  apply triple_transaction; [by intros ? ? [? _]|]. apply triple_yields. intros db u db' [H0 Habs] H.
  apply yields_bind in H as (u0 & db1 & (q & ->)%on_queue_run & H).
  apply yields_bind in H as (row & db2 & [-> ->]%yields_select & H).
  apply yields_bind in H as (r & db3 & [Hr%ok_or_Ok ->]%yields_lift & H).
  assert (Moves db0 (Project.set_queue q db)) as H1. { eapply moved; [exact H0|]. apply (MQueue _ _ _ _ _ q (fun x => x)). }
  assert (Project.bucket db !! RawObject.object_key (RawRow.object r) = None \/ is_deleting r = false) as Hgone.
  { destruct (is_deleting r) eqn:Ed; [left|by right]. by apply Habs. }
  apply yields_bind in H as (u1 & db4 & H4 & (q' & ->)%on_queue_run).
  enough (Moves db0 db4) as H5. { eapply moved; [exact H5|]. apply (MQueue _ _ _ _ _ q' (fun x => x)). }
  destruct (is_deleting r) eqn:Ed; [|by apply yields_ret in H4 as [_ ->]].
  destruct Hgone as [Hgone|]; [|done]. etrans; [exact H1|]. apply moves_one.
  apply raw_row_Some in Hr as (e & He & Heo & Ho & _). unfold is_deleting in Ed. apply bool_decide_eq_true in Ed.
  apply yields_map_error, record_raw_deleted_run with (o := RawRow.object r) in H4 as (e' & He' & H4); [|done..].
  rewrite He in He'. injection He' as <-.
  destruct H4 as [(Hl & c & c' & Hc & Hc' & _ & _ & ->)|(Hl & ->)].
  - by eapply MDiscard.
  - by eapply MDiscardAgain.
Qed.

(** What [delete_raw] does when the upload is not restored. *)
Lemma remove_raw_moving now m worker job eid raw db0 :
  triple (fun db => Moves db0 db /\ raw_row eid db = Some raw)
    (_ ← (if is_deleting raw
          then deleted ← delete_object_checked (RawObject.object_key (RawRow.object raw));
               lift (fail_if (negb deleted) (Transient (txt "object_store_unavailable")))
          else mret ());
     finish_deletion now m worker job eid)
    (fun _ db => Moves db0 db) (fun _ db => Moves db0 db).
Proof.
  eapply (triple_bind _ _ _ _ _ (fun _ db => Moves db0 db /\ absent eid db)); [|intros _; apply finish_deletion_moving].
  destruct (is_deleting raw) eqn:Ed.
  2: { apply triple_ret. intros s [H0 Hr]. split; [done|]. intros r' Hr' Hd. exfalso. congruence. }
  eapply (triple_bind _ _ _ _ _ (fun gone db => Moves db0 db /\ (gone = true -> absent eid db))).
  2: { intros gone. apply triple_lift; [|by intros s e [? _] _]. intros s u [H0 Hab] Hg%fail_if_Ok. split; [done|]. apply Hab.
       by destruct gone. }
  intros o db [H0 Hr]. pose proof (raw_row_Some _ _ _ Hr) as (e & He & Heo & Ho & _).
  assert (Hds := Ed). unfold is_deleting in Hds. apply bool_decide_eq_true in Hds.
  assert (Moves db0 (Project.set_bucket (delete (RawObject.object_key (RawRow.object raw))) db)) as Hrem.
  { eapply moved; [exact H0|]. by eapply MRemove. }
  unfold delete_object_checked. destruct (next_outcome o) as [[] o1].
  - destruct (next_outcome o1) as [[] o2]; split; done.
  - split; [done|]. intros _ r' Hr' _. assert (r' = raw) as ->.
    { unfold raw_row in Hr, Hr'. fields. congruence. }
    fields. apply lookup_delete_eq.
Qed.

(** ** Recording, settings and reconciliation *)

Lemma persist_event_moving now m eid oid key stored guid random :
  recordable key stored -> moving (persist_event ingest scope now m eid oid key stored guid random).
Proof.
  intros Hkey db0 o db H.
  pose proof (persist_event_cases ingest scope now m eid oid key stored guid random db o db eq_refl) as Hc.
  destruct (persist_event ingest scope now m eid oid key stored guid random o db) as [[[a|e] db'] o'].
  - destruct (AcceptedCrash.deduplicated a); [by subst|]. eapply moved; [exact H|]. by eapply MRecord.
  - destruct Hc as [->|[_ [a Hrec]]]; [done|]. eapply moved; [exact H|]. by eapply MRecord.
Qed.

Lemma load_usage_view_moving m e c : moving (load_usage_view m e c).
Proof.
  apply moving_bind.
  - apply moving_statement. intros db a db' H. apply bind_Ok in H as (x & _ & H). apply bind_Ok in H as (y & _ & H). by simplify_eq.
  - intros row. apply moving_bind; [apply moving_lift|intros [[[p cs] r] sy]]. apply moving_ret.
Qed.

Lemma update_policy_run v body db b db' :
  yields (update_policy v body) db b db' ->
  (b = false /\ db' = db)
  \/ (b = true /\ exists p, Project.policy db = Some p /\ UsagePolicy.version p = v /\ UsagePolicy.valid (with_settings body p) = true
      /\ db' = Project.set_policy (Some (with_settings body p)) db).
Proof.
  intros H%yields_statement. destruct (Project.policy db) as [p|]; [|left; by simplify_eq].
  destruct (Z.eqb_spec (UsagePolicy.version p) v) as [Hv|]; [|left; by simplify_eq].
  destruct (UsagePolicy.valid (with_settings body p)) eqn:E; [|done]. injection H as <- <-. right. split; [done|].
  exists p. done.
Qed.

Lemma update_usage_moving edits m v2 en answer payload : moving (update_usage edits m v2 en answer payload).
Proof.
  unfold update_usage. apply moving_bind; [apply moving_lift|intros _]. apply moving_bind; [apply moving_lift|intros _].
  apply moving_bind; [apply moving_lift|intros body]. apply moving_bind; [apply moving_lift|intros _].
  apply moving_transaction. intros db a db' H.
  apply yields_bind in H as (p & db1 & [-> ->]%lock_policy_run & H). apply yields_bind in H as (u & db2 & [_ ->]%yields_lift & H).
  etrans; [apply moves_one, MLock|].
  apply yields_bind in H as (u1 & db3 & H3 & H). assert (Moves (locked db) db3) as Hm3.
  { eapply moving_yields; [|exact H3]. destruct (UpdateUsageSettings.retain_all_raw body); [|apply moving_ret].
    apply moving_bind; [apply retained_artifact_bytes_moving|intros; apply moving_lift]. }
  etrans; [exact Hm3|]. apply yields_bind in H as (u2 & db4 & H4 & H).
  etrans; [|eapply moving_yields; [apply load_usage_view_moving|exact H]].
  destruct (changes (current db) body); [|by apply yields_ret in H4 as [_ ->]].
  apply yields_bind in H4 as (b & db5 & H5 & H4). apply yields_bind in H4 as (u3 & db6 & [Hb%fail_if_Ok ->]%yields_lift & H4).
  apply update_policy_run in H5 as [[-> _]|(_ & p & Hp & _ & Hv & ->)]; [done|].
  apply yields_bind in H4 as (u4 & db7 & H7%insert_current_policy_version_run & H4). apply yields_execute in H4. fields. subst db7 db4.
  by apply moves_one, MSettings.
Qed.

Lemma record_symbol_stored_moves m oid size db u db' : yields (record_symbol_stored m oid size) db u db' -> Moves db db'.
Proof.
  intros [[_ ->]|(_ & Hl & c & c' & Hc & Hc' & _ & ->)]%record_symbol_stored_run; [done|]. apply moves_one. by eapply MSymbol.
Qed.

Lemma deadline_of_objects f oid db : deadline_of oid (Project.set_objects f db) = deadline_of oid db.
Proof. done. Qed.

Lemma set_deadlines_moves rows db :
  NoDup rows.*1 ->
  (forall row, row ∈ rows -> Project.objects db !! row.1 = Some row.2 /\ RawObject.raw_delete_after row.2 = None
                            /\ is_Some (deadline_of row.1 db)) ->
  Moves db (foldl set_deadline db rows).
Proof.
  revert db. induction rows as [|row rows IH]; intros db Hnd Hrows; [done|]. cbn [foldl].
  rewrite fmap_cons, NoDup_cons in Hnd. destruct Hnd as [Hn Hnd].
  destruct (Hrows row) as (Ho & Hm & d & Hd); [set_solver|].
  assert (Moves db (set_deadline db row)) as H1. { apply moves_one. unfold set_deadline. rewrite Hd. by apply MDeadline. }
  etrans; [exact H1|]. apply IH; [done|]. intros r Hr. destruct (Hrows r) as (Ho' & Hm' & Hd'); [set_solver|].
  unfold set_deadline. rewrite deadline_of_objects. split_and!; [|done..]. fields. rewrite lookup_insert_ne; [done|].
  intros E. apply Hn. rewrite E. by apply list_elem_of_fmap_2.
Qed.

Lemma backfill_batch_spec db row :
  row ∈ backfill_batch db ->
  Project.objects db !! row.1 = Some row.2 /\ RawObject.raw_delete_after row.2 = None /\ is_Some (deadline_of row.1 db).
Proof.
  unfold backfill_batch. intros Hr%subseteq_take. rewrite sort_perm, list_elem_of_filter in Hr. destruct Hr as [Hd Hr].
  destruct row as [id o]. apply elem_of_map_to_list in Hr. cbn [fst snd] in *. apply andb_true_iff in Hd as [Hm Hd].
  unfold missing_deadline in Hm. destruct (RawObject.raw_delete_after o); [done|]. destruct (deadline_of id db); [|done]. eauto.
Qed.

Lemma backfill_moving fuel total : moving (backfill fuel total).
Proof.
  revert total. induction fuel as [|fuel IH]; intros total; cbn [backfill]; [apply moving_ret|].
  apply moving_bind; [|intros n; destruct (n <? STORAGE_RECONCILE_BATCH_SIZE)%N; [apply moving_ret|apply IH]].
  apply moving_statement. intros db a db' [= _ <-]. apply set_deadlines_moves; [apply nodup_rows|apply backfill_batch_spec].
Qed.

Lemma reconcile_storage_moving now org proj : moving (reconcile_storage now org proj).
Proof.
  unfold reconcile_storage. apply moving_bind; [apply moving_lift|intros _]. apply moving_bind; [by apply moving_execute|intros _].
  apply moving_bind; [intros db0 o db H; by apply backfill_moving|intros n].
  apply moving_bind; [|intros [[[prev miss] raw] sy]; apply moving_ret].
  apply moving_transaction. intros db a db' H.
  apply yields_bind in H as (p & db1 & [_ ->]%yields_select & H). apply yields_bind in H as (q & db2 & [_ ->]%yields_lift & H).
  apply yields_bind in H as (r & db3 & [_ ->]%yields_select & H). apply yields_bind in H as (s & db4 & [_ ->]%yields_lift & H).
  apply yields_bind in H as ([[raw sy] miss] & db5 & H5%yields_statement & H).
  apply bind_Ok in H5 as (raw' & Hr & H5). apply bind_Ok in H5 as (sy' & _ & H5). simplify_eq.
  apply yields_bind in H as (u & db6 & [_ ->]%yields_lift & H). apply yields_bind in H as (u1 & db7 & ->%yields_execute & H).
  apply yields_ret in H as [_ ->]. apply moves_one. unfold as_bigint in Hr. destruct (is_i64 _); [|done]. injection Hr as <-.
  apply MReconcile.
Qed.
End programs.

(** ** A deletion, or the restoring of its upload *)

(** What [delete_raw] restores is stored at its end. *)
Lemma delete_raw_moves {N : Network} (ingest : CrashIngest.t N) scope enforced R now m worker job o db r db' o' :
  delete_raw now m worker enforced job o db = (r, db', o') ->
  rtc (Move ingest scope enforced (fun oid => oid ∈ revived db db') R) db db'.
Proof.
  set (done_from := fun s => rtc (Move ingest scope enforced (fun oid => oid ∈ revived db s) R) db s).
  assert (forall s, rtc (Move ingest scope enforced (fun _ => False) R) db s -> done_from s) as Hweak.
  { intros s. by apply moves_weaken. }
  enough (triple (eq db) (delete_raw now m worker enforced job) (fun _ => done_from) (fun _ => done_from)) as Ht.
  { intros H. specialize (Ht o db eq_refl). rewrite H in Ht. by destruct r. }
  unfold delete_raw. eapply triple_bind; [apply (triple_lift _ _ (fun _ => eq db)); [done|by intros s e <- _; apply Hweak]|intros eid].
  eapply triple_bind; [apply (triple_select _ _ _ (fun row s => db = s /\ row = raw_row eid db)); [by intros s <-; apply Hweak|by intros s <-]|intros row].
  eapply triple_bind; [apply (triple_lift _ _ (fun raw s => db = s /\ raw_row eid db = Some raw));
                       [by intros s a [<- ->] Hr%ok_or_Ok|by intros s e [<- _] _; apply Hweak]|intros raw].
  eapply (triple_bind _ _ _ _ _ (fun (restored : bool) s => if restored then done_from s else db = s /\ raw_row eid db = Some raw)).
  { destruct (is_deleting raw && _ && negb enforced) eqn:Hc; [|by apply triple_ret].
    apply andb_true_iff in Hc as [_ Hen%negb_true_iff]. intros o1 s [<- Hr].
    destruct (restore_raw now worker job eid (RawRow.object_id raw) o1 db) as [[x db1] o2] eqn:Erun.
    assert (forall P : text -> Prop, P (RawRow.object_id raw) -> (x <> Ok true /\ db1 = db)
      \/ (x = Ok true /\ RawRow.object_id raw ∈ revived db db1 /\ rtc (Move ingest scope enforced P R) db db1)) as Hcases.
    { intros P HP. by eapply restore_raw_cases. }
    destruct (Hcases (fun _ => True) I) as [[Hx ->]|(-> & Hrev & _)].
    - destruct x as [[]|]; [done|done|by apply Hweak].
    - by destruct (Hcases (fun oid => oid ∈ revived db db1) Hrev) as [[]|(_ & _ & ?)]. }
  intros []; [by apply triple_ret|].
  eapply triple_conseq; [apply (remove_raw_moving ingest scope enforced (fun _ => False) R now m worker job eid raw db)|..].
  - intros s [Heq Hr]. rewrite <- Heq. by split.
  - intros ? s. apply Hweak.
  - intros ? s. apply Hweak.
Qed.
