(* ===== verification/Ledgers.v ===== *)
(** The books of a project: what the ledger, the counters and the tables of crashes and uploads must say of
    one another, and that every operation keeps them balanced. *)

From S2P Require Import Prelude Text Domain Identifiers Store Jobs Usage Retention Ingest Accounting Movements.

#[local] Open Scope Z_scope.

(** * Books *)

(** What the books say: of a crash its month and its upload, of an upload its size and whether it is there.
    An upload that is being deleted is still paid for. *)
Definition live (s : Lifecycle) : Lifecycle := match s with Deleting => Stored | s => s end.
Module Books.
Record t : Type := Mk {
  cycles : gmap text Cycle.t; ledger : gmap (LedgerKind.t * text) (text * Z); storage : option StorageCounter.t;
  events : gmap text (text * text); objects : gmap text (Z * Lifecycle) }.
End Books.
Definition event_entry (e : CrashEvent.t) : text * text := (Admittance.cycle_start (CrashEvent.usage e), CrashEvent.raw_object_id e).
Definition object_entry (o : RawObject.t) : Z * Lifecycle := (RawObject.byte_size o, live (RawObject.lifecycle_state o)).
Definition books (db : Project.t) : Books.t :=
  Books.Mk (Project.cycles db) (Project.ledger db) (Project.storage db) (event_entry <$> Project.events db) (object_entry <$> Project.objects db).

(** The sum of the lines of a kind in a month, and the bytes that are there. *)
Definition line_of (kind : LedgerKind.t) (m : text) (k : LedgerKind.t * text) (v : text * Z) : Z :=
  if decide (k.1 = kind /\ v.1 = m) then v.2 else 0.
Definition booked (kind : LedgerKind.t) (m : text) (l : gmap (LedgerKind.t * text) (text * Z)) : Z := sum_with (line_of kind m) l.
Definition entry_bytes (_ : text) (v : Z * Lifecycle) : Z := if decide (v.2 = Stored) then v.1 else 0.
Definition counters (m : text) (cs : gmap text Cycle.t) : Cycle.t := default Cycle.zero (cs !! m).

Record Balanced (b : Books.t) : Prop := {
  balanced_cycles m :
    let c := counters m (Books.cycles b) in
    Cycle.accepted_events c = booked LedgerKind.AcceptedEvent m (Books.ledger b)
    /\ Cycle.accepted_raw_bytes c = booked LedgerKind.RawStored m (Books.ledger b)
    /\ Cycle.accepted_symbol_bytes c = booked LedgerKind.SymbolStored m (Books.ledger b)
    /\ Cycle.deleted_raw_bytes c = booked LedgerKind.RawDeleted m (Books.ledger b);
  balanced_event id :
    match Books.events b !! id with
    | Some (m, oid) =>
        Books.ledger b !! (LedgerKind.AcceptedEvent, id) = Some (m, 1)
        /\ exists size, Books.ledger b !! (LedgerKind.RawStored, oid) = Some (m, size)
    | None => Books.ledger b !! (LedgerKind.AcceptedEvent, id) = None
    end;
  balanced_object oid :
    match Books.objects b !! oid with
    | Some (size, s) =>
        0 < size /\ (exists m, Books.ledger b !! (LedgerKind.RawStored, oid) = Some (m, size))
        /\ match s with
           | Stored => Books.ledger b !! (LedgerKind.RawDeleted, oid) = None
           | Discarded => exists m, Books.ledger b !! (LedgerKind.RawDeleted, oid) = Some (m, size)
           | _ => False
           end
    | None => Books.ledger b !! (LedgerKind.RawStored, oid) = None /\ Books.ledger b !! (LedgerKind.RawDeleted, oid) = None
    end;
  balanced_uploads id id' m m' oid : Books.events b !! id = Some (m, oid) -> Books.events b !! id' = Some (m', oid) -> id = id';
  balanced_attached oid : is_Some (Books.objects b !! oid) -> exists id m, Books.events b !! id = Some (m, oid);
  balanced_storage c : Books.storage b = Some c -> StorageCounter.reconciled_at c <> None ->
    StorageCounter.retained_raw_bytes c = sum_with entry_bytes (Books.objects b) }.

(** ** Lines *)

Lemma booked_new kind m kind' id m' q l :
  l !! (kind', id) = None ->
  booked kind m (<[(kind', id) := (m', q)]> l) = (if decide (kind' = kind /\ m' = m) then q else 0) + booked kind m l.
Proof. intros H. unfold booked. by rewrite sum_with_new by done. Qed.

Lemma counters_insert m m' c cs : counters m (<[m' := c]> cs) = if decide (m' = m) then c else counters m cs.
Proof. unfold counters. destruct (decide (m' = m)) as [->|]; [by rewrite lookup_insert_eq|by rewrite lookup_insert_ne]. Qed.

(** The counters of a month after a line was added with what it counts. *)
Ltac lines :=
  unfold Cycle.add;
  cbn [Cycle.accepted_events Cycle.accepted_raw_bytes Cycle.accepted_symbol_bytes Cycle.deleted_raw_bytes];
  split_and!; repeat case_decide; first [lia | exfalso; naive_solver].

Lemma storage_with_Some raw sym c c' :
  storage_with raw sym c = Some c' ->
  StorageCounter.reconciled_at c' = StorageCounter.reconciled_at c
  /\ (StorageCounter.reconciled_at c <> None ->
      StorageCounter.retained_raw_bytes c' = StorageCounter.retained_raw_bytes c + raw).
Proof.
  unfold storage_with. destruct (StorageCounter.reconciled_at c) as [t|] eqn:E; [|by intros [= <-]].
  destruct (_ && _ && _ && _); [|done]. by intros [= <-].
Qed.

(** ** Movements *)

(** A crash arrives with its upload. *)
Lemma balanced_accept b m eid oid size c c' :
  Balanced b -> 0 < size -> Books.events b !! eid = None -> Books.objects b !! oid = None ->
  (forall id m' oid', Books.events b !! id = Some (m', oid') -> oid' <> oid) ->
  Books.storage b = Some c -> storage_with size 0 c = Some c' ->
  Balanced (Books.Mk (<[m := Cycle.add (counters m (Books.cycles b)) (Cycle.Mk 1 size 0 0 0 0)]> (Books.cycles b))
    (<[(LedgerKind.RawStored, oid) := (m, size)]> (<[(LedgerKind.AcceptedEvent, eid) := (m, 1)]> (Books.ledger b)))
    (Some c') (<[eid := (m, oid)]> (Books.events b)) (<[oid := (size, Stored)]> (Books.objects b))).
Proof.
  intros [Hc He Ho Hu Ha Hs] Hsize Heid Hoid Hnew Est Est'.
  pose proof (He eid) as Hle. rewrite Heid in Hle. pose proof (Ho oid) as Hlo. rewrite Hoid in Hlo. destruct Hlo as [Hlo Hld].
  split; cbn [Books.cycles Books.ledger Books.storage Books.events Books.objects].
  - intros m'. cbv zeta. rewrite counters_insert.
    rewrite !(booked_new _ m' LedgerKind.RawStored) by (by rewrite lookup_insert_ne).
    rewrite !(booked_new _ m' LedgerKind.AcceptedEvent) by done.
    specialize (Hc m') as (H1 & H2 & H3 & H4). destruct (decide (m = m')) as [<-|Hm]; lines.
  - intros id. destruct (decide (id = eid)) as [->|Hid].
    + rewrite lookup_insert_eq. rewrite lookup_insert_ne by done. rewrite !lookup_insert_eq. eauto.
    + rewrite lookup_insert_ne by done. specialize (He id). destruct (Books.events b !! id) as [[m' oid']|] eqn:E.
      * destruct He as [He1 He2]. rewrite lookup_insert_ne by done. rewrite lookup_insert_ne by congruence. split; [done|].
        rewrite lookup_insert_ne; [by rewrite lookup_insert_ne|]. specialize (Hnew id m' oid' E). congruence.
      * rewrite lookup_insert_ne by done. by rewrite lookup_insert_ne by congruence.
  - intros id. destruct (decide (id = oid)) as [->|Hid].
    + rewrite lookup_insert_eq. split; [done|]. split; [exists m; by rewrite lookup_insert_eq|].
      rewrite !lookup_insert_ne by done. done.
    + rewrite (lookup_insert_ne (Books.objects b)) by done. rewrite !(lookup_insert_ne _ (LedgerKind.RawStored, oid)) by congruence.
      rewrite !(lookup_insert_ne _ (LedgerKind.AcceptedEvent, eid)) by done. apply Ho.
  - intros id id' m1 m2 oid'. destruct (decide (id = eid)) as [->|H1], (decide (id' = eid)) as [->|H2];
      rewrite ?lookup_insert_eq, ?lookup_insert_ne by done; [done|..].
    + intros [= -> ->] H. by apply Hnew in H.
    + intros H [= -> ->]. by apply Hnew in H.
    + intros. by eapply Hu.
  - intros id. destruct (decide (id = oid)) as [->|Hid]; [intros _; exists eid, m; by rewrite lookup_insert_eq|].
    rewrite lookup_insert_ne by done. intros (x & m' & Hx)%Ha. exists x, m'. rewrite lookup_insert_ne; [done|congruence].
  - intros c1 [= <-] Hr. apply storage_with_Some in Est' as [E1 E2]. rewrite E1 in Hr. rewrite (E2 Hr), (Hs c Est Hr).
    rewrite sum_with_new by done. unfold entry_bytes at 2. rewrite decide_True by done. cbn [fst]. lia.
Qed.

(** An upload is gone. *)
Lemma balanced_delete b m oid size sampled represented c c' :
  Balanced b -> Books.objects b !! oid = Some (size, Stored) ->
  Books.storage b = Some c -> storage_with (- size) 0 c = Some c' ->
  Balanced (Books.Mk (<[m := Cycle.add (counters m (Books.cycles b)) (Cycle.Mk 0 0 0 size sampled represented)]> (Books.cycles b))
    (<[(LedgerKind.RawDeleted, oid) := (m, size)]> (Books.ledger b)) (Some c') (Books.events b)
    (<[oid := (size, Discarded)]> (Books.objects b))).
Proof.
  intros [Hc He Ho Hu Ha Hs] Hoid Est Est'. pose proof (Ho oid) as Hlo. rewrite Hoid in Hlo. destruct Hlo as (Hsize & Hst & Hld).
  split; cbn [Books.cycles Books.ledger Books.storage Books.events Books.objects].
  - intros m'. cbv zeta. rewrite counters_insert. rewrite !(booked_new _ m' LedgerKind.RawDeleted) by done.
    specialize (Hc m') as (H1 & H2 & H3 & H4). destruct (decide (m = m')) as [<-|Hm]; lines.
  - intros id. specialize (He id). rewrite lookup_insert_ne by done. destruct (Books.events b !! id) as [[m' oid']|]; [|done].
    destruct He as [He1 He2]. split; [done|]. by rewrite lookup_insert_ne.
  - intros id. rewrite (lookup_insert_ne _ _ (LedgerKind.RawStored, id)) by done. destruct (decide (id = oid)) as [->|Hid].
    + rewrite !lookup_insert_eq. eauto.
    + rewrite (lookup_insert_ne (Books.objects b)) by done. rewrite lookup_insert_ne by congruence. apply Ho.
  - done.
  - intros id Hid. apply Ha. destruct (decide (id = oid)) as [->|]; [eauto|by rewrite lookup_insert_ne in Hid].
  - intros c1 [= <-] Hr. apply storage_with_Some in Est' as [E1 E2]. rewrite E1 in Hr. rewrite (E2 Hr), (Hs c Est Hr).
    rewrite (sum_with_update _ _ _ _ _ Hoid). unfold entry_bytes at 2 3. rewrite decide_False, decide_True by done. cbn [fst]. lia.
Qed.

(** A symbol file is stored for the project, for the first time. *)
Lemma balanced_symbol b m oid size c c' :
  Balanced b -> Books.ledger b !! (LedgerKind.SymbolStored, oid) = None ->
  Books.storage b = Some c -> storage_with 0 size c = Some c' ->
  Balanced (Books.Mk (<[m := Cycle.add (counters m (Books.cycles b)) (Cycle.Mk 0 0 size 0 0 0)]> (Books.cycles b))
    (<[(LedgerKind.SymbolStored, oid) := (m, size)]> (Books.ledger b)) (Some c') (Books.events b) (Books.objects b)).
Proof.
  intros [Hc He Ho Hu Ha Hs] Hoid Est Est'.
  split; cbn [Books.cycles Books.ledger Books.storage Books.events Books.objects].
  - intros m'. cbv zeta. rewrite counters_insert. rewrite !(booked_new _ m' LedgerKind.SymbolStored) by done.
    specialize (Hc m') as (H1 & H2 & H3 & H4). destruct (decide (m = m')) as [<-|Hm]; lines.
  - intros id. specialize (He id). rewrite lookup_insert_ne by done. destruct (Books.events b !! id) as [[m' oid']|]; [|done].
    by rewrite lookup_insert_ne by done.
  - intros id. specialize (Ho id). by rewrite !lookup_insert_ne by done.
  - done.
  - done.
  - intros c1 [= <-] Hr. apply storage_with_Some in Est' as [E1 E2]. rewrite E1 in Hr. rewrite (E2 Hr), (Hs c Est Hr). lia.
Qed.

(** The counter is set to what the uploads add up to. *)
Lemma balanced_reconcile b sym now :
  Balanced b ->
  Balanced (Books.Mk (Books.cycles b) (Books.ledger b) (Some (StorageCounter.Mk (sum_with entry_bytes (Books.objects b)) sym now))
    (Books.events b) (Books.objects b)).
Proof. intros [Hc He Ho Hu Ha Hs]. split; [done..|]. by intros c [= <-]. Qed.

(** ** Programs *)

Definition Accounted (db : Project.t) : Prop := Balanced (books db).

Lemma retained_raw_books db : retained_raw db = sum_with entry_bytes (object_entry <$> Project.objects db).
Proof.
  unfold retained_raw. induction (Project.objects db) as [|k o m Hk IH] using map_ind; [done|].
  rewrite fmap_insert, !sum_with_new by (rewrite ?lookup_fmap, ?Hk; done). rewrite IH. f_equal.
  unfold entry_bytes, raw_bytes_of, RawObject.retained, object_entry. cbn. by destruct (RawObject.lifecycle_state o).
Qed.

Lemma cycle_books db m : cycle db m = counters m (Books.cycles (books db)).
Proof. done. Qed.

Lemma accounted_same db db' : books db' = books db -> Accounted db -> Accounted db'.
Proof. unfold Accounted. by intros ->. Qed.

(** A change of a row that says the same in the books. *)
Lemma books_event db eid e e' :
  Project.events db !! eid = Some e -> event_entry e' = event_entry e -> books (Project.set_events <[eid := e']> db) = books db.
Proof.
  intros He H. unfold books. fields. f_equal. rewrite fmap_insert, H. apply insert_id. by rewrite lookup_fmap, He.
Qed.
Lemma books_object db oid o o' :
  Project.objects db !! oid = Some o -> object_entry o' = object_entry o -> books (Project.set_objects <[oid := o']> db) = books db.
Proof.
  intros Ho H. unfold books. fields. f_equal. rewrite fmap_insert, H. apply insert_id. by rewrite lookup_fmap, Ho.
Qed.

Lemma accounted_recorded {N : Network} ingest (scope : KeyScope.t N) db now m eid oid key stored guid a db' :
  recorded ingest scope db now m eid oid key stored guid a db' -> Accounted db -> Accounted db'.
Proof.
  intros R H. destruct (recorded_storage R) as (c & c' & Hc & Hc' & Ec).
  unfold Accounted, books. rewrite (recorded_cycles R), (recorded_ledger R),
    (recorded_events R), (recorded_objects R), Ec, !fmap_insert, cycle_books.
  apply (balanced_accept (books db) m eid oid _ c c'); cbn [books Books.events Books.objects Books.storage]; try done.
  - pose proof (recorded_size R). lia.
  - by rewrite lookup_fmap, (recorded_new_event R).
  - by rewrite lookup_fmap, (recorded_new_object R).
  - intros id m' oid'. rewrite lookup_fmap. destruct (Project.events db !! id) as [e|] eqn:E; [|done]. intros [= _ <-].
    by apply (recorded_new_upload R _ _ E).
Qed.

(** Every movement keeps the books balanced. *)
Lemma accounted_move {N : Network} ingest (scope : KeyScope.t N) enforced restorable R db db' :
  Move ingest scope enforced restorable R db db' -> Accounted db -> Accounted db'.
Proof.
  destruct 1 as [| | | | | |? ? ? ? ? ? ? ? ? ? _ Hrec| | |? ? ? Ho Hs|eid e oid o ? He ? ? ? ? Ho Hs| |m eid e oid o c c' ? He Heo Ho Hs _ Hl Hc Hc'
                |eid e oid o ? He Heo Ho Hs _ [x Hl]|m oid size c c' ? Hl Hc Hc'| |]; intros Hacc;
    try (eapply accounted_same; [|exact Hacc]; done).
  - by eapply accounted_recorded.
  - eapply accounted_same; [|exact Hacc]. by eapply books_event.
  - eapply accounted_same; [|exact Hacc]. by eapply books_event.
  - eapply accounted_same; [|exact Hacc]. eapply books_object; [done|]. unfold object_entry. cbn. by rewrite Hs.
  - eapply accounted_same; [|exact Hacc]. etrans; [eapply books_event; [fields; exact He|done]|].
    eapply books_object; [done|]. unfold object_entry. cbn. by rewrite Hs.
  - assert (event_entry (CrashEvent.set_class (discarded_class e) e) = event_entry e) as Ee by done.
    unfold Accounted, books, deleted. fields. rewrite !fmap_insert, Ee, (insert_id (event_entry <$> Project.events db)) by (by rewrite lookup_fmap, He).
    change (object_entry (RawObject.set_state Discarded o)) with (RawObject.byte_size o, Discarded). rewrite cycle_books.
    apply (balanced_delete (books db) m oid _ _ _ c); [exact Hacc| |done..].
    cbn [books Books.objects]. rewrite lookup_fmap, Ho. cbn [fmap option_fmap option_map]. unfold object_entry. by rewrite Hs.
  - exfalso. pose proof (balanced_object _ Hacc oid) as H. cbn in H. rewrite lookup_fmap, Ho in H.
    cbn [fmap option_fmap option_map] in H. unfold object_entry in H. rewrite Hs in H. cbn in H.
    destruct H as (_ & _ & H). by rewrite Hl in H.
  - unfold Accounted, books. fields. rewrite cycle_books. by apply (balanced_symbol (books db) m oid size c).
  - eapply accounted_same; [|exact Hacc]. by eapply books_object.
  - unfold Accounted, books. fields. rewrite retained_raw_books. by apply (balanced_reconcile (books db)).
Qed.

Lemma accounted_moves {N : Network} ingest (scope : KeyScope.t N) enforced restorable R db db' :
  rtc (Move ingest scope enforced restorable R) db db' -> Accounted db -> Accounted db'.
Proof. induction 1 as [|db db1 db' H _ IH]; [done|]. intros Hacc. by eapply IH, accounted_move. Qed.

(** ** A new project *)

(** The row of a project comes with its policy, the first version of it, and a reconciled counter. *)
Definition created (now : Z) : Project.t :=
  Project.Mk (Some UsagePolicy.default) {[ 1%Z := UsagePolicy.default ]} ∅ ∅ (Some (StorageCounter.Mk 0 0 (Some now))) ∅ ∅ ∅ ∅ ∅ ∅
    (Queue.Mk ∅ ∅ ∅ ∅ ∅ ∅ ∅) ∅ ∅ ∅ ∅.
Lemma created_accounted now : Accounted (created now).
Proof.
  split; cbn; rewrite ?fmap_empty.
  - done.
  - intros id. by rewrite !lookup_empty.
  - intros id. by rewrite !lookup_empty.
  - done.
  - intros id. rewrite !lookup_empty. by intros [].
  - by intros c [= <-].
Qed.
