(* ===== verification/Admissions.v ===== *)
(** Admissions and deadlines: what every accepted crash says about the policy it was admitted under, and
    that nothing the server does later changes it. *)

From S2P Require Import Prelude Text Domain Identifiers Store Jobs Usage Retention Ingest Quotas Accounting Movements Ledgers.

#[local] Open Scope Z_scope.

(** * What every crash says *)

(** A crash was admitted by its number in its month and the version of the policy it names; its upload has
    the deadline that version gives it. *)
Definition admitted_as (enforcing : bool) (db : Project.t) (e : CrashEvent.t) : Prop :=
  exists p o,
    Project.versions db !! Admittance.policy_version (CrashEvent.usage e) = Some p
    /\ Admittance.outcome (CrashEvent.usage e) = admission_outcome (Admittance.accepted_events (CrashEvent.usage e)) p enforcing
    /\ Admittance.estimated (CrashEvent.usage e) = bool_decide (Admittance.outcome (CrashEvent.usage e) = Outcome.Sampling)
    /\ Project.objects db !! CrashEvent.raw_object_id e = Some o
    /\ RawObject.raw_delete_after o = Some (CrashEvent.received_at e + days (UsagePolicy.raw_retention_days p)).
Definition number (e : CrashEvent.t) : text * Z := (Admittance.cycle_start (CrashEvent.usage e), Admittance.accepted_events (CrashEvent.usage e)).

Record Admitting (enforcing : bool) (db : Project.t) : Prop := {
  admitting_policy : exists p, Project.policy db = Some p /\ Project.versions db !! UsagePolicy.version p = Some p;
  admitting_versions k p : Project.versions db !! k = Some p ->
    UsagePolicy.version p = k /\ UsagePolicy.valid p = true /\ k <= UsagePolicy.version (current db);
  admitting_event eid e : Project.events db !! eid = Some e ->
    admitted_as enforcing db e /\ 1 <= Admittance.accepted_events (CrashEvent.usage e) <= Cycle.accepted_events (cycle db (Admittance.cycle_start (CrashEvent.usage e)));
  admitting_numbers eid eid' e e' : Project.events db !! eid = Some e -> Project.events db !! eid' = Some e' ->
    number e = number e' -> eid = eid';
  admitting_guids eid eid' e e' g : Project.events db !! eid = Some e -> Project.events db !! eid' = Some e' ->
    CrashEvent.crash_guid e = Some g -> CrashEvent.crash_guid e' = Some g -> eid = eid';
  admitting_counts m : 0 <= Cycle.accepted_events (cycle db m) }.

(** * What does not change *)

(** The versions of the policy stay as they were written; a crash keeps its admission, an upload its key, its
    checksum and its deadline, and an upload that is gone does not come back. *)
Definition same_admission (e e' : CrashEvent.t) : Prop :=
  CrashEvent.usage e' = CrashEvent.usage e /\ CrashEvent.received_at e' = CrashEvent.received_at e
  /\ CrashEvent.raw_object_id e' = CrashEvent.raw_object_id e /\ CrashEvent.crash_guid e' = CrashEvent.crash_guid e
  /\ CrashEvent.environment e' = CrashEvent.environment e.
Definition same_upload (o o' : RawObject.t) : Prop :=
  RawObject.object_key o' = RawObject.object_key o /\ RawObject.checksum o' = RawObject.checksum o
  /\ RawObject.byte_size o' = RawObject.byte_size o
  /\ (RawObject.raw_delete_after o <> None -> RawObject.raw_delete_after o' = RawObject.raw_delete_after o)
  /\ (RawObject.lifecycle_state o = Discarded -> RawObject.lifecycle_state o' = Discarded).
Record persists (db db' : Project.t) : Prop := {
  persists_versions k p : Project.versions db !! k = Some p -> Project.versions db' !! k = Some p;
  persists_events eid e : Project.events db !! eid = Some e -> exists e', Project.events db' !! eid = Some e' /\ same_admission e e';
  persists_objects oid o : Project.objects db !! oid = Some o -> exists o', Project.objects db' !! oid = Some o' /\ same_upload o o' }.

#[export] Instance same_admission_preorder : PreOrder same_admission.
Proof. unfold same_admission. split; [done|]. intros x y z. naive_solver congruence. Qed.
#[export] Instance same_upload_preorder : PreOrder same_upload.
Proof.
  unfold same_upload. split; [done|]. intros x y z (E1 & E2 & E3 & E4 & E5) (F1 & F2 & F3 & F4 & F5).
  split_and!; [congruence..| |auto]. intros H. specialize (E4 H). rewrite F4; [done|]. congruence.
Qed.
#[export] Instance persists_preorder : PreOrder persists.
Proof.
  split.
  - intros db. split; [done|intros ? e He; by exists e|intros ? o Ho; by exists o].
  - intros a b c [V E O] [V' E' O']. split; [naive_solver| |].
    + intros eid e He. apply E in He as (e1 & He & H). apply E' in He as (e2 & He & H'). exists e2. split; [done|by etrans].
    + intros oid o Ho. apply O in Ho as (o1 & Ho & H). apply O' in Ho as (o2 & Ho & H'). exists o2. split; [done|by etrans].
Qed.

(** The three tables with one row replaced, or as they were. *)
Lemma persists_same db db' :
  Project.versions db' = Project.versions db -> Project.events db' = Project.events db -> Project.objects db' = Project.objects db ->
  persists db db'.
Proof. intros Ev Ee Eo. split; rewrite ?Ev, ?Ee, ?Eo; [done|intros ? e He; by exists e|intros ? o Ho; by exists o]. Qed.
Lemma persists_event db eid e e' :
  Project.events db !! eid = Some e -> same_admission e e' -> persists db (Project.set_events <[eid := e']> db).
Proof.
  intros He Hs. split; fields; [done| |intros ? o Ho; by exists o]. intros id x Hx. destruct (decide (id = eid)) as [->|].
  - exists e'. rewrite lookup_insert_eq. split; [done|]. congruence.
  - exists x. by rewrite lookup_insert_ne.
Qed.
Lemma persists_object db oid o o' :
  Project.objects db !! oid = Some o -> same_upload o o' -> persists db (Project.set_objects <[oid := o']> db).
Proof.
  intros Ho Hs. split; fields; [done|intros ? e He; by exists e|]. intros id x Hx. destruct (decide (id = oid)) as [->|].
  - exists o'. rewrite lookup_insert_eq. split; [done|]. congruence.
  - exists x. by rewrite lookup_insert_ne.
Qed.
Lemma persists_kept db p : forall k q, Project.versions db !! k = Some q -> kept p (Project.versions db) !! k = Some q.
Proof.
  intros k q Hk. unfold kept. destruct (Project.versions db !! UsagePolicy.version p) eqn:E; [done|]. cbn.
  rewrite lookup_insert_ne; [done|congruence].
Qed.

Lemma persists_recorded {N : Network} ingest (scope : KeyScope.t N) db now m eid oid key stored guid a db' :
  recorded ingest scope db now m eid oid key stored guid a db' -> persists db db'.
Proof.
  intros R. split.
  - rewrite (recorded_versions R). apply persists_kept.
  - intros id e He. rewrite (recorded_events R). exists e. rewrite lookup_insert_ne; [done|].
    intros <-. by rewrite (recorded_new_event R) in He.
  - intros id o Ho. rewrite (recorded_objects R). exists o. rewrite lookup_insert_ne; [done|].
    intros <-. by rewrite (recorded_new_object R) in Ho.
Qed.

Lemma persists_discarded db eid oid e o :
  Project.events db !! eid = Some e -> Project.objects db !! oid = Some o -> persists db (discarded db eid oid e o).
Proof.
  intros He Ho. unfold discarded. etrans; [by apply (persists_object db oid o (RawObject.set_state Discarded o))|].
  by apply persists_event with (e := e).
Qed.

Section movements.
Context {N : Network} (ingest : CrashIngest.t N) (scope : KeyScope.t N) (enforced : bool) (restorable : text -> Prop) (R : text -> StoredRequest.t -> Prop).

(** Nothing that happens changes what was admitted. *)
Lemma persists_move db db' : Move ingest scope enforced restorable R db db' -> persists db db'.
Proof.
  destruct 1 as [| | | | | |? ? ? ? ? ? ? ? ? ? _ Hrec|eid e ? ? ? ? He|eid e c ? He _|oid o ? Ho Hs|eid e oid o ? He ? ? ? ? Ho Hs|
                |m eid e oid o c c' ? He Heo Ho Hs _ Hl Hc Hc'|eid e oid o ? He Heo Ho Hs _ [x Hl]| |oid o d ? Ho Hd _|];
    try (by apply persists_same).
  - split; fields; [apply (persists_kept db)|intros ? e He; by exists e|intros ? o Ho; by exists o].
  - split; fields; [apply (persists_kept db)|intros ? e He; by exists e|intros ? o Ho; by exists o].
  - by eapply persists_recorded.
  - by eapply persists_event.
  - by eapply persists_event.
  - eapply persists_object; [done|]. split_and!; try done. cbn. by rewrite Hs.
  - etrans; [eapply persists_object; [exact Ho|]|eapply persists_event; [fields; exact He|done]].
    split_and!; try done. by rewrite Hs.
  - etrans; [by apply (persists_discarded db eid oid e o)|]. by apply persists_same.
  - by apply persists_discarded.
  - eapply persists_object; [done|]. by split_and!.
Qed.
Lemma persists_moves db db' : rtc (Move ingest scope enforced restorable R) db db' -> persists db db'.
Proof. induction 1 as [|? ? ? H _ IH]; [done|]. etrans; [by apply persists_move|done]. Qed.
End movements.

(** * Every movement keeps it so *)

Lemma admitted_persists enforcing db db' e e' : persists db db' -> same_admission e e' -> admitted_as enforcing db e -> admitted_as enforcing db' e'.
Proof.
  intros [V _ O] (Eu & Er & Eo & _) (p & o & Hp & H1 & H2 & Ho & Hd). apply O in Ho as (o' & Ho' & _ & _ & _ & Hd' & _).
  exists p, o'. rewrite Eu, Eo, Er. split_and!; [by apply V|done|done|done|]. rewrite Hd'; [done|]. by rewrite Hd.
Qed.

Lemma admitting_transfer enforcing db db' :
  Project.policy db' = Project.policy db -> Project.versions db' = Project.versions db -> persists db db' ->
  (forall eid e', Project.events db' !! eid = Some e' -> exists e, Project.events db !! eid = Some e /\ same_admission e e') ->
  (forall m, Cycle.accepted_events (cycle db' m) = Cycle.accepted_events (cycle db m)) ->
  Admitting enforcing db -> Admitting enforcing db'.
Proof.
  intros Ep Ev Hper Hback Hc [P V E U G C]. split; [| | | | |intros m; by rewrite Hc].
  - by rewrite Ep, Ev.
  - unfold current. rewrite Ep, Ev. apply V.
  - intros eid e' He'. destruct (Hback eid e' He') as (e & He & Hs). destruct (E eid e He) as [Ha Hn]. split; [by eapply admitted_persists|].
    destruct Hs as (Eu & _). rewrite Eu, Hc. done.
  - intros i j a b Ha Hb Hab. destruct (Hback i a Ha) as (x & Hx & Eu & _). destruct (Hback j b Hb) as (y & Hy & Eu' & _).
    apply (U i j x y Hx Hy). unfold number in *. by rewrite Eu, Eu' in Hab.
  - intros i j a b g Ha Hb Hga Hgb. destruct (Hback i a Ha) as (x & Hx & _ & _ & _ & Eg & _).
    destruct (Hback j b Hb) as (y & Hy & _ & _ & _ & Eg' & _). apply (G i j x y g Hx Hy); congruence.
Qed.

Lemma same_events_back db db' :
  Project.events db' = Project.events db -> forall eid e', Project.events db' !! eid = Some e' -> exists e, Project.events db !! eid = Some e /\ same_admission e e'.
Proof. intros E eid e' He. rewrite E in He. by exists e'. Qed.
Lemma event_back db eid e e' :
  Project.events db !! eid = Some e -> same_admission e e' ->
  forall id x, <[eid := e']> (Project.events db) !! id = Some x -> exists y, Project.events db !! id = Some y /\ same_admission y x.
Proof.
  intros He Hs id x. destruct (decide (id = eid)) as [->|]; [rewrite lookup_insert_eq; intros [= <-]; by exists e|].
  rewrite lookup_insert_ne by done. intros Hx. by exists x.
Qed.

Lemma current_policy db p : Project.policy db = Some p -> current db = p.
Proof. unfold current. by intros ->. Qed.

(** The version that is current is written down, so locking the policy writes nothing. *)
Lemma kept_current enforcing db : Admitting enforcing db -> kept (current db) (Project.versions db) = Project.versions db.
Proof. intros [(p & Hp & Hv) _ _ _ _ _]. rewrite (current_policy db p Hp). unfold kept. by rewrite Hv. Qed.

Lemma admitting_settings enforcing db body p :
  Project.policy db = Some p -> UsagePolicy.valid (with_settings body p) = true -> Admitting enforcing db ->
  Admitting enforcing (Project.set_versions (kept (with_settings body p)) (Project.set_policy (Some (with_settings body p)) db)).
Proof.
  intros Hp Hvalid [(p0 & Hp0 & Hv) V E U G C]. set (q := with_settings body p) in *. rewrite Hp in Hp0. injection Hp0 as <-.
  assert (UsagePolicy.version q = UsagePolicy.version p + 1) as Hq by done.
  assert (Project.versions db !! UsagePolicy.version q = None) as Hnew.
  { destruct (Project.versions db !! UsagePolicy.version q) as [x|] eqn:Ex; [|done]. apply V in Ex as (_ & _ & Hle).
    rewrite (current_policy db p Hp) in Hle. lia. }
  assert (kept q (Project.versions db) = <[UsagePolicy.version q := q]> (Project.versions db)) as Hk. { unfold kept. by rewrite Hnew. }
  assert (persists db (Project.set_versions (kept q) (Project.set_policy (Some q) db))) as Hper.
  { split; fields; [apply (persists_kept db)|intros ? e He; by exists e|intros ? o Ho; by exists o]. }
  split; fields.
  - exists q. split; [done|]. rewrite Hk. apply lookup_insert_eq.
  - intros k x. unfold current. fields. cbn [from_option]. rewrite Hk. destruct (decide (k = UsagePolicy.version q)) as [->|Hne].
    + rewrite lookup_insert_eq. intros [= <-]. done.
    + rewrite lookup_insert_ne by done. intros Hx. destruct (V k x Hx) as (H1 & H2 & H3).
      rewrite (current_policy db p Hp) in H3. split_and!; [done..|]. etrans; [exact H3|]. change (UsagePolicy.version p <= UsagePolicy.version p + 1). lia.
  - intros eid e He. destruct (E eid e He) as [Ha Hn]. split; [by eapply admitted_persists|done].
  - done.
  - done.
  - done.
Qed.

Section admitting.
Context {N : Network} (ingest : CrashIngest.t N) (scope : KeyScope.t N) (enforced : bool) (restorable : text -> Prop) (R : text -> StoredRequest.t -> Prop).
Abbreviation enforcing := (CrashIngest.usage_enforcement_enabled ingest).

Lemma admitting_recorded db now m eid oid key stored guid a db' :
  recorded ingest scope db now m eid oid key stored guid a db' -> Admitting enforcing db -> Admitting enforcing db'.
Proof.
  intros Rec Hadm. pose proof (kept_current _ _ Hadm) as Hkept. pose proof (persists_recorded _ _ _ _ _ _ _ _ _ _ _ _ Rec) as Hper.
  destruct Hadm as [(p & Hp & Hv) V E U G C]. pose proof (current_policy db p Hp) as Hcur.
  assert (forall m', cycle db' m' = if decide (m = m') then Cycle.add (cycle db m) (Cycle.Mk 1 (Z.of_N (StoredRequest.byte_size stored)) 0 0 0 0) else cycle db m') as Hc.
  { intros m'. unfold cycle. rewrite (recorded_cycles Rec). destruct (decide (m = m')) as [<-|]; [by rewrite lookup_insert_eq|by rewrite lookup_insert_ne]. }
  assert (forall m', Cycle.accepted_events (cycle db m') <= Cycle.accepted_events (cycle db' m')) as Hmono.
  { intros m'. rewrite Hc. destruct (decide (m = m')) as [<-|]; cbn; lia. }
  pose proof (C m) as Hpos.
  split.
  - exists p. rewrite (recorded_policy Rec), (recorded_versions Rec), Hkept, Hcur. done.
  - intros k x. rewrite (recorded_versions Rec), Hkept. unfold current. rewrite (recorded_policy Rec). cbn. apply V.
  - intros id e. rewrite (recorded_events Rec). destruct (decide (id = eid)) as [->|Hid].
    + rewrite lookup_insert_eq. intros [= <-]. split.
      * exists p, (recorded_object db now key stored). rewrite (recorded_versions Rec), Hkept, (recorded_objects Rec).
        unfold recorded_event, accepted_event, recorded_object. cbn. rewrite Hcur, lookup_insert_eq. split_and!; try done.
        unfold outcome_at. by rewrite Hcur.
      * cbn. rewrite Hc, decide_True by done. cbn. unfold next_number. lia.
    + rewrite lookup_insert_ne by done. intros He. destruct (E id e He) as [Ha Hn]. split; [by eapply admitted_persists|].
      pose proof (Hmono (Admittance.cycle_start (CrashEvent.usage e))). lia.
  - intros i j x y. rewrite (recorded_events Rec).
    assert (forall id e, Project.events db !! id = Some e -> number e <> number (recorded_event ingest scope db now m oid guid)) as Hfresh.
    { intros id e He. destruct (E id e He) as [_ Hn]. unfold number, recorded_event, accepted_event. cbn. intros [= Em En].
      rewrite Em in Hn. unfold next_number in En. lia. }
    destruct (decide (i = eid)) as [->|Hi], (decide (j = eid)) as [->|Hj]; rewrite ?lookup_insert_eq, ?lookup_insert_ne by done; [done|..].
    + intros [= <-] Hy Heq. by apply Hfresh in Hy.
    + intros Hx [= <-] Heq. by apply Hfresh in Hx.
    + apply U.
  - intros i j x y g. rewrite (recorded_events Rec). pose proof (recorded_new_guid Rec) as Hnew.
    destruct (decide (i = eid)) as [->|Hi], (decide (j = eid)) as [->|Hj]; rewrite ?lookup_insert_eq, ?lookup_insert_ne by done; [done|..].
    + intros [= <-] Hy Hg Hg'. by apply (Hnew g j y) in Hg'.
    + intros Hx [= <-] Hg Hg'. by apply (Hnew g i x) in Hg.
    + apply G.
  - intros m'. pose proof (Hmono m'). pose proof (C m'). lia.
Qed.

Lemma admitting_move db db' : Move ingest scope enforced restorable R db db' -> Admitting enforcing db -> Admitting enforcing db'.
Proof.
  intros Hm Hadm. pose proof (persists_move _ _ _ _ _ _ _ Hm) as Hper. pose proof (kept_current _ _ Hadm) as Hkept.
  destruct (admitting_policy _ _ Hadm) as (p0 & Hp0 & _). pose proof (current_policy _ _ Hp0) as Hcur. revert Hper.
  assert (forall m more, Cycle.accepted_events more = 0 -> forall m',
            Cycle.accepted_events (default Cycle.zero (<[m := Cycle.add (cycle db m) more]> (Project.cycles db) !! m'))
            = Cycle.accepted_events (cycle db m')) as Hcount.
  { intros m more Hz m'. unfold cycle at 2. destruct (decide (m = m')) as [<-|]; [rewrite lookup_insert_eq|by rewrite lookup_insert_ne].
    cbn. unfold cycle. lia. }
  destruct Hm as [| | | | |body p ? Hp Hv|? ? ? ? ? ? ? ? ? ? _ Hrec|eid e ? ? ? ? He|eid e c ? He _|oid o ? Ho Hs|eid e oid o ? He ? ? ? ? Ho Hs|
                |m eid e oid o c c' ? He Heo Ho Hs _ Hl Hc Hc'|eid e oid o ? He Heo Ho Hs _ [x Hl]|m oid size c c' ? Hl Hc Hc'|oid o d ? Ho Hd _|];
    intros Hper.
  all: try (apply (admitting_transfer _ db); [done|done|exact Hper|by apply same_events_back|done|exact Hadm]).
  - apply (admitting_transfer _ db); [| |exact Hper|by apply same_events_back|done|exact Hadm]; unfold locked; fields; [by rewrite Hcur|done].
  - by apply admitting_settings.
  - by eapply admitting_recorded.
  - apply (admitting_transfer _ db); [done..|exact Hper|fields; by eapply (event_back db)|done|exact Hadm].
  - apply (admitting_transfer _ db); [done..|exact Hper|fields; by eapply (event_back db)|done|exact Hadm].
  - apply (admitting_transfer _ db); [done..|exact Hper|fields; by eapply (event_back db)|done|exact Hadm].
  - apply (admitting_transfer _ db); [done..|exact Hper|fields; by eapply (event_back db)| |exact Hadm]. intros m'. by apply Hcount.
  - apply (admitting_transfer _ db); [done..|exact Hper|fields; by eapply (event_back db)|done|exact Hadm].
  - apply (admitting_transfer _ db); [done..|exact Hper|by apply same_events_back| |exact Hadm]. intros m'. by apply Hcount.
Qed.
Lemma admitting_moves db db' : rtc (Move ingest scope enforced restorable R) db db' -> Admitting enforcing db -> Admitting enforcing db'.
Proof. induction 1 as [|? ? ? H _ IH]; [done|]. intros Hadm. by eapply IH, admitting_move. Qed.
End admitting.

Lemma created_admitting enforcing now : Admitting enforcing (created now).
Proof.
  split; cbn.
  - by exists UsagePolicy.default.
  - intros k p [<- <-]%lookup_singleton_Some. split_and!; [done|done|]. cbn. lia.
  - intros eid e. by rewrite lookup_empty.
  - intros i j a b. by rewrite lookup_empty.
  - intros i j a b g. by rewrite lookup_empty.
  - intros m. unfold cycle. cbn. by rewrite lookup_empty.
Qed.
