(* ===== verification/Uploads.v ===== *)
(** Uploads: the loop that stores the body of a request while it arrives puts exactly the bytes that arrived,
    in full parts, and answers with their digest and size. *)

From S2P Require Import Prelude Text Domain CrashContext CrashRequest Identifiers Auth Store Jobs Usage Retention Ingest Quotas Accounting Movements Ledgers Admissions.

(** * Storing a body *)

#[local] Opaque MULTIPART_CHUNK_BYTES MAX_COMPRESSED_BYTES.

(** The bytes of an upload so far. *)
Definition held (u : Upload.t) : bytes := concat (Upload.parts u) ++ Upload.part u.
Definition filling (u : Upload.t) : Prop :=
  (len (Upload.part u) < MULTIPART_CHUNK_BYTES)%N /\ Forall (fun p => len p = MULTIPART_CHUNK_BYTES) (Upload.parts u).

(** A program that leaves the tables alone and whose answers are known. *)
Definition answers {A} (m : ntx A) (Q : A -> Prop) : Prop :=
  forall db0, triple (fun db => db = db0) m (fun a db => db = db0 /\ Q a) (fun _ db => db = db0).

Lemma answers_conseq {A} (m : ntx A) (Q Q' : A -> Prop) : answers m Q -> (forall a, Q a -> Q' a) -> answers m Q'.
Proof. intros H HQ db0. eapply triple_conseq; [apply (H db0)|done|intros a s [? ?]; auto|done]. Qed.
Lemma answers_bind {A B} (m : ntx A) (f : A -> ntx B) Q Q' :
  answers m Q -> (forall a, Q a -> answers (f a) Q') -> answers (m ≫= f) Q'.
Proof.
  intros Hm Hf db0. eapply triple_bind; [apply Hm|]. intros a o s [-> Ha]. by apply (Hf a Ha db0).
Qed.
Lemma answers_ret {A} (a : A) (Q : A -> Prop) : Q a -> answers (mret a) Q.
Proof. intros H db0. apply triple_ret. by intros s ->. Qed.
Lemma answers_lift {A} (r : result IngestError.t A) (Q : A -> Prop) : (forall a, r = Ok a -> Q a) -> answers (lift r) Q.
Proof. intros H db0. apply triple_lift; [intros s a -> Ha; auto|by intros s e ->]. Qed.
Lemma answers_remote : answers remote (fun _ => True).
Proof. intros db0. apply triple_remote. by intros b s ->. Qed.
Lemma answers_call e : answers (call e) (fun _ => True).
Proof. eapply answers_bind; [apply answers_remote|]. intros b _. by apply answers_lift. Qed.
Lemma answers_abort {A} e (Q : A -> Prop) : answers (abort e) Q.
Proof. eapply answers_bind; [apply answers_remote|]. intros b _. by apply answers_lift. Qed.
Lemma answers_put_part : answers put_part (fun _ => True).
Proof. eapply answers_bind; [apply answers_remote|]. intros [] _; [by apply answers_ret|apply answers_abort]. Qed.

Lemma chunk_bytes_pos : (0 < MULTIPART_CHUNK_BYTES)%N.
Proof. done. Qed.

(** The loop over a chunk adds its bytes and puts full parts only. *)
Lemma push_answers fuel remaining u :
  length remaining <= fuel -> filling u ->
  answers (push fuel remaining u) (fun u' =>
    filling u' /\ held u' = held u ++ remaining /\ Upload.digested u' = Upload.digested u /\ Upload.byte_size u' = Upload.byte_size u).
Proof.
  revert remaining u. induction fuel as [|fuel IH]; intros remaining u Hf [Hp Hps].
  - destruct remaining; [|cbn in Hf; lia]. apply answers_ret. by rewrite app_nil_r.
  - destruct remaining as [|x remaining]; [apply answers_ret; by rewrite app_nil_r|]. set (r := x :: remaining) in *.
    assert (0 < len r)%N as Hr by (subst r; rewrite len_cons; lia).
    change (push (S fuel) r u) with
      (let count := N.min (MULTIPART_CHUNK_BYTES - len (Upload.part u)) (len r) in
       let part := Upload.part u ++ take (N.to_nat count) r in
       let remaining := drop (N.to_nat count) r in
       if (len part =? MULTIPART_CHUNK_BYTES)%N then
         _ ← put_part;
         push fuel remaining (Upload.Mk (Upload.digested u) (Upload.byte_size u) [] (Upload.parts u ++ [part]))
       else push fuel remaining (Upload.Mk (Upload.digested u) (Upload.byte_size u) part (Upload.parts u))).
    cbv zeta. set (count := N.min _ _) in *. assert (0 < count <= len r)%N as Hcount by lia.
    assert (length (drop (N.to_nat count) r) <= fuel) as Hfuel. { rewrite length_drop. unfold len in *. lia. }
    assert (len (Upload.part u ++ take (N.to_nat count) r) = len (Upload.part u) + count)%N as Hlen.
    { rewrite len_app. unfold len at 2. rewrite length_take. unfold len in Hcount. lia. }
    destruct (N.eqb_spec (len (Upload.part u ++ take (N.to_nat count) r)) MULTIPART_CHUNK_BYTES) as [Hfull|Hnot].
    + eapply answers_bind; [apply answers_put_part|intros _ _].
      pose proof (IH (drop (N.to_nat count) r) (Upload.Mk (Upload.digested u) (Upload.byte_size u) [] (Upload.parts u ++ [Upload.part u ++ take (N.to_nat count) r]))) as H.
      eapply answers_conseq; [apply H; [done|]|].
      * split; cbn [Upload.part Upload.parts]; [rewrite len_nil; apply chunk_bytes_pos|]. apply Forall_app. by rewrite Forall_singleton.
      * intros u' (Hfill & Hheld & Hd & Hb). split_and!; [done| |done|done]. rewrite Hheld. unfold held. cbn [Upload.part Upload.parts].
        rewrite concat_app. cbn [concat]. rewrite !app_nil_r, <- !app_assoc. by rewrite take_drop.
    + pose proof (IH (drop (N.to_nat count) r) (Upload.Mk (Upload.digested u) (Upload.byte_size u) (Upload.part u ++ take (N.to_nat count) r) (Upload.parts u))) as H.
      eapply answers_conseq; [apply H; [done|]|].
      * split; cbn [Upload.part Upload.parts]; [lia|done].
      * intros u' (Hfill & Hheld & Hd & Hb). split_and!; [done| |done|done]. rewrite Hheld. unfold held. cbn [Upload.part Upload.parts].
        rewrite <- !app_assoc. by rewrite take_drop.
Qed.

Lemma receive_answers body u :
  filling u -> Upload.byte_size u = len (Upload.digested u) -> held u = Upload.digested u -> (Upload.byte_size u <= MAX_COMPRESSED_BYTES)%N ->
  answers (receive body u) (fun u' =>
    filling u' /\ Upload.byte_size u' = len (Upload.digested u') /\ held u' = Upload.digested u'
    /\ (Upload.byte_size u' <= MAX_COMPRESSED_BYTES)%N /\ Upload.digested u' = Upload.digested u ++ body_bytes body).
Proof.
  revert u. induction body as [|[c| |] body IH]; intros u Hfill Hsize Hheld Hmax; cbn [receive];
    [apply answers_ret; unfold body_bytes; cbn; by rewrite app_nil_r| |apply answers_abort|apply answers_abort].
  destruct (checked_add (Upload.byte_size u) (len c)) as [n|] eqn:E; [|apply answers_abort].
  apply checked_add_Some in E as [-> _]. destruct (N.ltb_spec MAX_COMPRESSED_BYTES (Upload.byte_size u + len c)); [apply answers_abort|].
  eapply answers_bind; [apply answers_remote|intros [] _; cbn [negb]; [|apply answers_abort]].
  eapply answers_bind; [apply push_answers; [done|]|].
  - destruct Hfill as [H1 H2]. by split.
  - intros u' (Hf & Hh & Hd & Hb). cbn [Upload.digested Upload.byte_size] in *.
    assert (held u' = Upload.digested u') as Hh'. { rewrite Hh, Hd. unfold held in *. cbn [Upload.part Upload.parts]. by rewrite Hheld. }
    pose proof (IH u' Hf) as Hrec. rewrite Hb, Hd, len_app, <- Hsize in Hrec. rewrite Hd in Hh'. specialize (Hrec eq_refl Hh' ltac:(lia)).
    eapply answers_conseq; [apply Hrec|].
    intros u2 (H1 & H2 & H3 & H4 & H5). split_and!; try done. rewrite H5. unfold body_bytes. cbn. by rewrite app_assoc.
Qed.

(** What [store_request] has done: the body is in the store as a whole, with its digest and its size; when it
    fails there may be anything under the key. *)
Lemma store_request_cases {S : Sha256} key body db0 :
  triple (fun db => db = db0) (store_request key body)
    (fun st db => db = Project.set_bucket <[key := body_bytes body]> db0
                  /\ st = StoredRequest.Mk (sha256 (body_bytes body)) (len (body_bytes body))
                  /\ (0 < len (body_bytes body) <= MAX_COMPRESSED_BYTES)%N)
    (fun _ db => db = db0 \/ exists bs, db = Project.set_bucket <[key := bs]> db0).
Proof.
  unfold store_request.
  assert (forall A B (m : ntx A) (f : A -> ntx B) Q Q' R, answers m Q -> (forall a, Q a -> triple (fun db => db = db0) (f a) Q' R) ->
            R = (fun _ db => db = db0 \/ exists bs, db = Project.set_bucket <[key := bs]> db0) ->
            triple (fun db => db = db0) (m ≫= f) Q' R) as step.
  { intros A B m f Q Q' R Hm Hf ->. eapply triple_bind with (I := fun a db => db = db0 /\ Q a).
    - eapply triple_conseq; [apply (Hm db0)|done|done|by left].
    - intros a o s [-> Ha]. by apply Hf. }
  assert (forall A (m : ntx A) Q', answers m (fun _ => False) ->
            triple (fun db => db = db0) m Q' (fun _ db => db = db0 \/ exists bs, db = Project.set_bucket <[key := bs]> db0)) as stop.
  { intros A m Q' Hm. eapply triple_conseq; [apply (Hm db0)|done|by intros a s [_ []]|by left]. }
  eapply step; [apply answers_call|intros _ _|done]. eapply step; [apply answers_call|intros _ _|done].
  eapply step; [apply (receive_answers body Upload.empty); [split; [done|constructor]|done|done|done]|intros u (Hf & Hs & Hh & Hm & Hd)|done].
  cbn in Hd. destruct (N.eqb_spec (Upload.byte_size u) 0); [apply stop, answers_abort|].
  eapply step; [apply answers_remote|intros [] _; cbn [negb]; [|apply stop, answers_abort]|done].
  eapply step with (Q := fun parts => concat parts = body_bytes body); [|intros parts Hparts|done].
  { unfold held in Hh. case_bool_decide as Hp.
    - apply answers_ret. by rewrite <- Hd, <- Hh, Hp, app_nil_r.
    - eapply answers_bind; [apply answers_put_part|intros _ _]. apply answers_ret. rewrite concat_app. cbn. by rewrite app_nil_r, Hh. }
  rewrite Hparts.
  eapply triple_bind with (I := fun (done : bool) db => if done then db = Project.set_bucket <[key := body_bytes body]> db0
                                else db = db0 \/ exists bs, db = Project.set_bucket <[key := bs]> db0).
  - intros o db ->. unfold complete_upload. destruct (next_outcome o) as [[] o1]; [|done].
    destruct (next_outcome o1) as [[] o2]; [right; eauto|by left].
  - intros []; cbn [negb].
    + apply triple_ret. intros s ->. rewrite <- Hd. split_and!; [done| |lia|lia]. by rewrite <- Hs.
    + eapply triple_conseq with (P' := fun db => db = db0 \/ exists bs, db = Project.set_bucket <[key := bs]> db0)
        (Q' := fun _ _ => False) (R' := fun _ db => db = db0 \/ exists bs, db = Project.set_bucket <[key := bs]> db0); [|done|by intros|done].
      eapply triple_bind; [by apply triple_remote with (Q := fun _ db => db = db0 \/ exists bs, db = Project.set_bucket <[key := bs]> db0)|].
      intros b. apply triple_lift; [done|by intros].
Qed.
