(* ===== verification/Worlds.v ===== *)
(** Worlds: the tables of a project and its object store while requests are under way, as everything the
    server runs on them goes on in any order and fails anywhere.  What is true of every upload and of every
    object of the store, at every moment. *)

From S2P Require Import Prelude Text Domain CrashContext CrashRequest Identifiers Auth Store Jobs Usage Retention Ingest Quotas Accounting Movements Ledgers Admissions Uploads.

#[local] Open Scope Z_scope.

(** * Tasks *)

(** Runs of the programs of the server that do not record a crash, with the setting of the worker that runs
    them.  Other
    components change the issues, the symbol files and the queue, and put crashes into issues. *)
Section tasks.
Context {H : Sha256} (enforced : bool).

Definition runs_to {E A} (m : tx Project.t E A) (db db' : Project.t) : Prop := exists o r o', m o db = (r, db', o').

Inductive Task (db db' : Project.t) : Prop :=
| TRetention v2 now job_id org proj eid :
    runs_to (transaction UsageError.Unavailable (schedule_raw_retention_with_enforcement v2 now job_id org proj eid enforced)) db db' -> Task db db'
| TExpireLegacy now job_ids org proj : runs_to (schedule_expired_raw_legacy now job_ids org proj) db db' -> Task db db'
| TExpire passes org proj : runs_to (drain_expired_raw_v2 passes org proj) db db' -> Task db db'
| TDelete now m worker job : runs_to (delete_raw now m worker enforced job) db db' -> Task db db'
| TReconcile now org proj : runs_to (reconcile_storage now org proj) db db' -> Task db db'
| TSettings edits m v2 en answer payload : runs_to (update_usage edits m v2 en answer payload) db db' -> Task db db'
| TSymbol m oid size : runs_to (transaction UsageError.Unavailable (record_symbol_stored m oid size)) db db' -> Task db db'
| TIssues f : db' = Project.set_issues f db -> Task db db'
| TCatalog f g h : db' = Project.set_manifest f (Project.set_images g (Project.set_symbols h db)) -> Task db db'
| TQueue f q : db' = Project.set_job_keys f (Project.set_queue q db) -> Task db db'
| TGroup eid e i r v : Project.events db !! eid = Some e -> db' = Project.set_events <[eid := CrashEvent.set_grouping i r v e]> db -> Task db db'.
End tasks.

(** * Worlds *)

(** How far a request is with its upload: it is registered, stored with these bytes, or over but for its
    cleaning up. *)
Inductive Phase : Type := Registered | Held (bs : bytes) | Over.
Module World.
Record t : Type := Mk { project : Project.t; requests : gmap text (Z * Phase); clock : Z }.
End World.

(** No upload has the key. *)
Definition keyless (k : text) (db : Project.t) : Prop := forall oid o, Project.objects db !! oid = Some o -> RawObject.object_key o <> k.

(** What a request is after [persist_event]. *)
Definition after_recording (r : result IngestError.t AcceptedCrash.t) (k : text) (t : Z) (reqs : gmap text (Z * Phase)) : gmap text (Z * Phase) :=
  match r with
  | Ok a => if AcceptedCrash.deduplicated a then <[k := (t, Over)]> reqs else delete k reqs
  | Err IngestError.CommitUncertain => delete k reqs
  | Err _ => <[k := (t, Over)]> reqs
  end.

Section steps.
Context {N : Network} {H : Sha256} {F : HmacSha256} (ingest : CrashIngest.t N) (scope : KeyScope.t N) (settings : bool -> Prop).

(** [settings] are the settings of the workers: each runs with one of them, and they may differ between workers
    and from one deployment to the next.  Requests store and record an upload within an hour of registering it, under a key of its own.  A request
    may go no further at any time. *)
Inductive Step (w : World.t) : World.t -> Prop :=
| SLimit source_ip now o r db' o' :
    World.clock w <= now -> apply_rate_limits ingest scope source_ip now o (World.project w) = (r, db', o') ->
    Step w (World.Mk db' (World.requests w) now)
| SRegister k now o r db' o' :
    World.clock w <= now -> World.requests w !! k = None -> keyless k (World.project w) ->
    register_pending_object now k o (World.project w) = (r, db', o') ->
    Step w (World.Mk db' (match r with Ok _ => <[k := (now, Registered)]> (World.requests w) | Err _ => World.requests w end) now)
| SStore k t body now o r db' o' :
    World.clock w <= now -> World.requests w !! k = Some (t, Registered) -> now <= t + minutes 60 ->
    store_request k body o (World.project w) = (r, db', o') ->
    Step w (World.Mk db' (<[k := (t, match r with Ok _ => Held (body_bytes body) | Err _ => Registered end)]> (World.requests w)) now)
| SRecord k t bs now m eid oid guid random o r db' o' :
    World.clock w <= now -> World.requests w !! k = Some (t, Held bs) -> now <= t + minutes 60 ->
    persist_event ingest scope now m eid oid k (StoredRequest.Mk (sha256 bs) (len bs)) guid random o (World.project w) = (r, db', o') ->
    Step w (World.Mk db' (after_recording r k t (World.requests w)) now)
| SClean k t phase now o r db' o' :
    World.clock w <= now -> World.requests w !! k = Some (t, phase) ->
    cleanup_object now k o (World.project w) = (r, db', o') ->
    Step w (World.Mk db' (delete k (World.requests w)) now)
| SVanish k : Step w (World.Mk (World.project w) (delete k (World.requests w)) (World.clock w))
| SReconcile now o r db' o' :
    World.clock w <= now -> reconcile_orphans now o (World.project w) = (r, db', o') ->
    Step w (World.Mk db' (World.requests w) now)
| STask now enforced db' :
    World.clock w <= now -> settings enforced -> Task enforced (World.project w) db' -> Step w (World.Mk db' (World.requests w) now).

Definition Reachable (w : World.t) : Prop := exists now, rtc Step (World.Mk (created now) ∅ now) w.

(** A history, with the uploads that were restored on the way: they were in deletion before a step and are
    stored after it. *)
Inductive History (w : World.t) : gset text -> World.t -> Prop :=
| history_start : History w ∅ w
| history_step restored w1 w2 :
    History w restored w1 -> Step w1 w2 -> History w (restored ∪ revived (World.project w1) (World.project w2)) w2.
Definition Traced (restored : gset text) (w : World.t) : Prop := exists now, History (World.Mk (created now) ∅ now) restored w.

Lemma history_of w w' : rtc Step w w' -> exists restored, History w restored w'.
Proof.
  intros Hs. cut (forall w0 restored, History w0 restored w -> exists restored', History w0 restored' w').
  { intros Hall. apply (Hall w ∅), history_start. }
  induction Hs as [|a b c Hab _ IH]; intros w0 restored Hw; [eauto|]. eapply IH. by eapply history_step.
Qed.
Lemma history_steps w restored w' : History w restored w' -> rtc Step w w'.
Proof. induction 1; [done|]. by eapply rtc_r. Qed.
Lemma reachable_traced w : Reachable w -> exists restored, Traced restored w.
Proof. intros [now [restored Hw]%history_of]. by exists restored, now. Qed.
Lemma traced_reachable restored w : Traced restored w -> Reachable w.
Proof. intros [now Hw%history_steps]. by exists now. Qed.

(** ** Tasks are movements *)

Abbreviation Moves enforced restorable := (rtc (Move ingest scope enforced restorable (fun _ _ => False))).

Lemma task_moves enforced db db' : Task enforced db db' -> Moves enforced (fun oid => oid ∈ revived db db') db db'.
Proof.
  destruct 1 as [? ? ? ? ? ? (o & r & o' & Hm)|? ? ? ? (o & r & o' & Hm)|? ? ? (o & r & o' & Hm)|? ? ? ? (o & r & o' & Hm)|? ? ? (o & r & o' & Hm)
                |? ? ? ? ? ? (o & r & o' & Hm)|? ? ? (o & r & o' & Hm)|? ->|? ? ? ->|? ? ->|? ? ? ? ? He ->].
  - eapply moving_run; [apply moving_inner, schedule_moving|exact Hm].
  - eapply moving_run; [apply schedule_expired_raw_legacy_moving|exact Hm].
  - eapply moving_run; [apply drain_expired_raw_v2_moving|exact Hm].
  - by eapply delete_raw_moves.
  - eapply moving_run; [apply reconcile_storage_moving|exact Hm].
  - eapply moving_run; [apply update_usage_moving|exact Hm].
  - eapply moving_run; [apply moving_transaction|exact Hm]. intros d a d'. apply record_symbol_stored_moves.
  - apply rtc_once, MIssues.
  - apply rtc_once, MCatalog.
  - apply rtc_once, MQueue.
  - by apply rtc_once, MRegroup.
Qed.

(** ** Uploads and the store *)

(** The bytes of an upload: the ones that arrived. *)
Definition contents (o : RawObject.t) (bs : bytes) : Prop :=
  sha256 bs = RawObject.checksum o /\ Z.of_N (len bs) = RawObject.byte_size o /\ (len bs <= MAX_COMPRESSED_BYTES)%N.
Definition upload_ok (restored : Prop) (db : Project.t) (o : RawObject.t) : Prop :=
  match RawObject.lifecycle_state o with
  | Stored => (exists bs, Project.bucket db !! RawObject.object_key o = Some bs /\ contents o bs)
      \/ restored /\ Project.bucket db !! RawObject.object_key o = None
  | Deleting => forall bs, Project.bucket db !! RawObject.object_key o = Some bs -> contents o bs
  | Discarded => Project.bucket db !! RawObject.object_key o = None
  | Orphaned => False
  end.
(** Only sampling puts a crash in the class of deletion. *)
Definition classes_ok (db : Project.t) : Prop :=
  forall eid e, Project.events db !! eid = Some e -> CrashEvent.class e = RetentionClass.Deleting -> settings true.
Record Stocked (restored : gset text) (db : Project.t) : Prop := {
  stocked_upload oid o : Project.objects db !! oid = Some o -> upload_ok (oid ∈ restored) db o;
  stocked_keys oid oid' o o' : Project.objects db !! oid = Some o -> Project.objects db !! oid' = Some o' ->
    RawObject.object_key o = RawObject.object_key o' -> oid = oid';
  stocked_orphan k r : Project.orphans db !! k = Some r -> keyless k db;
  stocked_bucket k bs : Project.bucket db !! k = Some bs -> is_Some (Project.orphans db !! k) \/ ~ keyless k db;
  stocked_classes : classes_ok db }.

(** What no movement touches: left-over uploads and the keys of no upload. *)
Definition apart (db db' : Project.t) : Prop :=
  Project.orphans db' = Project.orphans db
  /\ forall k, keyless k db -> keyless k db' /\ Project.bucket db' !! k = Project.bucket db !! k.

#[local] Instance apart_preorder : PreOrder apart.
Proof.
  split; [by split|]. intros a b c [E1 H1] [E2 H2]. split; [congruence|]. intros k Hk. destruct (H1 k Hk) as [Hk' Hb].
  destruct (H2 k Hk') as [Hk2 Hb2]. split; [done|congruence].
Qed.

Lemma keyless_insert k oid o db f :
  f = <[oid := o]> -> keyless k (Project.set_objects f db) -> RawObject.object_key o <> k.
Proof. intros -> Hk. apply (Hk oid). fields. apply lookup_insert_eq. Qed.

(** The uploads with one of them changed but for its key, and the store. *)
Lemma stocked_update restored db db' oid o o' :
  Stocked restored db -> Project.objects db !! oid = Some o -> RawObject.object_key o' = RawObject.object_key o ->
  Project.objects db' = <[oid := o']> (Project.objects db) -> Project.orphans db' = Project.orphans db ->
  Project.bucket db' = Project.bucket db -> upload_ok (oid ∈ restored) db' o' ->
  classes_ok db' ->
  Stocked restored db' /\ apart db db'.
Proof.
  intros [U K O B C] Ho Hkey Eo Eorph Eb Hok Hcl.
  assert (forall k, keyless k db <-> keyless k db') as Hk.
  { intros k. unfold keyless. rewrite Eo. split; intros Hk id x Hx.
    - destruct (decide (id = oid)) as [->|]; [rewrite lookup_insert_eq in Hx; injection Hx as <-; rewrite Hkey; by eapply Hk|].
      rewrite lookup_insert_ne in Hx by done. by eapply Hk.
    - destruct (decide (id = oid)) as [->|]; [|apply (Hk id); by rewrite lookup_insert_ne].
      assert (x = o) as -> by congruence. rewrite <- Hkey. apply (Hk oid). apply lookup_insert_eq. }
  assert (forall id x, Project.objects db' !! id = Some x -> exists y, Project.objects db !! id = Some y /\ RawObject.object_key x = RawObject.object_key y) as Hback.
  { intros id x. rewrite Eo. destruct (decide (id = oid)) as [->|]; [rewrite lookup_insert_eq; intros [= <-]; by exists o|].
    rewrite lookup_insert_ne by done. intros Hx. by exists x. }
  split; [split|].
  - intros id x. rewrite Eo. destruct (decide (id = oid)) as [->|]; [by rewrite lookup_insert_eq; intros [= <-]|].
    rewrite lookup_insert_ne by done. intros Hx. specialize (U id x Hx). unfold upload_ok in *. by rewrite Eb.
  - intros i j x y (x' & Hx & Ex)%Hback (y' & Hy & Ey)%Hback. rewrite Ex, Ey. by apply K.
  - intros k r. rewrite Eorph, <- Hk. apply O.
  - intros k bs. rewrite Eorph, Eb, <- Hk. apply B.
  - done.
  - split; [done|]. intros k Hk'. split; [by apply Hk|by rewrite Eb].
Qed.

(** The same uploads and the same store. *)
Lemma stocked_same restored db db' :
  Stocked restored db -> Project.objects db' = Project.objects db -> Project.orphans db' = Project.orphans db ->
  Project.bucket db' = Project.bucket db ->
  classes_ok db' ->
  Stocked restored db' /\ apart db db'.
Proof.
  intros [U K O B C] Eo Eorph Eb Hcl. split; [split|split; [done|]]; unfold upload_ok, keyless in *; rewrite ?Eo, ?Eorph, ?Eb; try done.
Qed.

Lemma class_inserted db eid e :
  classes_ok db -> (CrashEvent.class e = RetentionClass.Deleting -> settings true) ->
  classes_ok (Project.set_events <[eid := e]> db).
Proof.
  intros C Hc id x. fields. destruct (decide (id = eid)) as [->|]; [rewrite lookup_insert_eq; by intros [= <-]|].
  rewrite lookup_insert_ne by done. apply C.
Qed.

Lemma discarded_class_not e : discarded_class e <> RetentionClass.Deleting.
Proof. unfold discarded_class. by case_decide. Qed.

Lemma classes_move enforced restorable db db' :
  settings enforced -> Move ingest scope enforced restorable (fun _ _ => False) db db' -> classes_ok db -> classes_ok db'.
Proof.
  intros Hset Hm C. destruct Hm as [| | | | | |? ? ? ? ? ? ? ? ? ? []|eid e ? ? ? ? He|eid e c ? He Hc| | | |? eid e ? ? ? ? ? He|eid e ? ? ? He| | |]; try done.
  - apply class_inserted; [done|]. exact (C eid e He).
  - apply class_inserted; [done|]. cbn. intros Hd. by rewrite <- (Hc Hd).
  - by apply (class_inserted db eid).
  - apply (class_inserted db eid (CrashEvent.set_class (discarded_class e) e)); [done|]. cbn. by intros ?%discarded_class_not.
  - apply (class_inserted db eid (CrashEvent.set_class (discarded_class e) e)); [done|]. cbn. by intros ?%discarded_class_not.
Qed.

Lemma stocked_move restored enforced restorable db db' :
  settings enforced -> (forall oid, restorable oid -> oid ∈ restored) ->
  Move ingest scope enforced restorable (fun _ _ => False) db db' -> Stocked restored db -> Stocked restored db' /\ apart db db'.
Proof.
  intros Hset Hin Hm S. pose proof (classes_move _ _ _ _ Hset Hm (stocked_classes _ _ S)) as Hcl.
  destruct Hm as [| | | | | |? ? ? ? ? ? ? ? ? ? []|eid e ? ? ? ? He|eid e c ? He Hc|oid o ? Ho Hs|eid e oid o ? He Hc Hen Hr Heo Ho Hs|oid o ? Ho Hs
                |m eid e oid o c c' ? He Heo Ho Hs Hb Hl Hst Hst'|eid e oid o ? He Heo Ho Hs Hb [x Hl]| |oid o d ? Ho Hd _|].
  all: try (by apply stocked_same).
  - apply (stocked_update restored db _ oid o (RawObject.set_state Deleting o)); [done..| |exact Hcl]. pose proof (stocked_upload _ _ S oid o Ho) as Hu. unfold upload_ok in *. rewrite Hs in Hu.
    cbn. intros bs'. fields. intros Hb'. destruct Hu as [(bs & Hb & Hu)|[_ Hu]]; by simplify_eq.
  - pose proof (stocked_upload _ _ S oid o Ho) as Hu. unfold upload_ok in Hu. rewrite Hs in Hu.
    apply (stocked_update restored db _ oid o (RawObject.set_state Stored o)); [done..| |exact Hcl]. unfold upload_ok. cbn. fields.
    destruct (Project.bucket db !! RawObject.object_key o) as [bs|]; [left; by exists bs; split; [|apply Hu]|right; by split; [apply Hin|]].
  - pose proof (stocked_upload _ _ S oid o Ho) as Hu. split; [split|split; [done|]]; fields.
    + intros id x Hx. destruct (decide (id = oid)) as [->|Hne].
      * assert (x = o) as -> by congruence. unfold upload_ok. rewrite Hs. fields. intros bs. by rewrite lookup_delete_eq.
      * assert (RawObject.object_key o <> RawObject.object_key x) as Hk. { intros Hk. apply Hne. by apply (stocked_keys _ _ S id oid x o). }
        pose proof (stocked_upload _ _ S id x Hx) as Hux. unfold upload_ok in *. fields. by rewrite lookup_delete_ne.
    + apply (stocked_keys _ _ S).
    + apply (stocked_orphan _ _ S).
    + intros k bs [_ Hk]%lookup_delete_Some. by apply (stocked_bucket _ _ S k bs).
    + done.
    + intros k Hk. split; [done|]. apply lookup_delete_ne. by apply (Hk oid).
  - unfold deleted, discarded. eapply (stocked_update restored db _ oid o (RawObject.set_state Discarded o)); done.
  - unfold discarded. eapply (stocked_update restored db _ oid o (RawObject.set_state Discarded o)); done.
  - apply (stocked_update restored db _ oid o (RawObject.set_delete_after (Some d) o)); [done..| |exact Hcl]. apply (stocked_upload _ _ S oid o Ho).
Qed.
Lemma stocked_moves restored enforced restorable db db' :
  settings enforced -> (forall oid, restorable oid -> oid ∈ restored) ->
  Moves enforced restorable db db' -> Stocked restored db -> Stocked restored db' /\ apart db db'.
Proof.
  intros Hset Hin. induction 1 as [|a b c Hm _ IH]; [done|]. intros S. destruct (stocked_move _ _ _ _ _ Hset Hin Hm S) as [S' A]. destruct (IH S') as [S2 A2].
  split; [done|]. by etrans.
Qed.

Lemma stocked_more restored restored' db : Stocked restored db -> restored ⊆ restored' -> Stocked restored' db.
Proof.
  intros [U K O B C] Hsub. split; try done. intros oid o Ho. specialize (U oid o Ho). unfold upload_ok in *.
  destruct (RawObject.lifecycle_state o); try done. destruct U as [?|[??]]; [by left|right; auto].
Qed.

(** An upload that is in deletion is stored again only by a worker that does not enforce, for a crash that
    another put in the class of deletion. *)
Lemma move_unstored enforced restorable db db' oid :
  settings enforced -> Move ingest scope enforced restorable (fun _ _ => False) db db' -> classes_ok db ->
  is_Some (Project.objects db !! oid) -> in_state Stored oid db = false ->
  is_Some (Project.objects db' !! oid) /\ (in_state Stored oid db' = false \/ settings true /\ settings false).
Proof.
  intros Hset Hm C [x Hx] Hs. unfold in_state in *. rewrite Hx in Hs. cbn in Hs. apply bool_decide_eq_false in Hs.
  assert (forall s y, Project.objects s !! oid = Some y -> RawObject.lifecycle_state y <> Stored ->
    is_Some (Project.objects s !! oid) /\ (from_option (fun o => bool_decide (RawObject.lifecycle_state o = Stored)) false (Project.objects s !! oid) = false
                                           \/ settings true /\ settings false)) as Hput.
  { intros s y -> Hy. cbn. rewrite bool_decide_eq_false_2 by done. eauto. }
  assert (forall oid2 o, Project.objects db !! oid2 = Some o -> forall s o', Project.objects s = <[oid2 := o']> (Project.objects db) ->
    (RawObject.lifecycle_state o <> Stored -> RawObject.lifecycle_state o' <> Stored) ->
    is_Some (Project.objects s !! oid) /\ (from_option (fun o => bool_decide (RawObject.lifecycle_state o = Stored)) false (Project.objects s !! oid) = false
                                           \/ settings true /\ settings false)) as Hins.
  { intros oid2 o Ho s o' Es Hst. destruct (decide (oid2 = oid)) as [->|Hne].
    - apply (Hput s o'); [by rewrite Es, lookup_insert_eq|]. apply Hst. congruence.
    - apply (Hput s x); [by rewrite Es, lookup_insert_ne|done]. }
  destruct Hm as [| | | | | |? ? ? ? ? ? ? ? ? ? []|eid e ? ? ? ? He|eid e c ? He Hc|oid2 o ? Ho Hst|eid e oid2 o ? He Hc Hen Hr Heo Ho Hst|oid2 o ? Ho Hst
                |m eid e oid2 o c c' ? He Heo Ho Hst Hb Hl Hc Hc'|eid e oid2 o ? He Heo Ho Hst Hb [y Hl]| |oid2 o d ? Ho Hd _|];
    try (by apply (Hput _ x)).
  - by apply (Hins _ _ Ho _ (RawObject.set_state Deleting o)).
  - destruct (decide (oid2 = oid)) as [->|Hne].
    + split; [fields; rewrite lookup_insert_eq; eauto|]. right. split; [by eapply C|by rewrite <- Hen].
    + apply (Hput _ x); [fields; by rewrite lookup_insert_ne|done].
  - by apply (Hins _ _ Ho _ (RawObject.set_state Discarded o)).
  - by apply (Hins _ _ Ho _ (RawObject.set_state Discarded o)).
  - by apply (Hins _ _ Ho _ (RawObject.set_delete_after (Some d) o)).
Qed.

Lemma moves_revived enforced restorable db db' oid :
  settings enforced -> Moves enforced restorable db db' -> classes_ok db -> oid ∈ revived db db' -> settings true /\ settings false.
Proof.
  intros Hset Hm C [Hd Hs]%elem_of_revived.
  assert (is_Some (Project.objects db !! oid) /\ in_state Stored oid db = false) as [Hx Hn].
  { unfold in_state in *. destruct (Project.objects db !! oid) as [o|]; [|done]. cbn in *. apply bool_decide_eq_true in Hd. rewrite Hd. eauto. }
  clear Hd. induction Hm as [db|a b c Hm _ IH]; [congruence|].
  destruct (move_unstored _ _ _ _ _ Hset Hm C Hx Hn) as [Hx' [Hn'|]]; [|done]. apply IH; [by eapply classes_move|done..].
Qed.

(** ** Recording *)

Lemma recorded_keyless db now m eid oid k stored guid a db' k' :
  recorded ingest scope db now m eid oid k stored guid a db' -> k' <> k -> keyless k' db -> keyless k' db'.
Proof.
  intros R Hne Hk id x. rewrite (recorded_objects R). destruct (decide (id = oid)) as [->|].
  - rewrite lookup_insert_eq. intros [= <-]. cbn. congruence.
  - rewrite lookup_insert_ne by done. apply Hk.
Qed.

Lemma stocked_recorded restored db now m eid oid k bs guid a db' :
  recorded ingest scope db now m eid oid k (StoredRequest.Mk (sha256 bs) (len bs)) guid a db' ->
  Project.bucket db !! k = Some bs -> (len bs <= MAX_COMPRESSED_BYTES)%N -> Stocked restored db -> Stocked restored db'.
Proof.
  intros R Hb Hlen S. split.
  - intros id x. rewrite (recorded_objects R). unfold upload_ok. rewrite (recorded_bucket R). destruct (decide (id = oid)) as [->|].
    + rewrite lookup_insert_eq. intros [= <-]. cbn. left. by exists bs.
    + rewrite lookup_insert_ne by done. apply (stocked_upload _ _ S).
  - intros i j x y. rewrite (recorded_objects R). pose proof (recorded_new_key R) as Hnew.
    destruct (decide (i = oid)) as [->|Hi], (decide (j = oid)) as [->|Hj]; rewrite ?lookup_insert_eq, ?lookup_insert_ne by done; [done|..].
    + intros [= <-] Hy Hk. by apply Hnew in Hy.
    + intros Hx [= <-] Hk. by apply Hnew in Hx.
    + apply (stocked_keys _ _ S).
  - intros k' r. rewrite (recorded_orphans R). intros [Hne Hr]%lookup_delete_Some.
    eapply recorded_keyless; [exact R|done|by apply (stocked_orphan _ _ S k' r)].
  - intros k' bs'. rewrite (recorded_bucket R), (recorded_orphans R). intros Hb'. destruct (decide (k' = k)) as [->|Hne].
    + right. intros Hk. apply (Hk oid (recorded_object db now k (StoredRequest.Mk (sha256 bs) (len bs)))); [|done].
      rewrite (recorded_objects R). apply lookup_insert_eq.
    + destruct (stocked_bucket _ _ S k' bs' Hb') as [Ho|Ho]; [left; by rewrite lookup_delete_ne|right]. intros Hk. apply Ho. intros id x Hx.
      apply (Hk id). rewrite (recorded_objects R). rewrite lookup_insert_ne; [done|]. intros <-. by rewrite (recorded_new_object R) in Hx.
  - intros id x. rewrite (recorded_events R). destruct (decide (id = eid)) as [->|].
    + rewrite lookup_insert_eq. intros [= <-]. unfold recorded_event, accepted_event. cbn. unfold class_of. by case_decide.
    + rewrite lookup_insert_ne by done. apply (stocked_classes _ _ S).
Qed.

(** ** Cleaning up *)

(** One key is cleaned up, or its object is still listed. *)
Definition tidied (k : text) (db db' : Project.t) : Prop :=
  exists f g, db' = Project.set_orphans f (Project.set_bucket g db)
    /\ (forall k', k' <> k -> f (Project.orphans db) !! k' = Project.orphans db !! k' /\ g (Project.bucket db) !! k' = Project.bucket db !! k')
    /\ (g (Project.bucket db) !! k = None
        \/ g (Project.bucket db) !! k = Project.bucket db !! k /\ (is_Some (Project.orphans db !! k) -> is_Some (f (Project.orphans db) !! k))).

Lemma tidied_deleted k db f :
  (forall k', k' <> k -> f (Project.orphans db) !! k' = Project.orphans db !! k') ->
  tidied k db (Project.set_orphans f (Project.set_bucket (delete k) db)).
Proof.
  intros Hf. exists f, (delete k). split; [done|]. split.
  - intros k' Hk. split; [auto|]. by rewrite lookup_delete_ne.
  - left. by apply lookup_delete_eq.
Qed.
Lemma tidied_listed k db f :
  (forall k', k' <> k -> f (Project.orphans db) !! k' = Project.orphans db !! k') ->
  (is_Some (Project.orphans db !! k) -> is_Some (f (Project.orphans db) !! k)) ->
  tidied k db (Project.set_orphans f db).
Proof. intros Hf Hs. exists f, (fun b => b). split; [by destruct db|]. split; [auto|by right]. Qed.
Lemma tidied_refl k db : tidied k db db.
Proof. pose proof (tidied_listed k db (fun o => o)) as Ht. destruct db. by apply Ht. Qed.
Lemma tidied_gone k db : tidied k db (Project.set_bucket (delete k) db).
Proof. pose proof (tidied_deleted k db (fun o => o)) as Ht. destruct db. by apply Ht. Qed.

Lemma delete_object_cases k o db r db' o' :
  delete_object k o db = (r, db', o') ->
  (r = Ok true /\ db' = Project.set_bucket (delete k) db)
  \/ (r = Ok false /\ (db' = db \/ db' = Project.set_bucket (delete k) db)).
Proof.
  unfold delete_object, map_error, delete_object_checked. destruct (next_outcome o) as [[] o1].
  - destruct (next_outcome o1) as [[] o2]; intros [= <- <- _]; auto.
  - intros [= <- <- _]. auto.
Qed.
Lemma ignoring_execute_cases {E} (e : E) f o (db : Project.t) r db' o' : ignoring (execute e f) o db = (r, db', o') -> db' = db \/ db' = f db.
Proof. unfold ignoring, execute, statement. destruct (next_outcome o) as [[] o1]; intros [= _ <- _]; auto. Qed.

Lemma cleanup_tidied now k o db r db' o' : cleanup_object now k o db = (r, db', o') -> tidied k db db'.
Proof.
  unfold cleanup_object. intros Hm. unfold mbind, tx_bind in Hm. destruct (delete_object k o db) as [[r1 db1] o1] eqn:Ed.
  apply delete_object_cases in Ed as [[-> ->]|[-> Hdb]].
  - unfold clear_orphan in Hm. apply ignoring_execute_cases in Hm as [->| ->]; [apply tidied_gone|].
    apply tidied_deleted. intros k' Hk. by rewrite lookup_delete_ne.
  - assert (forall k', k' <> k -> <[k := failed_once now (Project.orphans db1 !! k)]> (Project.orphans db) !! k' = Project.orphans db !! k') as Hf.
    { intros k' Hk. by rewrite lookup_insert_ne. }
    apply ignoring_execute_cases in Hm as [->| ->]; destruct Hdb as [->| ->].
    + apply tidied_refl.
    + apply tidied_gone.
    + apply tidied_listed; [done|]. intros _. rewrite lookup_insert_eq. eauto.
    + by apply tidied_deleted.
Qed.

Lemma remove_orphan_tidied now row o db r db' o' : remove_orphan now row o db = (r, db', o') -> tidied row.1 db db'.
Proof.
  unfold remove_orphan. intros Hm. unfold mbind, tx_bind in Hm. destruct (delete_object row.1 o db) as [[r1 db1] o1] eqn:Ed.
  apply delete_object_cases in Ed as [[-> ->]|[-> Hdb]].
  - apply ignoring_execute_cases in Hm as [->| ->]; [apply tidied_gone|]. apply tidied_deleted. intros k' Hk. by rewrite lookup_delete_ne.
  - apply ignoring_execute_cases in Hm as [->| ->]; destruct Hdb as [->| ->].
    + apply tidied_refl.
    + apply tidied_gone.
    + apply tidied_listed; [intros k' Hk; by rewrite lookup_alter_ne|]. intros [x Hx]. rewrite lookup_alter_eq, Hx. eauto.
    + apply tidied_deleted. intros k' Hk. by rewrite lookup_alter_ne.
Qed.

Lemma tidied_rows k db db' : tidied k db db' -> Project.objects db' = Project.objects db /\ Project.events db' = Project.events db.
Proof. by intros (f & g & -> & _). Qed.

(** Sequences of it, over the keys of a list. *)
Inductive Tidied : list text -> Project.t -> Project.t -> Prop :=
| tidied_nil db : Tidied [] db db
| tidied_cons k ks db db1 db2 : tidied k db db1 -> Tidied ks db1 db2 -> Tidied (k :: ks) db db2
| tidied_stop k ks db : Tidied (k :: ks) db db.

Lemma reconcile_tidied now o db r db' o' :
  reconcile_orphans now o db = (r, db', o') -> db' = db \/ Tidied (abandoned_objects now db).*1 db db'.
Proof.
  unfold reconcile_orphans, ignoring, mbind, tx_bind, select, statement. destruct (next_outcome o) as [[] o1]; [intros [= _ <- _]; by left|].
  intros Hm. right. set (l := abandoned_objects now db) in *. clearbody l.
  destruct (each (remove_orphan now) l o1 db) as [[r1 db1] o2] eqn:Ee. injection Hm as _ <- _. revert o1 db Ee.
  induction l as [|x l IH]; intros o1 db Ee; cbn in Ee; [injection Ee as _ <- _; constructor|].
  unfold mbind, tx_bind in Ee. destruct (remove_orphan now x o1 db) as [[[u|e] db2] o3] eqn:Er.
  - apply remove_orphan_tidied in Er. econstructor; [exact Er|]. by eapply IH.
  - injection Ee as _ <- _. apply remove_orphan_tidied in Er. destruct l as [|y l]; [|econstructor; [exact Er|constructor]].
    econstructor; [exact Er|constructor].
Qed.

(** ** The store, while its keys are tidied *)

Lemma stocked_tidied restored k db db' : tidied k db db' -> keyless k db -> Stocked restored db -> Stocked restored db'.
Proof.
  intros (f & g & -> & Hother & Hk) Hkl S. split; fields.
  - intros id x Hx. pose proof (stocked_upload _ _ S id x Hx) as Hu. unfold upload_ok in *. fields.
    by rewrite (proj2 (Hother (RawObject.object_key x) (Hkl id x Hx))).
  - apply (stocked_keys _ _ S).
  - intros k' r Hr. destruct (decide (k' = k)) as [->|Hne]; [done|]. rewrite (proj1 (Hother k' Hne)) in Hr. by apply (stocked_orphan _ _ S k' r).
  - intros k' bs Hb. destruct (decide (k' = k)) as [->|Hne].
    + left. destruct Hk as [Hk|[Hk Ho]]; [congruence|]. apply Ho. rewrite Hk in Hb.
      by destruct (stocked_bucket _ _ S k bs Hb) as [|[]].
    + rewrite (proj2 (Hother k' Hne)) in Hb. rewrite (proj1 (Hother k' Hne)). by apply (stocked_bucket _ _ S k' bs).
  - apply (stocked_classes _ _ S).
Qed.

(** ** Requests *)

(** A request has its key to itself.  For an hour after it was registered, its upload is listed as left over
    and is not tidied away; what it stored is there. *)
Definition fresh_orphan (t : Z) (db : Project.t) (k : text) : Prop :=
  exists r, Project.orphans db !! k = Some r /\ Orphan.attempts r = 0 /\ Orphan.created_at r = t.
Definition phase_ok (db : Project.t) (k : text) (p : Phase) : Prop :=
  match p with Held bs => Project.bucket db !! k = Some bs /\ (0 < len bs <= MAX_COMPRESSED_BYTES)%N | _ => True end.
Definition request_ok (db : Project.t) (now : Z) (k : text) (t : Z) (p : Phase) : Prop :=
  t <= now /\ keyless k db /\ (now <= t + minutes 60 -> fresh_orphan t db k /\ phase_ok db k p).
Definition requests_ok (db : Project.t) (now : Z) (reqs : gmap text (Z * Phase)) : Prop :=
  forall k t p, reqs !! k = Some (t, p) -> request_ok db now k t p.

Lemma request_later db now now' k t p : now <= now' -> request_ok db now k t p -> request_ok db now' k t p.
Proof. intros Hle (H1 & H2 & H3). split_and!; [lia|done|]. intros Hn. apply H3. lia. Qed.

(** A request for which nothing happened under its key. *)
Lemma request_same db db' now k t p :
  keyless k db' -> Project.orphans db' !! k = Project.orphans db !! k -> Project.bucket db' !! k = Project.bucket db !! k ->
  request_ok db now k t p -> request_ok db' now k t p.
Proof.
  intros Hk Ho Hb (H1 & H2 & H3). split_and!; [done..|]. intros Hn. destruct (H3 Hn) as [Hf Hp]. unfold fresh_orphan, phase_ok in *.
  rewrite Ho. split; [done|]. destruct p; [done|by rewrite Hb|done].
Qed.

Lemma requests_apart db db' now reqs : apart db db' -> requests_ok db now reqs -> requests_ok db' now reqs.
Proof.
  intros [Ho Hk] HR k t p Hp. specialize (HR k t p Hp). destruct (Hk k) as [H1 H2]; [apply HR|].
  eapply request_same; [done|by rewrite Ho|done|exact HR].
Qed.

Lemma requests_tidied db db' now reqs k :
  tidied k db db' -> requests_ok db now reqs -> (forall t p, reqs !! k = Some (t, p) -> t + minutes 60 < now) -> requests_ok db' now reqs.
Proof.
  intros Ht HR Hold k' t p Hp. pose proof (HR k' t p Hp) as Hok. pose proof (proj1 (tidied_rows _ _ _ Ht)) as Eobj.
  assert (keyless k' db') as Hk. { unfold keyless. rewrite Eobj. apply Hok. }
  destruct (decide (k' = k)) as [->|Hne].
  - destruct Hok as (H1 & _ & _). split_and!; [done..|]. intros Hn. specialize (Hold t p Hp). lia.
  - destruct Ht as (f & g & -> & Hother & _). destruct (Hother k' Hne) as [E1 E2]. by eapply (request_same db).
Qed.

(** ** Worlds *)

Abbreviation enforcing := (CrashIngest.usage_enforcement_enabled ingest).
Record Sound (restored : gset text) (w : World.t) : Prop := {
  sound_stocked : Stocked restored (World.project w);
  sound_restored oid : oid ∈ restored -> settings true /\ settings false;
  sound_accounted : Accounted (World.project w);
  sound_admitting : Admitting enforcing (World.project w);
  sound_requests : requests_ok (World.project w) (World.clock w) (World.requests w) }.

(** Rows of the tables that the books and the admissions are about. *)
Definition same_rows (db db' : Project.t) : Prop := exists f g h, db' = Project.set_limits f (Project.set_orphans g (Project.set_bucket h db)).
Lemma same_rows_accounted db db' : same_rows db db' -> Accounted db -> Accounted db'.
Proof. intros (f & g & h & ->) Ha. eapply accounted_same; [|exact Ha]. reflexivity. Qed.
Lemma same_rows_persists db db' : same_rows db db' -> persists db db'.
Proof. intros (f & g & h & ->). by apply persists_same. Qed.
Lemma same_rows_admitting db db' : same_rows db db' -> Admitting enforcing db -> Admitting enforcing db'.
Proof.
  intros Hs Ha. pose proof (same_rows_persists _ _ Hs) as Hp. destruct Hs as (f & g & h & ->).
  by apply (admitting_transfer _ db); [done|done|exact Hp|apply same_events_back|done|exact Ha].
Qed.
Lemma same_rows_refl db : same_rows db db.
Proof. exists (fun x => x), (fun x => x), (fun x => x). by destruct db. Qed.
Lemma same_rows_tidied k db db' : tidied k db db' -> same_rows db db'.
Proof. intros (f & g & -> & _). exists (fun x => x), f, g. by destruct db. Qed.

(** What [persist_event] leaves, when the request holds the bytes it records. *)
Lemma sound_record restored db reqs clk k t bs now m eid oid guid random o r db' o' :
  Sound restored (World.Mk db reqs clk) -> clk <= now -> reqs !! k = Some (t, Held bs) -> now <= t + minutes 60 ->
  persist_event ingest scope now m eid oid k (StoredRequest.Mk (sha256 bs) (len bs)) guid random o db = (r, db', o') ->
  Sound restored (World.Mk db' (after_recording r k t reqs) now).
Proof.
  intros [S Sr A Ad HR] Hle Hreq Hn Hrun. cbn [World.project World.requests World.clock] in *.
  pose proof (HR k t _ Hreq) as (Ht & Hkl & Hheld). destruct (Hheld ltac:(lia)) as [Hfresh [Hb Hlen]].
  pose proof (persist_event_cases ingest scope now m eid oid k (StoredRequest.Mk (sha256 bs) (len bs)) guid random db o db eq_refl) as Hc. rewrite Hrun in Hc.
  assert (requests_ok db now reqs) as HR'. { intros k' t' p' Hp. by eapply request_later, HR. }
  assert (requests_ok db now (<[k := (t, Over)]> reqs)) as Hover.
  { intros k' t' p' Hp. destruct (decide (k' = k)) as [->|]; [|rewrite lookup_insert_ne in Hp by done; by apply HR'].
    rewrite lookup_insert_eq in Hp. injection Hp as <- <-. by split_and!; [lia| |intros _; split]. }
  assert (requests_ok db now (delete k reqs)) as Hgone. { intros k' t' p' [_ Hp]%lookup_delete_Some. by apply HR'. }
  assert (forall a, recorded ingest scope db now m eid oid k (StoredRequest.Mk (sha256 bs) (len bs)) guid a db' ->
            Sound restored (World.Mk db' (delete k reqs) now)) as Hrec.
  { intros a R. split; cbn [World.project World.requests World.clock].
    - eapply stocked_recorded; [exact R|done|lia|done].
    - exact Sr.
    - by eapply accounted_recorded.
    - by eapply admitting_recorded.
    - intros k' t' p' Hp. pose proof (Hgone k' t' p' Hp) as Hok. apply lookup_delete_Some in Hp as [Hne Hp].
      eapply request_same; [|rewrite (recorded_orphans R); by rewrite lookup_delete_ne|by rewrite (recorded_bucket R)|exact Hok].
      eapply recorded_keyless; [exact R|done|apply Hok]. }
  destruct r as [a|e]; cbn [after_recording].
  - destruct (AcceptedCrash.deduplicated a); [subst db'; by split|]. by apply (Hrec a).
  - destruct Hc as [->|[-> [a R]]]; [|by apply (Hrec a)]. by destruct e; split.
Qed.

(** Nothing was recorded and no upload was touched, but for a key that no upload has. *)
Lemma sound_tidied restored db reqs clk now k db' :
  Sound restored (World.Mk db reqs clk) -> clk <= now -> keyless k db -> tidied k db db' ->
  (forall t p, reqs !! k = Some (t, p) -> t + minutes 60 < now) -> Sound restored (World.Mk db' reqs now).
Proof.
  intros [S Sr A Ad HR] Hle Hk Ht Hold. cbn [World.project World.requests World.clock] in *. pose proof (same_rows_tidied _ _ _ Ht) as Hs.
  split; cbn [World.project World.requests World.clock].
  - by eapply stocked_tidied.
  - exact Sr.
  - by eapply same_rows_accounted.
  - by eapply same_rows_admitting.
  - eapply requests_tidied; [exact Ht| |exact Hold]. intros k' t' p' Hp. by eapply request_later, HR.
Qed.

Lemma sound_later restored db reqs clk now : Sound restored (World.Mk db reqs clk) -> clk <= now -> Sound restored (World.Mk db reqs now).
Proof. intros [S Sr A Ad HR] Hle. split; [done..|]. intros k t p Hp. by eapply request_later, HR. Qed.

Lemma sound_fewer restored db reqs reqs' clk : Sound restored (World.Mk db reqs clk) -> reqs' ⊆ reqs -> Sound restored (World.Mk db reqs' clk).
Proof. intros [S Sr A Ad HR] Hsub. split; [done..|]. intros k t p Hp. apply HR. by eapply lookup_weaken. Qed.

(** The rows that a reconciliation cleans up are no request's of the last hour. *)
Lemma abandoned_spec now db row : row ∈ abandoned_objects now db -> Project.orphans db !! row.1 = Some row.2 /\ abandoned now row.2 = true.
Proof.
  unfold abandoned_objects. intros Hr%subseteq_take. rewrite sort_perm, list_elem_of_filter in Hr. destruct Hr as [Ha Hr].
  destruct row as [k r]. by apply elem_of_map_to_list in Hr.
Qed.

Lemma sound_reconciled restored ks db reqs now db' :
  Tidied ks db db' -> Sound restored (World.Mk db reqs now) -> Forall (fun k => keyless k db) ks ->
  Forall (fun k => forall t p, reqs !! k = Some (t, p) -> t + minutes 60 < now) ks -> Sound restored (World.Mk db' reqs now).
Proof.
  induction 1 as [db|k ks db db1 db2 Ht _ IH|k ks db]; intros S Hk Hold; [done| |done].
  apply Forall_cons in Hk as [Hk Hks]. apply Forall_cons in Hold as [Ho Hos]. apply IH; [|eapply Forall_impl; [exact Hks|]|done].
  - by eapply sound_tidied.
  - intros x Hx. unfold keyless. by rewrite (proj1 (tidied_rows _ _ _ Ht)).
Qed.

Lemma sound_reconcile restored db reqs clk now o r db' o' :
  Sound restored (World.Mk db reqs clk) -> clk <= now -> reconcile_orphans now o db = (r, db', o') -> Sound restored (World.Mk db' reqs now).
Proof.
  intros HS Hle Hrun. pose proof (sound_later _ _ _ _ _ HS Hle) as HS'. apply reconcile_tidied in Hrun as [->|Ht]; [done|].
  eapply sound_reconciled; [exact Ht|exact HS'|apply Forall_fmap, Forall_forall|apply Forall_fmap, Forall_forall]; intros row Hrow;
    apply abandoned_spec in Hrow as [Horph Ha]; cbn.
  - by eapply (stocked_orphan _ _ (sound_stocked _ _ HS')).
  - intros t p Hp. apply Z.nle_gt. intros Hn. pose proof (sound_requests _ _ HS' _ _ _ Hp) as (_ & _ & Hf). cbn in Hf.
    destruct (Hf Hn) as [(r' & Hr' & Hat & Hc) _]. rewrite Horph in Hr'. injection Hr' as <-. unfold abandoned in Ha.
    rewrite Hat, Hc in Ha. cbn in Ha. rewrite Z.ltb_lt in Ha. lia.
Qed.

Lemma sound_register restored db reqs clk now k o r db' o' :
  Sound restored (World.Mk db reqs clk) -> clk <= now -> reqs !! k = None -> keyless k db ->
  register_pending_object now k o db = (r, db', o') ->
  Sound restored (World.Mk db' (match r with Ok _ => <[k := (now, Registered)]> reqs | Err _ => reqs end) now).
Proof.
  intros HS Hle Hnew Hk Hrun. unfold register_pending_object, statement in Hrun.
  destruct (next_outcome o) as [[] o1]; [injection Hrun as <- <- _; by eapply sound_later|].
  destruct (is_none (Project.orphans db !! k)) eqn:E; [|injection Hrun as <- <- _; by eapply sound_later]. injection Hrun as <- <- _.
  assert (tidied k db (Project.set_orphans <[k := Orphan.Mk 0 now now]> db)) as Ht.
  { apply tidied_listed; [intros k' Hne; by rewrite lookup_insert_ne|]. rewrite lookup_insert_eq. eauto. }
  destruct (sound_tidied _ _ _ _ _ _ _ HS Hle Hk Ht) as [S Sr A Ad HR]; [by rewrite Hnew|].
  split; [done..|]. cbn [World.project World.requests World.clock] in *. intros k' t p Hp. destruct (decide (k' = k)) as [->|].
  - rewrite lookup_insert_eq in Hp. injection Hp as <- <-. split_and!; [lia|done|]. intros _. split; [|done].
    exists (Orphan.Mk 0 now now). fields. by rewrite lookup_insert_eq.
  - rewrite lookup_insert_ne in Hp by done. by apply HR.
Qed.

Lemma sound_store restored db reqs clk now k t body o r db' o' :
  Sound restored (World.Mk db reqs clk) -> clk <= now -> reqs !! k = Some (t, Registered) -> now <= t + minutes 60 ->
  store_request k body o db = (r, db', o') ->
  Sound restored (World.Mk db' (<[k := (t, match r with Ok _ => Held (body_bytes body) | Err _ => Registered end)]> reqs) now).
Proof.
  intros HS Hle Hreq Hn Hrun. pose proof (sound_requests _ _ HS _ _ _ Hreq) as (Ht & Hk & Hf). cbn [World.project World.clock] in *.
  destruct (Hf ltac:(lia)) as [Hfresh _]. destruct HS as [S Sr A Ad HR]. cbn [World.project World.requests World.clock] in *.
  assert (forall bs p, (p = Held bs /\ (0 < len bs <= MAX_COMPRESSED_BYTES)%N \/ p = Registered) -> forall db1, (db1 = db \/ db1 = Project.set_bucket <[k := bs]> db) ->
            (p <> Registered -> Project.bucket db1 !! k = Some bs) -> Sound restored (World.Mk db1 (<[k := (t, p)]> reqs) now)) as Hgoal.
  { intros bs p Hp db1 Hdb1 Hb.
    assert (same_rows db db1) as Hs.
    { destruct Hdb1 as [->| ->]; [apply same_rows_refl|]. exists (fun x => x), (fun x => x), <[k := bs]>. by destruct db. }
    split; cbn [World.project World.requests World.clock].
    - destruct Hdb1 as [->| ->]; [done|]. split; fields; [|apply (stocked_keys _ _ S)|apply (stocked_orphan _ _ S)| |apply (stocked_classes _ _ S)].
      + intros id x Hx. pose proof (stocked_upload _ _ S id x Hx) as Hu. unfold upload_ok in *. fields.
        rewrite lookup_insert_ne; [done|]. intros E. by apply (Hk id x).
      + intros k' bs' Hb'. destruct (decide (k' = k)) as [->|Hne].
        * left. destruct Hfresh as (r0 & Hr0 & _). eauto.
        * rewrite lookup_insert_ne in Hb' by done. by apply (stocked_bucket _ _ S k' bs').
    - exact Sr.
    - by eapply same_rows_accounted.
    - by eapply same_rows_admitting.
    - assert (forall k', keyless k' db -> keyless k' db1) as Hkl. { by destruct Hdb1 as [->| ->]. }
      intros k' t' p' Hp'. destruct (decide (k' = k)) as [->|Hne].
      + rewrite lookup_insert_eq in Hp'. injection Hp' as <- <-. split_and!; [lia|by apply Hkl|]. intros _. split.
        * unfold fresh_orphan in *. by destruct Hdb1 as [->| ->].
        * destruct Hp as [[-> Hl]| ->]; [|done]. split; [by apply Hb|done].
      + rewrite lookup_insert_ne in Hp' by done. pose proof (HR k' t' p' Hp') as Hok. eapply request_later; [exact Hle|].
        eapply request_same; [apply Hkl, Hok| | |exact Hok]; destruct Hdb1 as [->| ->]; try done. fields. by rewrite lookup_insert_ne. }
  pose proof (store_request_cases k body db o db eq_refl) as Hc. rewrite Hrun in Hc. destruct r as [st|e].
  - destruct Hc as (-> & _ & Hl). eapply (Hgoal (body_bytes body)); [left; by split|by right|]. intros _. fields. by rewrite lookup_insert_eq.
  - destruct Hc as [->|[bs ->]]; [by eapply (Hgoal []); [right|left|]|by eapply (Hgoal bs); [right|right|]].
Qed.

(** A cleaning up is the end of its request. *)
Lemma sound_clean restored db reqs clk now k t p o r db' o' :
  Sound restored (World.Mk db reqs clk) -> clk <= now -> reqs !! k = Some (t, p) -> cleanup_object now k o db = (r, db', o') ->
  Sound restored (World.Mk db' (delete k reqs) now).
Proof.
  intros HS Hle Hreq Hrun. apply cleanup_tidied in Hrun. pose proof (sound_requests _ _ HS _ _ _ Hreq) as (_ & Hk & _). cbn in Hk.
  eapply sound_tidied; [|exact Hle|exact Hk|exact Hrun|by rewrite lookup_delete_eq].
  eapply sound_fewer; [exact HS|]. apply delete_subseteq.
Qed.

(** Rate limits are a table of their own. *)
Lemma limits_only source_ip now o db r db' o' :
  apply_rate_limits ingest scope source_ip now o db = (r, db', o') -> exists f, db' = Project.set_limits f db.
Proof.
  intros Hrun. set (Q := fun s => exists f, s = Project.set_limits f db).
  assert (forall g s, Q s -> Q (Project.set_limits g s)) as Hset. { intros g s [f ->]. exists (fun x => g (f x)). reflexivity. }
  assert (Q db) as Hid. { exists (fun x => x). by destruct db. }
  assert (preserves Q (apply_rate_limits ingest scope source_ip now)) as Ht.
  { unfold apply_rate_limits. apply preserves_bind; [|intros a; apply preserves_lift].
    apply triple_transaction_if; [done|done|]. apply (triple_conseq _ Q _ _ (fun _ => Q) _ (fun _ => Q)); [|done|by intros|done].
    apply preserves_bind; [apply preserves_select|intros b]. cbv zeta.
    apply preserves_bind; [apply preserves_execute; intros s; apply Hset|intros _].
    assert (forall sc sub, preserves Q (increment_rate sc sub b)) as Hinc.
    { intros sc sub. apply preserves_statement. intros s a s' Hs E. cbv zeta in E. destruct (_ <=? _)%Z; [|done].
      injection E as _ <-. by apply Hset. }
    apply preserves_bind; [apply Hinc|intros pc]. apply preserves_bind; [apply Hinc|intros ic].
    destruct (_ || _); [|apply preserves_ret]. apply preserves_bind; [|intros _; apply preserves_ret].
    apply preserves_bind; [apply preserves_remote|intros x; apply preserves_lift]. }
  specialize (Ht o db Hid). rewrite Hrun in Ht. by destruct r.
Qed.

(** Steps that are no task keep every upload as it is, and restore none. *)
Definition kept_rows (db db' : Project.t) : Prop := forall oid o, Project.objects db !! oid = Some o -> Project.objects db' !! oid = Some o.
Lemma kept_same db db' : Project.objects db' = Project.objects db -> kept_rows db db'.
Proof. by intros E oid o; rewrite E. Qed.
Lemma nothing_revived restored db db' : kept_rows db db' -> restored ∪ revived db db' = restored.
Proof.
  intros Hk. assert (revived db db' ≡ ∅) as E%leibniz_equiv; [|by rewrite E, union_empty_r_L].
  apply elem_of_equiv_empty. intros oid [Hd Hs]%elem_of_revived. unfold in_state in *.
  destruct (Project.objects db !! oid) as [o|] eqn:E; [|done]. rewrite (Hk _ _ E) in Hs. cbn in *.
  apply bool_decide_eq_true in Hd. rewrite Hd in Hs. done.
Qed.
Lemma kept_recorded db now m eid oid k stored guid a db' : recorded ingest scope db now m eid oid k stored guid a db' -> kept_rows db db'.
Proof.
  intros R id x Hx. rewrite (recorded_objects R), lookup_insert_ne; [done|]. intros <-. by rewrite (recorded_new_object R) in Hx.
Qed.
Lemma kept_Tidied ks db db' : Tidied ks db db' -> kept_rows db db'.
Proof.
  induction 1 as [|k ks db db1 db2 Ht _ IH|]; [by apply kept_same| |by apply kept_same]. intros oid o Ho. apply IH. by rewrite (proj1 (tidied_rows _ _ _ Ht)).
Qed.
Lemma step_kept w w' :
  Step w w' ->
  (exists enforced, settings enforced /\ Task enforced (World.project w) (World.project w') /\ World.requests w' = World.requests w /\ World.clock w <= World.clock w')
  \/ kept_rows (World.project w) (World.project w').
Proof.
  destruct 1 as [? ? ? ? ? ? _ Hrun|? ? ? ? ? ? _ _ _ Hrun|? ? ? ? ? r ? ? _ _ _ Hrun|k ? bs ? ? ? ? guid ? ? r ? ? _ _ _ Hrun|? ? ? ? ? ? ? ? _ _ Hrun| |? ? ? ? ? _ Hrun|? enforced ? Hle Hset Ht];
    cbn [World.project World.requests World.clock]; [right..|left; by exists enforced].
  - apply limits_only in Hrun as [f ->]. by apply kept_same.
  - unfold register_pending_object, statement in Hrun. destruct (next_outcome _) as [[] o1]; [injection Hrun as _ <- _; by apply kept_same|].
    destruct (is_none _); injection Hrun as _ <- _; by apply kept_same.
  - match type of Hrun with store_request ?k ?b ?o ?db = _ => pose proof (store_request_cases k b db o db eq_refl) as Hc end.
    rewrite Hrun in Hc. destruct r; [destruct Hc as (-> & _)|destruct Hc as [->|[bs ->]]]; by apply kept_same.
  - match type of Hrun with persist_event _ _ ?now ?m ?eid ?oid ?k ?st ?guid ?random ?o ?db = _ =>
      pose proof (persist_event_cases ingest scope now m eid oid k st guid random db o db eq_refl) as Hc end.
    rewrite Hrun in Hc. destruct r as [a|e].
    + destruct (AcceptedCrash.deduplicated a); [subst; by apply kept_same|]. by eapply kept_recorded.
    + destruct Hc as [->|[_ [a R]]]; [by apply kept_same|]. by eapply kept_recorded.
  - apply cleanup_tidied, tidied_rows in Hrun as [E _]. by apply kept_same.
  - by apply kept_same.
  - apply reconcile_tidied in Hrun as [->|Ht]; [by apply kept_same|]. by eapply kept_Tidied.
Qed.

Lemma sound_task restored enforced db reqs clk now db' :
  Sound restored (World.Mk db reqs clk) -> clk <= now -> settings enforced -> Task enforced db db' ->
  Sound (restored ∪ revived db db') (World.Mk db' reqs now).
Proof.
  intros HS Hle Hset Hm%task_moves. destruct (sound_later _ _ _ _ _ HS Hle) as [S Sr A Ad HR]. cbn [World.project World.requests World.clock] in *.
  apply (stocked_more _ (restored ∪ revived db db')) in S as S1; [|set_solver].
  assert (forall oid, oid ∈ revived db db' -> oid ∈ restored ∪ revived db db') as Hin by set_solver.
  destruct (stocked_moves _ _ _ _ _ Hset Hin Hm S1) as [S' Hap].
  split; cbn [World.project World.requests World.clock].
  - done.
  - intros oid [?|Hr]%elem_of_union; [by apply (Sr oid)|]. eapply moves_revived; [exact Hset|exact Hm|apply (stocked_classes _ _ S)|exact Hr].
  - by eapply accounted_moves.
  - by eapply admitting_moves.
  - by eapply requests_apart.
Qed.

Lemma sound_step restored w w' : Step w w' -> Sound restored w -> Sound (restored ∪ revived (World.project w) (World.project w')) w'.
Proof.
  intros Hs HS. destruct (step_kept _ _ Hs) as [(enforced & Hset & Ht & Er & Hle)|Hk].
  { destruct w as [db reqs clk], w' as [db' reqs' now]. cbn in *. subst reqs'. by eapply sound_task. }
  destruct w as [db reqs clk]. inversion Hs; subst; cbn [World.project World.requests World.clock] in *; try rewrite (nothing_revived _ _ _ Hk).
  - apply limits_only in H1 as [f ->]. destruct (sound_later _ _ _ _ _ HS H0) as [S Sr A Ad HR].
    assert (same_rows db (Project.set_limits f db)) as Hsame. { exists f, (fun x => x), (fun x => x). by destruct db. }
    split; [by destruct S|exact Sr|by eapply same_rows_accounted|by eapply same_rows_admitting|exact HR].
  - by eapply sound_register.
  - by eapply sound_store.
  - by eapply sound_record.
  - by eapply sound_clean.
  - eapply sound_fewer; [exact HS|]. apply delete_subseteq.
  - by eapply sound_reconcile.
  - rewrite <- (nothing_revived restored _ _ Hk). by eapply sound_task.
Qed.

Lemma created_sound now : Sound ∅ (World.Mk (created now) ∅ now).
Proof.
  split; cbn [World.project World.requests World.clock].
  - split; cbn; unfold classes_ok; cbn; intros *; by rewrite ?lookup_empty.
  - by intros oid ?%not_elem_of_empty.
  - apply created_accounted.
  - apply created_admitting.
  - intros k t p. by rewrite lookup_empty.
Qed.
Lemma traced_sound restored w : Traced restored w -> Sound restored w.
Proof. intros [now Hw]. induction Hw as [|restored w1 w2 _ IH Hs]; [apply created_sound|]. by apply sound_step. Qed.
Lemma reachable_sound w : Reachable w -> exists restored, Sound restored w.
Proof. intros [restored Hw%traced_sound]%reachable_traced. by exists restored. Qed.

(** ** What lasts *)

Lemma tidied_persists k db db' : tidied k db db' -> persists db db'.
Proof. intros Ht. by eapply same_rows_persists, same_rows_tidied. Qed.

Lemma step_persists w w' : Step w w' -> persists (World.project w) (World.project w').
Proof.
  destruct 1 as [? ? ? ? ? ? _ Hrun|? ? ? ? ? ? _ _ _ Hrun|? ? ? ? ? r ? ? _ _ _ Hrun|k ? bs ? ? ? ? guid ? ? r ? ? _ _ _ Hrun|? ? ? ? ? ? ? ? _ _ Hrun| |? ? ? ? ? _ Hrun|? ? ? _ _ Ht];
    cbn [World.project].
  - apply limits_only in Hrun as [f ->]. by apply persists_same.
  - unfold register_pending_object, statement in Hrun. destruct (next_outcome _) as [[] o1]; [by injection Hrun as _ <- _|].
    destruct (is_none _); injection Hrun as _ <- _; [by apply persists_same|done].
  - match type of Hrun with store_request ?k ?b ?o ?db = _ => pose proof (store_request_cases k b db o db eq_refl) as Hc end.
    rewrite Hrun in Hc. destruct r; [destruct Hc as (-> & _)|destruct Hc as [->|[bs ->]]]; try done; by apply persists_same.
  - match type of Hrun with persist_event _ _ ?now ?m ?eid ?oid ?k ?st ?guid ?random ?o ?db = _ =>
      pose proof (persist_event_cases ingest scope now m eid oid k st guid random db o db eq_refl) as Hc end.
    rewrite Hrun in Hc. destruct r as [a|e].
    + destruct (AcceptedCrash.deduplicated a); [by subst|]. by eapply persists_recorded.
    + destruct Hc as [->|[_ [a R]]]; [done|]. by eapply persists_recorded.
  - by eapply tidied_persists, cleanup_tidied.
  - done.
  - apply reconcile_tidied in Hrun as [->|Ht]; [done|]. induction Ht as [|? ? ? ? ? Ht _ IH|]; [done| |done].
    etrans; [by eapply tidied_persists|done].
  - by eapply persists_moves, task_moves.
Qed.
Lemma steps_persist w w' : rtc Step w w' -> persists (World.project w) (World.project w').
Proof. induction 1 as [|? ? ? Hs _ IH]; [done|]. etrans; [by apply step_persists|done]. Qed.
End steps.
