(* ===== verification/Scenario.v ===== *)
(** A project at work: concrete packages and one crash from its registration to its record, in which what
    the theorems on worlds assume holds. *)

From S2P Require Import Prelude Text Domain CrashContext CrashRequest Identifiers Auth Store Jobs Usage Retention Ingest Quotas Accounting Movements Ledgers Admissions Uploads Worlds.

#[local] Open Scope Z_scope.

(** Packages: addresses are numbers, and a digest is the bytes themselves, cut or filled up to its length. *)
#[export] Instance scenario_network : Network := {|
  address := N; network := N; parse_address := fun _ => None; show_address := fun n => [n]; contains := N.eqb |}.
#[export] Instance scenario_sha256 : Sha256 := {| sha256 := fun bs => take 32 (bs ++ repeat (byte_of 0) 32) |}.
#[export] Instance scenario_hmac : HmacSha256 := {| hmac_sha256 := fun k bs => bs |}.

Definition scenario_ingest : CrashIngest.t scenario_network := CrashIngest.Mk scenario_network [] [] 120 60 true true.
Definition scenario_scope : KeyScope.t scenario_network := KeyScope.Mk scenario_network (txt "key") (txt "org") (txt "project") (txt "production") [].
Definition scenario_key : text := txt "raw.bundle".
Definition scenario_bytes : bytes := as_bytes (txt "crash").
Definition scenario_guid : text := txt "UECC-Windows-1".

(** The states after each of the three steps, none of which fails. *)
Definition project_of {A} (r : A * Project.t * outcomes) : Project.t := r.1.2.
Definition scenario_created : Project.t := created 0.
Definition scenario_registered : Project.t := project_of (register_pending_object 1 scenario_key [] scenario_created).
Definition scenario_stored : Project.t := project_of (store_request scenario_key [Chunk scenario_bytes] [] scenario_registered).
Definition scenario_record : ntx AcceptedCrash.t :=
  persist_event scenario_ingest scenario_scope 3 (txt "2026-08-01") (txt "event") (txt "object") scenario_key
    (StoredRequest.Mk (sha256 scenario_bytes) (len scenario_bytes)) (Some scenario_guid) (Some (repeat (byte_of 7) 16)).
Definition scenario_recorded : Project.t := project_of (scenario_record [] scenario_stored).
Definition scenario_world : World.t := World.Mk scenario_recorded ∅ 3.

Lemma keyless_empty k db : Project.objects db = ∅ -> keyless k db.
Proof. intros E oid o. by rewrite E, lookup_empty. Qed.

Definition scenario_storing : World.t := World.Mk scenario_stored {[ scenario_key := (1, Held scenario_bytes) ]} 2.

Lemma scenario_stored_reachable settings : Reachable scenario_ingest scenario_scope settings scenario_storing.
Proof.
  exists 0. eapply rtc_l with (y := World.Mk scenario_registered {[ scenario_key := (1, Registered) ]} 1).
  { eapply (SRegister _ _ _ (World.Mk (created 0) ∅ 0) scenario_key 1 [] (Ok tt)); [cbn; lia|done|by apply keyless_empty|]. vm_compute. reflexivity. }
  apply rtc_once.
  refine (SStore _ _ _ (World.Mk scenario_registered {[ scenario_key := (1, Registered) ]} 1) scenario_key 1 [Chunk scenario_bytes] 2 [] (Ok (StoredRequest.Mk (sha256 scenario_bytes) (len scenario_bytes))) scenario_stored [] _ _ _ _);
      [cbn; lia|done|vm_compute; discriminate|]. vm_compute. reflexivity.
Qed.

Lemma scenario_reachable settings : Reachable scenario_ingest scenario_scope settings scenario_world.
Proof.
  destruct (scenario_stored_reachable settings) as [t Ht]. exists t. etrans; [exact Ht|]. apply rtc_once.
  refine (SRecord _ _ _ scenario_storing scenario_key 1 scenario_bytes 3 (txt "2026-08-01") (txt "event") (txt "object") (Some scenario_guid) (Some (repeat (byte_of 7) 16)) [] (scenario_record [] scenario_stored).1.1 scenario_recorded [] _ _ _ _);
      [cbn; lia|done|vm_compute; discriminate|]. vm_compute. reflexivity.
Qed.
