(* ===== verification/Guarantees.v ===== *)
(** What the server guarantees about crashes, usage and uploads: theorems about every world that can be
    reached, whatever ran in it, in whatever order, and wherever it failed; and a history with workers of different
    settings in which an upload that was to be deleted is restored without its object. *)

From S2P Require Import Prelude Text Domain CrashContext CrashRequest Identifiers Auth Store Jobs Usage Retention Ingest Quotas Accounting Movements Ledgers Admissions Uploads Worlds Scenario.

#[local] Open Scope Z_scope.

Section guarantees.
Context {N : Network} {H : Sha256} {F : HmacSha256} (ingest : CrashIngest.t N) (scope : KeyScope.t N) (settings : bool -> Prop).
Abbreviation enforcing := (CrashIngest.usage_enforcement_enabled ingest).
Abbreviation Reachable := (Reachable ingest scope settings).
Abbreviation Traced := (Traced ingest scope settings).
Abbreviation Steps := (rtc (Step ingest scope settings)).

(** * Accounting *)

(** The crashes of a month, the bytes of their uploads, and the bytes of the uploads that are gone. *)
Definition crashes_of (m : text) (db : Project.t) : nat :=
  size (filter (fun kv : text * CrashEvent.t => Admittance.cycle_start (CrashEvent.usage kv.2) = m) (Project.events db)).
Definition upload_bytes (db : Project.t) (oid : text) : Z := from_option RawObject.byte_size 0 (Project.objects db !! oid).
Definition uploaded_in (m : text) (db : Project.t) : Z :=
  sum_with (fun _ e => if decide (Admittance.cycle_start (CrashEvent.usage e) = m) then upload_bytes db (CrashEvent.raw_object_id e) else 0) (Project.events db).
Definition gone_bytes (db : Project.t) : Z :=
  sum_with (fun _ o => if decide (RawObject.lifecycle_state o = Discarded) then RawObject.byte_size o else 0) (Project.objects db).
Definition deletions (db : Project.t) : Z := sum_with (fun k v => if decide (k.1 = LedgerKind.RawDeleted) then v.2 else 0) (Project.ledger db).

Lemma accepted_events_count db m : Accounted db -> Cycle.accepted_events (cycle db m) = Z.of_nat (crashes_of m db).
Proof.
  intros A. rewrite cycle_books. destruct (balanced_cycles _ A m) as (-> & _). unfold crashes_of, booked. rewrite <- sum_with_count.
  apply (sum_with_rekeyed (fun id _ => (LedgerKind.AcceptedEvent, id))).
  - by intros id id' e e' _ _ [= ->].
  - intros id e He. pose proof (balanced_event _ A id) as Hb. cbn in Hb. rewrite lookup_fmap, He in Hb. cbn in Hb. destruct Hb as [Hb _].
    eexists. split; [exact Hb|]. unfold line_of. cbn. repeat case_decide; naive_solver.
  - intros [kind id] [m' q] Hk. unfold line_of. cbn. case_decide as Hd; [right|by left]. destruct Hd as [-> _]. exists id.
    pose proof (balanced_event _ A id) as Hb. cbn in Hb. rewrite lookup_fmap in Hb. destruct (Project.events db !! id); [eauto|].
    cbn in Hb, Hk. congruence.
Qed.

Lemma upload_of_event db eid e :
  Accounted db -> Project.events db !! eid = Some e ->
  exists o, Project.objects db !! CrashEvent.raw_object_id e = Some o
    /\ Project.ledger db !! (LedgerKind.RawStored, CrashEvent.raw_object_id e) = Some (Admittance.cycle_start (CrashEvent.usage e), RawObject.byte_size o).
Proof.
  intros A He. pose proof (balanced_event _ A eid) as Hb. cbn in Hb. rewrite lookup_fmap, He in Hb. cbn in Hb.
  destruct Hb as (_ & size & Hl). pose proof (balanced_object _ A (CrashEvent.raw_object_id e)) as Ho. cbn in Ho. rewrite lookup_fmap in Ho.
  destruct (Project.objects db !! CrashEvent.raw_object_id e) as [o|]; cbn in Ho; [|destruct Ho; congruence].
  exists o. split; [done|]. destruct Ho as (_ & (m & Hm) & _). congruence.
Qed.

Lemma event_of_upload db oid :
  Accounted db -> is_Some (Project.objects db !! oid) -> exists id e, Project.events db !! id = Some e /\ CrashEvent.raw_object_id e = oid.
Proof.
  intros A Ho. destruct (balanced_attached _ A oid) as (id & m' & Hid); [cbn; rewrite lookup_fmap; by destruct Ho as [? ->]|].
  cbn in Hid. rewrite lookup_fmap in Hid. destruct (Project.events db !! id) as [e|] eqn:E; [|done]. injection Hid as _ <-. eauto.
Qed.
Lemma one_event_per_upload db id id' e e' :
  Accounted db -> Project.events db !! id = Some e -> Project.events db !! id' = Some e' ->
  CrashEvent.raw_object_id e = CrashEvent.raw_object_id e' -> id = id'.
Proof.
  intros A He He' Heq. apply (balanced_uploads _ A id id' (Admittance.cycle_start (CrashEvent.usage e)) (Admittance.cycle_start (CrashEvent.usage e')) (CrashEvent.raw_object_id e)).
  - cbn. by rewrite lookup_fmap, He.
  - cbn. by rewrite lookup_fmap, He', Heq.
Qed.

Lemma accepted_bytes_count db m : Accounted db -> Cycle.accepted_raw_bytes (cycle db m) = uploaded_in m db.
Proof.
  intros A. rewrite cycle_books. destruct (balanced_cycles _ A m) as (_ & -> & _). unfold booked, uploaded_in.
  apply (sum_with_rekeyed (fun _ e => (LedgerKind.RawStored, CrashEvent.raw_object_id e))).
  - intros id id' e e' He He' [= Heq]. by eapply one_event_per_upload.
  - intros id e He. destruct (upload_of_event db id e A He) as (o & Ho & Hl). eexists. split; [exact Hl|].
    unfold line_of, upload_bytes. cbn. rewrite Ho. cbn. repeat case_decide; naive_solver.
  - intros [kind oid] [m' q] Hk. unfold line_of. cbn. case_decide as Hd; [right|by left]. destruct Hd as [-> _].
    pose proof (balanced_object _ A oid) as Ho. cbn in Ho. rewrite lookup_fmap in Ho. cbn in Hk.
    destruct (Project.objects db !! oid) as [o|] eqn:Eo; cbn in Ho; [|destruct Ho; congruence].
    destruct (event_of_upload db oid A) as (id & e & He & <-); [by rewrite Eo|]. by exists id, e.
Qed.

Lemma deletions_count db : Accounted db -> deletions db = gone_bytes db.
Proof.
  intros A. unfold deletions, gone_bytes.
  rewrite (sum_with_rekeyed (fun oid _ => (LedgerKind.RawDeleted, oid)) _ (fun _ o => RawObject.byte_size o) _
            (filter (fun kv : text * RawObject.t => RawObject.lifecycle_state kv.2 = Discarded) (Project.objects db))).
  - induction (Project.objects db) as [|k o m Hk IH] using map_ind; [done|]. rewrite (sum_with_new _ k o m Hk), map_filter_insert.
    cbn. case_decide; [|by rewrite delete_id, IH]. rewrite sum_with_new, IH; [done|]. apply map_lookup_filter_None. by left.
  - by intros ? ? ? ? _ _ [= ->].
  - intros oid o [Ho Hs]%map_lookup_filter_Some. cbn in Hs. pose proof (balanced_object _ A oid) as Hb. cbn in Hb. rewrite lookup_fmap, Ho in Hb.
    cbn in Hb. rewrite Hs in Hb. cbn in Hb. destruct Hb as (_ & _ & m & Hl). eexists. split; [exact Hl|]. by rewrite decide_True.
  - intros [kind oid] [m q] Hk. cbn. case_decide as Hd; [right|by left]. subst kind.
    pose proof (balanced_object _ A oid) as Hb. cbn in Hb. rewrite lookup_fmap in Hb. cbn in Hk.
    destruct (Project.objects db !! oid) as [o|] eqn:Eo; cbn in Hb; [|destruct Hb; congruence].
    exists oid, o. split; [done|]. apply map_lookup_filter_Some. split; [done|]. cbn.
    destruct Hb as (_ & _ & Hb). destruct (RawObject.lifecycle_state o); cbn in Hb; [congruence|done|congruence|done].
Qed.

(** C3: usage is accounted once, whatever failed, was retried or ran at the same time: the events
    that a month has counted are the crashes the project has of that month, the bytes it has counted are those of
    their uploads; the bytes counted as deleted are those of the uploads that are gone, each once; and the counter
    of retained bytes, once reconciled, is what the uploads that are there add up to. *)
Theorem usage_is_accounted_once w :
  Reachable w ->
  let db := World.project w in
  (forall m, Cycle.accepted_events (cycle db m) = Z.of_nat (crashes_of m db)
             /\ Cycle.accepted_raw_bytes (cycle db m) = uploaded_in m db
             /\ Cycle.deleted_raw_bytes (cycle db m) = booked LedgerKind.RawDeleted m (Project.ledger db))
  /\ deletions db = gone_bytes db
  /\ (forall c, Project.storage db = Some c -> StorageCounter.reconciled_at c <> None ->
        StorageCounter.retained_raw_bytes c = retained_raw db).
Proof.
  intros [restored HS]%reachable_sound db. pose proof (sound_accounted _ _ _ _ HS) as A. fold db in A. split_and!.
  - intros m. split_and!; [by apply accepted_events_count|by apply accepted_bytes_count|].
    rewrite cycle_books. apply (balanced_cycles _ A m).
  - by apply deletions_count.
  - intros c Hc Hr. rewrite retained_raw_books. by apply (balanced_storage _ A c).
Qed.

(** * What lasts *)

(** C13: what was admitted stays as it was, whatever the server does afterwards and however often the
    settings change: a crash keeps its month, number, outcome and the version of the policy it was admitted under, which
    keeps its values; an upload keeps its bytes' checksum and its deadline, which is the one that version gives
    it from the moment the crash was received. *)
Theorem admissions_and_deadlines_last w w' :
  Reachable w -> Steps w w' ->
  persists (World.project w) (World.project w')
  /\ forall eid e, Project.events (World.project w) !! eid = Some e ->
       exists e' p o, Project.events (World.project w') !! eid = Some e' /\ CrashEvent.usage e' = CrashEvent.usage e
         /\ Project.versions (World.project w') !! Admittance.policy_version (CrashEvent.usage e) = Some p
         /\ Admittance.outcome (CrashEvent.usage e) = admission_outcome (Admittance.accepted_events (CrashEvent.usage e)) p enforcing
         /\ Project.objects (World.project w') !! CrashEvent.raw_object_id e = Some o
         /\ RawObject.raw_delete_after o = Some (CrashEvent.received_at e + days (UsagePolicy.raw_retention_days p)).
Proof.
  intros Hr Hs. pose proof (steps_persist _ _ _ _ _ Hs) as Hp. split; [done|]. intros eid e He.
  destruct (reachable_sound _ _ _ _ Hr) as [restored HS]. destruct (admitting_event _ _ (sound_admitting _ _ _ _ HS) eid e He) as [Ha _].
  destruct (persists_events _ _ Hp eid e He) as (e' & He' & Hsame). pose proof (admitted_persists _ _ _ _ _ Hp Hsame Ha) as (p & o & H1 & H2 & _ & H3 & H4).
  destruct Hsame as (Eu & Er & Eo & _). rewrite Eu in H1, H2. rewrite Eo in H3. rewrite Er in H4. exists e', p, o. by split_and!.
Qed.

(** ** Resubmission *)

Definition counted_before (a : Admission.t) : Admission.t :=
  {| Admission.cycle_start := Admission.cycle_start a; Admission.policy_version := Admission.policy_version a; Admission.outcome := Admission.outcome a;
     Admission.threshold := Admission.threshold a; Admission.accepted_events := Admission.accepted_events a; Admission.event_limit := Admission.event_limit a;
     Admission.courtesy_limit := Admission.courtesy_limit a; Admission.usage_counted := false; Admission.estimated := Admission.estimated a |}.

(** What is answered for a crash of the project, from the version it was admitted under. *)
Definition recalled (u : Admittance.t) (p : UsagePolicy.t) : Admission.t :=
  {| Admission.cycle_start := Admittance.cycle_start u; Admission.policy_version := Admittance.policy_version u; Admission.outcome := Admittance.outcome u;
     Admission.threshold := threshold (Admittance.accepted_events u) p (Admittance.outcome u); Admission.accepted_events := Admittance.accepted_events u;
     Admission.event_limit := UsagePolicy.event_limit p; Admission.courtesy_limit := courtesy_limit p; Admission.usage_counted := false;
     Admission.estimated := Admittance.estimated u |}.

Lemma stable_outcome_text o : stable_outcome (Outcome.text_of o) = Ok o.
Proof. by destruct o; vm_compute. Qed.

Lemma admission_of_run eid db u db' :
  yields (admission_of eid) db u db' ->
  db' = db /\ exists e p, Project.events db !! eid = Some e /\ Project.versions db !! Admittance.policy_version (CrashEvent.usage e) = Some p
    /\ u = recalled (CrashEvent.usage e) p.
Proof.
  intros Hy%map_error_run. unfold admission_for_event in Hy. apply yields_bind in Hy as (row & db1 & [Hrow ->]%yields_select & Hy).
  apply yields_bind in Hy as ([us p] & db2 & [Hr%ok_or_Ok ->]%yields_lift & Hy). rewrite Hr in Hrow. clear Hr row. symmetry in Hrow.
  apply bind_Some in Hrow as (e & He & Hrow). apply bind_Some in Hrow as (p' & Hp & Hrow). injection Hrow as <- <-.
  apply yields_bind in Hy as (out & db3 & [Hout ->]%yields_lift & Hy). rewrite stable_outcome_text in Hout. injection Hout as <-.
  apply yields_ret in Hy as [-> ->]. split; [done|]. by exists e, p'.
Qed.

Lemma existing_crash_known db eid e g row :
  Admitting enforcing db -> Project.events db !! eid = Some e -> CrashEvent.crash_guid e = Some g ->
  existing_crash scope g db = Some row -> row.1.1 = eid /\ row.2 = CrashEvent.received_at e.
Proof.
  intros A He Hg Hx. unfold existing_crash in Hx. apply bind_Some in Hx as ([id e'] & Hw & Hx). apply bind_Some in Hx as (q & _ & Hx). injection Hx as <-.
  unfold with_guid in Hw. apply head_Some_elem_of, list_elem_of_filter in Hw as [Hg' He'%elem_of_map_to_list]. cbn in *.
  assert (id = eid) as -> by (by eapply (admitting_guids _ _ A)). split; [done|congruence].
Qed.

Lemma with_guid_known db eid e g : Project.events db !! eid = Some e -> CrashEvent.crash_guid e = Some g -> is_Some (with_guid g db).
Proof.
  intros He Hg. destruct (with_guid g db) eqn:E; [eauto|]. exfalso. by apply (with_guid_None _ _ eid e E).
Qed.

Lemma persist_event_known now m eid' oid k stored g random o db a db' o' eid e :
  Admitting enforcing db -> Project.events db !! eid = Some e -> CrashEvent.crash_guid e = Some g ->
  persist_event ingest scope now m eid' oid k stored (Some g) random o db = (Ok a, db', o') ->
  db' = db /\ exists p st, Project.versions db !! Admittance.policy_version (CrashEvent.usage e) = Some p
    /\ a = accepted_response eid st (CrashEvent.received_at e) true (KeyScope.project_id scope) (recalled (CrashEvent.usage e) p).
Proof.
  intros A He Hg Hrun.
  assert (forall row u x, existing_crash scope g db = Some row ->
            (exists p, Project.versions db !! Admittance.policy_version (CrashEvent.usage e) = Some p /\ u = recalled (CrashEvent.usage e) p) ->
            existing_response scope row u = Ok x ->
            exists p st, Project.versions db !! Admittance.policy_version (CrashEvent.usage e) = Some p
              /\ x = accepted_response eid st (CrashEvent.received_at e) true (KeyScope.project_id scope) (recalled (CrashEvent.usage e) p)) as Hresp.
  { intros row u x Hrow (p & Hp & ->) Hx. destruct (existing_crash_known _ _ _ _ _ A He Hg Hrow) as [E1 E2].
    unfold existing_response in Hx. apply bind_Ok in Hx as (st & _ & Hx). injection Hx as <-. rewrite E1, E2. eauto. }
  assert (forall row db1 u db2, existing_crash scope g db = Some row -> db1 = db -> yields (admission_of row.1.1) db1 u db2 ->
            exists p, Project.versions db !! Admittance.policy_version (CrashEvent.usage e) = Some p /\ u = recalled (CrashEvent.usage e) p) as Hadm.
  { intros row db1 u db2 Hrow -> (_ & e' & p & He' & Hp & ->)%admission_of_run.
    destruct (existing_crash_known _ _ _ _ _ A He Hg Hrow) as [E1 _]. rewrite E1, He in He'. injection He' as <-. eauto. }
  pose proof (persist_event_cases ingest scope now m eid' oid k stored (Some g) random db o db eq_refl) as Hc. rewrite Hrun in Hc.
  destruct (AcceptedCrash.deduplicated a) eqn:Ed.
  2: { exfalso. by apply (recorded_new_guid Hc g eid e). }
  split; [done|]. subst db'. unfold persist_event in Hrun. unfold mbind at 1, tx_bind at 1 in Hrun.
  destruct (transaction_uncertain _ _ _ _ o db) as [[[p|x] db1] o1] eqn:Et; [|done].
  assert (exists o2 db2, yields (row ← select IngestError.Unavailable (existing_crash scope g);
            match row with
            | Some row => usage ← admission_of row.1.1; _ ← call IngestError.Unavailable;
                          response ← lift (existing_response scope row usage); mret (Existing response)
            | None => record_event ingest scope now m eid' oid k stored (Some g) random
            end) db p db2 /\ o2 = o1 /\ (is_recorded p = false -> db1 = db)) as (o2 & db2 & Hy & _ & Hdb1).
  { unfold transaction_uncertain in Et. destruct (next_outcome o) as [[] oa]; [done|].
    match type of Et with match ?m oa db with _ => _ end = _ => destruct (m oa db) as [[[q|x] s1] ob] eqn:Eb; [|done] end.
    destruct (is_recorded q) eqn:Eq.
    - destruct (next_outcome ob) as [[] oc]; [by destruct (next_outcome oc)|]. injection Et as -> -> ->. exists o1, db1. split_and!; [by exists oa, ob|done|congruence].
    - injection Et as -> -> ->. exists o1, s1. split_and!; [by exists oa, o1|done|done]. }
  apply yields_bind in Hy as (row & db3 & [-> ->]%yields_select & Hy).
  destruct (existing_crash scope g db) as [row|] eqn:Erow.
  - apply yields_bind in Hy as (u & db4 & Hu & Hy). pose proof (Hadm row db u db4 eq_refl eq_refl Hu) as Hp.
    apply yields_bind in Hy as (c & db5 & _ & Hy). apply yields_bind in Hy as (x & db6 & [Hx _]%yields_lift & Hy). apply yields_ret in Hy as [-> _].
    injection Hrun as <- _ _. by eapply Hresp.
  - apply record_event_run in Hy as [->|(a' & -> & R)]; [|exfalso; by apply (recorded_new_guid R g eid e)].
    specialize (Hdb1 eq_refl). subst db1. exfalso.
    assert (yields (row ← select IngestError.Unavailable (existing_crash scope g); row ← lift (ok_or IngestError.Unavailable row);
                    usage ← transaction IngestError.Unavailable (admission_of row.1.1); lift (existing_response scope row usage)) db a db) as Hy.
    { by exists o1, o'. }
    apply yields_bind in Hy as (row & db4 & [-> ->]%yields_select & Hy). apply yields_bind in Hy as (row & db5 & [Hr%ok_or_Ok _]%yields_lift & _).
    congruence.
Qed.

(** C8: a crash that is sent again is the same crash: for a GUID that the project has recorded, at any
    later moment and under any later settings, a submission that is answered at all is answered with the identity,
    the time and the admission of the first, says that nothing was counted, and changes nothing. *)
Theorem resubmission_answers_the_first w now m eid oid k stored g random o a o1 w1 w2 now' m' eid' oid' k' stored' random' o2 a' db' o3 :
  Reachable w ->
  persist_event ingest scope now m eid oid k stored (Some g) random o (World.project w) = (Ok a, World.project w1, o1) ->
  AcceptedCrash.deduplicated a = false -> Reachable w1 -> Steps w1 w2 ->
  persist_event ingest scope now' m' eid' oid' k' stored' (Some g) random' o2 (World.project w2) = (Ok a', db', o3) ->
  db' = World.project w2
  /\ AcceptedCrash.deduplicated a' = true
  /\ AcceptedCrash.event_id a' = AcceptedCrash.event_id a /\ AcceptedCrash.received_at a' = AcceptedCrash.received_at a
  /\ AcceptedCrash.status_path a' = AcceptedCrash.status_path a
  /\ AcceptedCrash.usage a' = counted_before (AcceptedCrash.usage a).
Proof.
  intros Hr Hrun Hd Hr1 Hs Hrun'.
  pose proof (persist_event_cases ingest scope now m eid oid k stored (Some g) random (World.project w) o (World.project w) eq_refl) as R. rewrite Hrun, Hd in R.
  destruct (reachable_sound _ _ _ _ Hr) as [restored HS]. pose proof (sound_admitting _ _ _ _ HS) as A.
  assert (Reachable w2) as Hr2. { destruct Hr1 as [t0 Ht0]. exists t0. by etrans. }
  destruct (reachable_sound _ _ _ _ Hr2) as [restored2 HS2]. pose proof (sound_admitting _ _ _ _ HS2) as A2.
  pose proof (steps_persist _ _ _ _ _ Hs) as Hp. set (db := World.project w) in *.
  destruct (persists_events _ _ Hp eid (recorded_event ingest scope db now m oid (Some g))) as (e2 & He2 & Eu & Er & _ & Eg & _).
  { rewrite (recorded_events R). apply lookup_insert_eq. }
  destruct (persist_event_known _ _ _ _ _ _ _ _ _ _ _ _ _ eid e2 A2 He2 Eg Hrun') as (-> & p & st & Hver & ->). split; [done|].
  assert (p = current db) as ->.
  { destruct (admitting_policy _ _ A) as (q & Hq & Hv). pose proof (current_policy db q Hq) as Hcur.
    rewrite Eu in Hver. cbn in Hver. rewrite Hcur in *.
    assert (Project.versions (World.project w2) !! UsagePolicy.version q = Some q); [|congruence].
    apply (persists_versions _ _ Hp). rewrite (recorded_versions R), Hcur. by apply (persists_kept db). }
  rewrite (recorded_answer R). cbn. rewrite Eu, Er. by split_and!.
Qed.

(** * Uploads *)

(** C6: an upload that the project has is there and is what arrived, under whichever settings its workers run:
    reading an object that is stored gives bytes of the recorded size whose digest is the recorded checksum; one
    that is being deleted gives those or nothing; and one that is recorded as gone gives nothing.  There is one
    exception, which is the code's: an upload that was restored from its deletion on the way may be stored and gone
    (its object may have been deleted before).  An upload is only ever restored when some workers enforce the
    quotas and others do not, so with one setting for all of them every stored upload is there. *)
Theorem accepted_uploads_stay_readable restored w oid u :
  Traced restored w -> Project.objects (World.project w) !! oid = Some u ->
  let read := (get_raw_object (RawObject.object_key u) (Z.to_N (RawObject.byte_size u)) [] (World.project w)).1.1 in
  match RawObject.lifecycle_state u with
  | Stored =>
      (exists bs, read = Ok bs /\ sha256 bs = RawObject.checksum u /\ Z.of_N (len bs) = RawObject.byte_size u)
      \/ oid ∈ restored /\ read = Err RawMissing
  | Deleting => read = Err RawMissing \/ exists bs, read = Ok bs /\ sha256 bs = RawObject.checksum u
  | Discarded => read = Err RawMissing
  | Orphaned => False
  end
  /\ (oid ∈ restored -> settings true /\ settings false).
Proof.
  intros HS%traced_sound Hu. pose proof (stocked_upload _ _ _ (sound_stocked _ _ _ _ HS) oid u Hu) as Hok. cbv zeta.
  set (db := World.project w) in *. split; [|apply (sound_restored _ _ _ _ HS)].
  assert ((get_raw_object (RawObject.object_key u) (Z.to_N (RawObject.byte_size u)) [] db).1.1
          = match Project.bucket db !! RawObject.object_key u with
            | Some bs => if negb (len bs =? Z.to_N (RawObject.byte_size u))%N || (MAX_COMPRESSED_BYTES <? len bs)%N then Err RawInvalid else Ok bs
            | None => Err RawMissing
            end) as ->.
  { unfold get_raw_object, mbind, tx_bind, select, statement, lift, fail_if, ok_or, mret, tx_ret. cbn [next_outcome fst snd].
    destruct (Project.bucket db !! RawObject.object_key u) as [bs|]; [|done]. by destruct (_ || _). }
  assert (forall bs, contents u bs -> negb (len bs =? Z.to_N (RawObject.byte_size u))%N || (MAX_COMPRESSED_BYTES <? len bs)%N = false) as Hlen.
  { intros bs (_ & Hl & Hm). apply orb_false_iff. rewrite negb_false_iff, N.eqb_eq, N.ltb_ge. lia. }
  unfold upload_ok in Hok. destruct (RawObject.lifecycle_state u).
  - destruct Hok as [(bs & Hb & Hc)|[Hr Hb]]; rewrite Hb; [left|by right]. rewrite (Hlen bs Hc). destruct Hc as (H1 & H2 & _). eauto.
  - done.
  - destruct (Project.bucket db !! RawObject.object_key u) as [bs|] eqn:Hb; [|by left]. right. specialize (Hok bs eq_refl).
    rewrite (Hlen bs Hok). exists bs. by split; [|apply Hok].
  - by rewrite Hok.
Qed.

(** C14: nothing is lost track of: every object in the store is that of exactly one upload of the
    project or is listed as left over, and never both, so no upload is deleted as a left-over and no bytes stay without anyone
    knowing of them. *)
Theorem no_object_is_lost_track_of w k :
  Reachable w -> let db := World.project w in
  (is_Some (Project.bucket db !! k) -> is_Some (Project.orphans db !! k)
    \/ exists oid u, Project.objects db !! oid = Some u /\ RawObject.object_key u = k)
  /\ (is_Some (Project.orphans db !! k) -> forall oid u, Project.objects db !! oid = Some u -> RawObject.object_key u <> k)
  /\ (forall oid oid' u u', Project.objects db !! oid = Some u -> Project.objects db !! oid' = Some u' ->
        RawObject.object_key u = k -> RawObject.object_key u' = k -> oid = oid').
Proof.
  intros [restored HS]%reachable_sound db. pose proof (sound_stocked _ _ _ _ HS) as S. fold db in S. split_and!.
  - intros [bs Hb]. destruct (decide (Exists (fun kv : text * RawObject.t => RawObject.object_key kv.2 = k) (map_to_list (Project.objects db)))) as [He|Hn].
    + right. apply Exists_exists in He as ([oid u] & Hu%elem_of_map_to_list & Hk). by exists oid, u.
    + left. destruct (stocked_bucket _ _ _ S k bs Hb) as [|[]]; [done|]. intros oid u Hu Hk. apply Hn, Exists_exists.
      exists (oid, u). split; [by apply elem_of_map_to_list|done].
  - intros [r Hr]. by apply (stocked_orphan _ _ _ S k r).
  - intros oid oid' u u' Hu Hu' Hk Hk'. eapply (stocked_keys _ _ _ S); [done..|congruence].
Qed.

(** * What a month includes *)

(** The crashes of a month that were admitted under a version of the policy with an outcome. *)
Definition admitted_with (m : text) (v : Z) (outcomes : list Outcome.t) (db : Project.t) : nat :=
  size (filter (fun kv : text * CrashEvent.t =>
    let u := CrashEvent.usage kv.2 in
    Admittance.cycle_start u = m /\ Admittance.policy_version u = v /\ Admittance.outcome u ∈ outcomes) (Project.events db)).

(** Distinct numbers within bounds are not more than lie between them. *)
Lemma numbers_bounded (m : gmap text CrashEvent.t) (f : CrashEvent.t -> Z) (a b : Z) :
  0 <= a <= b -> (forall k e, m !! k = Some e -> a < f e <= b) ->
  (forall k k' e e', m !! k = Some e -> m !! k' = Some e' -> f e = f e' -> k = k') -> Z.of_nat (size m) <= b - a.
Proof.
  intros Hb Hr Hi. set (l := (fun kv : text * CrashEvent.t => Z.to_nat (f kv.2)) <$> map_to_list m).
  assert (NoDup l) as Hnd.
  { apply NoDup_fmap_2_strong; [|apply NoDup_map_to_list]. intros [k e] [k' e'] H1%elem_of_map_to_list H2%elem_of_map_to_list Heq.
    cbn in Heq. pose proof (Hr _ _ H1). pose proof (Hr _ _ H2). assert (k = k') as -> by (eapply Hi; [done..|lia]). congruence. }
  assert (l ⊆ seq (S (Z.to_nat a)) (Z.to_nat (b - a))) as Hsub.
  { intros x. unfold l. rewrite list_elem_of_fmap, elem_of_seq. intros ([k e] & -> & H1%elem_of_map_to_list). pose proof (Hr _ _ H1). cbn. lia. }
  pose proof (submseteq_length _ _ (NoDup_submseteq _ _ Hnd Hsub)) as Hlen. unfold l in Hlen. rewrite length_fmap, length_seq in Hlen.
  rewrite length_map_to_list in Hlen. lia.
Qed.

(** C16: while the server admits crashes with quotas enforced, no month includes more crashes than a version of the policy allows, however
    many arrive and whichever settings come and go: those admitted as standard under it are at most its limit, the
    overages are at most what its spend cap pays for (none without one) and the courtesy at most its percentage;
    standard and overages together are at most the limit and what the cap pays for, and with the courtesy at most the limit
    and the larger of the two. *)
Theorem months_stay_within_their_policies w m v p :
  Reachable w -> enforcing = true -> Project.versions (World.project w) !! v = Some p ->
  let included l := Z.of_nat (admitted_with m v l (World.project w)) in
  let paid := from_option overage_events 0 (UsagePolicy.spend_cap_cents p) in
  included [Outcome.Standard] <= UsagePolicy.event_limit p
  /\ included [Outcome.Overage] <= paid
  /\ included [Outcome.Courtesy] <= courtesy_events p
  /\ included [Outcome.Standard; Outcome.Overage] <= UsagePolicy.event_limit p + paid
  /\ included [Outcome.Standard; Outcome.Overage; Outcome.Courtesy] <= UsagePolicy.event_limit p + Z.max paid (courtesy_events p).
Proof.
  intros [restored HS]%reachable_sound Hen Hv included paid. pose proof (sound_admitting _ _ _ _ HS) as A. set (db := World.project w) in *.
  destruct (admitting_versions _ _ A v p Hv) as (_ & Hvalid & _). pose proof (valid_policy p Hvalid) as (Hl & Hc & Hcap).
  assert (0 <= paid) as Hpaid.
  { unfold paid. destruct (UsagePolicy.spend_cap_cents p) as [cap|]; [|done]. cbn. specialize (Hcap cap eq_refl). unfold overage_events.
    assert (0 <= cap / 1500) by (apply Z.div_pos; lia). lia. }
  pose proof (courtesy_events_range p Hvalid) as Hcourtesy.
  assert (forall l a b, 0 <= a <= b -> (forall n, 0 < n -> policy_outcome n p ∈ l -> a < n <= b) -> included l <= b - a) as Hcount.
  { intros l a b Hab Hbound. apply (numbers_bounded _ (fun e => Admittance.accepted_events (CrashEvent.usage e))); [done| |].
    - intros k e [He (_ & Hpv & Ho)]%map_lookup_filter_Some. cbn in *. destruct (admitting_event _ _ A k e He) as [(q & o & Hq & Hout & _) Hn].
      assert (q = p) as -> by congruence. apply Hbound; [lia|]. rewrite Hout in Ho. unfold admission_outcome in Ho. by rewrite Hen in Ho.
    - intros k k' e e' [He (Hm & _)]%map_lookup_filter_Some [He' (Hm' & _)]%map_lookup_filter_Some Heq. cbn in *.
      eapply (admitting_numbers _ _ A); [done..|]. unfold number. by rewrite Hm, Hm', Heq. }
  pose proof (fun n => outcome_bound n p Hvalid) as Hout. fold paid in Hout.
  assert (forall l, (forall n, policy_outcome n p ∈ l -> n <= UsagePolicy.event_limit p + paid) ->
            included l <= UsagePolicy.event_limit p + paid) as Hsum.
  { intros l Hn. rewrite <- (Z.sub_0_r (_ + paid)). apply Hcount; [lia|]. intros n H1 H2. split; [done|by apply Hn]. }
  split_and!.
  - rewrite <- (Z.sub_0_r (UsagePolicy.event_limit p)). apply Hcount; [lia|]. intros n H1 H2. specialize (Hout n). apply list_elem_of_singleton in H2. rewrite H2 in Hout. lia.
  - replace paid with (UsagePolicy.event_limit p + paid - UsagePolicy.event_limit p) by lia. apply Hcount; [lia|].
    intros n H1 H2%list_elem_of_singleton. specialize (Hout n). rewrite H2 in Hout. pose proof (included_standard n p) as Hstd. split; [|done]. apply Z.nle_gt. intros Hle.
    by rewrite (Hstd Hle) in H2.
  - replace (courtesy_events p) with (UsagePolicy.event_limit p + courtesy_events p - UsagePolicy.event_limit p) by lia. apply Hcount; [lia|].
    intros n H1 H2%list_elem_of_singleton. specialize (Hout n). rewrite H2 in Hout. pose proof (included_standard n p) as Hstd. split; [|done]. apply Z.nle_gt. intros Hle.
    by rewrite (Hstd Hle) in H2.
  - apply Hsum. intros n Hn. specialize (Hout n). destruct (policy_outcome n p); try lia; exfalso; clear - Hn; set_solver.
  - rewrite <- (Z.sub_0_r (_ + Z.max _ _)). apply Hcount; [lia|]. intros n H1 Hn. split; [done|]. specialize (Hout n).
    destruct (policy_outcome n p); try lia; exfalso; clear - Hn; set_solver.
Qed.
End guarantees.

(** * At work *)

Lemma usage_is_accounted_once_witness :
  Cycle.accepted_events (cycle scenario_recorded (txt "2026-08-01")) = 1 /\ uploaded_in (txt "2026-08-01") scenario_recorded = 5
  /\ retained_raw scenario_recorded = 5.
Proof.
  destruct (usage_is_accounted_once scenario_ingest scenario_scope (fun _ => True) scenario_world (scenario_reachable _)) as (Hm & _ & Hs).
  destruct (Hm (txt "2026-08-01")) as (H1 & H2 & _). split_and!.
  - etransitivity; [exact H1|]. vm_compute. reflexivity.
  - etransitivity; [symmetry; exact H2|]. vm_compute. reflexivity.
  - etransitivity; [symmetry; apply (Hs (StorageCounter.Mk 5 0 (Some 0)))|]; [vm_compute; reflexivity|discriminate|reflexivity].
Defined.

(** The project of the scenario, a month later. *)
Definition scenario_later : World.t := World.Mk scenario_recorded ∅ (3 + days 31).
Lemma scenario_goes_on settings : rtc (Step scenario_ingest scenario_scope settings) scenario_world scenario_later.
Proof.
  apply rtc_once. eapply (SReconcile _ _ _ scenario_world (3 + days 31) [true]); [vm_compute; discriminate|reflexivity].
Qed.

Lemma admissions_and_deadlines_last_witness :
  exists o, Project.objects (World.project scenario_later) !! txt "object" = Some o /\ RawObject.raw_delete_after o = Some (3 + days 7).
Proof.
  destruct (admissions_and_deadlines_last scenario_ingest scenario_scope (fun _ => True) scenario_world scenario_later (scenario_reachable _) (scenario_goes_on _)) as (_ & Hl).
  destruct (Project.events (World.project scenario_world) !! txt "event") as [e|] eqn:He; [|vm_compute in He; discriminate].
  destruct (Hl (txt "event") e He) as (e' & p & o & _ & _ & Hp & _ & Ho & Hd).
  assert (CrashEvent.raw_object_id e = txt "object" /\ CrashEvent.received_at e = 3 /\ Admittance.policy_version (CrashEvent.usage e) = 1) as (E1 & E2 & E3).
  { vm_compute in He. injection He as <-. split_and!; vm_compute; reflexivity. }
  rewrite E1 in Ho. rewrite E2 in Hd. rewrite E3 in Hp. exists o. split; [exact Ho|]. rewrite Hd. vm_compute in Hp. by injection Hp as <-.
Defined.

(** The submission of the scenario, and the same crash sent again in the next month. *)
Definition resubmitted : result IngestError.t AcceptedCrash.t * Project.t * outcomes :=
  persist_event scenario_ingest scenario_scope (5 + days 31) (txt "2026-09-01") (txt "other") (txt "another") (txt "key")
    (StoredRequest.Mk [] 1) (Some scenario_guid) None [] scenario_recorded.
Definition accepted_by (r : result IngestError.t AcceptedCrash.t * Project.t * outcomes) : option AcceptedCrash.t :=
  match r with (Ok a, _, _) => Some a | _ => None end.
Definition said (a : AcceptedCrash.t) : bool * text * text :=
  (AcceptedCrash.deduplicated a, AcceptedCrash.event_id a, Admission.cycle_start (AcceptedCrash.usage a)).
Lemma said_inv r x : said <$> accepted_by r = Some x -> exists a db o, r = (Ok a, db, o) /\ said a = x.
Proof. destruct r as [[[a|e] db] o]; [|discriminate]. intros [= <-]. by exists a, db, o. Qed.
Lemma submission_said : said <$> accepted_by (scenario_record [] scenario_stored) = Some (false, txt "event", txt "2026-08-01").
Proof. vm_compute. reflexivity. Qed.
Lemma resubmitted_said : said <$> accepted_by resubmitted = Some (true, txt "event", txt "2026-08-01").
Proof. vm_compute. reflexivity. Qed.

Lemma resubmission_answers_the_first_witness :
  exists a, accepted_by resubmitted = Some a /\ AcceptedCrash.event_id a = txt "event"
    /\ Admission.cycle_start (AcceptedCrash.usage a) = txt "2026-08-01" /\ Admission.usage_counted (AcceptedCrash.usage a) = false.
Proof.
  destruct (said_inv _ _ submission_said) as (a & db & o & E1 & S1). destruct (said_inv _ _ resubmitted_said) as (a' & db' & o' & E2 & _).
  pose proof (f_equal project_of E1) as Ep. change (scenario_recorded = db) in Ep. subst db.
  injection S1 as Ed Eid Em.
  pose proof (resubmission_answers_the_first scenario_ingest scenario_scope (fun _ => True) scenario_storing _ _ _ _ _ _ _ _ _ _ _ scenario_world scenario_later
              _ _ _ _ _ _ _ _ _ _ _ (scenario_stored_reachable _) E1 Ed (scenario_reachable _) (scenario_goes_on _) E2) as (_ & _ & H1 & _ & _ & H2).
  exists a'. split; [exact (f_equal accepted_by E2)|]. rewrite H1, H2. split; [exact Eid|]. split; [exact Em|reflexivity].
Defined.

(** With one setting for all workers nothing is restored. *)
Lemma accepted_uploads_stay_readable_witness :
  exists bs, (get_raw_object scenario_key 5 [] scenario_recorded).1.1 = Ok bs /\ sha256 bs = sha256 scenario_bytes.
Proof.
  destruct (Project.objects scenario_recorded !! txt "object") as [u|] eqn:Hu; [|vm_compute in Hu; discriminate].
  destruct (reachable_traced _ _ _ _ (scenario_reachable (fun b => b = true))) as [restored Ht].
  pose proof (accepted_uploads_stay_readable scenario_ingest scenario_scope (fun b => b = true) restored scenario_world (txt "object") u Ht Hu) as [H Hr].
  cbv zeta in H. vm_compute in Hu. injection Hu as <-. cbn [RawObject.lifecycle_state] in H.
  destruct H as [(bs & H1 & H2 & _)|[Hin _]]; [|destruct (Hr Hin); discriminate].
  exists bs. split; [exact H1|exact H2].
Defined.

Lemma no_object_is_lost_track_of_witness : exists oid u, Project.objects scenario_recorded !! oid = Some u /\ RawObject.object_key u = scenario_key.
Proof.
  destruct (no_object_is_lost_track_of scenario_ingest scenario_scope (fun _ => True) scenario_world scenario_key (scenario_reachable _)) as (H & _).
  destruct H as [H|H]; [vm_compute; eauto|vm_compute in H; destruct H; discriminate|exact H].
Defined.

Lemma months_stay_within_their_policies_witness :
  Z.of_nat (admitted_with (txt "2026-08-01") 1 [Outcome.Standard] scenario_recorded) <= 10000.
Proof.
  apply (months_stay_within_their_policies scenario_ingest scenario_scope (fun _ => True) scenario_world (txt "2026-08-01") 1 UsagePolicy.default (scenario_reachable _));
    vm_compute; reflexivity.
Defined.

(** * What one setting for all workers is for

    The upload of the scenario is to be deleted, a worker that enforces the quotas removes its object and fails
    before the tables know, and a worker that does not enforce them takes the job over: it restores the upload,
    which is stored again and has no object. *)
Definition scenario_condemned : Project.t :=
  project_of (enqueue_raw_deletion 4 (txt "delete") (txt "org") (txt "project") (txt "event") (txt "object") RetentionClass.Deleting [] scenario_recorded).
Definition scenario_claim (now : Z) (worker token : text) (db : Project.t) : result JobError (option Job.t) * Project.t * outcomes :=
  on_queue (claim_job_with_project_limit now worker (Some token) 1) [] db.
Definition claimed_by (r : result JobError (option Job.t) * Project.t * outcomes) : Job.t :=
  match r.1.1 with
  | Ok (Some job) => job
  | _ => Job.Mk [] [] [] None None None [] 0 0 0 [] 0 0 0
  end.
Definition enforcing_claim := scenario_claim 5 (txt "first") (txt "one") scenario_condemned.
Definition scenario_emptied : Project.t :=
  project_of (delete_raw 5 (txt "2026-08-01") (txt "first") true (claimed_by enforcing_claim) [false; false; true] (project_of enforcing_claim)).
Definition lenient_claim := scenario_claim (seconds 1000) (txt "second") (txt "two") scenario_emptied.
Definition scenario_restored : Project.t :=
  project_of (delete_raw (seconds 1000) (txt "2026-08-01") (txt "second") false (claimed_by lenient_claim) [] (project_of lenient_claim)).
Lemma a_restored_upload_is_gone :
  Project.bucket scenario_recorded !! scenario_key <> None
  /\ RawObject.lifecycle_state <$> Project.objects scenario_condemned !! txt "object" = Some Deleting
  /\ RawObject.lifecycle_state <$> Project.objects scenario_restored !! txt "object" = Some Stored
  /\ CrashEvent.class <$> Project.events scenario_restored !! txt "event" = Some RetentionClass.Standard
  /\ Project.bucket scenario_restored !! scenario_key = None.
Proof. split_and!; [vm_compute; discriminate|vm_compute; reflexivity..]. Qed.
