(* ===== verification/Submissions.v ===== *)
(** Submissions: a request as a whole, from its checks to its cleaning up, is a sequence of the steps of
    worlds, wherever it fails; and what the rate limits let through. *)

From S2P Require Import Prelude Text Domain CrashContext CrashRequest Identifiers Auth Store Jobs Usage Retention Ingest Quotas Accounting Movements Ledgers Admissions Uploads Worlds Scenario Archive.

#[local] Open Scope Z_scope.

(** * Runs of programs *)

Lemma bind_run {S E A B} (m : tx S E A) (f : A -> tx S E B) o s r s' o' :
  (m ≫= f) o s = (r, s', o') ->
  (exists a s1 o1, m o s = (Ok a, s1, o1) /\ f a o1 s1 = (r, s', o')) \/ (exists e, m o s = (Err e, s', o') /\ r = Err e).
Proof.
  unfold mbind, tx_bind. destruct (m o s) as [[[a|e] s1] o1]; intros Hm; [left; by exists a, s1, o1|right]. injection Hm as <- <- <-. by exists e.
Qed.
Lemma lift_run {S E A} (r : result E A) o (s : S) x s' o' : lift r o s = (x, s', o') -> x = r /\ s' = s /\ o' = o.
Proof. by intros [= <- <- <-]. Qed.
Lemma or_else_run {A} (m : ntx A) cleanup o db r db' o' :
  or_else m cleanup o db = (r, db', o') ->
  (exists a, r = Ok a /\ m o db = (Ok a, db', o'))
  \/ (exists e db1 o1 x, r = Err e /\ m o db = (Err e, db1, o1) /\ cleanup e o1 db1 = (x, db', o')).
Proof.
  unfold or_else. destruct (m o db) as [[[a|e] db1] o1]; intros Hm.
  - injection Hm as <- <- <-. left. by exists a.
  - destruct (cleanup e o1 db1) as [[x db2] o2] eqn:Ec. injection Hm as <- <- <-. right. by exists e, db1, o1, x.
Qed.

(** * A request *)

Section submissions.
Context {N : Network} {F : FormUrlEncoded} {H : Sha256} {HM : HmacSha256} {ZL : Zlib} {X : Roxmltree} (ingest : CrashIngest.t N) (scope : KeyScope.t N) (settings : bool -> Prop).

(** The checks change nothing but the limits. *)
Lemma admit_request_run a o db r db' o' :
  admit_request ingest (Ok (Some scope)) a o db = (r, db', o') ->
  (db' = db \/ exists ip o1 r1 o2, apply_rate_limits ingest scope ip (Arrival.limited_at a) o1 db = (r1, db', o2))
  /\ forall sc rate eid oid, r = Ok (sc, rate, eid, oid) -> sc = scope /\ random_uuid (Arrival.event_random a) = Ok eid.
Proof.
  unfold admit_request. intros Hrun.
  apply bind_run in Hrun as [(s1 & db1 & o1 & (E1 & -> & ->)%lift_run & Hrun)|(e & (_ & -> & _)%lift_run & ->)]; [|by split; [left|]]. injection E1 as ->.
  apply bind_run in Hrun as [(s2 & db2 & o2 & (E2 & -> & ->)%lift_run & Hrun)|(e & (_ & -> & _)%lift_run & ->)]; [|by split; [left|]]. injection E2 as ->.
  apply bind_run in Hrun as [(u & db3 & o3 & (_ & -> & ->)%lift_run & Hrun)|(e & (_ & -> & _)%lift_run & ->)]; [|by split; [left|]].
  apply bind_run in Hrun as [(ip & db4 & o4 & (_ & -> & ->)%lift_run & Hrun)|(e & (_ & -> & _)%lift_run & ->)]; [|by split; [left|]].
  apply bind_run in Hrun as [(u1 & db5 & o5 & (_ & -> & ->)%lift_run & Hrun)|(e & (_ & -> & _)%lift_run & ->)]; [|by split; [left|]].
  apply bind_run in Hrun as [(rate & db6 & o6 & E6 & Hrun)|(e & E6 & ->)]; [|split; [right; by repeat eexists|done]].
  assert (db' = db6 /\ forall sc rate eid oid, r = Ok (sc, rate, eid, oid) -> sc = scope /\ random_uuid (Arrival.event_random a) = Ok eid) as [-> Hok].
  { apply bind_run in Hrun as [(q & db7 & o7 & (_ & -> & ->)%lift_run & Hrun)|(e & (_ & -> & _)%lift_run & ->)]; [|done].
    apply bind_run in Hrun as [(u2 & db8 & o8 & (_ & -> & ->)%lift_run & Hrun)|(e & (_ & -> & _)%lift_run & ->)]; [|done].
    apply bind_run in Hrun as [(eid & db9 & o9 & (Eid & -> & ->)%lift_run & Hrun)|(e & (_ & -> & _)%lift_run & ->)]; [|done].
    apply bind_run in Hrun as [(oid & db10 & o10 & (_ & -> & ->)%lift_run & Hrun)|(e & (_ & -> & _)%lift_run & ->)]; [|done].
    injection Hrun as <- <- _. split; [done|]. by intros sc rate' eid' oid' [= -> _ <- _]. }
  split; [|done]. right. by repeat eexists.
Qed.

Lemma inspect_spool_run spool o db r db' o' : inspect_spool spool o db = (r, db', o') -> db' = db.
Proof.
  intros Hrun. assert (answers (inspect_spool spool) (fun _ => True)) as Ha.
  { eapply answers_bind; [apply answers_call|intros _ _]. by apply answers_lift. }
  specialize (Ha db o db eq_refl). rewrite Hrun in Ha. destruct r; [by destruct Ha|done].
Qed.

Abbreviation Step := (Step ingest scope settings).
Abbreviation Steps := (rtc Step).

(** ** Its steps *)

Section request.
Context (a : Arrival.t N) (k : text) (reqs : gmap text (Z * Phase)).
Hypothesis new : reqs !! k = None.
Hypothesis in_order : Arrival.registered_at a <= Arrival.recorded_at a <= Arrival.cleaned_at a.
Hypothesis in_time : Arrival.cleaned_at a <= Arrival.registered_at a + minutes 60.
Abbreviation t := (Arrival.registered_at a).
Abbreviation at_phase db p := (World.Mk db (<[k := (t, p)]> reqs)).

(** A world in which the request is over and forgotten. *)
Definition ends (w : World.t) (db : Project.t) : Prop := exists now, now <= Arrival.cleaned_at a /\ Steps w (World.Mk db reqs now).

Lemma ends_after w w1 db : Step w w1 -> ends w1 db -> ends w db.
Proof. intros Hs (now & Hn & Hsteps). exists now. split; [done|]. by eapply rtc_l. Qed.

Lemma forgotten p : delete k (<[k := (t, p)]> reqs) = reqs.
Proof. by rewrite delete_insert_id. Qed.

Lemma ends_cleaned db p now o r db' o' :
  now <= Arrival.cleaned_at a -> cleanup_object (Arrival.cleaned_at a) k o db = (r, db', o') -> ends (at_phase db p now) db'.
Proof.
  intros Hn Hcl. exists (Arrival.cleaned_at a). split; [done|]. apply rtc_once.
  pose proof (SClean ingest scope settings (at_phase db p now) k t p (Arrival.cleaned_at a) o r db' o') as Hs. cbn in Hs.
  rewrite forgotten in Hs. apply Hs; [lia|apply lookup_insert_eq|exact Hcl].
Qed.

Lemma record_step db bs m eid oid guid o r db' o' :
  persist_event ingest scope (Arrival.recorded_at a) m eid oid k (StoredRequest.Mk (sha256 bs) (len bs)) guid (Arrival.job_random a) o db = (r, db', o') ->
  Step (at_phase db (Held bs) (Arrival.recorded_at a)) (World.Mk db' (after_recording r k t (<[k := (t, Held bs)]> reqs)) (Arrival.recorded_at a)).
Proof.
  intros Hp.
  pose proof (SRecord ingest scope settings (at_phase db (Held bs) (Arrival.recorded_at a)) k t bs (Arrival.recorded_at a) m eid oid guid
                (Arrival.job_random a) o r db' o') as Hs.
  cbn [World.project World.requests World.clock] in Hs. apply Hs; [lia|apply lookup_insert_eq|lia|exact Hp].
Qed.

(** From the record on. *)
Lemma record_ends db bs m eid oid guid o r db' o' :
  (accepted ← or_else (persist_event ingest scope (Arrival.recorded_at a) m eid oid k (StoredRequest.Mk (sha256 bs) (len bs)) guid (Arrival.job_random a))
                (unless_uncertain (cleanup_object (Arrival.cleaned_at a) k));
   if AcceptedCrash.deduplicated accepted then cleanup_object (Arrival.cleaned_at a) k else mret ()) o db = (r, db', o') ->
  ends (at_phase db (Held bs) (Arrival.recorded_at a)) db'.
Proof.
  intros Hrun. apply bind_run in Hrun as [(acc & db1 & o1 & E & Hrun)|(e & E & _)]; apply or_else_run in E.
  - destruct E as [(x & [= <-] & E%record_step)|(e' & ? & ? & ? & ? & _)]; [|done]. cbn [after_recording] in E.
    destruct (AcceptedCrash.deduplicated acc).
    + rewrite insert_insert_eq in E. eapply ends_after; [exact E|]. eapply ends_cleaned; [lia|exact Hrun].
    + injection Hrun as _ <- _. rewrite forgotten in E. exists (Arrival.recorded_at a). split; [lia|]. by apply rtc_once.
  - destruct E as [(x & ? & _)|(e' & db1 & o1 & x & _ & E%record_step & Hcl)]; [done|]. cbn [after_recording] in E.
    rewrite insert_insert_eq, forgotten in E.
    destruct e'; try (eapply ends_after; [exact E|]; eapply ends_cleaned; [lia|exact Hcl]).
    injection Hcl as _ <- _. exists (Arrival.recorded_at a). split; [lia|]. by apply rtc_once.
Qed.

(** From the inspection on. *)
Lemma inspection_ends {A} db bs (rest : CrashRequestManifest.t -> ntx A) o r db' o' :
  (forall manifest o r db' o', rest manifest o db = (r, db', o') -> ends (at_phase db (Held bs) (Arrival.recorded_at a)) db') ->
  (manifest ← or_else (inspect_spool bs) (fun _ => cleanup_object (Arrival.cleaned_at a) k); rest manifest) o db = (r, db', o') ->
  ends (at_phase db (Held bs) (Arrival.recorded_at a)) db'.
Proof.
  intros Hrest Hrun. apply bind_run in Hrun as [(manifest & db1 & o1 & E & Hrun)|(e & E & _)]; apply or_else_run in E.
  - destruct E as [(x & [= <-] & ->%inspect_spool_run)|(e' & ? & ? & ? & ? & _)]; [|done]. by eapply Hrest.
  - destruct E as [(x & ? & _)|(e' & db1 & o1 & x & _ & ->%inspect_spool_run & Hcl)]; [done|]. eapply ends_cleaned; [lia|exact Hcl].
Qed.

(** From the upload on. *)
Lemma upload_ends {A} db (rest : StoredRequest.t -> ntx A) o r db' o' :
  let bs := body_bytes (Arrival.body a) in
  (forall db1 o r db' o', rest (StoredRequest.Mk (sha256 bs) (len bs)) o db1 = (r, db', o') -> ends (at_phase db1 (Held bs) (Arrival.recorded_at a)) db') ->
  (stored ← or_else (store_request k (Arrival.body a)) (fun _ => cleanup_object (Arrival.cleaned_at a) k); rest stored) o db = (r, db', o') ->
  ends (at_phase db Registered t) db'.
Proof.
  intros bs Hrest Hrun.
  assert (forall o1 r1 db1 o2 p, p = match r1 with Ok _ => Held bs | Err _ => Registered end -> store_request k (Arrival.body a) o1 db = (r1, db1, o2) ->
            Step (at_phase db Registered t) (at_phase db1 p (Arrival.recorded_at a))) as Hstep.
  { intros o1 r1 db1 o2 p -> E.
    pose proof (SStore ingest scope settings (at_phase db Registered t) k t (Arrival.body a) (Arrival.recorded_at a) o1 r1 db1 o2) as Hs.
    cbn in Hs. rewrite insert_insert_eq in Hs. apply Hs; [lia|apply lookup_insert_eq|lia|exact E]. }
  apply bind_run in Hrun as [(stored & db1 & o1 & E & Hrun)|(e & E & _)]; apply or_else_run in E.
  - destruct E as [(x & [= <-] & E)|(e' & ? & ? & ? & ? & _)]; [|done].
    pose proof (store_request_cases k (Arrival.body a) db o db eq_refl) as Hcases. rewrite E in Hcases. destruct Hcases as (_ & -> & _).
    eapply ends_after; [by eapply Hstep|]. by eapply Hrest.
  - destruct E as [(x & ? & _)|(e' & db1 & o1 & x & _ & E & Hcl)]; [done|]. eapply ends_after; [by eapply Hstep|]. eapply ends_cleaned; [lia|exact Hcl].
Qed.
End request.

(** C4: a submission, as the handler runs it from its first check to its last cleaning up, is a
    sequence of the steps for which the guarantees are proved, whatever its statements and its store answer; it
    leaves no request behind. *)
Theorem submit_crash_is_a_sequence_of_steps w a o r db' o' :
  submit_crash ingest (Ok (Some scope)) a o (World.project w) = (r, db', o') ->
  World.clock w <= Arrival.limited_at a <= Arrival.registered_at a ->
  Arrival.registered_at a <= Arrival.recorded_at a <= Arrival.cleaned_at a ->
  Arrival.cleaned_at a <= Arrival.registered_at a + minutes 60 ->
  (forall eid, random_uuid (Arrival.event_random a) = Ok eid ->
     keyless (object_key_of scope eid) (World.project w) /\ World.requests w !! object_key_of scope eid = None) ->
  exists now, now <= Arrival.cleaned_at a /\ Steps w (World.Mk db' (World.requests w) now).
Proof.
  intros Hrun Hc1 Hc2 Hc3 Hfresh. destruct w as [db reqs clk]. cbn [World.project World.requests World.clock] in *.
  unfold submit_crash in Hrun.
  assert (forall db1, (db1 = db \/ exists ip o1 r1 o2, apply_rate_limits ingest scope ip (Arrival.limited_at a) o1 db = (r1, db1, o2)) ->
            (forall k, keyless k db -> keyless k db1) /\ exists t1, t1 <= Arrival.registered_at a /\ Steps (World.Mk db reqs clk) (World.Mk db1 reqs t1)) as Hlimits.
  { intros db1 [->|(ip & oa & r1 & ob & Hl)]; [split; [done|]; exists clk; split; [lia|done]|].
    split; [intros k Hk; by apply limits_only in Hl as [f ->]|]. exists (Arrival.limited_at a). split; [lia|]. apply rtc_once.
    eapply (SLimit _ _ _ (World.Mk db reqs clk)); [cbn; lia|exact Hl]. }
  apply bind_run in Hrun as [([[[sc rate] eid] oid] & db1 & o1 & E1 & Hrun)|(e & E1 & _)];
    apply admit_request_run in E1 as [(Hkl & t1 & Ht1 & Hsteps1)%Hlimits Hok].
  2: { exists t1. split; [lia|done]. }
  destruct (Hok sc rate eid oid eq_refl) as [-> Heid]. destruct (Hfresh eid Heid) as [Hk%Hkl Hnew]. cbv zeta in Hrun.
  set (k := object_key_of scope eid) in *.
  enough (ends a reqs (World.Mk db1 reqs t1) db') as (now & Hnow & Hs). { exists now. split; [done|]. by etrans. }
  assert (forall ox rx dbx oy, register_pending_object (Arrival.registered_at a) k ox db1 = (rx, dbx, oy) ->
            Step (World.Mk db1 reqs t1) (World.Mk dbx (match rx with Ok _ => <[k := (Arrival.registered_at a, Registered)]> reqs | Err _ => reqs end) (Arrival.registered_at a))) as Hreg.
  { intros ox rx dbx oy E. by eapply (SRegister _ _ _ (World.Mk db1 reqs t1) k). }
  apply bind_run in Hrun as [(u & db2 & o2 & E2%Hreg & Hrun)|(e & E2%Hreg & _)].
  2: { exists (Arrival.registered_at a). split; [lia|]. by apply rtc_once. }
  eapply ends_after; [exact E2|]. eapply (upload_ends a k reqs); [done..|intros db3 o3 r3 db4 o4 Hrun3|exact Hrun].
  cbv beta in Hrun3. eapply (inspection_ends a k reqs); [done..|intros manifest o5 r5 db5 o6 Hrun5|exact Hrun3].
  cbv beta in Hrun5. match type of Hrun5 with (?m ≫= ?f) _ _ = _ => assert (exists r6, (accepted ← m; if AcceptedCrash.deduplicated accepted then cleanup_object (Arrival.cleaned_at a) k else mret ()) o5 db3 = (r6, db5, o6)) as [r6 Hrun6] end.
  { apply bind_run in Hrun5 as [(acc & db6 & o7 & E & Hrun5)|(e & E & _)]; unfold mbind, tx_bind; rewrite E; [|by eexists].
    apply bind_run in Hrun5 as [(u1 & db7 & o8 & E6 & Hrun5)|(e & E6 & _)]; rewrite E6; [|by eexists]. injection Hrun5 as _ <- <-. by eexists. }
  by eapply (record_ends a k reqs).
Qed.
End submissions.

(** * Rate limits *)

(** Scope, hash of the subject and start of the minute. *)
Abbreviation limit_key := (text * text * Z)%type.

Section limits.
Context {N : Network} {H : Sha256} {HM : HmacSha256} (ingest : CrashIngest.t N) (scope : KeyScope.t N) (b : Z).

(** The rows of a minute, and how many requests they have counted. *)
Definition requests_at (db : Project.t) (k : limit_key) : Z := from_option RateLimit.requests 0 (Project.limits db !! k).
Definition current_rows (db : Project.t) : Prop :=
  forall k r, Project.limits db !! k = Some r -> k.2 = b -> RateLimit.expires_at r = seconds b + minutes 2.
Definition project_key : limit_key := (RATE_LIMIT_PROJECT, subject (sha256 (as_bytes (KeyScope.project_id scope))), b).
Definition address_key (ip : address) : limit_key :=
  (RATE_LIMIT_IP, subject (hmac_sha256 (CrashIngest.rate_secret ingest) (as_bytes (show_address ip) ++ to_le_bytes b)), b).

Lemma in_minute now : bucket_start now = b -> now < seconds b + minutes 2.
Proof.
  unfold bucket_start, minutes, seconds. change (1 * 60 * 1000000) with 60000000. intros <-.
  pose proof (Z.mod_pos_bound now 60000000 ltac:(lia)). pose proof (Z.div_mod now 60000000 ltac:(lia)). lia.
Qed.

(** Rows of the minute are not dropped while it lasts. *)
Lemma drop_limits_kept now db k :
  bucket_start now = b -> current_rows db -> k.2 = b -> Project.limits (drop_limits now db) !! k = Project.limits db !! k.
Proof.
  intros Hnow Hrows Hk. unfold drop_limits. fields.
  assert (forall l (m : gmap (text * text * Z) RateLimit.t), (forall kv, kv ∈ l -> kv.1 <> k) -> foldl (fun m (kv : limit_key * RateLimit.t) => delete kv.1 m) m l !! k = m !! k) as Hfold.
  { induction l as [|x l IH]; intros m Hl; [done|]. cbn. rewrite IH by (intros kv Hkv; apply Hl; set_solver). apply lookup_delete_ne, Hl. set_solver. }
  apply Hfold. intros [k' r] Hkv. unfold expired_limits in Hkv. apply subseteq_take in Hkv. rewrite sort_perm, list_elem_of_filter in Hkv.
  destruct Hkv as [He Hkv%elem_of_map_to_list]. cbn in *. intros ->. pose proof (in_minute now Hnow). rewrite (Hrows k r Hkv Hk) in He. lia.
Qed.
Lemma drop_limits_rows now db : current_rows db -> current_rows (drop_limits now db).
Proof.
  intros Hrows k r. unfold drop_limits. fields. generalize (expired_limits now db) as l. intros l Hl. apply Hrows. revert Hl.
  generalize (Project.limits db) as m. induction l as [|x l IH]; intros m Hl; [done|]. cbn in Hl. specialize (IH _ Hl). by apply lookup_delete_Some in IH as [_ ?].
Qed.

(** A request that was counted. *)
Lemma increment_run sc sub db n db' :
  current_rows db -> yields (increment_rate sc sub b) db n db' ->
  let k := (sc, subject sub, b) in
  n = requests_at db k + 1 /\ requests_at db' k = n /\ current_rows db' /\ forall k', k' <> k -> requests_at db' k' = requests_at db k'.
Proof.
  intros Hrows Hy%yields_statement k. cbv zeta in Hy. fold k in Hy. unfold requests_at.
  destruct (_ <=? 2147483647) eqn:Ele; [|done]. injection Hy as <- <-. fields. split_and!.
  - by destruct (Project.limits db !! k).
  - by rewrite lookup_insert_eq.
  - intros k' r. fields. destruct (decide (k' = k)) as [->|Hne].
    + rewrite lookup_insert_eq. intros [= <-] _. destruct (Project.limits db !! k) as [r0|] eqn:E; [|done]. by apply (Hrows k r0).
    + rewrite lookup_insert_ne by done. apply Hrows.
  - intros k' Hne. by rewrite lookup_insert_ne.
Qed.

Lemma apply_rate_limits_run ip now o db r db' o' :
  bucket_start now = b -> current_rows db -> apply_rate_limits ingest scope ip now o db = (r, db', o') ->
  (exists e, r = Err e /\ db' = db)
  \/ (exists x, r = Ok x /\ current_rows db' /\ (forall k, k.2 = b -> k <> project_key -> k <> address_key ip -> requests_at db' k = requests_at db k)
      /\ requests_at db' project_key = requests_at db project_key + 1 /\ requests_at db' project_key <= CrashIngest.project_limit ingest
      /\ requests_at db' (address_key ip) = requests_at db (address_key ip) + 1 /\ requests_at db' (address_key ip) <= CrashIngest.ip_limit ingest).
Proof.
  intros Hnow Hrows Hrun. unfold apply_rate_limits in Hrun.
  apply bind_run in Hrun as [(x & db1 & o1 & E & (-> & -> & _)%lift_run)|(e & E & ->)]; [|left; apply transaction_if_Err in E as ->; by exists e].
  apply transaction_if_Ok in E as (oa & s & ob & Hy & ->). destruct x as [x|e]; [|left; by exists e]. right. exists x. split; [done|].
  match type of Hy with ?m _ _ = _ => assert (yields m db (Ok x) s) as Hys by (by exists oa, ob) end. clear Hy. rename Hys into Hy.
  apply yields_bind in Hy as (b' & db1 & [-> ->]%yields_select & Hy). rewrite Hnow in Hy. cbv zeta in Hy.
  apply yields_bind in Hy as (u & db2 & ->%yields_execute & Hy). pose proof (drop_limits_rows now db Hrows) as Hrows1.
  assert (forall k, k.2 = b -> requests_at (drop_limits now db) k = requests_at db k) as Hdrop.
  { intros k Hk. unfold requests_at. by rewrite drop_limits_kept. }
  apply yields_bind in Hy as (n & db3 & (En & En' & Hrows3 & Hsame3)%increment_run & Hy); [|done]. fold project_key in En, En', Hsame3.
  apply yields_bind in Hy as (n' & db4 & (Em & Em' & Hrows4 & Hsame4)%increment_run & Hy); [|done]. fold (address_key ip) in Em, Em', Hsame4.
  assert (project_key <> address_key ip) as Hne by done.
  destruct (_ || _) eqn:Eover in Hy.
  { apply yields_bind in Hy as (u2 & db5 & _ & [? _]%yields_ret). done. }
  apply yields_ret in Hy as [_ ->]. apply orb_false_iff in Eover as [E1%Z.ltb_ge E2%Z.ltb_ge].
  rewrite Hdrop in En by done. rewrite (Hsame3 _ (not_eq_sym Hne)), Hdrop in Em by done. pose proof (Hsame4 _ Hne) as Hp.
  split_and!; [done| |lia|lia|lia|lia].
  intros k Hk Hkp Hka. by rewrite (Hsame4 _ Hka), (Hsame3 _ Hkp), Hdrop.
Qed.

(** The addresses of the requests that the limits let through, one after the other. *)
Fixpoint let_through (db : Project.t) (l : list (address * Z * outcomes)) : list address :=
  match l with
  | [] => []
  | (ip, now, o) :: l =>
      let '(r, db', _) := apply_rate_limits ingest scope ip now o db in
      match r with Ok _ => ip :: let_through db' l | Err _ => let_through db' l end
  end.

(** What they leave of the tables. *)
Fixpoint after_requests (db : Project.t) (l : list (address * Z * outcomes)) : Project.t :=
  match l with
  | [] => db
  | (ip, now, o) :: l => let '(_, db', _) := apply_rate_limits ingest scope ip now o db in after_requests db' l
  end.

(** C20: within a minute the limits let no more requests of a project through than its limit, and no
    more of an address than that of addresses, however many arrive and whatever fails.  A request that is refused is
    not counted: the counter of the project grows by exactly the requests that were let through, and that of an
    address by exactly those of the addresses that have its digest. *)
Theorem rate_limits_hold db l ip :
  current_rows db -> Forall (fun x => bucket_start x.1.2 = b) l ->
  requests_at db project_key <= CrashIngest.project_limit ingest -> requests_at db (address_key ip) <= CrashIngest.ip_limit ingest ->
  let passed := let_through db l in
  let db' := after_requests db l in
  requests_at db' project_key = requests_at db project_key + Z.of_nat (length passed)
  /\ requests_at db' project_key <= CrashIngest.project_limit ingest
  /\ requests_at db' (address_key ip) = requests_at db (address_key ip) + Z.of_nat (length (filter (fun i => address_key i = address_key ip) passed))
  /\ requests_at db' (address_key ip) <= CrashIngest.ip_limit ingest
  /\ requests_at db (address_key ip) + Z.of_nat (length (filter (fun i => i = ip) passed)) <= CrashIngest.ip_limit ingest.
Proof.
  intros Hrows Hnow Hp Ha. cbv zeta. revert db Hrows Hp Ha. induction l as [|[[ip' now] o] l IH]; intros db Hrows Hp Ha; cbn [let_through after_requests].
  - cbn. lia.
  - apply Forall_cons in Hnow as [Hn Hl]. cbn in Hn. destruct (apply_rate_limits ingest scope ip' now o db) as [[r db'] o'] eqn:E.
    apply apply_rate_limits_run in E as [(e & -> & ->)|(x & -> & Hrows' & Hsame & P1 & P2 & A1 & A2)]; [by apply IH|..|done|done].
    assert (requests_at db' (address_key ip) <= CrashIngest.ip_limit ingest
            /\ requests_at db' (address_key ip) = requests_at db (address_key ip) + (if decide (address_key ip' = address_key ip) then 1 else 0)) as [Ha' Hcount].
    { destruct (decide (address_key ip' = address_key ip)) as [Heq|Hne]; [rewrite <- Heq; lia|]. rewrite (Hsame (address_key ip)); [lia|done..|congruence]. }
    destruct (IH Hl db' Hrows' P2 Ha') as (I1 & I2 & I3 & I4 & I5). rewrite !filter_cons. cbn [length]. split_and!; [lia|done| |done|].
    + destruct (decide (address_key ip' = address_key ip)); cbn [length]; lia.
    + destruct (decide (ip' = ip)) as [->|]; [rewrite decide_True in Hcount by done; cbn [length]; lia|]. case_decide; lia.
Qed.
End limits.

(** * At work *)

(** A request with an archive, in two chunks. *)
#[local] Existing Instance stored.
#[local] Existing Instance one_element.
#[local] Instance scenario_form : FormUrlEncoded := {| form_pairs := fun _ => [(txt "UploadType", txt "crashreports")] |}.
Definition scenario_headers : headers := fun name => if decide (name = txt "content-type") then Some (Some (txt "application/octet-stream")) else None.
Definition scenario_arrival : Arrival.t scenario_network :=
  let bs := encode sample_archive in
  {| Arrival.peer := 7%N : @address scenario_network; Arrival.raw_query := Some []; Arrival.request_headers := scenario_headers;
     Arrival.body := [Chunk (take 20 bs); Chunk (drop 20 bs)]; Arrival.limited_at := 1; Arrival.registered_at := 2; Arrival.recorded_at := 3;
     Arrival.month := txt "2026-08-01"; Arrival.cleaned_at := 4; Arrival.event_random := Some (repeat (byte_of 1) 16);
     Arrival.object_random := Some (repeat (byte_of 2) 16); Arrival.job_random := Some (repeat (byte_of 3) 16) |}.
Definition scenario_submission : result IngestError.t (AcceptedCrash.t * RateResult.t) * Project.t * outcomes :=
  submit_crash scenario_ingest (Ok (Some scenario_scope)) scenario_arrival [] (created 0).
Definition remaining_of {A} (r : result IngestError.t (A * RateResult.t) * Project.t * outcomes) : option Z :=
  match r with (Ok (_, rate), _, _) => Some (RateResult.remaining rate) | _ => None end.
Lemma scenario_submission_succeeds : remaining_of scenario_submission = Some 59.
Proof. vm_compute. reflexivity. Qed.

Lemma submit_crash_is_a_sequence_of_steps_witness :
  remaining_of scenario_submission = Some 59
  /\ exists now, now <= 4 /\ rtc (Step scenario_ingest scenario_scope (fun _ => True)) (World.Mk (created 0) ∅ 0) (World.Mk (project_of scenario_submission) ∅ now).
Proof.
  split; [exact scenario_submission_succeeds|].
  destruct scenario_submission as [[r db'] o'] eqn:E.
  apply (submit_crash_is_a_sequence_of_steps scenario_ingest scenario_scope (fun _ => True) (World.Mk (created 0) ∅ 0) scenario_arrival [] r db' o' E).
  - vm_compute. split; discriminate.
  - vm_compute. split; discriminate.
  - vm_compute. discriminate.
  - intros eid _. split; [apply keyless_empty; reflexivity|apply lookup_empty].
Defined.

(** A hundred requests of an address within a minute. *)
Definition scenario_rush : list (@address scenario_network * Z * outcomes) := replicate 100 (7%N, 5, []).
Lemma rate_limits_hold_witness :
  Z.of_nat (length (filter (fun i => i = 7%N) (let_through scenario_ingest scenario_scope (created 0) scenario_rush))) <= 60
  /\ requests_at (after_requests scenario_ingest scenario_scope (created 0) scenario_rush) (project_key scenario_scope 0) = 60.
Proof.
  assert (requests_at (created 0) (address_key scenario_ingest 0 7%N) = 0) as E by reflexivity.
  assert (requests_at (created 0) (project_key scenario_scope 0) = 0) as Ep by reflexivity.
  destruct (rate_limits_hold scenario_ingest scenario_scope 0 (created 0) scenario_rush 7%N) as (Hp & _ & _ & _ & Hip).
  - intros k r Hk. discriminate Hk.
  - apply Forall_replicate. reflexivity.
  - vm_compute. discriminate.
  - rewrite E. vm_compute. discriminate.
  - rewrite E, Z.add_0_l in Hip. split; [exact Hip|]. etransitivity; [exact Hp|]. vm_compute. reflexivity.
Defined.
