(* ===== verification/Expiry.v ===== *)
(** What gets done: left-over objects are removed, and uploads past their deadline are put to deletion with a
    job that will delete them. *)

From S2P Require Import Prelude Text Domain CrashContext CrashRequest Identifiers Auth Store Jobs Usage Retention Ingest Quotas Accounting Movements Ledgers Admissions Uploads Worlds Scenario Guarantees.

#[local] Open Scope Z_scope.

(** * Left-over objects *)

(** A pass of the reconciliation in which nothing fails. *)
Definition removed (db : Project.t) (row : text * Orphan.t) : Project.t :=
  Project.set_orphans (delete row.1) (Project.set_bucket (delete row.1) db).
Lemma reconcile_orphans_run now db : reconcile_orphans now [] db = (Ok tt, foldl removed db (abandoned_objects now db), []).
Proof.
  unfold reconcile_orphans, ignoring, mbind, tx_bind, select, statement. cbn [next_outcome]. generalize (abandoned_objects now db) as l. intros l.
  assert (each (remove_orphan now) l [] db = (Ok tt, foldl removed db l, [])) as ->; [|done].
  revert db. induction l as [|x l IH]; intros db; [done|]. cbn [foldl]. rewrite <- IH. reflexivity.
Qed.

Lemma removed_rows l db :
  Project.objects (foldl removed db l) = Project.objects db
  /\ (forall k, Project.orphans (foldl removed db l) !! k = if decide (k ∈ l.*1) then None else Project.orphans db !! k)
  /\ (forall k, Project.bucket (foldl removed db l) !! k = if decide (k ∈ l.*1) then None else Project.bucket db !! k).
Proof.
  revert db. induction l as [|x l IH]; intros db; [done|]. cbn [foldl fmap list_fmap]. destruct (IH (removed db x)) as (E1 & E2 & E3). split_and!.
  - by rewrite E1.
  - intros k. rewrite E2. unfold removed. fields. destruct (decide (k ∈ l.*1)); [rewrite decide_True by set_solver; done|].
    destruct (decide (k = x.1)) as [->|]; [rewrite decide_True by set_solver; apply lookup_delete_eq|].
    rewrite decide_False by set_solver. by apply lookup_delete_ne.
  - intros k. rewrite E3. unfold removed. fields. destruct (decide (k ∈ l.*1)); [rewrite decide_True by set_solver; done|].
    destruct (decide (k = x.1)) as [->|]; [rewrite decide_True by set_solver; apply lookup_delete_eq|].
    rewrite decide_False by set_solver. by apply lookup_delete_ne.
Qed.

Lemma filter_all {A} (P : A -> Prop) `{!forall x, Decision (P x)} (l : list A) : (forall x, x ∈ l -> P x) -> filter P l = l.
Proof.
  induction l as [|x l IH]; intros Hl; [done|]. rewrite filter_cons, decide_True by (apply Hl; set_solver). f_equal. apply IH. set_solver.
Qed.

(** One pass takes up to sixteen rows off the list. *)
Lemma pass_shortens now db :
  (forall k r, Project.orphans db !! k = Some r -> abandoned now r = true) ->
  (size (Project.orphans (foldl removed db (abandoned_objects now db))) <= size (Project.orphans db) - 16)%nat.
Proof.
  intros Hall. destruct (removed_rows (abandoned_objects now db) db) as (_ & E & _).
  set (l := abandoned_objects now db) in *. set (m := Project.orphans db) in *. set (m' := Project.orphans (foldl removed db l)) in *.
  assert (length l = 16 `min` size m)%nat as Hlen.
  { unfold l, abandoned_objects. rewrite length_take. f_equal. rewrite (Permutation_length (sort_perm _ _)). fold m.
    rewrite filter_all; [apply length_map_to_list|]. intros [k r] Hk%elem_of_map_to_list. by apply (Hall k). }
  assert (NoDup l.*1) as Hnd. { unfold l, abandoned_objects. apply nodup_rows. }
  assert (forall k, k ∈ l.*1 -> is_Some (m !! k)) as Hin.
  { intros k [x [-> Hx]]%list_elem_of_fmap. apply abandoned_spec in Hx as [Hx _]. eauto. }
  assert (dom m' ∪ list_to_set l.*1 = dom m) as Hdom.
  { apply set_eq. intros k. rewrite elem_of_union, elem_of_list_to_set, !elem_of_dom, E. case_decide as Hk.
    - split; [intros [[]|_]; [done|by apply Hin]|by right].
    - split; [by intros [|]|by left]. }
  assert (dom m' ## list_to_set l.*1) as Hdisj.
  { intros k. rewrite elem_of_list_to_set, elem_of_dom, E. intros Hs Hk. rewrite decide_True in Hs by done. by destruct Hs. }
  pose proof (f_equal size Hdom) as Hs. rewrite size_union, size_list_to_set, length_fmap, Hlen, !size_dom in Hs by done. lia.
Qed.

Lemma stocked_reconciled {H : Sha256} settings restored ks db db' :
  Tidied ks db db' -> Forall (fun k => keyless k db) ks -> Stocked settings restored db -> Stocked settings restored db'.
Proof.
  induction 1 as [db|k ks db db1 db2 Ht _ IH|k ks db]; intros Hk S; [done| |done]. apply Forall_cons in Hk as [Hk Hks].
  apply IH; [|by eapply stocked_tidied]. eapply Forall_impl; [exact Hks|]. intros x Hx. unfold keyless. by rewrite (proj1 (tidied_rows _ _ _ Ht)).
Qed.

(** Passes at given times. *)
Definition passes (nows : list Z) (db : Project.t) : Project.t := foldl (fun db now => (reconcile_orphans now [] db).1.2) db nows.

(** C19: what is left over does not stay: once every listed object is an hour old, enough passes of the
    reconciliation that do not fail, each of up to sixteen objects, empty the list, leave in the store exactly objects of
    uploads, and leave those as they were. *)
Theorem left_over_objects_are_removed {N : Network} {H : Sha256} {F : HmacSha256} (ingest : CrashIngest.t N) (scope : KeyScope.t N) settings w nows :
  Reachable ingest scope settings w ->
  (forall now k r, now ∈ nows -> Project.orphans (World.project w) !! k = Some r -> abandoned now r = true) ->
  (size (Project.orphans (World.project w)) <= 16 * length nows)%nat ->
  let db' := passes nows (World.project w) in
  Project.orphans db' = ∅
  /\ Project.objects db' = Project.objects (World.project w)
  /\ (forall k, is_Some (Project.bucket db' !! k) -> exists oid u, Project.objects db' !! oid = Some u /\ RawObject.object_key u = k)
  /\ (forall oid u, Project.objects db' !! oid = Some u ->
        Project.bucket db' !! RawObject.object_key u = Project.bucket (World.project w) !! RawObject.object_key u).
Proof.
  intros [restored HS]%reachable_sound Hold Hsize. pose proof (sound_stocked _ _ _ _ HS) as S. generalize dependent (World.project w). clear w HS. intros db.
  revert db. induction nows as [|now nows IH]; intros db Hold Hsize S; cbn zeta.
  - assert (Project.orphans db = ∅) as E. { apply map_size_empty_inv. cbn in Hsize. lia. } cbn. split_and!; [done|done| |done].
    intros k [bs Hb]. destruct (stocked_bucket _ _ _ S k bs Hb) as [[r Hr]|Hk]; [by rewrite E, lookup_empty in Hr|].
    destruct (decide (Exists (fun kv : text * RawObject.t => RawObject.object_key kv.2 = k) (map_to_list (Project.objects db)))) as [He|Hn].
    + apply Exists_exists in He as ([oid u] & Hu%elem_of_map_to_list & Hku). by exists oid, u.
    + destruct Hk. intros oid u Hu Hku. apply Hn, Exists_exists. exists (oid, u). split; [by apply elem_of_map_to_list|done].
  - unfold passes. cbn [foldl]. rewrite reconcile_orphans_run. cbn [fst snd]. set (db1 := foldl removed db (abandoned_objects now db)).
    pose proof (removed_rows (abandoned_objects now db) db) as (Eo & Eorph & Eb). fold db1 in Eo, Eorph, Eb.
    pose proof (pass_shortens now db) as Hshort. fold db1 in Hshort.
    destruct (IH db1) as (I1 & I2 & I3 & I4).
    + intros now' k r Hin. rewrite Eorph. case_decide; [done|]. intros Hr. by eapply Hold; [right|].
    + cbn [length] in Hsize. specialize (Hshort ltac:(intros k r; apply Hold; by left)). lia.
    + destruct (reconcile_tidied now [] db _ _ _ (reconcile_orphans_run now db)) as [Heq|Ht]; [fold db1 in Heq; by rewrite Heq|].
      eapply stocked_reconciled; [exact Ht| |done]. apply Forall_fmap, Forall_forall. intros row [Hr _]%abandoned_spec.
      by apply (stocked_orphan _ _ _ S _ _ Hr).
    + split_and!; [exact I1|exact (eq_trans I2 Eo)|exact I3|]. intros oid u Hu.
      etransitivity; [exact (I4 oid u Hu)|]. rewrite Eb. case_decide as Hk; [|done].
      apply list_elem_of_fmap in Hk as ([k r] & Heq & Hk%abandoned_spec). destruct Hk as [Hk _]. cbn in Hk, Heq.
      exfalso. apply (stocked_orphan _ _ _ S _ r Hk oid u); [|exact Heq]. rewrite <- Eo, <- I2. exact Hu.
Qed.

Lemma left_over_objects_are_removed_witness :
  Project.orphans (passes [minutes 61] scenario_stored) = ∅
  /\ forall k, is_Some (Project.bucket (passes [minutes 61] scenario_stored) !! k) -> exists oid u, Project.objects scenario_stored !! oid = Some u /\ RawObject.object_key u = k.
Proof.
  destruct (left_over_objects_are_removed scenario_ingest scenario_scope (fun _ => True) scenario_storing [minutes 61] (scenario_stored_reachable _)) as (H1 & H2 & H3 & _).
  - intros now k r ->%list_elem_of_singleton Hr.
    assert (Project.orphans (World.project scenario_storing) = {[ scenario_key := Orphan.Mk 0 1 1 ]}) as E by (vm_compute; reflexivity).
    rewrite E in Hr. apply lookup_singleton_Some in Hr as [_ <-]. reflexivity.
  - vm_compute. lia.
  - split; [exact H1|]. intros k Hk. destruct (H3 k Hk) as (oid & u & Hu & Hku). exists oid, u. split; [|exact Hku].
    rewrite H2 in Hu. exact Hu.
Defined.

(** * Uploads past their deadline *)

#[local] Opaque RETENTION_BATCH_SIZE.

(** An upload is put to deletion: its crash is expired, and a job that is not over will delete it. *)
Definition scheduled (oid : text) (db : Project.t) : Prop :=
  exists u eid e jid r,
    Project.objects db !! oid = Some u /\ RawObject.lifecycle_state u = Deleting
    /\ Project.events db !! eid = Some e /\ CrashEvent.raw_object_id e = oid /\ CrashEvent.class e = RetentionClass.Expired
    /\ Project.job_keys db !! delete_key oid = Some jid /\ Queue.jobs (Project.queue db) !! jid = Some r
    /\ JobRow.event_id r = Some eid /\ is_terminal (JobRow.state r) = false.
Definition is_stored (u : RawObject.t) : Prop := RawObject.lifecycle_state u = Stored.
Definition due_by (t : Z) (db : Project.t) (oid : text) : Prop := exists u, Project.objects db !! oid = Some u /\ due t u = true.

Lemma due_spec t u : due t u = true <-> is_stored u /\ exists d, RawObject.raw_delete_after u = Some d /\ d <= t.
Proof.
  unfold due, is_stored, is_some_and. rewrite andb_true_iff, bool_decide_eq_true. destruct (RawObject.raw_delete_after u) as [d|].
  - rewrite Z.leb_le. naive_solver.
  - naive_solver.
Qed.
Lemma due_later t t' u : t <= t' -> due t u = true -> due t' u = true.
Proof. intros Ht (Hs & d & Hd & Hle)%due_spec. apply due_spec. split; [done|]. exists d. split; [done|lia]. Qed.

Lemma delete_key_inj a b : delete_key a = delete_key b -> a = b.
Proof. apply app_inv_head. Qed.

Lemma event_of_known db eid e :
  Project.events db !! eid = Some e -> is_Some (event_of (CrashEvent.raw_object_id e) db).
Proof.
  intros He. destruct (event_of (CrashEvent.raw_object_id e) db) eqn:E; [eauto|]. exfalso. by eapply event_of_None.
Qed.

Section scheduling.
Context (organization_id project_id : text) (budget : list (Z * (text -> text))).

(** Every upload has its own crash; the jobs under the keys of deletion are those of its crash; and the ids that the
    passes draw are new. *)
Record Schedulable (db : Project.t) : Prop := {
  schedulable_unique id id' e e' : Project.events db !! id = Some e -> Project.events db !! id' = Some e' ->
    CrashEvent.raw_object_id e = CrashEvent.raw_object_id e' -> id = id';
  schedulable_attached oid : is_Some (Project.objects db !! oid) ->
    exists id e, Project.events db !! id = Some e /\ CrashEvent.raw_object_id e = oid;
  schedulable_jobs oid jid : Project.job_keys db !! delete_key oid = Some jid ->
    exists r eid e, Queue.jobs (Project.queue db) !! jid = Some r /\ JobRow.event_id r = Some eid
      /\ Project.events db !! eid = Some e /\ CrashEvent.raw_object_id e = oid;
  schedulable_fresh p oid u : p ∈ budget -> Project.objects db !! oid = Some u -> is_stored u -> Queue.jobs (Project.queue db) !! p.2 oid = None }.
Hypothesis distinct : forall p p' oid oid', p ∈ budget -> p' ∈ budget -> p.2 oid = p'.2 oid' -> oid = oid'.

(** A live job under the key, whichever there was. *)
Lemma queue_deletion_live now p eid e oid u db db1 :
  Schedulable db -> p ∈ budget -> Project.events db !! eid = Some e -> CrashEvent.raw_object_id e = oid ->
  Project.objects db !! oid = Some u -> is_stored u -> Project.job_keys db1 = Project.job_keys db -> Project.queue db1 = Project.queue db ->
  exists jid r, queue_deletion now (p.2 oid) organization_id project_id eid oid db1
      = Some (Project.set_job_keys <[delete_key oid := jid]> (Project.set_queue (Queue.set_jobs <[jid := r]> (Project.queue db)) db1))
    /\ JobRow.event_id r = Some eid /\ is_terminal (JobRow.state r) = false
    /\ (jid = p.2 oid \/ Project.job_keys db !! delete_key oid = Some jid).
Proof.
  intros S Hp He Heo Hu Hs Ekeys Equeue. unfold queue_deletion. rewrite Ekeys, Equeue.
  destruct (Project.job_keys db !! delete_key oid) as [jid|] eqn:Ek.
  - destruct (schedulable_jobs _ S oid jid Ek) as (r & eid' & e' & Hr & Hre & He' & Heo'). rewrite Hr.
    assert (eid' = eid) as -> by (eapply (schedulable_unique _ S); [done..|congruence]).
    assert (forall q, Project.set_queue q db1 = Project.set_job_keys <[delete_key oid := jid]> (Project.set_queue q db1)) as Hkeys.
    { intros q. destruct db1. cbn in *. unfold Project.set_job_keys, Project.set_queue. cbn. f_equal. by rewrite insert_id by congruence. }
    rewrite Hre, bool_decide_eq_true_2 by done. cbn [andb]. destruct (is_terminal (JobRow.state r)) eqn:Et.
    + exists jid, (queued_again now r). split_and!; [f_equal; apply Hkeys|done|done|by right].
    + exists jid, r. split_and!; [|done|done|by right]. rewrite <- Hkeys. f_equal.
      assert (Queue.set_jobs <[jid := r]> (Project.queue db) = Project.queue db1) as ->; [|by destruct db1].
      rewrite Equeue. destruct (Project.queue db). unfold Queue.set_jobs. cbn in *. f_equal. by apply insert_id.
  - unfold add_job. rewrite Equeue, (schedulable_fresh _ S p oid u Hp Hu Hs). cbn [is_none]. eexists _, _. split_and!; [done|done|done|by left].
Qed.

(** The rows after an upload was scheduled. *)
Definition with_schedule (eid oid jid : text) (e : CrashEvent.t) (u : RawObject.t) (r : JobRow.t) (db : Project.t) : Project.t :=
  Project.set_job_keys <[delete_key oid := jid]> (Project.set_queue (Queue.set_jobs <[jid := r]> (Project.queue db))
    (Project.set_events <[eid := CrashEvent.set_class RetentionClass.Expired e]> (Project.set_objects <[oid := RawObject.set_state Deleting u]> db))).

(** A job that gets a row under its id is that of the same crash, or new. *)
Lemma job_kept db eid oid jid p u r0 :
  Schedulable db -> p ∈ budget -> Project.objects db !! oid = Some u -> is_stored u ->
  (jid = p.2 oid \/ Project.job_keys db !! delete_key oid = Some jid) -> Queue.jobs (Project.queue db) !! jid = Some r0 ->
  (exists e, Project.events db !! eid = Some e /\ CrashEvent.raw_object_id e = oid) -> JobRow.event_id r0 = Some eid.
Proof.
  intros S Hp Hu Hs [->|Hk] Hr (e & He & Heo); [by rewrite (schedulable_fresh _ S p oid u Hp Hu Hs) in Hr|].
  destruct (schedulable_jobs _ S oid jid Hk) as (r & eid' & e' & Hr' & Hre & He' & Heo'). rewrite Hr in Hr'. injection Hr' as <-.
  rewrite Hre. f_equal. eapply (schedulable_unique _ S); [done..|congruence].
Qed.

Lemma with_schedule_schedulable p eid oid jid e u r db :
  Schedulable db -> p ∈ budget -> Project.events db !! eid = Some e -> CrashEvent.raw_object_id e = oid ->
  Project.objects db !! oid = Some u -> is_stored u -> JobRow.event_id r = Some eid ->
  (jid = p.2 oid \/ Project.job_keys db !! delete_key oid = Some jid) -> Schedulable (with_schedule eid oid jid e u r db).
Proof.
  intros S Hp He Heo Hu Hs Hre Hjid. unfold with_schedule.
  assert (forall id x, <[eid := CrashEvent.set_class RetentionClass.Expired e]> (Project.events db) !! id = Some x ->
            exists y, Project.events db !! id = Some y /\ CrashEvent.raw_object_id x = CrashEvent.raw_object_id y) as Hback.
  { intros id x. destruct (decide (id = eid)) as [->|]; [rewrite lookup_insert_eq; intros [= <-]; by exists e|].
    rewrite lookup_insert_ne by done. intros Hx. by exists x. }
  assert (forall id y, Project.events db !! id = Some y ->
            exists x, <[eid := CrashEvent.set_class RetentionClass.Expired e]> (Project.events db) !! id = Some x /\ CrashEvent.raw_object_id x = CrashEvent.raw_object_id y) as Hforth.
  { intros id y Hy. destruct (decide (id = eid)) as [->|]; [rewrite lookup_insert_eq; eexists; split; [done|]; cbn; congruence|].
    rewrite lookup_insert_ne by done. by exists y. }
  split; fields; cbn [Queue.jobs Queue.set_jobs].
  - intros id id' x x' (y & Hy & Ey)%Hback (y' & Hy' & Ey')%Hback Heq. eapply (schedulable_unique _ S); [done..|congruence].
  - intros o Ho. destruct (schedulable_attached _ S o) as (id & y & Hy & Ey).
    { destruct (decide (o = oid)) as [->|]; [eauto|by rewrite lookup_insert_ne in Ho]. }
    destruct (Hforth id y Hy) as (x & Hx & Ex). exists id, x. split; [done|congruence].
  - intros o j Hj. destruct (decide (o = oid)) as [->|Hne].
    + rewrite lookup_insert_eq in Hj. injection Hj as <-. destruct (Hforth eid e He) as (x & Hx & Ex).
      exists r, eid, x. rewrite lookup_insert_eq. split_and!; [done|done|done|congruence].
    + rewrite lookup_insert_ne in Hj by (intros ?%delete_key_inj; congruence).
      destruct (schedulable_jobs _ S o j Hj) as (r' & id & y & Hr' & Hre' & Hy & Ey). destruct (Hforth id y Hy) as (x & Hx & Ex).
      destruct (decide (j = jid)) as [->|Hj'].
      * pose proof (job_kept db eid oid jid p u r' S Hp Hu Hs Hjid Hr' ltac:(eauto)) as Hre2. exfalso. apply Hne.
        rewrite Hre' in Hre2. injection Hre2 as ->. congruence.
      * exists r', id, x. rewrite lookup_insert_ne by done. split_and!; [done|done|done|congruence].
  - intros p' o x Hp' Ho Hx. destruct (decide (o = oid)) as [->|Hne]; [rewrite lookup_insert_eq in Ho; by injection Ho as <-|].
    rewrite lookup_insert_ne in Ho by done. pose proof (schedulable_fresh _ S p' o x Hp' Ho Hx) as Hnone.
    rewrite lookup_insert_ne; [done|]. intros ->. destruct Hjid as [Hj|Hj].
    + exact (Hne (distinct p' p o oid Hp' Hp Hj)).
    + destruct (schedulable_jobs _ S oid _ Hj) as (r' & _ & _ & Hr' & _). by rewrite Hnone in Hr'.
Qed.

Lemma with_schedule_keeps p eid oid jid e u r db oid' :
  Schedulable db -> p ∈ budget -> Project.events db !! eid = Some e -> CrashEvent.raw_object_id e = oid ->
  Project.objects db !! oid = Some u -> is_stored u -> JobRow.event_id r = Some eid ->
  (jid = p.2 oid \/ Project.job_keys db !! delete_key oid = Some jid) -> scheduled oid' db -> scheduled oid' (with_schedule eid oid jid e u r db).
Proof.
  intros S Hp He Heo Hu Hs Hre Hjid (u' & eid' & e' & j' & r' & Hu' & Hd & He' & Heo' & Hc & Hk & Hr' & Hre' & Ht).
  assert (oid' <> oid) as Hne. { intros ->. unfold is_stored in Hs. congruence. }
  exists u', eid', e', j', r'. unfold with_schedule. fields. cbn [Queue.jobs Queue.set_jobs].
  assert (eid' <> eid) as Hev by congruence.
  assert (j' <> jid) as Hj.
  { intros ->. pose proof (job_kept db eid oid jid p u r' S Hp Hu Hs Hjid Hr' ltac:(eauto)) as Hre2. congruence. }
  rewrite !lookup_insert_ne by (done || (intros ?%delete_key_inj; congruence)). by split_and!.
Qed.

(** One upload is scheduled; the others stay as they were. *)
Lemma expire_schedules p oid u db :
  Schedulable db -> p ∈ budget -> Project.objects db !! oid = Some u -> is_stored u ->
  exists db', expire p.1 p.2 organization_id project_id db (oid, u) = Some db'
    /\ Schedulable db' /\ scheduled oid db' /\ Project.objects db' = <[oid := RawObject.set_state Deleting u]> (Project.objects db)
    /\ (forall oid', scheduled oid' db -> scheduled oid' db') /\ Project.storage db' = Project.storage db.
Proof.
  intros S Hp Hu Hs. destruct (schedulable_attached _ S oid) as (eid0 & e0 & He0 & Heo0); [eauto|].
  destruct (event_of_known db eid0 e0 He0) as [[eid e] Hof]. rewrite Heo0 in Hof. pose proof (event_of_Some _ _ _ _ Hof) as [He Heo].
  unfold expire. cbn [fst snd]. rewrite Hof.
  match goal with |- context [queue_deletion _ _ _ _ _ _ ?d] => set (db1 := d) end.
  destruct (queue_deletion_live p.1 p eid e oid u db db1 S Hp He Heo Hu Hs) as (jid & r & -> & Hre & Ht & Hjid); [done|done|].
  change (Project.set_job_keys <[delete_key oid := jid]> (Project.set_queue (Queue.set_jobs <[jid := r]> (Project.queue db)) db1))
    with (with_schedule eid oid jid e u r db).
  eexists. split; [done|]. split_and!.
  - by eapply with_schedule_schedulable.
  - exists (RawObject.set_state Deleting u), eid, (CrashEvent.set_class RetentionClass.Expired e), jid, r. unfold with_schedule. fields.
    cbn [Queue.jobs Queue.set_jobs]. rewrite !lookup_insert_eq. by split_and!.
  - done.
  - intros oid' Hsch. by eapply with_schedule_keeps.
  - done.
Qed.

(** ** Batches *)

Definition stored_count (db : Project.t) : nat := size (filter (fun kv : text * RawObject.t => is_stored kv.2) (Project.objects db)).

Lemma stored_count_schedules oid u db db' :
  Project.objects db !! oid = Some u -> is_stored u -> Project.objects db' = <[oid := RawObject.set_state Deleting u]> (Project.objects db) ->
  stored_count db = S (stored_count db').
Proof.
  intros Hu Hs E. unfold stored_count. rewrite E, map_filter_insert_False by done. rewrite map_filter_delete.
  rewrite map_size_delete_Some; [|eexists; apply map_lookup_filter_Some; split; [exact Hu|exact Hs]].
  assert (filter (fun kv : text * RawObject.t => is_stored kv.2) (Project.objects db) !! oid = Some u) as Hin by (by apply map_lookup_filter_Some).
  assert (size (filter (fun kv : text * RawObject.t => is_stored kv.2) (Project.objects db)) <> 0%nat); [|lia].
  intros Hz. apply map_size_empty_inv in Hz. by rewrite Hz, lookup_empty in Hin.
Qed.

Lemma expire_all_schedules p rows db :
  Schedulable db -> p ∈ budget -> NoDup rows.*1 ->
  (forall row, row ∈ rows -> Project.objects db !! row.1 = Some row.2 /\ is_stored row.2) ->
  exists db', expire_all p.1 p.2 organization_id project_id rows db = Some db'
    /\ Schedulable db' /\ (forall row, row ∈ rows -> scheduled row.1 db') /\ (forall oid, scheduled oid db -> scheduled oid db')
    /\ (forall oid, oid ∉ rows.*1 -> Project.objects db' !! oid = Project.objects db !! oid)
    /\ stored_count db = (length rows + stored_count db')%nat /\ Project.storage db' = Project.storage db.
Proof.
  revert db. induction rows as [|[oid u] rows IH]; intros db S Hp Hnd Hrows; cbn [expire_all].
  { exists db. split_and!; try done. intros row Hrow. set_solver. }
  apply NoDup_cons in Hnd as [Hn Hnd]. destruct (Hrows (oid, u)) as [Hu Hs]; [set_solver|]. cbn in Hu, Hs, Hn.
  destruct (expire_schedules p oid u db S Hp Hu Hs) as (db1 & -> & S1 & Hsch & Eobj & Hkeep & Est). cbn [mbind option_bind].
  assert (forall o, o <> oid -> Project.objects db1 !! o = Project.objects db !! o) as Hother.
  { intros o Ho. rewrite Eobj. by rewrite lookup_insert_ne. }
  destruct (IH db1 S1 Hp Hnd) as (db2 & -> & S2 & Hsch2 & Hkeep2 & Hother2 & Hcount & Est2).
  { intros row Hrow. rewrite Hother; [apply Hrows; set_solver|]. intros Heq. apply Hn. rewrite <- Heq. by apply list_elem_of_fmap_2. }
  exists db2. split_and!; [done|done| |auto| | |congruence].
  - intros row [->|Hrow]%elem_of_cons; [cbn; by apply Hkeep2|by apply Hsch2].
  - intros o Ho. cbn in Ho. rewrite Hother2, Hother; set_solver.
  - rewrite (stored_count_schedules oid u db db1 Hu Hs Eobj), Hcount. cbn. lia.
Qed.

(** A batch that does not fail takes as many of the uploads that are due as it may. *)
Lemma claimed_all now n db :
  Schedulable db -> is_reconciled db = true -> claimed now n db = due_objects now n db.
Proof.
  intros S Hr. unfold claimed. rewrite Hr. apply filter_all. intros [oid u] Hin.
  assert (Project.objects db !! oid = Some u) as Hu.
  { unfold due_objects in Hin. apply subseteq_take in Hin. rewrite sort_perm, list_elem_of_filter in Hin. destruct Hin as [_ Hin]. by apply elem_of_map_to_list in Hin. }
  destruct (schedulable_attached _ S oid) as (id & e & He & <-); [eauto|]. cbn. by destruct (event_of_known db id e He) as [x ->].
Qed.

Lemma claimed_complete now n db oid u :
  Schedulable db -> is_reconciled db = true -> (len (claimed now n db) < n)%N ->
  Project.objects db !! oid = Some u -> due now u = true -> (oid, u) ∈ claimed now n db.
Proof.
  intros S Hr Hlen Hu Hd. rewrite claimed_all in * by done. unfold due_objects in *. unfold len in Hlen. rewrite length_take in Hlen.
  rewrite take_ge by lia. rewrite sort_perm, list_elem_of_filter. split; [done|]. by apply elem_of_map_to_list.
Qed.

Lemma batch_schedules p db :
  Schedulable db -> p ∈ budget -> is_reconciled db = true ->
  exists db', schedule_expired_raw_v2_batch p.1 p.2 organization_id project_id RETENTION_BATCH_SIZE [] db
      = (Ok (len (claimed p.1 RETENTION_BATCH_SIZE db)), db', [])
    /\ Schedulable db' /\ is_reconciled db' = true
    /\ (forall row, row ∈ claimed p.1 RETENTION_BATCH_SIZE db -> scheduled row.1 db') /\ (forall oid, scheduled oid db -> scheduled oid db')
    /\ (forall oid, oid ∉ (claimed p.1 RETENTION_BATCH_SIZE db).*1 -> Project.objects db' !! oid = Project.objects db !! oid)
    /\ stored_count db = (length (claimed p.1 RETENTION_BATCH_SIZE db) + stored_count db')%nat.
Proof.
  intros S Hp Hr. destruct (expire_all_schedules p (claimed p.1 RETENTION_BATCH_SIZE db) db S Hp) as (db' & E & S' & H1 & H2 & H3 & H4 & H5).
  - apply claimed_nodup.
  - intros row Hrow%claimed_spec. destruct Hrow as [Hu Hd]. split; [done|]. by apply due_spec in Hd as [Hd _].
  - exists db'. unfold schedule_expired_raw_v2_batch, statement. cbn [next_outcome]. rewrite E. cbn [ok_or mbind result_bind].
    split_and!; try done. unfold is_reconciled in *. by rewrite H5.
Qed.

Lemma drain_schedules t ps db n :
  Schedulable db -> is_reconciled db = true -> (forall p, p ∈ ps -> p ∈ budget /\ t <= p.1) ->
  (stored_count db < length ps * N.to_nat RETENTION_BATCH_SIZE)%nat ->
  exists n' db', drain ps organization_id project_id n [] db = (Ok n', db', [])
    /\ (forall oid, due_by t db oid -> scheduled oid db') /\ (forall oid, scheduled oid db -> scheduled oid db').
Proof.
  revert db n. induction ps as [|p ps IH]; intros db n S Hr Hps Hsize; [cbn in Hsize; lia|].
  destruct (Hps p) as [Hp Ht]; [set_solver|].
  destruct (batch_schedules p db S Hp Hr) as (db1 & E & S1 & Hr1 & Hsch & Hkeep & Hother & Hcount).
  assert (drain (p :: ps) organization_id project_id n
          = (claimed ← schedule_expired_raw_v2_batch p.1 p.2 organization_id project_id RETENTION_BATCH_SIZE;
             if (claimed <? RETENTION_BATCH_SIZE)%N then mret (n + claimed)%N else drain ps organization_id project_id (n + claimed)%N)) as -> by (by destruct p).
  unfold mbind, tx_bind. rewrite E. destruct (N.ltb_spec (len (claimed p.1 RETENTION_BATCH_SIZE db)) RETENTION_BATCH_SIZE) as [Hlt|Hge].
  - eexists _, db1. split; [reflexivity|]. split; [|done]. intros oid (u & Hu & Hd). apply (Hsch (oid, u)).
    apply claimed_complete; [done..|]. by eapply due_later.
  - destruct (IH db1 (n + len (claimed p.1 RETENTION_BATCH_SIZE db))%N S1 Hr1) as (n' & db2 & E2 & Hdue & Hkeep2).
    + intros q Hq. apply Hps. set_solver.
    + cbn [length] in Hsize. unfold len in Hge. lia.
    + exists n', db2. split; [exact E2|]. split; [|auto]. intros oid (u & Hu & Hd).
      destruct (decide (oid ∈ (claimed p.1 RETENTION_BATCH_SIZE db).*1)) as [Hin|Hout].
      * apply Hkeep2. apply list_elem_of_fmap in Hin as (row & -> & Hrow). by apply Hsch.
      * apply Hdue. exists u. by rewrite Hother.
Qed.
End scheduling.

(** C10: what is due gets done: from any state that can be reached, with a reconciled counter, a drain in
    which nothing fails and whose budget lasts for more batches than there are stored uploads for ends by itself, and
    every upload whose deadline had passed when it began is then being deleted, its crash is expired, and a job that
    is waiting or running will delete it. *)
Theorem due_uploads_are_scheduled {N : Network} {H : Sha256} {F : HmacSha256} (ingest : CrashIngest.t N) (scope : KeyScope.t N) settings
    organization_id project_id w budget t :
  Reachable ingest scope settings w -> let db := World.project w in
  is_reconciled db = true -> (forall p, p ∈ budget -> t <= p.1) ->
  (stored_count db < length budget * N.to_nat RETENTION_BATCH_SIZE)%nat ->
  (forall p p' oid oid', p ∈ budget -> p' ∈ budget -> p.2 oid = p'.2 oid' -> oid = oid') ->
  (forall p oid, p ∈ budget -> Queue.jobs (Project.queue db) !! p.2 oid = None) ->
  (forall oid jid, Project.job_keys db !! delete_key oid = Some jid ->
     exists r eid e, Queue.jobs (Project.queue db) !! jid = Some r /\ JobRow.event_id r = Some eid
       /\ Project.events db !! eid = Some e /\ CrashEvent.raw_object_id e = oid) ->
  exists n db', drain_expired_raw_v2 budget organization_id project_id [] db = (Ok n, db', [])
    /\ forall oid, due_by t db oid -> scheduled oid db'.
Proof.
  intros [restored HS]%reachable_sound db Hr Ht Hsize Hdistinct Hfresh Hjobs. pose proof (sound_accounted _ _ _ _ HS) as A. fold db in A.
  assert (Schedulable budget db) as S.
  { split; [by intros; eapply one_event_per_upload|by intros; apply event_of_upload|exact Hjobs|]. intros p oid u Hp _ _. by apply Hfresh. }
  destruct (drain_schedules organization_id project_id budget Hdistinct t budget db 0%N S Hr) as (n & db' & E & Hdue & _); [by auto|done|].
  exists n, db'. split; [|done]. unfold drain_expired_raw_v2, mbind, tx_bind, select, statement. cbn [next_outcome].
  unfold is_reconciled in Hr. destruct (Project.storage db) as [c|]; [|done]. cbn in Hr |- *.
  destruct (StorageCounter.reconciled_at c); [|done]. exact E.
Qed.

(** A month later the upload of the scenario is due. *)
Definition scenario_budget : list (Z * (text -> text)) := [(3 + days 31, fun oid => txt "delete:" ++ oid)].
Lemma due_uploads_are_scheduled_witness :
  exists n db', drain_expired_raw_v2 scenario_budget (txt "org") (txt "project") [] scenario_recorded = (Ok n, db', [])
    /\ scheduled (txt "object") db'.
Proof.
  destruct (due_uploads_are_scheduled scenario_ingest scenario_scope (fun _ => True) (txt "org") (txt "project") scenario_world scenario_budget (3 + days 31)
              (scenario_reachable _)) as (n & db' & H1 & H2).
  - vm_compute. reflexivity.
  - intros p ->%list_elem_of_singleton. reflexivity.
  - apply Nat.ltb_lt. vm_compute. reflexivity.
  - intros p p' oid oid' ->%list_elem_of_singleton ->%list_elem_of_singleton Heq. exact (app_inv_head _ _ _ Heq).
  - intros p oid ->%list_elem_of_singleton.
    assert (Queue.jobs (Project.queue scenario_recorded) = {[ uuid_of (set_bits 8 63 128 (set_bits 6 15 64 (repeat (byte_of 7) 16))) :=
      JobRow.Mk (txt "org") (txt "project") (Some (txt "event")) None None (txt "process_crash") Jobs.Pending 100 0 5 0 3 3 None ]}) as E.
    { vm_compute. reflexivity. }
    change (Project.queue (World.project scenario_world)) with (Project.queue scenario_recorded). rewrite E.
    apply lookup_singleton_None. intros Heq. vm_compute in Heq. discriminate Heq.
  - intros oid jid Hk.
    assert (dom (Project.job_keys scenario_recorded) = {[ process_key (txt "event") ]}) as E by (vm_compute; reflexivity).
    assert (delete_key oid ∈ dom (Project.job_keys scenario_recorded)) as Hin by (apply elem_of_dom; eauto).
    rewrite E in Hin. apply elem_of_singleton in Hin. discriminate Hin.
  - exists n, db'. split; [exact H1|]. apply H2.
    destruct (Project.objects scenario_recorded !! txt "object") as [u|] eqn:Hu; [|vm_compute in Hu; discriminate].
    exists u. split; [exact Hu|]. vm_compute in Hu. injection Hu as <-. vm_compute. reflexivity.
Defined.
