(* ===== verification/Reconciliation.v ===== *)
(** Reconciliation of storage: its loop ends, every upload has its deadline afterwards, and the counter says
    what is there. *)

From S2P Require Import Prelude Text Domain CrashContext CrashRequest Identifiers Auth Store Jobs Usage Retention Ingest Quotas Accounting Movements Ledgers Admissions Uploads Worlds Submissions Scenario.

#[local] Open Scope Z_scope.

#[local] Opaque STORAGE_RECONCILE_BATCH_SIZE.

(** * The loop *)

(** An upload whose deadline can be told and is not. *)
Definition untold (db : Project.t) (oid : text) (u : RawObject.t) : Prop :=
  Project.objects db !! oid = Some u /\ RawObject.raw_delete_after u = None /\ is_Some (deadline_of oid db).
(** The uploads with their deadlines told. *)
Definition told (db db' : Project.t) : Prop :=
  (exists f, db' = Project.set_objects f db)
  /\ forall oid, match Project.objects db !! oid with
       | Some u => exists u', Project.objects db' !! oid = Some u'
           /\ (u' = u \/ exists d, RawObject.raw_delete_after u = None /\ deadline_of oid db = Some d /\ u' = RawObject.set_delete_after (Some d) u)
       | None => Project.objects db' !! oid = None
       end.

Lemma told_refl db : told db db.
Proof. split; [exists (fun x => x); by destruct db|]. intros oid. destruct (Project.objects db !! oid); eauto. Qed.
Lemma told_trans a b c : told a b -> told b c -> told a c.
Proof.
  intros [[f ->] H1] [[g ->] H2]. split; [by exists (fun x => g (f x))|]. intros oid. specialize (H1 oid). specialize (H2 oid).
  destruct (Project.objects a !! oid) as [u|]; [|by rewrite H1 in H2]. destruct H1 as (u1 & E1 & H1). rewrite E1 in H2.
  destruct H2 as (u2 & E2 & H2). exists u2. split; [done|].
  destruct H1 as [->|(d & Hn & Hd & ->)], H2 as [->|(d2 & Hn2 & Hd2 & ->)]; [by left|right; by exists d2|right; by exists d|done].
Qed.

Lemma set_deadlines_told rows db :
  NoDup rows.*1 -> (forall row, row ∈ rows -> untold db row.1 row.2) ->
  told db (foldl set_deadline db rows)
  /\ (forall oid, oid ∈ rows.*1 -> exists u, Project.objects (foldl set_deadline db rows) !! oid = Some u /\ RawObject.raw_delete_after u <> None)
  /\ (forall oid, oid ∉ rows.*1 -> Project.objects (foldl set_deadline db rows) !! oid = Project.objects db !! oid).
Proof.
  revert db. induction rows as [|row rows IH]; intros db Hnd Hrows; [split_and!; [apply told_refl|set_solver|done]|].
  cbn [foldl fmap list_fmap] in *. apply NoDup_cons in Hnd as [Hn Hnd]. destruct (Hrows row) as (Ho & Hm & d & Hd); [set_solver|].
  assert (told db (set_deadline db row)) as Ht.
  { unfold set_deadline. split; [by eexists|]. intros oid. fields. destruct (decide (oid = row.1)) as [->|]; [|rewrite lookup_insert_ne by done; destruct (Project.objects db !! oid); eauto].
    rewrite lookup_insert_eq, Ho. eexists. split; [done|]. right. rewrite Hd. by exists d. }
  assert (forall oid, oid <> row.1 -> Project.objects (set_deadline db row) !! oid = Project.objects db !! oid) as Hother.
  { intros oid Hne. unfold set_deadline. fields. by rewrite lookup_insert_ne. }
  destruct (IH (set_deadline db row) Hnd) as (I1 & I2 & I3).
  { intros r Hr. destruct (Hrows r) as (Ho' & Hm' & Hd'); [set_solver|]. split_and!; [|done|done].
    rewrite Hother; [done|]. intros E. apply Hn. rewrite <- E. by apply list_elem_of_fmap_2. }
  split_and!; [by eapply told_trans| |].
  - intros oid [->|Hin]%elem_of_cons; [|by apply I2]. exists (RawObject.set_delete_after (Some d) row.2).
    rewrite I3 by done. unfold set_deadline. fields. rewrite lookup_insert_eq, Hd. done.
  - intros oid Hout. rewrite I3, Hother; set_solver.
Qed.

Definition missing (db : Project.t) : gmap text RawObject.t := filter (fun kv : text * RawObject.t => missing_deadline kv.2 = true) (Project.objects db).

(** A batch that is full leaves fewer uploads without a deadline; one that is not leaves none that could be told. *)
Lemma batch_tells db :
  let rows := backfill_batch db in
  let db' := foldl set_deadline db rows in
  told db db' /\ (rows <> [] -> (size (missing db') < size (missing db))%nat)
  /\ ((len rows < STORAGE_RECONCILE_BATCH_SIZE)%N -> forall oid u, ~ untold db' oid u).
Proof.
  intros rows db'. destruct (set_deadlines_told rows db) as (Ht & Hin & Hout); [apply nodup_rows|apply backfill_batch_spec|]. fold db' in Ht, Hin, Hout.
  assert (forall oid u, missing db' !! oid = Some u -> missing db !! oid = Some u) as Hsub.
  { intros oid u [Hu Hm]%map_lookup_filter_Some. apply map_lookup_filter_Some. split; [|done]. destruct Ht as [_ Ht]. specialize (Ht oid).
    destruct (Project.objects db !! oid) as [u0|]; [|congruence]. destruct Ht as (u1 & Hu1 & [->|(d & _ & _ & ->)]); [congruence|].
    rewrite Hu1 in Hu. injection Hu as <-. done. }
  split; [done|]. split.
  - intros Hne. apply map_subset_size. destruct rows as [|[oid u] rest] eqn:Erows; [done|].
    destruct (backfill_batch_spec db (oid, u)) as (Hu & Hm & _); [unfold rows in Erows; rewrite Erows; set_solver|]. cbn in Hu, Hm.
    split; [by apply map_subseteq_spec|]. intros Hsup. rewrite map_subseteq_spec in Hsup.
    assert (missing db !! oid = Some u) as H1. { apply map_lookup_filter_Some. split; [done|]. cbn. unfold missing_deadline. by rewrite Hm. }
    apply Hsup, map_lookup_filter_Some in H1 as [H1 H2]. destruct (Hin oid) as (u' & Hu' & Hd'); [set_solver|].
    rewrite H1 in Hu'. injection Hu' as <-. cbn in H2. unfold missing_deadline in H2. by destruct (RawObject.raw_delete_after u).
  - intros Hlen oid u (Hu & Hm & Hd). destruct (decide (oid ∈ rows.*1)) as [Hr|Hr].
    + destruct (Hin oid Hr) as (u' & Hu' & Hd'). congruence.
    + rewrite (Hout oid Hr) in Hu. assert (deadline_of oid db' = deadline_of oid db) as Ed by (by destruct Ht as [[f ->] _]).
      rewrite Ed in Hd. apply Hr. apply (list_elem_of_fmap_2 fst _ (oid, u)).
      unfold rows, backfill_batch in Hlen |- *. unfold len in Hlen. rewrite length_take in Hlen. rewrite take_ge by lia.
      rewrite sort_perm, list_elem_of_filter. split; [|by apply elem_of_map_to_list]. cbn. unfold missing_deadline. rewrite Hm.
      by destruct (deadline_of oid db).
Qed.

(** The fuel is enough: the loop stops at a batch that is not full. *)
Lemma backfill_complete fuel total o db n db' o' :
  (size (missing db) < fuel)%nat -> backfill fuel total o db = (Ok n, db', o') -> told db db' /\ forall oid u, ~ untold db' oid u.
Proof.
  revert total o db. induction fuel as [|fuel IH]; intros total o db Hf Hrun; [lia|]. cbn [backfill] in Hrun.
  apply bind_run in Hrun as [(c & db1 & o1 & E & Hrun)|(e & _ & ?)]; [|done].
  unfold statement in E. destruct (next_outcome o) as [[] o2]; [done|]. injection E as <- <- <-.
  destruct (batch_tells db) as (Ht & Hless & Hdone). cbv zeta in *.
  destruct (N.ltb_spec (len (backfill_batch db)) STORAGE_RECONCILE_BATCH_SIZE) as [Hlt|Hge].
  - injection Hrun as _ <- _. split; [done|]. by apply Hdone.
  - assert (backfill_batch db <> []) as Hne. { intros E. rewrite E in Hge. by vm_compute in Hge. }
    specialize (Hless Hne). apply IH in Hrun as [I1 I2]; [|lia]. split; [by eapply told_trans|done].
Qed.
Lemma backfill_succeeds fuel total db : exists n db', backfill fuel total [] db = (Ok n, db', []).
Proof.
  revert total db. induction fuel as [|fuel IH]; intros total db; cbn [backfill]; [by eexists _, _|].
  unfold mbind, tx_bind, statement. cbn [next_outcome]. destruct (_ <? _)%N; [by eexists _, _|apply IH].
Qed.

(** * The whole *)

(** What a run that answers has done: the deadlines first, then the counter. *)
Lemma reconcile_storage_run now org proj o db report db' o' :
  reconcile_storage now org proj o db = (Ok report, db', o') ->
  exists db1 previous,
    told db db1 /\ (forall oid u, ~ untold db1 oid u) /\ missing db1 = ∅ /\ Project.storage db = Some previous
    /\ db' = Project.set_storage (Some (StorageCounter.Mk (retained_raw db1) (symbol_storage db1) (Some now))) db1
    /\ StorageReconciliationReport.retained_raw_bytes report = retained_raw db1
    /\ StorageReconciliationReport.raw_byte_drift report = saturating_sub_i64 (retained_raw db1) (StorageCounter.retained_raw_bytes previous).
Proof.
  intros Hrun. unfold reconcile_storage in Hrun.
  apply bind_run in Hrun as [(u & s & oa & (_ & -> & ->)%lift_run & Hrun)|(e & _ & ?)]; [|done].
  apply bind_run in Hrun as [(u1 & s & oa & E & Hrun)|(e & _ & ?)]; [|done].
  assert (s = db) as ->. { unfold execute, statement in E. destruct (next_outcome o) as [[] ob]; [done|]. by injection E as _ <- _. }
  apply bind_run in Hrun as [(n & db1 & ob & Eb & Hrun)|(e & _ & ?)]; [|done].
  apply backfill_complete in Eb as [Ht Hun]; [|unfold backfill_fuel, missing; lia].
  apply bind_run in Hrun as [([[[prev miss] raw] sym] & db2 & oc & Et & Hrun)|(e & _ & ?)]; [|done].
  injection Hrun as <- <- _. apply transaction_if_Ok in Et as (od & s & oe & Hy & ->).
  match type of Hy with ?m _ _ = _ => assert (yields m db1 (prev, miss, raw, sym) s) as Hys by (by exists od, oe) end. clear Hy. rename Hys into Hy.
  apply yields_bind in Hy as (pol & s1 & [_ ->]%yields_select & Hy). apply yields_bind in Hy as (q & s2 & [_ ->]%yields_lift & Hy).
  apply yields_bind in Hy as (r & s3 & [-> ->]%yields_select & Hy). apply yields_bind in Hy as (p & s4 & [Hp%ok_or_Ok ->]%yields_lift & Hy).
  apply yields_bind in Hy as ([[raw' sym'] miss'] & s5 & E5%yields_statement & Hy).
  apply bind_Ok in E5 as (r1 & Hr1 & E5). apply bind_Ok in E5 as (r2 & Hr2 & E5). injection E5 as <- <- <- <-.
  apply yields_bind in Hy as (u6 & s6 & [Hm%fail_if_Ok ->]%yields_lift & Hy). apply yields_bind in Hy as (u7 & s7 & ->%yields_execute & Hy).
  apply yields_ret in Hy as [Hres ->]. injection Hres as -> -> -> ->.
  unfold as_bigint in Hr1, Hr2. destruct (is_i64 (retained_raw db1)); [|done]. destruct (is_i64 (symbol_storage db1)); [|done].
  injection Hr1 as <-. injection Hr2 as <-.
  exists db1, p. split_and!; [done|done| | |done|done|done].
  - apply map_size_empty_inv. apply negb_false_iff, Z.eqb_eq in Hm. unfold missing. lia.
  - destruct Ht as [[f ->] _]. exact Hp.
Qed.

Lemma told_missing db db1 :
  told db db1 -> (forall oid u, ~ untold db1 oid u) ->
  (forall oid u, Project.objects db !! oid = Some u -> RawObject.raw_delete_after u = None -> is_Some (deadline_of oid db)) -> missing db1 = ∅.
Proof.
  intros [[f ->] Ht] Hun Hall. apply map_empty. intros oid. apply map_lookup_filter_None. right. intros u Hu Hm. cbn in Hm.
  specialize (Ht oid). destruct (Project.objects db !! oid) as [u0|] eqn:E; [|congruence]. destruct Ht as (u1 & Hu1 & Ht).
  assert (u1 = u) as -> by congruence. unfold missing_deadline in Hm. destruct (RawObject.raw_delete_after u) eqn:Ed; [done|].
  destruct Ht as [->|(d & _ & _ & ->)]; [|done]. apply (Hun oid u0). split_and!; [done|done|]. rewrite deadline_of_objects. by eapply Hall.
Qed.
Lemma told_retained db db1 : told db db1 -> retained_raw db1 = retained_raw db.
Proof.
  intros [_ Ht]. unfold retained_raw. apply (sum_with_rekeyed (fun oid _ => oid)); [done| |].
  - intros oid u Hu. specialize (Ht oid). rewrite Hu in Ht. destruct Ht as (u' & Hu' & Ht). exists u'. split; [done|].
    by destruct Ht as [->|(d & _ & _ & ->)].
  - intros oid u' Hu'. right. specialize (Ht oid). destruct (Project.objects db !! oid) as [u|] eqn:E; [by exists oid, u|congruence].
Qed.

(** C22: reconciliation ends and tells the truth: without a failure it runs to its end whenever every
    upload without a deadline can be told one; and whenever it answers, the counter holds exactly what the uploads
    and the symbol files add up to and is reconciled, every upload has a deadline, which for the ones that had none is
    that of the policy their crash was accepted under, and the report has both sums and what they were off by. *)
Theorem reconciliation_restores_the_counter now organization_id project_id db :
  let run o := reconcile_storage now organization_id project_id o db in
  (forall o report db' o', run o = (Ok report, db', o') ->
     exists c, Project.storage db' = Some c
       /\ StorageCounter.retained_raw_bytes c = retained_raw db' /\ StorageCounter.retained_symbol_bytes c = symbol_storage db'
       /\ StorageCounter.reconciled_at c = Some now
       /\ (forall oid u, Project.objects db' !! oid = Some u -> RawObject.raw_delete_after u <> None)
       /\ (forall oid u, Project.objects db !! oid = Some u -> exists u', Project.objects db' !! oid = Some u'
            /\ (u' = u \/ exists d, RawObject.raw_delete_after u = None /\ deadline_of oid db = Some d /\ u' = RawObject.set_delete_after (Some d) u))
       /\ StorageReconciliationReport.retained_raw_bytes report = retained_raw db'
       /\ (forall c0, Project.storage db = Some c0 -> StorageReconciliationReport.raw_byte_drift report
            = saturating_sub_i64 (retained_raw db') (StorageCounter.retained_raw_bytes c0)))
  /\ (valid_uuid organization_id = true -> valid_uuid project_id = true -> is_Some (Project.policy db) -> is_Some (Project.storage db) ->
      is_i64 (retained_raw db) = true -> is_i64 (symbol_storage db) = true ->
      (forall oid u, Project.objects db !! oid = Some u -> RawObject.raw_delete_after u = None -> is_Some (deadline_of oid db)) ->
      exists report db', run [] = (Ok report, db', [])).
Proof.
  intros run. split.
  - intros o report db' o' (db1 & prev & [[f ->] Ht] & Hun & Hm & Hprev & -> & Hr1 & Hr2)%reconcile_storage_run.
    eexists. split; [done|]. split_and!; [done|done|done| | |exact Hr1|].
    + intros oid u Hu Hd. assert (missing (Project.set_objects f db) !! oid = Some u) as Hin.
      { apply map_lookup_filter_Some. split; [exact Hu|]. cbn. unfold missing_deadline. by rewrite Hd. }
      by rewrite Hm, lookup_empty in Hin.
    + intros oid u Hu. specialize (Ht oid). by rewrite Hu in Ht.
    + intros c0 Hc0. rewrite Hprev in Hc0. injection Hc0 as <-. exact Hr2.
  - intros V1 V2 [pol Hpol] [c Hc] I1 I2 Hall. unfold run, reconcile_storage, mbind, tx_bind. rewrite V1, V2. cbn [negb orb fail_if lift execute statement next_outcome].
    destruct (backfill_succeeds (backfill_fuel db) 0 db) as (n & db1 & Eb). unfold execute, statement. cbn [next_outcome]. unfold id at 1.
    unfold backfill_raw_delete_after. rewrite Eb.
    assert (told db db1 /\ forall oid u, ~ untold db1 oid u) as [Ht Hun].
    { eapply backfill_complete; [|exact Eb]. unfold backfill_fuel, missing. lia. }
    pose proof (told_missing db db1 Ht Hun Hall) as Hm. pose proof (told_retained db db1 Ht) as Er. destruct Ht as [[f ->] _].
    unfold transaction, transaction_if, select, statement. cbn [next_outcome]. fields. rewrite Hpol, Hc. cbn [ok_or].
    rewrite Er. change (symbol_storage (Project.set_objects f db)) with (symbol_storage db). unfold as_bigint. rewrite I1, I2.
    cbn [mbind result_bind]. unfold missing in Hm. fields. rewrite Hm, map_size_empty. cbn. by eexists _, _.
Qed.

(** The project of the scenario as it was before uploads had deadlines and the counter was kept. *)
Definition scenario_unreconciled : Project.t :=
  Project.set_storage (Some (StorageCounter.Mk 99 0 None)) (Project.set_objects (alter (RawObject.set_delete_after None) (txt "object")) scenario_recorded).
Definition scenario_uuid : text := txt "01020304-0506-4708-890a-0b0c0d0e0f10".
Lemma reconciliation_restores_the_counter_witness :
  exists report db' c, reconcile_storage 9 scenario_uuid scenario_uuid [] scenario_unreconciled = (Ok report, db', [])
    /\ Project.storage db' = Some c /\ StorageCounter.retained_raw_bytes c = retained_raw db'
    /\ StorageReconciliationReport.raw_byte_drift report = saturating_sub_i64 (retained_raw db') 99.
Proof.
  destruct (reconciliation_restores_the_counter 9 scenario_uuid scenario_uuid scenario_unreconciled) as [H1 H2].
  destruct H2 as (report & db' & Hrun).
  - vm_compute. reflexivity.
  - vm_compute. reflexivity.
  - vm_compute. eexists. reflexivity.
  - vm_compute. eexists. reflexivity.
  - vm_compute. reflexivity.
  - vm_compute. reflexivity.
  - intros oid u Hu _.
    assert (dom (Project.objects scenario_unreconciled) = {[ txt "object" ]}) as E by (vm_compute; reflexivity).
    assert (oid ∈ dom (Project.objects scenario_unreconciled)) as Hin by (apply elem_of_dom; eauto).
    rewrite E in Hin. apply elem_of_singleton in Hin as ->. vm_compute. eexists. reflexivity.
  - destruct (H1 _ _ _ _ Hrun) as (c & Hc & Hraw & _ & _ & _ & _ & _ & Hdrift).
    exists report, db', c. split; [exact Hrun|]. split; [exact Hc|]. split; [exact Hraw|].
    apply (Hdrift (StorageCounter.Mk 99 0 None)). reflexivity.
Defined.
