(* ===== verification/Stale.v ===== *)
(** Workers that come too late: what is left to a worker whose job is no longer leased under its token, because
    the job was claimed again, put back, finished or given up. *)

From S2P Require Import Prelude Text Identifiers Store Auth Jobs Leases Usage Retention Movements.

#[local] Open Scope Z_scope.

Lemma lock_stale {A} (commits : A -> bool) (e : JobError) now worker job (m : () -> wtx A) o db (r : result JobError A) db' o' :
  lost worker job (Project.queue db) ->
  transaction_if commits e (on_queue (lock_lease now worker job) ≫= m) o db = (r, db', o') -> (exists x, r = Err x) /\ db' = db.
Proof.
  intros Hl. unfold transaction_if. destruct (next_outcome o) as [[] o1]; [intros [= <- <- _]; eauto|].
  unfold mbind, tx_bind, on_queue. destruct (lock_lease_lost now worker job o1 _ Hl) as (x & o2 & ->). intros [= <- <- _]. eauto.
Qed.

(** The object of an upload that is to be deleted. *)
Definition condemned (job : Job.t) (db : Project.t) (key : text) : Prop :=
  exists eid r, Job.event_id job = Some eid /\ raw_row eid db = Some r /\ is_deleting r = true /\ key = RawObject.object_key (RawRow.object r).

Lemma delete_object_checked_run k o db r db' o' :
  delete_object_checked k o db = (r, db', o') -> db' = db \/ db' = Project.set_bucket (delete k) db.
Proof.
  unfold delete_object_checked. destruct (next_outcome o) as [[] o1]; [|intros [= _ <- _]; by right].
  destruct (next_outcome o1) as [[] o2]; intros [= _ <- _]; auto.
Qed.

Lemma finish_deletion_stale now m worker job eid o db r db' o' :
  lost worker job (Project.queue db) -> finish_deletion now m worker job eid o db = (r, db', o') -> db' = db.
Proof. intros Hl H. by apply (lock_stale _ _ _ _ _ _ _ _ _ _ _ Hl) in H as [_ ->]. Qed.

Lemma delete_raw_stale now m worker enforced job o db r db' o' :
  lost worker job (Project.queue db) -> delete_raw now m worker enforced job o db = (r, db', o') ->
  db' = db \/ exists key, condemned job db key /\ db' = Project.set_bucket (delete key) db.
Proof.
  intros Hl. unfold delete_raw. destruct (Job.event_id job) as [eid|] eqn:Heid; [|intros [= _ <- _]; by left].
  unfold select, statement. unfold mbind, tx_bind, lift. cbn [ok_or].
  destruct (next_outcome o) as [[] o1]; [intros [= _ <- _]; by left|].
  destruct (raw_row eid db) as [raw|] eqn:Hraw; [|intros [= _ <- _]; by left]. cbn [ok_or].
  assert (Hrest : forall o2, (_ ← (if is_deleting raw
         then deleted ← delete_object_checked (RawObject.object_key (RawRow.object raw));
              lift (fail_if (negb deleted) (Transient (txt "object_store_unavailable")))
         else mret ());
    finish_deletion now m worker job eid) o2 db = (r, db', o') -> db' = db \/ exists key, condemned job db key /\ db' = Project.set_bucket (delete key) db).
  { intros o2. destruct (is_deleting raw) eqn:Hd.
    - unfold mbind, tx_bind. destruct (delete_object_checked _ o2 db) as [[d db1] o3] eqn:E.
      assert (db1 = db \/ exists key, condemned job db key /\ db1 = Project.set_bucket (delete key) db) as H1.
      { apply delete_object_checked_run in E as [->| ->]; [by left|right]. eexists. split; [|done]. by exists eid, raw. }
      assert (Hl1 : lost worker job (Project.queue db1)) by (destruct H1 as [->|(key & _ & ->)]; done).
      destruct d as [d|x]; [|by intros [= _ <- _]]. unfold lift. destruct (fail_if _ _) as [u|x]; [|by intros [= _ <- _]].
      intros H. by apply finish_deletion_stale in H as ->.
    - unfold mbind, tx_bind, mret, tx_ret. intros H. left. by apply finish_deletion_stale in H. }
  destruct (is_deleting raw && _ && _) eqn:Hr.
  - destruct (restore_raw _ _ _ _ _ o1 db) as [[x db1] o2] eqn:E. apply (lock_stale _ _ _ _ _ _ _ _ _ _ _ Hl) in E as [[x' ->] ->].
    intros [= _ <- _]. by left.
  - unfold mret at 1, tx_ret at 1. apply Hrest.
Qed.

(** C9: a worker whose job was claimed again under another token, or was put back, finished or given up, changes
    nothing any more, whatever happens afterwards short of a claim under its own token and whatever it still
    does: heartbeat, release, failure, publication, completion, or the work on a deletion.  Two things are not
    held back by the lease: it may still ask for a cache, which adds at most a pending cache and a pending job
    that generates it, and it may still remove the object of an upload that is being deleted. *)
Theorem stale_workers_change_nothing worker job db1 hs s :
  superseded job db1 -> steps (Some (Job.lease_token job)) (db1, hs) s ->
  (forall now a o r db' o', act now worker job a o s.1 = (r, db', o') ->
     db' = s.1
     \/ (exists object_id checksum version random job_random, a = EnsureCache object_id checksum version random job_random)
        /\ adds_cache s.1 db')
  /\ (forall now m enforced o db r db' o', Project.queue db = s.1 -> delete_raw now m worker enforced job o db = (r, db', o') ->
     db' = db \/ exists key, condemned job db key /\ db' = Project.set_bucket (delete key) db).
Proof.
  intros Hs Hsteps. pose proof (steps_lost worker job _ _ Hsteps (superseded_lost worker job db1 Hs)) as Hl. split.
  - intros now a o r db' o'. by apply act_stale.
  - intros now m enforced o db r db' o' Hq. apply delete_raw_stale. by rewrite Hq.
Qed.

(** The first lease runs out, another worker claims the job, and the first one comes back with a result. *)
Lemma stale_workers_change_nothing_witness :
  superseded first_handle reclaimed
  /\ (act late (txt "w1") first_handle (Publish (txt "r") (txt "processed") (txt "done")) [] reclaimed).1.2 = reclaimed.
Proof.
  assert (Hs : superseded first_handle reclaimed).
  { apply (claim_supersedes late (txt "w2") (txt "t2") 1 [] Leases.claimed second_handle reclaimed
      (claim_at late (txt "w2") (txt "t2") [] Leases.claimed).2).
    - apply run_jtx_eq. vm_compute. reflexivity.
    - reflexivity.
    - vm_compute. discriminate. }
  split; [exact Hs|].
  destruct (stale_workers_change_nothing (txt "w1") first_handle reclaimed [] (reclaimed, []) Hs (Stay _ _)) as [Ha _].
  destruct (act late (txt "w1") first_handle (Publish (txt "r") (txt "processed") (txt "done")) [] reclaimed) as [[r db'] o'] eqn:E.
  apply Ha in E as [E|[(x1 & x2 & x3 & x4 & x5 & E) _]]; [exact E|discriminate E].
Defined.
